(** * solwatch-v2: detection and analysis pipeline

    A shallow embedding of the Go sources of the analyzer
    (internal/analyzer: logic.go, analyzer.go, fetch.go, structs.go) and of
    the stream subscriber (internal/tracker/subscriber.go), together with the
    properties of the written specification that concern them.

    Conventions.
    - [float64] values are IEEE 754 binary64 numbers, given by the standard
      library's [spec_float] with precision 53 and exponent bound 1024; all
      arithmetic is the correctly rounded (to nearest, ties to even) one.
    - Go strings are byte strings: [string], whose characters are bytes.
    - A Go run-time panic (index out of range) is the [None] of an option.
    - Remote services, the clock and JSON decoding are inputs: every
      effectful function receives the answers of the outside world and
      records what it asked in a trace. *)

From Stdlib Require Import ZArith List Ascii String SpecFloat Lia Bool.
From Stdlib Require Import DecimalString.
From stdpp Require Import base option list strings gmap.

Local Open Scope string_scope.
Local Open Scope list_scope.
Local Open Scope Z_scope.

(** ** IEEE 754 binary64 *)

Module Float64.

Definition prec : Z := 53.
Definition emax : Z := 1024.

Abbreviation float64 := spec_float.

Definition valid (x : float64) : bool := valid_binary prec emax x.

Definition is_finite (x : float64) : bool :=
  match x with
  | S754_zero _ | S754_finite _ _ _ => true
  | _ => false
  end.

Definition is_nan (x : float64) : bool :=
  match x with S754_nan => true | _ => false end.

Definition sign (x : float64) : bool :=
  match x with
  | S754_zero s | S754_infinity s | S754_finite s _ _ => s
  | S754_nan => false
  end.

Definition zero : float64 := S754_zero false.
Definition inf : float64 := S754_infinity false.

Definition add : float64 -> float64 -> float64 := SFadd prec emax.
Definition sub : float64 -> float64 -> float64 := SFsub prec emax.
Definition mul : float64 -> float64 -> float64 := SFmul prec emax.
Definition div : float64 -> float64 -> float64 := SFdiv prec emax.
Definition abs : float64 -> float64 := SFabs.

(** Go's [x < y], [x <= y], [x > y], [x >= y]: all false on NaN. *)
Definition ltb : float64 -> float64 -> bool := SFltb.
Definition leb : float64 -> float64 -> bool := SFleb.
Definition gtb (x y : float64) : bool := SFltb y x.
Definition geb (x y : float64) : bool := SFleb y x.

(** [float64(n)] for an integer [n]. *)
Definition of_int (n : Z) : float64 := binary_normalize prec emax n 0 false.

(** The binary64 number nearest to the rational [num / den]: the value of
    a decimal constant of the program, and of a decimal numeral read by
    [strconv.ParseFloat]. *)
Definition of_ratio (num : Z) (den : positive) : float64 :=
  match num with
  | Z0 => zero
  | Zpos p =>
      let '(m, e, l) := SFdiv_core_binary prec emax (Zpos p) 0 (Zpos den) 0 in
      binary_round_aux prec emax false m e l
  | Zneg p =>
      let '(m, e, l) := SFdiv_core_binary prec emax (Zpos p) 0 (Zpos den) 0 in
      binary_round_aux prec emax true m e l
  end.

(** [m * 10^e] as a binary64 constant. *)
Definition of_decimal (m : Z) (e : Z) : float64 :=
  if 0 <=? e then of_ratio (m * 10 ^ e) 1
  else of_ratio m (Z.to_pos (10 ^ (- e))).

End Float64.

Import Float64.

(** ** Byte strings *)

Definition bytes_of (s : string) : list ascii := list_ascii_of_string s.
Definition string_of (b : list ascii) : string := string_of_list_ascii b.

(** [len(s)] *)
Definition len (s : string) : Z := Z.of_nat (String.length s).

(** [s[:n]]: panics unless [0 <= n <= len(s)]. *)
Definition slice_to (s : string) (n : Z) : option string :=
  if (0 <=? n) && (n <=? len s) then Some (string_of (take (Z.to_nat n) (bytes_of s)))
  else None.

(** [s[n:]]: panics unless [0 <= n <= len(s)]. *)
Definition slice_from (s : string) (n : Z) : option string :=
  if (0 <=? n) && (n <=? len s) then Some (string_of (drop (Z.to_nat n) (bytes_of s)))
  else None.

(** The double quote character, for the HTML attributes of the summary. *)
Definition dquote : string := String (ascii_of_nat 34) EmptyString.

(** ** The parts of Go's [strconv], [strings] and [math] the analyzer calls

    These are models of library functions, written from their documented
    behaviour: conversions are exact on the binary value and round to
    nearest, ties to even. *)

Module strconv.

Definition digit_char (d : Z) : ascii := ascii_of_nat (48 + Z.to_nat d).

(** Decimal numeral of a natural number, without leading zeros. *)
Definition itoa (n : Z) : string :=
  NilZero.string_of_uint (N.to_uint (Z.to_N n)).

(** The [p] low decimal digits of [r], most significant first. *)
Fixpoint low_digits (p : nat) (r : Z) : string :=
  match p with
  | O => EmptyString
  | S p' => low_digits p' (r / 10) +:+ String (digit_char (r mod 10)) EmptyString
  end.

(** [a / b] rounded to the nearest integer, ties to even ([0 <= a], [0 < b]). *)
Definition div_half_even (a b : Z) : Z :=
  let q := a / b in
  match (2 * (a mod b)) ?= b with
  | Lt => q
  | Gt => q + 1
  | Eq => if Z.even q then q else q + 1
  end.

(** The magnitude [m * 2^e] as a fraction. *)
Definition num_of (m : positive) (e : Z) : Z := if 0 <=? e then Zpos m * 2 ^ e else Zpos m.
Definition den_of (e : Z) : Z := if 0 <=? e then 1 else 2 ^ (- e).

(** [m * 2^e * 10^k] rounded to an integer, for any integer [k]. *)
Definition scaled (m : positive) (e : Z) (k : Z) : Z :=
  if 0 <=? k then div_half_even (num_of m e * 10 ^ k) (den_of e)
  else div_half_even (num_of m e) (den_of e * 10 ^ (- k)).

Definition sign_prefix (neg : bool) : string := if neg then "-" else "".

(** [FormatFloat(x, 'f', prec, 64)] for [prec >= 0]. *)
Definition FormatFloat_f (x : float64) (prec : nat) : string :=
  match x with
  | S754_nan => "NaN"
  | S754_infinity s => if s then "-Inf" else "+Inf"
  | S754_zero s =>
      sign_prefix s +:+ "0" +:+
      (match prec with O => "" | _ => "." +:+ low_digits prec 0 end)
  | S754_finite s m e =>
      let n := scaled m e (Z.of_nat prec) in
      sign_prefix s +:+ itoa (n / 10 ^ Z.of_nat prec) +:+
      (match prec with O => "" | _ => "." +:+ low_digits prec (n mod 10 ^ Z.of_nat prec) end)
  end.

(** *** Fixed number of significant digits: the 'e' and 'g' formats *)

(** For [0 < a < b]: the number of zeros between the decimal point and the
    first significant digit of [a / b]. *)
Fixpoint leading_zeros (fuel : nat) (a b : Z) : Z :=
  match fuel with
  | O => 0
  | S fuel' => if b <=? a * 10 then 0 else 1 + leading_zeros fuel' (a * 10) b
  end.

(** The decimal point position [dp] of [m * 2^e]:
    [10^(dp-1) <= m * 2^e < 10^dp]. *)
Definition decimal_point (m : positive) (e : Z) : Z :=
  let a := num_of m e in
  let b := den_of e in
  if b <=? a then len (itoa (a / b))
  else - leading_zeros (S (Z.to_nat (Z.log2 b))) a b.

Fixpoint trim_zeros_rev (r : list ascii) : list ascii :=
  match r with
  | c :: r' => if Ascii.eqb c "0" then trim_zeros_rev r' else r
  | [] => []
  end.

(** Drop the trailing zeros of a digit string. *)
Definition trim_zeros (d : string) : string :=
  string_of (rev (trim_zeros_rev (rev (bytes_of d)))).

(** The decimal digits of a value and the position of its decimal point:
    the value is [0.d1 d2 ... * 10^dp]. *)
Record decimalSlice := { ds_d : string; ds_dp : Z }.

Definition ds_nd (d : decimalSlice) : Z := len (ds_d d).

(** [m * 2^e] rounded to [digits] significant digits, trailing zeros dropped. *)
Definition round_digits (m : positive) (e : Z) (digits : Z) : decimalSlice :=
  let dp := decimal_point m e in
  let n := scaled m e (digits - dp) in
  if n =? 10 ^ digits then {| ds_d := "1"; ds_dp := dp + 1 |}
  else {| ds_d := trim_zeros (itoa n); ds_dp := dp |}.

Definition zeros (n : Z) : string := string_of (replicate (Z.to_nat n) ("0"%char)).

(** The byte [d[j]], or ['0'] outside of the digits. *)
Definition digit_at (d : decimalSlice) (j : Z) : ascii :=
  if (0 <=? j) && (j <? ds_nd d) then default ("0"%char) (bytes_of (ds_d d) !! Z.to_nat j)
  else "0"%char.

Fixpoint frac_digits (d : decimalSlice) (i : Z) (count : nat) : string :=
  match count with
  | O => ""
  | S c => String (digit_at d (ds_dp d + i)) (frac_digits d (i + 1) c)
  end.

(** [%f] layout of a digit slice with [prec] fractional digits. *)
Definition fmtF (neg : bool) (d : decimalSlice) (prec : Z) : string :=
  sign_prefix neg +:+
  (if 0 <? ds_dp d then
     let m := Z.min (ds_nd d) (ds_dp d) in
     string_of (take (Z.to_nat m) (bytes_of (ds_d d))) +:+ zeros (ds_dp d - m)
   else "0") +:+
  (if 0 <? prec then "." +:+ frac_digits d 0 (Z.to_nat prec) else "").

Definition exp_digits (ex : Z) : string :=
  if ex <? 10 then String "0" (String (digit_char ex) "")
  else if ex <? 100 then String (digit_char (ex / 10)) (String (digit_char (ex mod 10)) "")
  else String (digit_char (ex / 100))
         (String (digit_char ((ex / 10) mod 10)) (String (digit_char (ex mod 10)) "")).

(** [%e] layout of a digit slice with [prec] digits after the point. *)
Definition fmtE (neg : bool) (d : decimalSlice) (prec : Z) : string :=
  let first := if ds_nd d =? 0 then "0"%char else digit_at d 0 in
  let m := Z.min (ds_nd d) (prec + 1) in
  let more :=
    if 0 <? prec then
      "." +:+ string_of (drop 1 (take (Z.to_nat m) (bytes_of (ds_d d))))
          +:+ zeros (prec + 1 - Z.max 1 m)
    else "" in
  let ex := if ds_nd d =? 0 then 0 else ds_dp d - 1 in
  sign_prefix neg +:+ String first more +:+ "e" +:+
  (if ex <? 0 then "-" +:+ exp_digits (- ex) else "+" +:+ exp_digits ex).

(** The choice between the two layouts made by the 'g' format. *)
Definition formatDigits_g (neg : bool) (d : decimalSlice) (prec : Z) : string :=
  let eprec := if (ds_nd d <? prec) && (ds_dp d <=? ds_nd d) then ds_nd d else prec in
  let ex := ds_dp d - 1 in
  if (ex <? -4) || (eprec <=? ex) then
    fmtE neg d ((if ds_nd d <? prec then ds_nd d else prec) - 1)
  else
    fmtF neg d (Z.max ((if ds_dp d <? prec then ds_nd d else prec) - ds_dp d) 0).

(** [FormatFloat(x, 'g', prec, 64)] for [prec >= 0]. *)
Definition FormatFloat_g (x : float64) (prec : Z) : string :=
  let prec := if prec =? 0 then 1 else prec in
  match x with
  | S754_nan => "NaN"
  | S754_infinity s => if s then "-Inf" else "+Inf"
  | S754_zero s => formatDigits_g s {| ds_d := ""; ds_dp := 0 |} prec
  | S754_finite s m e => formatDigits_g s (round_digits m e prec) prec
  end.

End strconv.

Module strings.

(** [strings.Split(s, sep)] for a one-byte separator. *)
Fixpoint Split (s : string) (sep : ascii) : list string :=
  match s with
  | EmptyString => [EmptyString]
  | String c s' =>
      if Ascii.eqb c sep then EmptyString :: Split s' sep
      else match Split s' sep with
           | h :: t => String c h :: t
           | [] => [String c EmptyString]
           end
  end.

(** [strings.Join(elems, sep)] *)
Fixpoint Join (elems : list string) (sep : string) : string :=
  match elems with
  | [] => ""
  | [e] => e
  | e :: rest => e +:+ sep +:+ Join rest sep
  end.

End strings.

(** ** internal/analyzer/logic.go: number formatting *)

(** [b[j] = c] on a byte slice; out of range is a panic. *)
Definition bstore (b : list ascii) (j : Z) (c : ascii) : option (list ascii) :=
  if (0 <=? j) && (j <? Z.of_nat (length b)) then Some (<[Z.to_nat j := c]> b)
  else None.

(** The loop of [formatHumanReadable] that copies the integer part from
    right to left and writes a comma after every third digit. [i], [j], [k]
    and [b] are the loop variables at the top of an iteration. *)
Fixpoint commaLoop (integerPart : list ascii) (i : nat) (j k : Z) (b : list ascii)
  : option (list ascii) :=
  c ← integerPart !! i;
  b ← bstore b j c;
  match i with
  | O => Some b
  | S i' =>
      let k := k + 1 in
      if Z.rem k 3 =? 0 then
        let j := j - 1 in
        b ← bstore b j ","%char;
        commaLoop integerPart i' (j - 1) k b
      else commaLoop integerPart i' (j - 1) k b
  end.

Definition f64_1 : float64 := Eval vm_compute in of_int 1.
Definition f64_1000 : float64 := Eval vm_compute in of_int 1000.

Definition formatHumanReadable (f : float64) : option string :=
  if geb f f64_1 then
    let prec := if geb f f64_1000 then 0%nat else 2%nat in
    let s := strconv.FormatFloat_f f prec in
    let parts := strings.Split s "."%char in
    integerPart ← parts !! 0%nat;
    let fractionalPart :=
      match parts !! 1%nat with
      | Some p => "." +:+ p
      | None => ""
      end in
    let n := len integerPart in
    if n <=? 3 then Some s
    else
      let commas := Z.quot (n - 1) 3 in
      let b := replicate (Z.to_nat (n + commas)) Ascii.zero in
      b ← commaLoop (bytes_of integerPart) (Z.to_nat (n - 1)) (Z.of_nat (length b) - 1) 0 b;
      Some (string_of b +:+ fractionalPart)
  else Some (strconv.FormatFloat_g f 3).


(** ** internal/analyzer/structs.go *)

Record TokenTransfer := {
  FromTokenAccount : string;
  ToTokenAccount : string;
  FromUserAccount : string;
  ToUserAccount : string;
  Mint : string;
  TokenAmount : float64;
  TokenStandard : string
}.

Record NativeTransfer := {
  nt_FromUserAccount : string;
  nt_ToUserAccount : string;
  nt_Amount : Z
}.

Record RawTokenAmount := {
  raw_TokenAmount : string;
  raw_Decimals : Z
}.

Record TokenBalanceChange := {
  tbc_UserAccount : string;
  tbc_TokenAccount : string;
  tbc_RawTokenAmount : RawTokenAmount;
  tbc_Mint : string
}.

Record AccountData := {
  Account : string;
  NativeBalanceChange : Z;
  TokenBalanceChanges : list TokenBalanceChange
}.

Record TokenSwapAmount := {
  sw_UserAccount : string;
  sw_RawTokenAmount : RawTokenAmount;
  sw_Mint : string
}.

Record SwapEvent := {
  TokenInputs : list TokenSwapAmount;
  TokenOutputs : list TokenSwapAmount
}.

Record TransactionEvents := { Swap : option SwapEvent }.

(** [TransactionError] is a [*json.RawMessage]: [None] is the nil pointer,
    [Some raw] the raw JSON text. *)
Record HeliusTransaction := {
  Signature : string;
  Timestamp : Z;
  Fee : Z;
  FeePayer : string;
  Type_ : string;
  Source : string;
  Description : string;
  TokenTransfers : list TokenTransfer;
  NativeTransfers : list NativeTransfer;
  AccountData_ : list AccountData;
  TransactionError : option string;
  Events : TransactionEvents
}.

Record TokenMetadata := { Symbol : string; Decimals : Z }.

(** ** internal/analyzer/logic.go *)

Definition usdcMint : string := "EPjFWdd5AufqSSqeM2qN1xzybapC8G4wEGGkZwyTDt1v".
Definition wsolMint : string := "So11111111111111111111111111111111111111112".
Definition filterThreshold : float64 := Eval vm_compute in of_decimal 1 (-4).
Definition lamportsPerSol : float64 := Eval vm_compute in of_int 1000000000.

(** The constants [1e-12] and [1e-18] of [calculateNetBalanceChanges]. *)
Definition f64_1e_12 : float64 := Eval vm_compute in of_decimal 1 (-12).
Definition f64_1e_18 : float64 := Eval vm_compute in of_decimal 1 (-18).

Definition isPriceTracked (mint : string) : string * bool :=
  if String.eqb mint wsolMint then ("solana", true)
  else if String.eqb mint usdcMint then ("usd-coin", true)
  else ("", false).

(** The transaction carries an error: the pointer is not nil and the raw
    JSON text it points to is not the text [null]. *)
Definition failedOnChain (tx : HeliusTransaction) : bool :=
  match TransactionError tx with
  | Some raw => negb (String.eqb raw "null")
  | None => false
  end.

(** The loop over [tx.AccountData] that both [shouldFilter] and
    [calculateNetBalanceChanges] run: the first entry of the tracked
    address, [0] when there is none. *)
Fixpoint nativeChangeLamports (ads : list AccountData) (trackedAddr : string) : Z :=
  match ads with
  | [] => 0
  | ad :: rest =>
      if String.eqb (Account ad) trackedAddr then NativeBalanceChange ad
      else nativeChangeLamports rest trackedAddr
  end.

(** The loop of [shouldFilter] over [tx.TokenTransfers]. *)
Fixpoint hasOtherTokens (tts : list TokenTransfer) (trackedAddr : string) : bool :=
  match tts with
  | [] => false
  | t :: rest =>
      if String.eqb (Mint t) wsolMint then hasOtherTokens rest trackedAddr
      else if String.eqb (FromUserAccount t) trackedAddr
              || String.eqb (ToUserAccount t) trackedAddr then true
      else hasOtherTokens rest trackedAddr
  end.

Definition shouldFilter (tx : HeliusTransaction) (trackedAddr : string) : bool :=
  if failedOnChain tx then false
  else
    let nativeChange := nativeChangeLamports (AccountData_ tx) trackedAddr in
    let solValueChange := abs (div (of_int nativeChange) lamportsPerSol) in
    negb (hasOtherTokens (TokenTransfers tx) trackedAddr)
    && ltb solValueChange filterThreshold.

(** ** The outside world and the state of the analyzer *)

(** An order of the elements of [l]: each pick takes one of the elements
    that are left (the pick counts modulo their number) and puts it next;
    when the picks are used up the rest follows as it is. Every order of [l]
    comes from some picks. *)
Fixpoint shuffle {A} (picks : list nat) (l : list A) : list A :=
  match picks with
  | [] => l
  | k :: picks' =>
      match l !! (k mod length l)%nat with
      | Some x => x :: shuffle picks' (delete (k mod length l)%nat l)
      | None => l
      end
  end.

(** What [client.Do] returns for the price request, and the map the JSON
    decoder leaves in [result]. The code ignores the error of [Decode]: a
    body that is not JSON leaves nothing, and a body that is JSON of another
    shape leaves what [decodePrices] below describes. *)
Inductive PriceHttp :=
  | PriceTransportError
  | PriceResponse (result : gmap string (gmap string float64)).

(** The outcome of [fetchOnChainMetadata] (fetch.go) once its first request
    is built: metadata, an error, or a run-time panic (the record is sliced
    at [65:69] after a check of [len >= 65] only). *)
Inductive MetaLookup :=
  | MetaOk (meta : TokenMetadata)
  | MetaErr
  | MetaPanic.

(** What [client.Do] returns for the enrichment request; [decoded] is the
    result of decoding the body as a list of transactions, [None] when the
    decoder fails. *)
Inductive HeliusHttp :=
  | HeliusTransportError
  | HeliusResponse (StatusCode : Z) (body : string)
      (decoded : option (list HeliusTransaction)).

(** The answers of the outside world: [env_now n] is the [n]-th reading of
    the clock (nanoseconds), the others are indexed by the number of remote
    interactions made before. [env_urlParses u] tells whether [url.Parse]
    accepts [u], that is, whether [http.NewRequestWithContext] returns a
    request and not an error. [env_order n] is the order in which Go ranges
    over the entries of a map, as picks for [shuffle]: Go leaves the order
    unspecified, so any order of the entries may come. *)
Record Env := {
  env_now : nat -> Z;
  env_price : nat -> PriceHttp;
  env_meta : nat -> MetaLookup;
  env_helius : nat -> HeliusHttp;
  env_urlParses : string -> bool;
  env_order : nat -> list nat
}.

(** Remote interactions, in the order they happen. *)
Inductive Event :=
  | EvHeliusPost (signature : string)
  | EvMetaLookup (mint : string)
  | EvPriceGet (coinID : string).

Record cachedPrice := { Price : float64; LastFetched : Z }.

(** The [Analyzer] (its two caches are shared mutable maps) and the trace
    of what it asked the world. *)
Record St := {
  HeliusTxURL : string;
  SolanaRPCURL : string;
  metadataCache : gmap string TokenMetadata;
  priceCache : gmap string cachedPrice;
  clockReads : nat;
  trace : list Event
}.

Definition set_metadataCache (c : gmap string TokenMetadata) (st : St) : St :=
  {| HeliusTxURL := HeliusTxURL st; SolanaRPCURL := SolanaRPCURL st;
     metadataCache := c; priceCache := priceCache st;
     clockReads := clockReads st; trace := trace st |}.

Definition set_priceCache (c : gmap string cachedPrice) (st : St) : St :=
  {| HeliusTxURL := HeliusTxURL st; SolanaRPCURL := SolanaRPCURL st;
     metadataCache := metadataCache st; priceCache := c;
     clockReads := clockReads st; trace := trace st |}.

Definition record_event (e : Event) (st : St) : St :=
  {| HeliusTxURL := HeliusTxURL st; SolanaRPCURL := SolanaRPCURL st;
     metadataCache := metadataCache st; priceCache := priceCache st;
     clockReads := clockReads st; trace := (trace st ++ [e])%list |}.

Definition tick (st : St) : St :=
  {| HeliusTxURL := HeliusTxURL st; SolanaRPCURL := SolanaRPCURL st;
     metadataCache := metadataCache st; priceCache := priceCache st;
     clockReads := S (clockReads st); trace := trace st |}.

(** Computations that read and update the state and may panic. *)
Definition M (A : Type) : Type := St -> option (A * St).

Definition ret {A} (a : A) : M A := fun st => Some (a, st).
Definition bind {A B} (c : M A) (k : A -> M B) : M B :=
  fun st => match c st with
            | Some (a, st') => k a st'
            | None => None
            end.
Definition panic {A} : M A := fun _ => None.
Definition lift {A} (o : option A) : M A :=
  fun st => match o with Some a => Some (a, st) | None => None end.

Notation "x <~ c ;; k" := (bind c (fun x => k))
  (at level 100, c at next level, right associativity).

Fixpoint foldM {A B} (f : B -> A -> M B) (l : list A) (b : B) : M B :=
  match l with
  | [] => ret b
  | a :: l' => b' <~ f b a ;; foldM f l' b'
  end.

(** [time.Now()] *)
Definition Now (env : Env) : M Z :=
  fun st => Some (env_now env (clockReads st), tick st).

(** ** internal/analyzer/analyzer.go: the price oracle *)

Definition sixty_seconds : Z := 60 * 1000000000.

(** The second half of [GetPriceUSD]: the request to the price service. *)
Definition fetchPrice (env : Env) (coinID : string) : M (float64 * bool) :=
  fun st =>
    let answer := env_price env (length (trace st)) in
    let st := record_event (EvPriceGet coinID) st in
    match answer with
    | PriceTransportError => Some ((zero, false), st)
    | PriceResponse result =>
        match result !! coinID with
        | Some priceData =>
            match priceData !! "usd" with
            | Some price =>
                (now <~ Now env ;;
                 fun st =>
                   Some ((price, true),
                         set_priceCache
                           (<[coinID := {| Price := price; LastFetched := now |}]>
                              (priceCache st)) st)) st
            | None => Some ((zero, false), st)
            end
        | None => Some ((zero, false), st)
        end
    end.

Definition GetPriceUSD (env : Env) (coinID : string) : M (float64 * bool) :=
  fun st =>
    match priceCache st !! coinID with
    | Some val =>
        (now <~ Now env ;;
         if now - LastFetched val <? sixty_seconds then ret (Price val, true)
         else fetchPrice env coinID) st
    | None => fetchPrice env coinID st
    end.

(** ** internal/analyzer/logic.go: net balance changes *)

(** [tokenDeltas[mint]]: a missing key reads as [0]. *)
Definition deltaOf (tokenDeltas : gmap string float64) (mint : string) : float64 :=
  default zero (tokenDeltas !! mint).

(** One iteration of the first loop of [calculateNetBalanceChanges]; the
    state is [tokenDeltas] and [wsolInflowFromOther]. *)
Definition deltaStep (trackedAddr : string)
    (acc : gmap string float64 * bool) (t : TokenTransfer)
  : gmap string float64 * bool :=
  let '(tokenDeltas, wsolInflowFromOther) := acc in
  let tokenDeltas :=
    if String.eqb (FromUserAccount t) trackedAddr
    then <[Mint t := sub (deltaOf tokenDeltas (Mint t)) (TokenAmount t)]> tokenDeltas
    else tokenDeltas in
  if String.eqb (ToUserAccount t) trackedAddr then
    (<[Mint t := add (deltaOf tokenDeltas (Mint t)) (TokenAmount t)]> tokenDeltas,
     if String.eqb (Mint t) wsolMint && negb (String.eqb (FromUserAccount t) trackedAddr)
     then true else wsolInflowFromOther)
  else (tokenDeltas, wsolInflowFromOther).

Definition tokenDeltasOf (tx : HeliusTransaction) (trackedAddr : string)
  : gmap string float64 * bool :=
  fold_left (deltaStep trackedAddr) (TokenTransfers tx) (∅, false).

(** Steps 2 and 3: the native exposure [totalSolChange]. *)
Definition totalSolChange (tx : HeliusTransaction) (trackedAddr : string) : float64 :=
  let '(tokenDeltas, wsolInflowFromOther) := tokenDeltasOf tx trackedAddr in
  let nativeSol :=
    div (of_int (nativeChangeLamports (AccountData_ tx) trackedAddr)) lamportsPerSol in
  let wsolDelta := deltaOf tokenDeltas wsolMint in
  if wsolInflowFromOther && gtb wsolDelta f64_1e_12 then add nativeSol wsolDelta
  else nativeSol.

(** [tokenDeltas] after [delete(tokenDeltas, wsolMint)]. *)
Definition splDeltas (tx : HeliusTransaction) (trackedAddr : string) : gmap string float64 :=
  delete wsolMint (fst (tokenDeltasOf tx trackedAddr)).

(** [formatted += fmt.Sprintf(" ($%.2f)", amount * price)] when the oracle has a price. *)
Definition withUSD (env : Env) (coinID : string) (amount : float64) (formatted : string)
  : M string :=
  r <~ GetPriceUSD env coinID ;;
  let '(price, ok) := r in
  if ok then ret (formatted +:+ " ($" +:+ strconv.FormatFloat_f (mul amount price) 2 +:+ ")")
  else ret formatted.

(** Step 4: the SOL entry. *)
Definition emitSol (env : Env) (total : float64) (lists : list string * list string)
  : M (list string * list string) :=
  let '(sent, received) := lists in
  if gtb (abs total) f64_1e_12 then
    let amount := abs total in
    h <~ lift (formatHumanReadable amount) ;;
    formatted <~ withUSD env "solana" amount (h +:+ " SOL") ;;
    if gtb total zero then ret (sent, (received ++ [formatted])%list)
    else ret ((sent ++ [formatted])%list, received)
  else ret lists.

(** Step 5: one iteration of the loop over the remaining deltas. *)
Definition emitToken (env : Env) (metadataCache : gmap string TokenMetadata)
    (lists : list string * list string) (entry : string * float64)
  : M (list string * list string) :=
  let '(sent, received) := lists in
  let '(mint, delta) := entry in
  if ltb (abs delta) f64_1e_18 then ret lists
  else
    let amount := abs delta in
    meta <~ match metadataCache !! mint with
            | Some meta => ret meta
            | None =>
                p <~ lift (slice_to mint 4) ;;
                ret {| Symbol := "Mint(" +:+ p +:+ "...)"; Decimals := 6 |}
            end ;;
    h <~ lift (formatHumanReadable amount) ;;
    let formatted := h +:+ " " +:+ Symbol meta in
    let '(coinID, tracked) := isPriceTracked mint in
    formatted <~ (if tracked then withUSD env coinID amount formatted else ret formatted) ;;
    if gtb delta zero then ret (sent, (received ++ [formatted])%list)
    else ret ((sent ++ [formatted])%list, received).

(** The order in which Go ranges over [tokenDeltas] is unspecified: the
    entries come in the order the world picks. *)
Definition rangeDeltas (env : Env) (tokenDeltas : gmap string float64)
  : M (list (string * float64)) :=
  fun st => Some (shuffle (env_order env (length (trace st))) (map_to_list tokenDeltas), st).

Definition calculateNetBalanceChanges (env : Env) (tx : HeliusTransaction)
    (trackedAddr : string) (metadataCache : gmap string TokenMetadata)
  : M (list string * list string) :=
  lists <~ emitSol env (totalSolChange tx trackedAddr) ([], []) ;;
  entries <~ rangeDeltas env (splDeltas tx trackedAddr) ;;
  foldM (emitToken env metadataCache) entries lists.

(** ** More of the Go library: [strconv.ParseFloat], [math.Pow10],
    [strings.ToLower], [strings.ToTitle] *)

Module golib.

Definition is_digit (c : ascii) : bool :=
  let n := nat_of_ascii c in (48 <=? n)%nat && (n <=? 57)%nat.

Definition is_upper (c : ascii) : bool :=
  let n := nat_of_ascii c in (65 <=? n)%nat && (n <=? 90)%nat.

Definition is_lower (c : ascii) : bool :=
  let n := nat_of_ascii c in (97 <=? n)%nat && (n <=? 122)%nat.

Definition lower (c : ascii) : ascii :=
  if is_upper c then ascii_of_nat (nat_of_ascii c + 32) else c.

Definition upper (c : ascii) : ascii :=
  if is_lower c then ascii_of_nat (nat_of_ascii c - 32) else c.

Fixpoint map_bytes (f : ascii -> ascii) (s : string) : string :=
  match s with
  | EmptyString => EmptyString
  | String c s' => String (f c) (map_bytes f s')
  end.

(** [strings.ToLower] and [strings.ToTitle] on ASCII text; bytes outside of
    ASCII are left as they are (Go maps the letters among them too). *)
Definition ToLower (s : string) : string := map_bytes lower s.
Definition ToTitle (s : string) : string := map_bytes upper s.

Fixpoint span_digits (l : list ascii) : list ascii * list ascii :=
  match l with
  | c :: r =>
      if is_digit c then let '(d, t) := span_digits r in (c :: d, t) else ([], l)
  | [] => ([], [])
  end.

Definition digits_val (ds : list ascii) : Z :=
  fold_left (fun acc c => acc * 10 + (Z.of_nat (nat_of_ascii c) - 48)) ds 0.

Definition read_sign (l : list ascii) : bool * list ascii :=
  match l with
  | c :: r =>
      if Ascii.eqb c "+" then (false, r)
      else if Ascii.eqb c "-" then (true, r)
      else (false, l)
  | [] => (false, l)
  end.

Definition lower_string (l : list ascii) : string := string_of (map lower l).

(** A digit of a hexadecimal mantissa. *)
Definition is_hexdigit (c : ascii) : bool :=
  is_digit c
  || (let n := nat_of_ascii (lower c) in (97 <=? n)%nat && (n <=? 102)%nat).

Definition hexdigit_val (c : ascii) : Z :=
  if is_digit c then Z.of_nat (nat_of_ascii c) - 48
  else Z.of_nat (nat_of_ascii (lower c)) - 87.

Fixpoint span_hexdigits (l : list ascii) : list ascii * list ascii :=
  match l with
  | c :: r =>
      if is_hexdigit c then let '(d, t) := span_hexdigits r in (c :: d, t) else ([], l)
  | [] => ([], [])
  end.

Definition hexdigits_val (ds : list ascii) : Z :=
  fold_left (fun acc c => acc * 16 + hexdigit_val c) ds 0.

(** The digits of an exponent: [readFloat] stops accumulating once the
    value has reached 10000. *)
Definition exponent_val (ds : list ascii) : Z :=
  fold_left (fun e c => if e <? 10000 then e * 10 + (Z.of_nat (nat_of_ascii c) - 48) else e)
            ds 0.

Definition is_underscore (c : ascii) : bool := Ascii.eqb c "_".

(** What [underscoreOK] of [strconv] saw last. *)
Inductive sawKind := SawStart | SawDigit | SawUnderscore | SawOther.

Fixpoint underscoreLoop (hex : bool) (saw : sawKind) (l : list ascii) : bool :=
  match l with
  | [] => match saw with SawUnderscore => false | _ => true end
  | c :: r =>
      if is_digit c || (hex && is_hexdigit c) then underscoreLoop hex SawDigit r
      else if is_underscore c then
        match saw with
        | SawDigit => underscoreLoop hex SawUnderscore r
        | _ => false
        end
      else
        match saw with
        | SawUnderscore => false
        | _ => underscoreLoop hex SawOther r
        end
  end.

(** [underscoreOK]: an underscore stands between two digits, or between a
    base prefix and a digit. *)
Definition underscoreOK (l : list ascii) : bool :=
  let l := snd (read_sign l) in
  match l with
  | c0 :: c1 :: r =>
      if Ascii.eqb c0 "0"
         && (Ascii.eqb (lower c1) "b" || Ascii.eqb (lower c1) "o" || Ascii.eqb (lower c1) "x")
      then underscoreLoop (Ascii.eqb (lower c1) "x") SawDigit r
      else underscoreLoop false SawStart l
  | _ => underscoreLoop false SawStart l
  end.

(** The exponent part that ends a numeral: its sign and digits, nothing
    after them. *)
Definition read_exponent (r : list ascii) : option Z :=
  let '(eneg, r1) := read_sign r in
  match span_digits r1 with
  | ([], _) => None
  | (ed, []) => Some (if eneg then - exponent_val ed else exponent_val ed)
  | (_, _ :: _) => None
  end.

(** A decimal numeral without its sign: digits, a point, digits, and an
    optional exponent after [e]. *)
Definition parseDecimal (neg : bool) (l0 : list ascii) : float64 :=
  let '(ip, l1) := span_digits l0 in
  let '(fp, l2) :=
    match l1 with
    | c :: r => if Ascii.eqb c "." then span_digits r else ([], l1)
    | [] => ([], l1)
    end in
  match (ip ++ fp)%list with
  | [] => zero
  | _ =>
      let m := digits_val (ip ++ fp)%list in
      let finish (ex : Z) : float64 :=
        if m =? 0 then S754_zero neg
        else of_decimal (if neg then - m else m) (ex - Z.of_nat (length fp)) in
      match l2 with
      | [] => finish 0
      | c :: r =>
          if Ascii.eqb (lower c) "e" then
            match read_exponent r with
            | Some ex => finish ex
            | None => zero
            end
          else zero
      end
  end.

(** A hexadecimal numeral after its sign and its prefix [0x]: hexadecimal
    digits, a point, hexadecimal digits, and the exponent of two after [p],
    which it must have. *)
Definition parseHex (neg : bool) (l0 : list ascii) : float64 :=
  let '(ip, l1) := span_hexdigits l0 in
  let '(fp, l2) :=
    match l1 with
    | c :: r => if Ascii.eqb c "." then span_hexdigits r else ([], l1)
    | [] => ([], l1)
    end in
  match (ip ++ fp)%list with
  | [] => zero
  | _ =>
      let m := hexdigits_val (ip ++ fp)%list in
      match l2 with
      | [] => zero
      | c :: r =>
          if Ascii.eqb (lower c) "p" then
            match read_exponent r with
            | Some ex =>
                binary_normalize prec emax (if neg then - m else m)
                  (ex - 4 * Z.of_nat (length fp)) neg
            | None => zero
            end
          else zero
      end
  end.

(** The value [strconv.ParseFloat(s, 64)] returns next to its error: for a
    decimal or hexadecimal numeral, in which underscores may separate
    digits, the nearest binary64 number, an infinity on overflow; the
    spellings of infinity and NaN; and [0] when [s] is not well formed. *)
Definition ParseFloat (s : string) : float64 :=
  let l := bytes_of s in
  let '(neg, l0) := read_sign l in
  let word := lower_string l0 in
  if String.eqb word "inf" || String.eqb word "infinity" then S754_infinity neg
  else if String.eqb (lower_string l) "nan" then S754_nan
  else if existsb is_underscore l && negb (underscoreOK l) then zero
  else
    match filter (fun c => negb (is_underscore c)) l0 with
    | c0 :: c1 :: c2 :: r =>
        if Ascii.eqb c0 "0" && Ascii.eqb (lower c1) "x" then parseHex neg (c2 :: r)
        else parseDecimal neg (c0 :: c1 :: c2 :: r)
    | digits => parseDecimal neg digits
    end.

(** [math.Pow10(n)]: the product, respectively quotient, of two table
    entries [1e(32*k)] and [1e(j)]. *)
Definition Pow10 (n : Z) : float64 :=
  if (0 <=? n) && (n <=? 308) then
    mul (of_decimal 1 (32 * (n / 32))) (of_decimal 1 (n mod 32))
  else if (-323 <=? n) && (n <=? 0) then
    div (of_decimal 1 (- (32 * ((- n) / 32)))) (of_decimal 1 ((- n) mod 32))
  else if 0 <? n then inf
  else zero.

End golib.

(** [parseAmount] of logic.go *)
Definition parseAmount (amountStr : string) (decimals : Z) : float64 :=
  div (golib.ParseFloat amountStr) (golib.Pow10 decimals).

(** ** internal/analyzer/analyzer.go *)

Definition nl : string := String (ascii_of_nat 10) EmptyString.

(** [addr[:4] + "..." + addr[len(addr)-4:]] *)
Definition ends4 (addr : string) : option string :=
  a ← slice_to addr 4;
  b ← slice_from addr (len addr - 4);
  Some (a +:+ "..." +:+ b).

Definition shortenAddress (addr : string) : option string :=
  if len addr <=? 8 then Some ("<code>" +:+ addr +:+ "</code>")
  else
    shortened ← ends4 addr;
    Some ("<code>" +:+ shortened +:+ "</code>").

(** The character class [[1-9A-HJ-NP-Za-km-z]] of [solanaAddressRegex]. *)
Definition is_base58 (c : ascii) : bool :=
  let n := nat_of_ascii c in
  ((49 <=? n) && (n <=? 57)            (* 1-9 *)
   || (65 <=? n) && (n <=? 72)         (* A-H *)
   || (74 <=? n) && (n <=? 78)         (* J-N *)
   || (80 <=? n) && (n <=? 90)         (* P-Z *)
   || (97 <=? n) && (n <=? 107)        (* a-k *)
   || (109 <=? n) && (n <=? 122))%nat. (* m-z *)

Fixpoint run_length (l : list ascii) : nat :=
  match l with
  | c :: r => if is_base58 c then S (run_length r) else O
  | [] => O
  end.

(** The callback given to [ReplaceAllStringFunc] by [buildSummary]. *)
Definition shortenMatch (addr : string) : option string :=
  if 8 <? len addr then ends4 addr else Some addr.

(** [solanaAddressRegex.ReplaceAllStringFunc(s, shortenMatch)]: from left to
    right, every run of 32 to 44 characters of the class (as many as
    possible) is replaced; [skip] counts the bytes of the current match
    still to be passed over. *)
Fixpoint replaceAddresses (l : list ascii) (skip : nat) : option (list ascii) :=
  match l with
  | [] => Some []
  | c :: r =>
      match skip with
      | S k => replaceAddresses r k
      | O =>
          let run := run_length l in
          if (32 <=? run)%nat then
            let n := Nat.min run 44 in
            short ← shortenMatch (string_of (take n l));
            rest ← replaceAddresses r (n - 1);
            Some (bytes_of short ++ rest)%list
          else
            rest ← replaceAddresses r 0;
            Some (c :: rest)
      end
  end.

Definition buildSummary (tx : HeliusTransaction) (interpretation : string)
    (sent received : list string) : option string :=
  let b := "<b>" +:+ interpretation +:+ "</b>" +:+ nl in
  b ← (if negb (String.eqb (Description tx) "") then
         cleanedDesc ← replaceAddresses (bytes_of (Description tx)) 0;
         Some (b +:+ "ℹ️ <i>" +:+ string_of cleanedDesc +:+ "</i>" +:+ nl)
       else Some b);
  let b := b +:+ nl in
  let b := if (0 <? length sent)%nat
           then b +:+ "💰 <b>Sent:</b> " +:+ strings.Join sent ", " +:+ nl else b in
  let b := if (0 <? length received)%nat
           then b +:+ "💸 <b>Received:</b> " +:+ strings.Join received ", " +:+ nl else b in
  head ← slice_to (Signature tx) 6;
  tail ← slice_from (Signature tx) (len (Signature tx) - 6);
  Some (b +:+ nl +:+ "<a href=" +:+ dquote +:+ "https://solscan.io/tx/" +:+ Signature tx
          +:+ dquote +:+ ">" +:+ head +:+ "..." +:+ tail +:+ "</a>").

(** The closure [addFormattedItem] of [parseSwapEvent]. *)
Definition addFormattedItem (env : Env) (metadataMap : gmap string TokenMetadata)
    (list_ : list string) (item : TokenSwapAmount) : M (list string) :=
  let amount := parseAmount (raw_TokenAmount (sw_RawTokenAmount item))
                            (raw_Decimals (sw_RawTokenAmount item)) in
  meta <~ match metadataMap !! sw_Mint item with
          | Some meta => ret meta
          | None =>
              short <~ lift (shortenAddress (sw_Mint item)) ;;
              ret {| Symbol := "Mint(" +:+ short +:+ ")";
                     Decimals := raw_Decimals (sw_RawTokenAmount item) |}
          end ;;
  h <~ lift (formatHumanReadable amount) ;;
  let formattedStr := h +:+ " " +:+ Symbol meta in
  let '(coinID, isTracked) := isPriceTracked (sw_Mint item) in
  formattedStr <~ (if isTracked then withUSD env coinID amount formattedStr
                   else ret formattedStr) ;;
  ret (list_ ++ [formattedStr])%list.

Definition addOwned (env : Env) (metadataMap : gmap string TokenMetadata)
    (trackedAddr : string) (list_ : list string) (item : TokenSwapAmount)
  : M (list string) :=
  if String.eqb (sw_UserAccount item) trackedAddr
  then addFormattedItem env metadataMap list_ item
  else ret list_.

Definition parseSwapEvent (env : Env) (tx : HeliusTransaction) (trackedAddr : string)
    (metadataMap : gmap string TokenMetadata) : M (list string * list string) :=
  match Swap (Events tx) with
  | None => calculateNetBalanceChanges env tx trackedAddr metadataMap
  | Some swap =>
      sent <~ foldM (addOwned env metadataMap trackedAddr) (TokenInputs swap) [] ;;
      received <~ foldM (addOwned env metadataMap trackedAddr) (TokenOutputs swap) [] ;;
      ret (sent, received)
  end.

(** The set [mints] built by [ensureMetadataIsCached]. *)
Definition collectMints (tx : HeliusTransaction) : gset string :=
  let mints : gset string :=
    fold_left (fun (mints : gset string) transfer =>
                 if negb (String.eqb (Mint transfer) "") then {[ Mint transfer ]} ∪ mints
                 else mints)
              (TokenTransfers tx) ∅ in
  match Swap (Events tx) with
  | Some swap =>
      let mints := fold_left (fun (mints : gset string) item => {[ sw_Mint item ]} ∪ mints)
                             (TokenInputs swap) mints in
      fold_left (fun (mints : gset string) item => {[ sw_Mint item ]} ∪ mints)
                (TokenOutputs swap) mints
  | None => mints
  end.

(** The body of the loop over [mints]. The first thing
    [fetchOnChainMetadata] does is [rpcCall], which drops the error of
    [http.NewRequestWithContext] and sets a header of the request: a nil
    pointer dereference when the RPC URL does not parse. One goroutine runs
    the body at a time here; the [sync.Map] is shared by the goroutines of
    all subscribers, and between the [Load] and the [Store] of one another
    may run. *)
Definition cacheMint (env : Env) (_ : unit) (mint : string) : M unit :=
  fun st =>
    match metadataCache st !! mint with
    | Some _ => Some (tt, st)
    | None =>
        if negb (env_urlParses env (SolanaRPCURL st)) then None
        else
        let answer := env_meta env (length (trace st)) in
        let st := record_event (EvMetaLookup mint) st in
        match answer with
        | MetaPanic => None
        | MetaErr =>
            short ← shortenAddress mint;
            Some (tt, set_metadataCache
                        (<[mint := {| Symbol := "Mint(" +:+ short +:+ ")"; Decimals := 6 |}]>
                           (metadataCache st)) st)
        | MetaOk meta =>
            Some (tt, set_metadataCache (<[mint := meta]> (metadataCache st)) st)
        end
    end.

(** The three steps of that body, each one atomic on the [sync.Map]:
    [Load], the lookup with its fallback, and [Store]. *)
Definition loadMint (mint : string) : M bool :=
  fun st => Some (match metadataCache st !! mint with Some _ => true | None => false end, st).

Definition lookupMint (env : Env) (mint : string) : M TokenMetadata :=
  fun st =>
    if negb (env_urlParses env (SolanaRPCURL st)) then None
    else
      let answer := env_meta env (length (trace st)) in
      let st := record_event (EvMetaLookup mint) st in
      match answer with
      | MetaPanic => None
      | MetaErr =>
          short ← shortenAddress mint;
          Some ({| Symbol := "Mint(" +:+ short +:+ ")"; Decimals := 6 |}, st)
      | MetaOk meta => Some (meta, st)
      end.

Definition storeMint (mint : string) (meta : TokenMetadata) : M unit :=
  fun st => Some (tt, set_metadataCache (<[mint := meta]> (metadataCache st)) st).

(** Two goroutines, each in its own world, run the body for the same mint;
    the second does its [Load] before the first has done its [Store]. *)
Definition cacheMintRacing (envA envB : Env) (mint : string) : M unit :=
  foundA <~ loadMint mint ;;
  foundB <~ loadMint mint ;;
  _ <~ (if foundA : bool then ret tt
        else meta <~ lookupMint envA mint ;; storeMint mint meta) ;;
  if foundB : bool then ret tt
  else meta <~ lookupMint envB mint ;; storeMint mint meta.

(** The order in which Go ranges over [mints] is unspecified: the mints
    come in the order the world picks. *)
Definition rangeMints (env : Env) (mints : gset string) : M (list string) :=
  fun st => Some (shuffle (env_order env (length (trace st))) (elements mints), st).

Definition ensureMetadataIsCached (env : Env) (tx : HeliusTransaction) : M unit :=
  mints <~ rangeMints env (collectMints tx) ;;
  foldM (cacheMint env) mints tt.

Definition getMetadataMap : M (gmap string TokenMetadata) :=
  fun st => Some (metadataCache st, st).

Definition New (heliusTxURL solanaRPCURL : string) : St :=
  let cache : gmap string TokenMetadata :=
    <[usdcMint := {| Symbol := "USDC"; Decimals := 6 |}]>
      (<[wsolMint := {| Symbol := "SOL"; Decimals := 9 |}]> ∅) in
  {| HeliusTxURL := heliusTxURL; SolanaRPCURL := solanaRPCURL;
     metadataCache := cache; priceCache := ∅; clockReads := 0; trace := [] |}.

(** ** internal/analyzer/fetch.go and [AnalyzeSignature] *)

Inductive error :=
  | ErrTransport
  | ErrNon200 (status : Z) (body : string)
  | ErrDecodeOrEmpty (signature : string)
  | ErrFetchTx (signature : string) (cause : error).

(** The error of [http.NewRequestWithContext] is dropped and a header of
    the request is set: a nil pointer dereference when the URL does not
    parse. *)
Definition fetchHeliusTransaction (env : Env) (signature : string)
  : M (HeliusTransaction + error) :=
  fun st =>
    if negb (env_urlParses env (HeliusTxURL st)) then None
    else
    let answer := env_helius env (length (trace st)) in
    let st := record_event (EvHeliusPost signature) st in
    match answer with
    | HeliusTransportError => Some (inr ErrTransport, st)
    | HeliusResponse status body decoded =>
        if negb (status =? 200) then Some (inr (ErrNon200 status body), st)
        else
          match decoded with
          | Some (tx :: _) => Some (inl tx, st)
          | Some [] | None => Some (inr (ErrDecodeOrEmpty signature), st)
          end
    end.

(** The three branches of the [switch tx.Type]. *)
Definition classify (env : Env) (tx : HeliusTransaction) (trackedAddr : string)
    (metadataMap : gmap string TokenMetadata)
  : M (string * (list string * list string)) :=
  if String.eqb (Type_ tx) "CREATE" then
    lists <~ calculateNetBalanceChanges env tx trackedAddr metadataMap ;;
    let tokenName := match snd lists with
                     | first :: _ => first
                     | [] => "new token"
                     end in
    ret ("🧱 CREATE & BUY via " +:+ Source tx +:+ ": Bought " +:+ tokenName, lists)
  else if String.eqb (Type_ tx) "SWAP" then
    lists <~ parseSwapEvent env tx trackedAddr metadataMap ;;
    ret ("🔁 SWAP via " +:+ Source tx, lists)
  else
    lists <~ calculateNetBalanceChanges env tx trackedAddr metadataMap ;;
    let '(sent, received) := lists in
    let interpretation :=
      if (0 <? length sent)%nat && (0 <? length received)%nat
      then "↔️ INTERACTION via " +:+ Source tx
      else if (0 <? length sent)%nat then "⬆️ SEND via " +:+ Source tx
      else if (0 <? length received)%nat then "⬇️ RECEIVE via " +:+ Source tx
      else "⚙️ " +:+ golib.ToTitle (golib.ToLower (Type_ tx)) +:+ " via " +:+ Source tx in
    ret (interpretation, lists).

(** The result is the pair [(summary, err)] the Go function returns; a
    panic is the [None] of [M]. *)
Definition AnalyzeSignature (env : Env) (signature trackedAddr : string)
  : M (string * option error) :=
  r <~ fetchHeliusTransaction env signature ;;
  match r with
  | inr err => ret ("", Some (ErrFetchTx signature err))
  | inl tx =>
      if shouldFilter tx trackedAddr then ret ("", None)
      else
        _ <~ ensureMetadataIsCached env tx ;;
        metadataMap <~ getMetadataMap ;;
        c <~ classify env tx trackedAddr metadataMap ;;
        let '(interpretation, (sent, received)) := c in
        summary <~ lift (buildSummary tx interpretation sent received) ;;
        ret (summary, None)
  end.

(** ** internal/tracker/subscriber.go *)

Module tracker.

(** An inbound message after [json.Unmarshal] into [logsNotification]:
    [None] when decoding fails. [Err] is the decoded [err] field: [None] is
    Go's nil (the field is absent or JSON null). *)
Record logsNotification := {
  Method : string;
  Signature_ : string;
  Err : option string
}.

(** What happens to a subscriber, in order: [conn.ReadMessage] returns a
    message or an error, or the ticker of [cleanCache] fires ([Sweep]; the
    sweep holds the mutex that [isDuplicate] takes, so the two never
    overlap). *)
Inductive Input :=
  | Message (decoded : option logsNotification)
  | ReadError
  | Sweep.

(** The subscriber: its address, the dedupe cache, the number of clock
    readings made so far, and the history of the invocations
    [SignatureNotify(signature, address)]. *)
Record Subscriber := {
  addr : string;
  dedupeCache : gmap string Z;
  clock : nat;
  notified : list (string * string)
}.

Definition thirty_seconds : Z := 30 * 1000000000.
Definition one_minute : Z := 60 * 1000000000.

Definition set_cache (c : gmap string Z) (s : Subscriber) : Subscriber :=
  {| addr := addr s; dedupeCache := c; clock := clock s; notified := notified s |}.

Definition read_clock (now : nat -> Z) (s : Subscriber) : Z * Subscriber :=
  (now (clock s),
   {| addr := addr s; dedupeCache := dedupeCache s; clock := S (clock s);
      notified := notified s |}).

Definition notify (signature : string) (s : Subscriber) : Subscriber :=
  {| addr := addr s; dedupeCache := dedupeCache s; clock := clock s;
     notified := (notified s ++ [(signature, addr s)])%list |}.

Definition isDuplicate (now : nat -> Z) (signature : string) (s : Subscriber)
  : bool * Subscriber :=
  let record (s : Subscriber) : bool * Subscriber :=
    let '(t, s) := read_clock now s in
    (false, set_cache (<[signature := t]> (dedupeCache s)) s) in
  match dedupeCache s !! signature with
  | Some ts =>
      let '(t, s) := read_clock now s in
      if t - ts <? thirty_seconds then (true, s) else record s
  | None => record s
  end.

(** One firing of the ticker in [cleanCache]: every entry is visited once
    (in an unspecified order, here that of [map_to_list]), [time.Since]
    reads the clock for each of them. *)
Definition sweepEntry (now : nat -> Z) (s : Subscriber) (entry : string * Z) : Subscriber :=
  let '(sig, ts) := entry in
  let '(t, s) := read_clock now s in
  if one_minute <? t - ts then set_cache (delete sig (dedupeCache s)) s else s.

Definition sweep (now : nat -> Z) (s : Subscriber) : Subscriber :=
  fold_left (sweepEntry now) (map_to_list (dedupeCache s)) s.

(** The outcome of one iteration of the read loop of [Run]. *)
Inductive Step :=
  | Continue (s : Subscriber)      (* next iteration, same connection *)
  | Break (s : Subscriber)         (* leave the loop: reconnect *)
  | Panicked (s : Subscriber).     (* a run-time panic *)

(** [if SignatureNotify != nil { SignatureNotify(signature, s.addr) }].
    [callback] is the global [SignatureNotify]: [None] when it is nil,
    otherwise a function that tells, for a signature and an address, whether
    the invocation returns ([true]) or panics ([false]). The loop calls it
    in its own goroutine and recovers from nothing, so a panic of the
    callback ends the loop like one of its own. *)
Definition invoke (callback : option (string -> string -> bool)) (signature : string)
    (s : Subscriber) : Step :=
  match callback with
  | None => Continue s
  | Some cb =>
      if cb signature (addr s) then Continue (notify signature s)
      else Panicked (notify signature s)
  end.

(** The body of the inner [for] loop of [Run]. *)
Definition readStep (now : nat -> Z) (callback : option (string -> string -> bool))
    (s : Subscriber) (i : Input) : Step :=
  match i with
  | ReadError => Break s
  | Sweep => Continue (sweep now s)
  | Message None => Continue s
  | Message (Some notif) =>
      if negb (String.eqb (Method notif) "logsNotification")
         || String.eqb (Signature_ notif) ""
         || (match Err notif with Some _ => true | None => false end)
      then Continue s
      else
        let signature := Signature_ notif in
        let '(dup, s) := isDuplicate now signature s in
        if dup then Continue s
        else
          match slice_to signature 16 with
          | None => Panicked s
          | Some _ => invoke callback signature s
          end
  end.

Definition final (r : Step) : Subscriber :=
  match r with Continue s | Break s | Panicked s => s end.

(** [Run] on a finite history of inputs. A read error leaves the inner loop;
    the outer loop dials again (retrying with backoff until it succeeds) and
    reads on, with the same dedupe cache. A panic ends everything. *)
Fixpoint Run (now : nat -> Z) (callback : option (string -> string -> bool))
    (s : Subscriber) (inputs : list Input) : Step :=
  match inputs with
  | [] => Continue s
  | i :: rest =>
      match readStep now callback s i with
      | Continue s' | Break s' => Run now callback s' rest
      | Panicked s' => Panicked s'
      end
  end.

(** [NewSubscriber], for an address without surrounding white space. *)
Definition NewSubscriber (addr_ : string) : Subscriber :=
  {| addr := addr_; dedupeCache := ∅; clock := 0; notified := [] |}.

End tracker.

(** ** Vocabulary of the properties *)

(** The price the answer of the price service carries for [coinID], if any. *)
Definition quotedPrice (answer : PriceHttp) (coinID : string) : option float64 :=
  match answer with
  | PriceTransportError => None
  | PriceResponse result =>
      match result !! coinID with
      | Some priceData => priceData !! "usd"
      | None => None
      end
  end.

(** A JSON text, parsed. A number carries its literal. *)
#[warnings="-register-all"]
Inductive jsonValue :=
  | JNull
  | JBool (b : bool)
  | JNumber (literal : string)
  | JString (s : string)
  | JArray (items : list jsonValue)
  | JObject (members : list (string * jsonValue)).

(** [encoding/json] decoding a value into a [float64] that is zero: a
    number is stored unless it overflows; [null] changes nothing; for any
    other value the decoder notes an [UnmarshalTypeError], leaves the zero
    and goes on. *)
Definition decodeFloat (v : jsonValue) : float64 :=
  match v with
  | JNumber literal =>
      let n := golib.ParseFloat literal in
      if is_finite n then n else zero
  | _ => zero
  end.

(** Decoding a value into a fresh [map[string]float64]: an object gives a
    map with an entry for every member, also for those whose value is not a
    number; anything else leaves the nil map, which reads as the empty one. *)
Definition decodeQuotes (v : jsonValue) : gmap string float64 :=
  match v with
  | JObject members =>
      fold_left (fun (m : gmap string float64) (kv : string * jsonValue) =>
                   <[kv.1 := decodeFloat kv.2]> m) members ∅
  | _ => ∅
  end.

(** [json.NewDecoder(resp.Body).Decode(&result)] for a body that is the
    JSON text of [v], [result] being a nil [map[string]map[string]float64]. *)
Definition decodePrices (v : jsonValue) : gmap string (gmap string float64) :=
  match v with
  | JObject members =>
      fold_left (fun (m : gmap string (gmap string float64)) (kv : string * jsonValue) =>
                   <[kv.1 := decodeQuotes kv.2]> m) members ∅
  | _ => ∅
  end.

(** The cache holds a quote for [coinID] that the next reading of the clock
    finds younger than the freshness window. *)
Definition freshQuote (env : Env) (st : St) (coinID : string) (val : cachedPrice) : Prop :=
  priceCache st !! coinID = Some val
  /\ env_now env (clockReads st) - LastFetched val < sixty_seconds.

(** The cache holds no quote for [coinID], or one the next reading of the
    clock finds at least as old as the freshness window. *)
Definition noFreshQuote (env : Env) (st : St) (coinID : string) : Prop :=
  match priceCache st !! coinID with
  | Some val => sixty_seconds <= env_now env (clockReads st) - LastFetched val
  | None => True
  end.

(** No token other than the wrapped native one is transferred from or to
    the address. *)
Definition onlyWrappedNativeMoves (tx : HeliusTransaction) (trackedAddr : string) : Prop :=
  forall t, In t (TokenTransfers tx) ->
    FromUserAccount t = trackedAddr \/ ToUserAccount t = trackedAddr ->
    Mint t = wsolMint.

(** Thousands separators, on the reversed digits: a comma after every
    three digits that are followed by more. *)
Fixpoint commas_rev (r : list ascii) : list ascii :=
  match r with
  | a :: b :: c :: rest =>
      match rest with
      | [] => r
      | _ :: _ => a :: b :: c :: ","%char :: commas_rev rest
      end
  | _ => r
  end.

(** The comma loop of [formatHumanReadable] in functional form, on the
    reversed digits; [k] digits have
    been written before. *)
Fixpoint group_rev (r : list ascii) (k : Z) : list ascii :=
  match r with
  | [] => []
  | c :: rest =>
      c :: match rest with
           | [] => []
           | _ :: _ =>
               if Z.rem (k + 1) 3 =? 0 then ","%char :: group_rev rest (k + 1)
               else group_rev rest (k + 1)
           end
  end.

(** The digits in groups of three from the right, separated by commas. *)
Definition withCommas (s : string) : string :=
  string_of (rev (commas_rev (rev (bytes_of s)))).

(** The text without its commas. *)
Definition removeCommas (s : string) : string :=
  string_of (filter (fun c => c <> ","%char) (bytes_of s)).

(** The string consists of decimal digits only. *)
Definition digitsOnly (s : string) : Prop :=
  Forall (fun c => golib.is_digit c = true) (bytes_of s).

(** The number of significant figures a rendered number shows: the digits
    of its mantissa (what precedes an exponent mark [e]), from the first
    digit that is not zero on. *)
Fixpoint mantissa (l : list ascii) : list ascii :=
  match l with
  | [] => []
  | c :: r => if Ascii.eqb c "e" then [] else c :: mantissa r
  end.

Fixpoint dropZeros (l : list ascii) : list ascii :=
  match l with
  | c :: r => if Ascii.eqb c "0" then dropZeros r else l
  | [] => []
  end.

Definition sigFigures (s : string) : nat :=
  length (dropZeros (filter (fun c => golib.is_digit c = true) (mantissa (bytes_of s)))).

(** The transaction with another list of native transfers. *)
Definition with_NativeTransfers (nts : list NativeTransfer) (tx : HeliusTransaction)
  : HeliusTransaction :=
  {| Signature := Signature tx; Timestamp := Timestamp tx; Fee := Fee tx;
     FeePayer := FeePayer tx; Type_ := Type_ tx; Source := Source tx;
     Description := Description tx; TokenTransfers := TokenTransfers tx;
     NativeTransfers := nts; AccountData_ := AccountData_ tx;
     TransactionError := TransactionError tx; Events := Events tx |}.

(** The signed sum of the transfers of [mint] from and to the address, in
    the order of the list: the amount is subtracted when the address sends
    and added when it receives. *)
Definition netStep (mint trackedAddr : string) (acc : float64) (t : TokenTransfer) : float64 :=
  if String.eqb (Mint t) mint then
    let acc := if String.eqb (FromUserAccount t) trackedAddr
               then sub acc (TokenAmount t) else acc in
    if String.eqb (ToUserAccount t) trackedAddr then add acc (TokenAmount t) else acc
  else acc.

Definition netDelta (mint trackedAddr : string) (tts : list TokenTransfer) : float64 :=
  fold_left (netStep mint trackedAddr) tts zero.

(** The transfer brings wrapped native tokens to the address from another party. *)
Definition wsolFromOther (trackedAddr : string) (t : TokenTransfer) : Prop :=
  ToUserAccount t = trackedAddr /\ Mint t = wsolMint /\ FromUserAccount t <> trackedAddr.

(** [float64(nativeBalanceChange) / 1e9] for the entry of the address. *)
Definition nativeSolOf (tx : HeliusTransaction) (trackedAddr : string) : float64 :=
  div (of_int (nativeChangeLamports (AccountData_ tx) trackedAddr)) lamportsPerSol.

(** The transfer involves the address, as sender or as receiver. *)
Definition involves (trackedAddr : string) (t : TokenTransfer) : Prop :=
  FromUserAccount t = trackedAddr \/ ToUserAccount t = trackedAddr.

(** The text [e] of an entry of [sent] or [received]: the amount in
    human-readable form and the unit, followed by the value in USD when the
    price oracle gave a price. *)
Definition entryText (amount : float64) (unit_ : string) (e : string) : Prop :=
  exists h, formatHumanReadable amount = Some h
    /\ (e = h +:+ " " +:+ unit_
        \/ exists price,
             e = (h +:+ " " +:+ unit_)
                 +:+ " ($" +:+ strconv.FormatFloat_f (mul amount price) 2 +:+ ")").

(** The symbol an asset is shown with: that of its metadata, or a
    placeholder made of the first four bytes of the mint. *)
Definition symbolFor (metadataCache : gmap string TokenMetadata) (mint sym : string) : Prop :=
  match metadataCache !! mint with
  | Some meta => sym = Symbol meta
  | None => exists p, slice_to mint 4 = Some p /\ sym = "Mint(" +:+ p +:+ "...)"
  end.

(** The per-asset entries for the deltas [deltas], in their order: none for
    a delta below [1e-18] in magnitude; otherwise one that shows the
    magnitude of the delta, among the received ones when the delta is above
    zero and among the sent ones when it is not. *)
Inductive assetEntries (metadataCache : gmap string TokenMetadata)
  : list (string * float64) -> list string -> list string -> Prop :=
  | assets_done : assetEntries metadataCache [] [] []
  | assets_negligible mint d deltas sent received :
      ltb (abs d) f64_1e_18 = true ->
      assetEntries metadataCache deltas sent received ->
      assetEntries metadataCache ((mint, d) :: deltas) sent received
  | assets_received mint d deltas sent received sym e :
      ltb (abs d) f64_1e_18 = false -> gtb d zero = true ->
      symbolFor metadataCache mint sym -> entryText (abs d) sym e ->
      assetEntries metadataCache deltas sent received ->
      assetEntries metadataCache ((mint, d) :: deltas) sent (e :: received)
  | assets_sent mint d deltas sent received sym e :
      ltb (abs d) f64_1e_18 = false -> gtb d zero = false ->
      symbolFor metadataCache mint sym -> entryText (abs d) sym e ->
      assetEntries metadataCache deltas sent received ->
      assetEntries metadataCache ((mint, d) :: deltas) (e :: sent) received.

(** The two entries the metadata cache is created with. *)
Definition fixedEntries (m : gmap string TokenMetadata) : Prop :=
  m !! wsolMint = Some {| Symbol := "SOL"; Decimals := 9 |}
  /\ m !! usdcMint = Some {| Symbol := "USDC"; Decimals := 6 |}.

(** No on-chain lookup was made for either of the two mints. *)
Definition neverLookedUp (st : St) : Prop :=
  ~ In (EvMetaLookup wsolMint) (trace st) /\ ~ In (EvMetaLookup usdcMint) (trace st).

(** The states of an analyzer: as created by [New], and after any number of
    analyses that returned. *)
Inductive reachable : St -> Prop :=
  | reachable_New (heliusTxURL solanaRPCURL : string) :
      reachable (New heliusTxURL solanaRPCURL)
  | reachable_Analyze (env : Env) (signature trackedAddr : string) (st st' : St)
      (r : string * option error) :
      reachable st ->
      AnalyzeSignature env signature trackedAddr st = Some (r, st') ->
      reachable st'.

(** The mints of the on-chain lookups made so far, in their order. *)
Definition lookupOfEvent (e : Event) : option string :=
  match e with EvMetaLookup mint => Some mint | _ => None end.

Definition lookedUp (st : St) : list string := omap lookupOfEvent (trace st).

(** From [st] to [st'] the metadata cache is unchanged and no on-chain
    lookup is made. *)
Definition sameMetadata (st st' : St) : Prop :=
  metadataCache st' = metadataCache st
  /\ exists evs, trace st' = (trace st ++ evs)%list
                 /\ forall e, In e evs -> forall mint, e <> EvMetaLookup mint.

(** From [st] to [st'] the metadata cache only gains entries, for mints it
    did not hold, and on-chain lookups are made for such mints only. *)
Definition growsMetadata (st st' : St) : Prop :=
  (forall k v, metadataCache st !! k = Some v -> metadataCache st' !! k = Some v)
  /\ exists evs, trace st' = (trace st ++ evs)%list
                 /\ forall e, In e evs ->
                      forall mint, e = EvMetaLookup mint -> metadataCache st !! mint = None.

(** No mint was looked up twice, and the mints looked up are cached. *)
Definition lookupsOnce (st : St) : Prop :=
  NoDup (lookedUp st) /\ forall mint, mint ∈ lookedUp st -> is_Some (metadataCache st !! mint).

(** From [st] to [st'] the metadata cache grows and [lookupsOnce] is kept. *)
Definition keepsLookupsOnce (st st' : St) : Prop :=
  growsMetadata st st' /\ (lookupsOnce st -> lookupsOnce st').

(** The text [s] is the amount [h] followed by the symbol [sym], and
    possibly by a fiat figure in parentheses. *)
Definition rendersAs (sym h s : string) : Prop :=
  s = h +:+ " " +:+ sym
  \/ exists usd, s = (h +:+ " " +:+ sym) +:+ " ($" +:+ usd +:+ ")".

(** Every run of [c] that returns relates its first and last state by [R]. *)
Definition relates {A} (R : St -> St -> Prop) (c : M A) : Prop :=
  forall st a st', c st = Some (a, st') -> R st st'.

(** The read loop lets a decoded notification through. *)
Definition accepted (notif : tracker.logsNotification) : Prop :=
  tracker.Method notif = "logsNotification"
  /\ tracker.Signature_ notif <> ""
  /\ tracker.Err notif = None.

(** The inputs the claim about the read loop calls skipped: a message that
    does not decode, or one with another method, an empty signature or a
    non-null [err]. *)
Definition skipped (i : tracker.Input) : Prop :=
  match i with
  | tracker.Message None => True
  | tracker.Message (Some notif) =>
      tracker.Method notif <> "logsNotification"
      \/ tracker.Signature_ notif = ""
      \/ tracker.Err notif <> None
  | _ => False
  end.

(** The callback returns for the accepted notifications of [inputs],
    called with the address [a]. *)
Definition callbackReturns (callback : option (string -> string -> bool)) (a : string)
    (inputs : list tracker.Input) : Prop :=
  forall cb notif, callback = Some cb -> In (tracker.Message (Some notif)) inputs ->
                   accepted notif -> cb (tracker.Signature_ notif) a = true.

(** The clock never goes back. *)
Definition monotone (now : nat -> Z) : Prop :=
  forall a b : nat, (a <= b)%nat -> now a <= now b.

(** The dedupe cache holds [signature] with a time stamp not before [t0]. *)
Definition recent (t0 : Z) (signature : string) (s : tracker.Subscriber) : Prop :=
  exists ts, tracker.dedupeCache s !! signature = Some ts /\ t0 <= ts.

(** How many times the callback was invoked for [signature]. *)
Definition timesNotified (signature : string) (s : tracker.Subscriber) : nat :=
  length (filter (fun e : string * string => e.1 = signature) (tracker.notified s)).

(** ** Concrete worlds and inputs used as test cases *)

Module Sample.

Definition solPrice : float64 := Eval vm_compute in of_decimal 150 0.

(** A world in which the clock always shows second 100, the price service
    is unreachable, metadata lookups fail and the enrichment service
    answers with status 500. *)
Definition envDown : Env :=
  {| env_now := fun _ => 100 * 1000000000;
     env_price := fun _ => PriceTransportError;
     env_meta := fun _ => MetaErr;
     env_helius := fun _ => HeliusResponse 500 "internal error" None;
     env_urlParses := fun _ => true;
     env_order := fun _ => [] |}.

(** The same world, except that the price service answers every request
    with status 200 and the body [{"solana":{"usd":"n/a"}}]. *)
Definition envJunkPrice : Env :=
  {| env_now := fun _ => 100 * 1000000000;
     env_price := fun _ =>
       PriceResponse
         (decodePrices (JObject [("solana", JObject [("usd", JString "n/a")])]));
     env_meta := fun _ => MetaErr;
     env_helius := fun _ => HeliusResponse 500 "internal error" None;
     env_urlParses := fun _ => true;
     env_order := fun _ => [] |}.

Definition analyzer0 : St := New "https://helius.example/tx" "https://rpc.example".

(** The analyzer with a quote for SOL fetched at second [t]. *)
Definition analyzerQuoted (t : Z) : St :=
  set_priceCache
    (<["solana" := {| Price := solPrice; LastFetched := t * 1000000000 |}]> ∅) analyzer0.

Definition wallet : string := "5hAgcPBmuYG4zHp9xR8mJk3vNq2wTbL7dEfS6cG84zMa".
Definition other : string := "9xQeWvG816bUx9EPjHmaT23yvVM2ZWbrrpZb9PusVFin".
Definition bonk : string := "DezXAZ8z7PnrnRJjz3wXBoRgixCa6xjnB7YaB1pPB263".
Definition sig1 : string :=
  "2JsXQvkqN9sV7GxLmT4dYpR8cW3hUeZoAb5nCfDi6jKyHtMgP1uSrVw9qXzE7aBcLdNfGh2oJk4mQpRt5k9Rk".

Definition baseTx : HeliusTransaction :=
  {| Signature := sig1; Timestamp := 1700000000; Fee := 5000; FeePayer := wallet;
     Type_ := "TRANSFER"; Source := "SYSTEM_PROGRAM"; Description := "";
     TokenTransfers := []; NativeTransfers := []; AccountData_ := [];
     TransactionError := None; Events := {| Swap := None |} |}.

Definition with_AccountData (ads : list AccountData) (tx : HeliusTransaction)
  : HeliusTransaction :=
  {| Signature := Signature tx; Timestamp := Timestamp tx; Fee := Fee tx;
     FeePayer := FeePayer tx; Type_ := Type_ tx; Source := Source tx;
     Description := Description tx; TokenTransfers := TokenTransfers tx;
     NativeTransfers := NativeTransfers tx; AccountData_ := ads;
     TransactionError := TransactionError tx; Events := Events tx |}.

Definition with_TransactionError (e : option string) (tx : HeliusTransaction)
  : HeliusTransaction :=
  {| Signature := Signature tx; Timestamp := Timestamp tx; Fee := Fee tx;
     FeePayer := FeePayer tx; Type_ := Type_ tx; Source := Source tx;
     Description := Description tx; TokenTransfers := TokenTransfers tx;
     NativeTransfers := NativeTransfers tx; AccountData_ := AccountData_ tx;
     TransactionError := e; Events := Events tx |}.

Definition with_TokenTransfers (tts : list TokenTransfer) (tx : HeliusTransaction)
  : HeliusTransaction :=
  {| Signature := Signature tx; Timestamp := Timestamp tx; Fee := Fee tx;
     FeePayer := FeePayer tx; Type_ := Type_ tx; Source := Source tx;
     Description := Description tx; TokenTransfers := tts;
     NativeTransfers := NativeTransfers tx; AccountData_ := AccountData_ tx;
     TransactionError := TransactionError tx; Events := Events tx |}.

Definition with_Signature (sig : string) (tx : HeliusTransaction) : HeliusTransaction :=
  {| Signature := sig; Timestamp := Timestamp tx; Fee := Fee tx;
     FeePayer := FeePayer tx; Type_ := Type_ tx; Source := Source tx;
     Description := Description tx; TokenTransfers := TokenTransfers tx;
     NativeTransfers := NativeTransfers tx; AccountData_ := AccountData_ tx;
     TransactionError := TransactionError tx; Events := Events tx |}.

(** The fee-only transaction: the wallet pays 5000 lamports, nothing else moves. *)
Definition feeOnlyTx : HeliusTransaction :=
  with_AccountData
    [ {| Account := other; NativeBalanceChange := 0; TokenBalanceChanges := [] |};
      {| Account := wallet; NativeBalanceChange := -5000; TokenBalanceChanges := [] |} ]
    baseTx.

(** The same transaction, failed on chain. *)
Definition failedFeeOnlyTx : HeliusTransaction :=
  with_TransactionError
    (Some ("{" +:+ dquote +:+ "InstructionError" +:+ dquote +:+ ":[0," +:+
           dquote +:+ "Custom" +:+ dquote +:+ "]}"))
    feeOnlyTx.

(** A clock that advances by one second at every reading. *)
Definition seconds (n : nat) : Z := Z.of_nat n * 1000000000.

Definition logsNotif (sig : string) : tracker.logsNotification :=
  {| tracker.Method := "logsNotification"; tracker.Signature_ := sig;
     tracker.Err := None |}.

(** A callback that returns for every signature, and one that panics for
    the signatures of fewer than 20 bytes. *)
Definition callbackOK : option (string -> string -> bool) := Some (fun _ _ => true).
Definition callbackPicky : option (string -> string -> bool) :=
  Some (fun signature _ => 20 <=? len signature).

(** The enrichment service answers with status 200 and the one transaction [tx]. *)
Definition envServing (tx : HeliusTransaction) : Env :=
  {| env_now := seconds;
     env_price := fun _ => PriceTransportError;
     env_meta := fun _ => MetaErr;
     env_helius := fun _ => HeliusResponse 200 "[...]" (Some [tx]);
     env_urlParses := fun _ => true;
     env_order := fun _ => [1; 0]%nat |}.

Definition bonkMeta : TokenMetadata := {| Symbol := "Bonk"; Decimals := 5 |}.

(** A world in which every metadata lookup finds [bonkMeta]. *)
Definition envResolving : Env :=
  {| env_now := seconds;
     env_price := fun _ => PriceTransportError;
     env_meta := fun _ => MetaOk bonkMeta;
     env_helius := fun _ => HeliusResponse 500 "internal error" None;
     env_urlParses := fun _ => true;
     env_order := fun _ => [] |}.

(** A failed transaction whose record carries a three-byte signature. *)
Definition shortSigTx : HeliusTransaction := with_Signature "abc" failedFeeOnlyTx.

(** A transfer of 2.5 units of a token to the wallet, fee paid by the wallet. *)
Definition bonkIn : TokenTransfer :=
  {| FromTokenAccount := "src"; ToTokenAccount := "dst";
     FromUserAccount := other; ToUserAccount := wallet; Mint := bonk;
     TokenAmount := of_decimal 25 (-1); TokenStandard := "Fungible" |}.

Definition receiveTx : HeliusTransaction :=
  with_TokenTransfers [bonkIn] feeOnlyTx.

(** The wallet wraps nothing itself and receives 0.5 wrapped SOL from
    another party, while paying a fee of 5000 lamports. *)
Definition wsolIn : TokenTransfer :=
  {| FromTokenAccount := "src"; ToTokenAccount := "dst";
     FromUserAccount := other; ToUserAccount := wallet; Mint := wsolMint;
     TokenAmount := of_decimal 5 (-1); TokenStandard := "Fungible" |}.

Definition wsolInTx : HeliusTransaction :=
  with_NativeTransfers
    [ {| nt_FromUserAccount := other; nt_ToUserAccount := wallet; nt_Amount := 777 |} ]
    (with_TokenTransfers [wsolIn] feeOnlyTx).

(** A swap whose event reports, for the wrapped native mint, a raw amount
    of [10^9] units with [decimals = 0] instead of 9. *)
Definition oddSwapTx : HeliusTransaction :=
  {| Signature := sig1; Timestamp := 1700000000; Fee := 5000; FeePayer := wallet;
     Type_ := "SWAP"; Source := "JUPITER"; Description := "";
     TokenTransfers := []; NativeTransfers := [];
     AccountData_ :=
       [ {| Account := wallet; NativeBalanceChange := -1000005000;
            TokenBalanceChanges := [] |} ];
     TransactionError := None;
     Events :=
       {| Swap := Some
            {| TokenInputs :=
                 [ {| sw_UserAccount := wallet;
                      sw_RawTokenAmount :=
                        {| raw_TokenAmount := "1000000000"; raw_Decimals := 0 |};
                      sw_Mint := wsolMint |} ];
               TokenOutputs :=
                 [ {| sw_UserAccount := wallet;
                      sw_RawTokenAmount :=
                        {| raw_TokenAmount := "150000000"; raw_Decimals := 6 |};
                      sw_Mint := usdcMint |} ] |} |} |}.

End Sample.

(** The test [solValueChange < filterThreshold] of [shouldFilter], for a
    native change of [n] lamports: the change in SOL, as the binary64
    quotient [float64(n) / 1e9], is below the binary64 constant [0.0001] in
    magnitude. *)
Definition belowThreshold (n : Z) : bool :=
  ltb (abs (div (of_int n) lamportsPerSol)) filterThreshold.

(** The test run on every balance change from [base * 2 ^ digits] up to
    [(base + 1) * 2 ^ digits], those of 100000 lamports or more left out. *)
Fixpoint belowThresholdOn (digits : nat) (base : Z) : bool :=
  match digits with
  | O => (100000 <=? base) || belowThreshold base
  | S d => belowThresholdOn d (2 * base) && belowThresholdOn d (2 * base + 1)
  end.

(** Linear arithmetic with division and remainder. *)
Ltac mod_lia := Z.to_euclidean_division_equations; lia.

(** * More of the code, and the vocabulary of its properties *)

(** The computation returns from every state: it does not panic. *)
Definition returns {A} (c : M A) : Prop := forall st, is_Some (c st).

(** ** internal/analyzer/fetch.go: [fetchOnChainMetadata] *)

Definition splTokenProgramID : string := "TokenkegQfeZyiNwAJbNbGKPFXCWuBvf9Ss623VQ5DA".
Definition metaplexMetadataProgramID : string := "metaqbxxUerdq28cj1RbAWkYQm3ybzjb6a8bt518x1s".

(** What [rpcCall] leaves when its request is built: an error (transport,
    status other than 200, or a body that does not decode), or the decoded
    result. *)
Inductive rpcResult (A : Type) :=
  | rpcFailed
  | rpcDecoded (result : A).
Arguments rpcFailed {A}.
Arguments rpcDecoded {A} result.

(** The chain RPC as [fetchOnChainMetadata] uses it, and the base64 decoder
    and the URL parser of the Go library, whose results are taken as given:
    [getAccountInfo] with the [jsonParsed] encoding gives the owner and the
    decimals, [getProgramAccounts] the public keys of the accounts found,
    [getAccountInfo] with the [base64] encoding the [data] array;
    [urlParses u] tells whether [url.Parse] accepts [u]. *)
Record ChainRpc := {
  getAccountInfo_jsonParsed : string -> rpcResult (string * Z);
  getProgramAccounts : string -> rpcResult (list string);
  getAccountInfo_base64 : string -> rpcResult (list string);
  DecodeString : string -> option (list ascii);
  urlParses : string -> bool
}.

(** [rpcCall], [answer] being what the server and the decoder give: the
    error of [http.NewRequestWithContext] is dropped and a header of the
    request is set, a nil pointer dereference when the URL does not parse.
    [None] is a panic. *)
Definition rpcCall {A} (rpc : ChainRpc) (rpcURL : string) (answer : rpcResult A)
  : option (rpcResult A) :=
  if negb (urlParses rpc rpcURL) then None else Some answer.

(** The errors of [fetchOnChainMetadata], in the order of its [return]s. *)
Inductive metaError :=
  | ErrGetAccountInfo
  | ErrUnsupportedTokenProgram (owner : string)
  | ErrGetProgramAccounts
  | ErrPdaNotFound
  | ErrGetPdaInfo
  | ErrPdaNoData
  | ErrDecodePda
  | ErrDataTooShort
  | ErrNameLength
  | ErrSymbolLength.

(** A byte slice: its bytes and its capacity. [base64.DecodeString]
    allocates [DecodedLen(len(s)) = len(s) / 4 * 3] bytes and returns the
    first [n] of them; the others are zero. *)
Record byteSlice := { sl_bytes : list ascii; sl_cap : Z }.

Definition sl_len (b : byteSlice) : Z := Z.of_nat (length (sl_bytes b)).

(** [b[lo:hi]]: a slice expression panics unless [0 <= lo <= hi <= cap(b)];
    bytes from [len(b)] on are the zero bytes of the allocation. *)
Definition subslice (b : byteSlice) (lo hi : Z) : option (list ascii) :=
  if (0 <=? lo) && (lo <=? hi) && (hi <=? sl_cap b) then
    Some (take (Z.to_nat (hi - lo))
            (drop (Z.to_nat lo) (sl_bytes b) ++ replicate (Z.to_nat (hi - lo)) Ascii.zero))
  else None.

(** [binary.LittleEndian.Uint32] *)
Definition Uint32 (b : list ascii) : option Z :=
  match b with
  | b0 :: b1 :: b2 :: b3 :: _ =>
      Some (Z.of_nat (nat_of_ascii b0)
            + Z.shiftl (Z.of_nat (nat_of_ascii b1)) 8
            + Z.shiftl (Z.of_nat (nat_of_ascii b2)) 16
            + Z.shiftl (Z.of_nat (nat_of_ascii b3)) 24)
  | _ => None
  end.

Fixpoint dropZeroBytes (r : list ascii) : list ascii :=
  match r with
  | c :: r' => if Ascii.eqb c Ascii.zero then dropZeroBytes r' else r
  | [] => []
  end.

(** [bytes.TrimRight(b, "\x00")] *)
Definition TrimRightZero (b : list ascii) : list ascii := rev (dropZeroBytes (rev b)).

Definition headerOffset : Z := 65.

(** Step 4 of [fetchOnChainMetadata]: the symbol in the raw data of the
    metadata account. [None] is a panic. ([int] has 64 bits.) *)
Definition parseSymbol (rawData : byteSlice) : option (string + metaError) :=
  if sl_len rawData <? headerOffset then Some (inr ErrDataTooShort)
  else
    nameBytes ← subslice rawData headerOffset (headerOffset + 4);
    nameLen ← Uint32 nameBytes;
    let symbolOffset := headerOffset + 4 + nameLen in
    if sl_len rawData <? symbolOffset + 4 then Some (inr ErrNameLength)
    else
      symbolLenBytes ← subslice rawData symbolOffset (symbolOffset + 4);
      symbolLen ← Uint32 symbolLenBytes;
      let symbolEnd := symbolOffset + 4 + symbolLen in
      if sl_len rawData <? symbolEnd then Some (inr ErrSymbolLength)
      else
        symbolBytes ← subslice rawData (symbolOffset + 4) symbolEnd;
        Some (inl (string_of (TrimRightZero symbolBytes))).

Definition fetchOnChainMetadata (rpc : ChainRpc) (mint rpcURL : string)
  : option (TokenMetadata + metaError) :=
  accInfo ← rpcCall rpc rpcURL (getAccountInfo_jsonParsed rpc mint);
  match accInfo with
  | rpcFailed => Some (inr ErrGetAccountInfo)
  | rpcDecoded (owner, decimals) =>
      if negb (String.eqb owner splTokenProgramID)
      then Some (inr (ErrUnsupportedTokenProgram owner))
      else
        progAccounts ← rpcCall rpc rpcURL (getProgramAccounts rpc mint);
        match progAccounts with
        | rpcFailed => Some (inr ErrGetProgramAccounts)
        | rpcDecoded [] => Some (inr ErrPdaNotFound)
        | rpcDecoded (pdaAddress :: _) =>
            pdaInfo ← rpcCall rpc rpcURL (getAccountInfo_base64 rpc pdaAddress);
            match pdaInfo with
            | rpcFailed => Some (inr ErrGetPdaInfo)
            | rpcDecoded [] => Some (inr ErrPdaNoData)
            | rpcDecoded (data0 :: _) =>
                match DecodeString rpc data0 with
                | None => Some (inr ErrDecodePda)
                | Some raw =>
                    let rawData := {| sl_bytes := raw;
                                      sl_cap := Z.quot (len data0) 4 * 3 |} in
                    r ← parseSymbol rawData;
                    match r with
                    | inr e => Some (inr e)
                    | inl symbol => Some (inl {| Symbol := symbol; Decimals := decimals |})
                    end
                end
            end
        end
  end.

(** The answer [cacheMint] gets from the lookup. *)
Definition lookupOf (r : option (TokenMetadata + metaError)) : MetaLookup :=
  match r with
  | Some (inl meta) => MetaOk meta
  | Some (inr _) => MetaErr
  | None => MetaPanic
  end.

(** The four bytes of a length, least significant first. *)
Definition le32 (n : Z) : list ascii :=
  [ascii_of_nat (Z.to_nat (n mod 256));
   ascii_of_nat (Z.to_nat ((n / 256) mod 256));
   ascii_of_nat (Z.to_nat ((n / 65536) mod 256));
   ascii_of_nat (Z.to_nat ((n / 16777216) mod 256))].

(** A metadata record: 65 bytes of header, the name and the symbol, each
    preceded by its length, and whatever follows. *)
Definition metadataRecord (header name symbol rest : list ascii) : list ascii :=
  header ++ le32 (Z.of_nat (length name)) ++ name
         ++ le32 (Z.of_nat (length symbol)) ++ symbol ++ rest.

(** ** More of Go's [strings] and [sort] packages *)

Module gostrings.

(** [strings.HasPrefix] *)
Fixpoint HasPrefix (s pre : string) : bool :=
  match pre, s with
  | EmptyString, _ => true
  | String p pre', String c s' => Ascii.eqb c p && HasPrefix s' pre'
  | String _ _, EmptyString => false
  end.

(** The UTF-8 encodings of the characters [unicode.IsSpace] accepts: the
    six ASCII ones (tab, line feed, vertical tab, form feed, carriage return,
    space), U+0085, U+00A0, U+1680, U+2000 to U+200A, U+2028, U+2029, U+202F,
    U+205F and U+3000. *)
Definition asciiSpace (c : ascii) : bool :=
  let n := nat_of_ascii c in ((9 <=? n) && (n <=? 13) || (n =? 32))%nat.

Definition bytes_are (l : list ascii) (codes : list Z) : bool :=
  forallb (fun p : ascii * Z => Z.of_nat (nat_of_ascii p.1) =? p.2) (zip l codes)
  && (length l =? length codes)%nat.

(** The number of bytes of the white space character that [l] starts with,
    [0] when it starts with none. *)
Definition spaceWidth (l : list ascii) : nat :=
  match l with
  | c :: _ =>
      if asciiSpace c then 1%nat
      else
        let two := take 2 l in
        let three := take 3 l in
        if bytes_are two [194; 133] || bytes_are two [194; 160] then 2%nat
        else if bytes_are three [225; 154; 128]
                || (bytes_are (take 2 three) [226; 128]
                    && match three !! 2%nat with
                       | Some b => let n := nat_of_ascii b in
                                   ((128 <=? n) && (n <=? 138) || (n =? 168) || (n =? 169)
                                    || (n =? 175))%nat
                       | None => false
                       end)
                || bytes_are three [226; 129; 159]
                || bytes_are three [227; 128; 128]
             then 3%nat
        else 0%nat
  | [] => 0%nat
  end.

(** [strings.TrimLeftFunc(s, unicode.IsSpace)], by the number of bytes left
    to look at. *)
Fixpoint trimLeft (fuel : nat) (l : list ascii) : list ascii :=
  match fuel with
  | O => l
  | S fuel' =>
      match spaceWidth l with
      | O => l
      | w => trimLeft fuel' (drop w l)
      end
  end.

(** The number of bytes of the white space character that [l] ends with. *)
Definition spaceWidthLast (l : list ascii) : nat :=
  let n := length l in
  if (1 <=? n)%nat && (spaceWidth (drop (n - 1) l) =? 1)%nat then 1%nat
  else if (2 <=? n)%nat && (spaceWidth (drop (n - 2) l) =? 2)%nat then 2%nat
  else if (3 <=? n)%nat && (spaceWidth (drop (n - 3) l) =? 3)%nat then 3%nat
  else 0%nat.

Fixpoint trimRight (fuel : nat) (l : list ascii) : list ascii :=
  match fuel with
  | O => l
  | S fuel' =>
      match spaceWidthLast l with
      | O => l
      | w => trimRight fuel' (take (length l - w) l)
      end
  end.

(** [strings.TrimSpace] *)
Definition TrimSpace (s : string) : string :=
  let l := bytes_of s in
  let l := trimLeft (length l) l in
  string_of (trimRight (length l) l).

(** [strings.Fields]: the maximal runs of bytes between white space
    characters; [cur] is the field being read, reversed. *)
Fixpoint fieldsFrom (fuel : nat) (l cur : list ascii) : list string :=
  let flush := match cur with [] => [] | _ => [string_of (rev cur)] end in
  match fuel with
  | O => flush
  | S fuel' =>
      match l with
      | [] => flush
      | c :: rest =>
          match spaceWidth l with
          | O => fieldsFrom fuel' rest (c :: cur)
          | w => flush ++ fieldsFrom fuel' (drop w l) []
          end
      end
  end.

Definition Fields (s : string) : list string :=
  fieldsFrom (S (length (bytes_of s))) (bytes_of s) [].

(** [strings.IndexByte]; [-1] when the byte does not occur. This is also
    [strings.IndexRune] for a character below [utf8.RuneSelf]. *)
Fixpoint IndexByte (s : string) (c : ascii) : Z :=
  match s with
  | EmptyString => -1
  | String d s' =>
      if Ascii.eqb d c then 0
      else let i := IndexByte s' c in if i <? 0 then -1 else i + 1
  end.

(** [sort.Strings] puts the strings in increasing order, the order of
    [String.compare] on bytes; the result does not depend on the algorithm,
    here insertion. *)
Fixpoint insertString (x : string) (l : list string) : list string :=
  match l with
  | [] => [x]
  | y :: l' => if String.leb x y then x :: l else y :: insertString x l'
  end.

Definition SortStrings (l : list string) : list string := fold_right insertString [] l.

(** [strings.Index]: the offset of the first occurrence of [sep], [-1] when
    there is none. *)
Fixpoint Index (s sep : string) : Z :=
  if HasPrefix s sep then 0
  else match s with
       | EmptyString => -1
       | String _ s' => let i := Index s' sep in if i <? 0 then -1 else i + 1
       end.

(** [strings.IndexAny] for a set [chars] of ASCII characters: the offset of
    the first byte of [s] that is one of them. *)
Fixpoint IndexAny (s chars : string) : Z :=
  match s with
  | EmptyString => -1
  | String c s' =>
      if existsb (Ascii.eqb c) (bytes_of chars) then 0
      else let i := IndexAny s' chars in if i <? 0 then -1 else i + 1
  end.

(** [strings.Split] for a separator that is not empty: the loop of
    [genSplit], which cuts at the first occurrence of [sep] and goes on
    behind it; [s] has no more than [len(s)] occurrences. *)
Fixpoint splitLoop (fuel : nat) (s sep : string) : list string :=
  match fuel with
  | O => [s]
  | S fuel' =>
      let m := Index s sep in
      if m <? 0 then [s]
      else string_of (take (Z.to_nat m) (bytes_of s))
           :: splitLoop fuel' (string_of (drop (Z.to_nat (m + len sep)) (bytes_of s))) sep
  end.

Definition SplitOn (s sep : string) : list string :=
  splitLoop (String.length s) s sep.

(** [strings.Replace(s, old, new, 1)] for an [old] that is not empty. *)
Definition ReplaceFirst (s old new : string) : string :=
  if String.eqb old new then s
  else
    let j := Index s old in
    if j <? 0 then s
    else string_of (take (Z.to_nat j) (bytes_of s)) +:+ new
         +:+ string_of (drop (Z.to_nat (j + len old)) (bytes_of s)).

(** [strconv.ParseInt(s, 10, 64)]: the value, or [None] for an error (a
    text that is not an optional sign and decimal digits, or a value that
    does not fit 64 bits). *)
Definition ParseInt (s : string) : option Z :=
  match s with
  | EmptyString => None
  | String c r =>
      let neg := Ascii.eqb c "-" in
      let digits := if Ascii.eqb c "+" || neg then r else s in
      if String.eqb digits "" then None
      else if negb (forallb golib.is_digit (bytes_of digits)) then None
      else
        let un := golib.digits_val (bytes_of digits) in
        if neg then (if 2 ^ 63 <? un then None else Some (- un))
        else (if 2 ^ 63 <=? un then None else Some un)
  end.

End gostrings.

(** Every byte is below [utf8.RuneSelf]. *)
Definition isASCII (s : string) : bool :=
  forallb (fun c => (nat_of_ascii c <? 128)%nat) (bytes_of s).

(** ** internal/tracker/manager.go *)

Module manager.

(** A [*Subscriber] as the manager sees it: the subscriber with its
    endpoint, the two flags, and the state of [stopOnce] and [stopCh]. *)
Record Handle := {
  sub : tracker.Subscriber;
  wss : string;
  commitment : string;
  open : bool;
  shouldOpen : bool;
  stopOnce_done : bool;
  stopCh_closed : bool
}.

(** [NewSubscriber] of subscriber.go, in full. *)
Definition NewSubscriber (wss_ commitment_ addr_ : string) : Handle :=
  {| sub := tracker.NewSubscriber (gostrings.TrimSpace addr_);
     wss := gostrings.TrimSpace wss_;
     commitment := gostrings.TrimSpace commitment_;
     open := false; shouldOpen := true;
     stopOnce_done := false; stopCh_closed := false |}.

Definition IsOpen (s : Handle) : bool := open s.
Definition ShouldBeOpen (s : Handle) : bool := shouldOpen s.

(** [Stop]: [stopOnce.Do] runs its function the first time only; closing a
    closed channel is a panic ([None]). *)
Definition Stop (s : Handle) : option Handle :=
  if stopOnce_done s then Some s
  else if stopCh_closed s then None
  else Some {| sub := sub s; wss := wss s; commitment := commitment s;
               open := open s; shouldOpen := false;
               stopOnce_done := true; stopCh_closed := true |}.

(** The manager, and the addresses for which [go sub.Run(ctx)] was
    executed, in order. *)
Record Manager := {
  m_wss : string;
  m_commitment : string;
  subs : gmap string Handle;
  started : list string
}.

Definition NewManager (wss_ commitment_ : string) : Manager :=
  {| m_wss := wss_; m_commitment := commitment_; subs := ∅; started := [] |}.

Definition set_subs (s : gmap string Handle) (m : Manager) : Manager :=
  {| m_wss := m_wss m; m_commitment := m_commitment m; subs := s; started := started m |}.

(** [Track]; the error it returns is always nil. *)
Definition Track (addr : string) (m : Manager) : Manager :=
  match subs m !! addr with
  | Some _ => m
  | None =>
      {| m_wss := m_wss m; m_commitment := m_commitment m;
         subs := <[addr := NewSubscriber (m_wss m) (m_commitment m) addr]> (subs m);
         started := (started m ++ [addr])%list |}
  end.

(** [Untrack]; the error it returns is always nil. *)
Definition Untrack (addr : string) (m : Manager) : option Manager :=
  match subs m !! addr with
  | Some s => _ ← Stop s; Some (set_subs (delete addr (subs m)) m)
  | None => Some m
  end.

Definition List (m : Manager) : list string :=
  gostrings.SortStrings (map fst (map_to_list (subs m))).

(** The loop of [Stats]; the order in which Go ranges over the map is
    unspecified, the model takes that of [map_to_list]. *)
Definition statsStep (acc : Z * list string) (entry : string * Handle) : Z * list string :=
  let '(open_, dropped) := acc in
  let '(addr, s) := entry in
  if IsOpen s then (open_ + 1, dropped)
  else if ShouldBeOpen s then (open_, (dropped ++ [addr])%list)
  else (open_, dropped).

Definition Stats (m : Manager) : Z * Z * list string :=
  let tracked := Z.of_nat (size (subs m)) in
  let '(open_, dropped) := fold_left statsStep (map_to_list (subs m)) (0, []) in
  (tracked, open_, gostrings.SortStrings dropped).

(** [StopAll] stops every subscriber and leaves it in the map. *)
Definition StopAll (m : Manager) : option Manager :=
  s ← fold_left (fun (acc : option (gmap string Handle)) (entry : string * Handle) =>
                   subs_ ← acc;
                   stopped ← Stop entry.2;
                   Some (<[entry.1 := stopped]> subs_))
                (map_to_list (subs m)) (Some (subs m));
  Some (set_subs s m).

(** What happens to a manager: the three commands, and a subscriber's own
    goroutine setting its [open] flag. *)
Inductive Op :=
  | OpTrack (addr : string)
  | OpUntrack (addr : string)
  | OpStopAll
  | OpSetOpen (addr : string) (b : bool).

Definition setOpen (b : bool) (s : Handle) : Handle :=
  {| sub := sub s; wss := wss s; commitment := commitment s;
     open := b; shouldOpen := shouldOpen s;
     stopOnce_done := stopOnce_done s; stopCh_closed := stopCh_closed s |}.

Definition step (m : Manager) (op : Op) : option Manager :=
  match op with
  | OpTrack addr => Some (Track addr m)
  | OpUntrack addr => Untrack addr m
  | OpStopAll => StopAll m
  | OpSetOpen addr b => Some (set_subs (alter (setOpen b) addr (subs m)) m)
  end.

Fixpoint run (m : Manager) (ops : list Op) : option Manager :=
  match ops with
  | [] => Some m
  | op :: rest => m' ← step m op; run m' rest
  end.

(** The addresses whose latest [Track] or [Untrack] command is a [Track]. *)
Definition trackedAfter (ops : list Op) : gset string :=
  fold_left (fun (acc : gset string) op =>
               match op with
               | OpTrack addr => {[ addr ]} ∪ acc
               | OpUntrack addr => acc ∖ {[ addr ]}
               | _ => acc
               end) ops ∅.

End manager.

(** Each string is at most the next one, in the order of [sort.Strings]. *)
Fixpoint increasing (l : list string) : Prop :=
  match l with
  | a :: (b :: _) as l' => String.leb a b = true /\ increasing l'
  | _ => True
  end.

(** [stopCh] is closed by [stopOnce] only, and a subscriber should be open
    until it is stopped. *)
Definition stoppedOnce (m : manager.Manager) : Prop :=
  forall a h, manager.subs m !! a = Some h ->
              manager.stopCh_closed h = manager.stopOnce_done h
              /\ manager.shouldOpen h = negb (manager.stopOnce_done h).

(** [%d] *)
Definition formatInt (n : Z) : string :=
  if n <? 0 then "-" +:+ strconv.itoa (- n) else strconv.itoa n.

(** ** internal/telegram/handler.go *)

Module telegram.

(** The replacer of [escapeHTML]: its four old strings are single bytes, so
    every byte is replaced on its own. *)
Definition escapeByte (c : ascii) : string :=
  if Ascii.eqb c "&" then "&amp;"
  else if Ascii.eqb c "<" then "&lt;"
  else if Ascii.eqb c ">" then "&gt;"
  else if Ascii.eqb c (ascii_of_nat 34) then "&quot;"
  else String c EmptyString.

Fixpoint escapeHTML (s : string) : string :=
  match s with
  | EmptyString => EmptyString
  | String c s' => escapeByte c +:+ escapeHTML s'
  end.

(** The wallet store behind the [WalletStore] interface (its code is not
    among these sources) and the rest of the world of the handler: the
    error, if any, of the [n]-th call to the store, the list [ListWallets]
    returns, the text of a transport error, and the time of a health report
    in RFC 3339 form. *)
Record World := {
  w_env : Env;
  AddWallet : nat -> string -> option string;
  RemoveWallet : nat -> string -> option string;
  ListWallets : nat -> option (list string);
  transportErrorText : string;
  nowRFC3339 : string
}.

Inductive StoreCall :=
  | CallAddWallet (addr : string)
  | CallRemoveWallet (addr : string)
  | CallListWallets.

(** The handler: the admin chat, the manager, the analyzer, whether
    [killFn] is set; and what it did: the calls to the store, the messages
    given to [SendMessage] (chat and text), the calls of [killFn]. *)
Record Handler := {
  adminID : Z;
  tm : manager.Manager;
  analyzer : St;
  killFn_set : bool;
  storeCalls : list StoreCall;
  outbox : list (Z * string);
  killCalls : nat
}.

Definition sendHTML (chatID : Z) (html : string) (h : Handler) : Handler :=
  {| adminID := adminID h; tm := tm h; analyzer := analyzer h; killFn_set := killFn_set h;
     storeCalls := storeCalls h; outbox := (outbox h ++ [(chatID, html)])%list;
     killCalls := killCalls h |}.

Definition set_tm (m : manager.Manager) (h : Handler) : Handler :=
  {| adminID := adminID h; tm := m; analyzer := analyzer h; killFn_set := killFn_set h;
     storeCalls := storeCalls h; outbox := outbox h; killCalls := killCalls h |}.

Definition set_analyzer (st : St) (h : Handler) : Handler :=
  {| adminID := adminID h; tm := tm h; analyzer := st; killFn_set := killFn_set h;
     storeCalls := storeCalls h; outbox := outbox h; killCalls := killCalls h |}.

Definition storeCall (c : StoreCall) (h : Handler) : Handler :=
  {| adminID := adminID h; tm := tm h; analyzer := analyzer h; killFn_set := killFn_set h;
     storeCalls := (storeCalls h ++ [c])%list; outbox := outbox h;
     killCalls := killCalls h |}.

Definition callKillFn (h : Handler) : Handler :=
  {| adminID := adminID h; tm := tm h; analyzer := analyzer h; killFn_set := killFn_set h;
     storeCalls := storeCalls h; outbox := outbox h; killCalls := S (killCalls h) |}.

Definition addWallet (w : World) (addr : string) (h : Handler) : option string * Handler :=
  (AddWallet w (length (storeCalls h)) addr, storeCall (CallAddWallet addr) h).

Definition removeWallet (w : World) (addr : string) (h : Handler) : option string * Handler :=
  (RemoveWallet w (length (storeCalls h)) addr, storeCall (CallRemoveWallet addr) h).

(** [err.Error()] for the errors of [AnalyzeSignature]. *)
Fixpoint Error (w : World) (e : error) : string :=
  match e with
  | ErrTransport => transportErrorText w
  | ErrNon200 status body =>
      "helius api returned non-200 status: " +:+ formatInt status +:+ " " +:+ body
  | ErrDecodeOrEmpty signature =>
      "failed to decode or empty helius response for signature " +:+ signature
  | ErrFetchTx signature cause =>
      "failed to fetch tx " +:+ signature +:+ ": " +:+ Error w cause
  end.

(** [addr[:4] + "..." + addr[len(addr)-4:]] *)
Definition shortAddr (addr : string) : option string := ends4 addr.

(** The callback that [New] installs as [tracker.SignatureNotify]. [None]
    is a panic. *)
Definition SignatureNotify (w : World) (signature trackedAddr : string) (h : Handler)
  : option Handler :=
  r ← AnalyzeSignature (w_env w) signature trackedAddr (analyzer h);
  let '((summary, err), st') := r in
  let h := set_analyzer st' h in
  match err with
  | Some _ => Some h
  | None =>
      if String.eqb summary "" then Some h
      else
        short ← shortAddr trackedAddr;
        Some (sendHTML (adminID h)
                ("🚨 <b>Activity on " +:+ short +:+ "</b>" +:+ nl +:+ nl +:+ summary) h)
  end.

Definition helpText : string :=
  "🛠 <b>solwatch v2</b>" +:+ nl +:+ nl +:+
  "<b>Commands:</b>" +:+ nl +:+
  "- <code>/track &lt;address&gt;</code> - Start tracking a wallet" +:+ nl +:+
  "- <code>/untrack &lt;address&gt;</code> - Stop tracking a wallet" +:+ nl +:+
  "- <code>/trackmany &lt;...&gt;</code> - Add multiple wallets" +:+ nl +:+
  "- <code>/untrackmany &lt;...&gt;</code> - Remove multiple wallets" +:+ nl +:+
  "- <code>/tracked</code> - List tracked wallets" +:+ nl +:+
  "- <code>/health</code> - Show service health" +:+ nl +:+
  "- <code>/kill</code> - Shutdown the service" +:+ nl +:+ nl +:+
  "<b>Debug:</b>" +:+ nl +:+
  "- <code>/test &lt;sig&gt; &lt;addr&gt;</code> - Test analysis of a signature for a given wallet".

Definition replyHelp (chatID : Z) (h : Handler) : Handler :=
  sendHTML chatID (gostrings.TrimSpace (nl +:+ helpText +:+ nl)) h.

(** The [/test] command, once its two arguments are known. *)
Definition testCommand (w : World) (chatID : Z) (signature walletAddr : string)
    (h : Handler) : option Handler :=
  sig10 ← slice_to signature 10;
  addr4 ← slice_to walletAddr 4;
  let h := sendHTML chatID
             ("🔬 Analyzing signature <code>" +:+ sig10 +:+ "...</code> for wallet <code>"
              +:+ addr4 +:+ "...</code>") h in
  r ← AnalyzeSignature (w_env w) signature walletAddr (analyzer h);
  let '((summary, err), st') := r in
  let h := set_analyzer st' h in
  match err with
  | Some e =>
      Some (sendHTML chatID
              ("<b>Analysis Failed:</b>" +:+ nl +:+ "<code>" +:+ Error w e +:+ "</code>") h)
  | None =>
      if String.eqb summary "" then
        Some (sendHTML chatID
                ("✅ <b>Analysis Complete:</b>" +:+ nl +:+
                 "Transaction was filtered (likely spam or dust).") h)
      else
        short ← shortAddr walletAddr;
        Some (sendHTML chatID
                ("🧪 <b>Test Result for " +:+ short +:+ "</b>" +:+ nl +:+ nl +:+ summary) h)
  end.

(** One iteration of the loop of [/trackmany]; the counters are [added] and
    [failed]. ([Track] returns no error, so its error branch is never taken.) *)
Definition trackOne (w : World) (acc : Handler * Z * Z) (addr : string) : Handler * Z * Z :=
  let '(h, added, failed) := acc in
  let '(err, h) := addWallet w addr h in
  match err with
  | Some _ => (h, added, failed + 1)
  | None => (set_tm (manager.Track addr (tm h)) h, added + 1, failed)
  end.

(** One iteration of the loop of [/untrackmany]; [None] is a panic. *)
Definition untrackOne (w : World) (acc : option (Handler * Z * Z)) (addr : string)
  : option (Handler * Z * Z) :=
  a ← acc;
  let '(h, removed, failed) := a in
  m ← manager.Untrack addr (tm h);
  let h := set_tm m h in
  let '(err, h) := removeWallet w addr h in
  match err with
  | Some _ => Some (h, removed, failed + 1)
  | None => Some (h, removed + 1, failed)
  end.

Definition trackedLine (a : string) : string :=
  "- <code>" +:+ escapeHTML a +:+ "</code>" +:+ nl.

(** [health.Snapshot] and the report made of it. *)
Definition healthReport (w : World) (h : Handler) : string * Handler :=
  let '(tracked, open_, dropped) := manager.Stats (tm h) in
  let persistedCount :=
    match ListWallets w (length (storeCalls h)) with
    | Some addrs => Z.of_nat (length addrs)
    | None => 0
    end in
  ("📊 <b>Health Report</b>" +:+ nl +:+
   "- Tracked (memory): <code>" +:+ formatInt tracked +:+ "</code>" +:+ nl +:+
   "- Open subs: <code>" +:+ formatInt open_ +:+ "</code>" +:+ nl +:+
   "- Dropped: <code>" +:+ formatInt (Z.of_nat (length dropped)) +:+ "</code>" +:+ nl +:+
   "- Tracked (store): <code>" +:+ formatInt persistedCount +:+ "</code>" +:+ nl +:+
   "- Time: <code>" +:+ nowRFC3339 w +:+ "</code>",
   storeCall CallListWallets h).

(** [handleCommand] for a message with the text [text] in the chat
    [chatID]; [None] is a panic. [strings.ToLower] is modelled for ASCII
    text. The goroutine that [/kill] starts is run at once. *)
Definition handleCommand (w : World) (chatID : Z) (text : string) (h : Handler)
  : option Handler :=
  let raw := gostrings.TrimSpace text in
  let lower := golib.ToLower raw in
  let idx := gostrings.IndexByte lower "@" in
  cut ← (if negb (idx =? -1)
         then lower' ← slice_to lower idx; raw' ← slice_to raw idx; Some (lower', raw')
         else Some (lower, raw));
  let '(lower, raw) := cut in
  if String.eqb lower "/help" then Some (replyHelp chatID h)
  else if gostrings.HasPrefix lower "/test " then
    rest ← slice_from raw (len "/test ");
    match gostrings.Fields rest with
    | [signature; walletAddr] => testCommand w chatID signature walletAddr h
    | _ => Some (sendHTML chatID
                   "usage: <code>/test &lt;signature&gt; &lt;wallet_address&gt;</code>" h)
    end
  else if gostrings.HasPrefix lower "/track " then
    rest ← slice_from raw (len "/track");
    let arg := gostrings.TrimSpace rest in
    if String.eqb arg "" then
      Some (sendHTML chatID "usage: <code>/track &lt;address&gt;</code>" h)
    else
      let '(err, h) := addWallet w arg h in
      match err with
      | Some e => Some (sendHTML chatID ("track failed: <code>" +:+ e +:+ "</code>") h)
      | None =>
          let h := set_tm (manager.Track arg (tm h)) h in
          Some (sendHTML chatID ("tracking <b>" +:+ escapeHTML arg +:+ "</b>") h)
      end
  else if gostrings.HasPrefix lower "/untrack " then
    rest ← slice_from raw (len "/untrack");
    let arg := gostrings.TrimSpace rest in
    if String.eqb arg "" then
      Some (sendHTML chatID "usage: <code>/untrack &lt;address&gt;</code>" h)
    else
      m ← manager.Untrack arg (tm h);
      let h := set_tm m h in
      let '(err, h) := removeWallet w arg h in
      match err with
      | Some e => Some (sendHTML chatID ("untrack failed: <code>" +:+ e +:+ "</code>") h)
      | None => Some (sendHTML chatID ("untracked <b>" +:+ escapeHTML arg +:+ "</b>") h)
      end
  else if gostrings.HasPrefix lower "/trackmany " then
    rest ← slice_from raw (len "/trackmany");
    match gostrings.Fields rest with
    | [] => Some (sendHTML chatID
                    "usage: <code>/trackmany &lt;addr1&gt; &lt;addr2&gt; ...</code>" h)
    | args =>
        let '(h, added, failed) := fold_left (trackOne w) args (h, 0, 0) in
        Some (sendHTML chatID
                ("trackmany done: added=" +:+ formatInt added +:+ " failed="
                 +:+ formatInt failed) h)
    end
  else if gostrings.HasPrefix lower "/untrackmany " then
    rest ← slice_from raw (len "/untrackmany");
    match gostrings.Fields rest with
    | [] => Some (sendHTML chatID
                    "usage: <code>/untrackmany &lt;addr1&gt; &lt;addr2&gt; ...</code>" h)
    | args =>
        r ← fold_left (untrackOne w) args (Some (h, 0, 0));
        let '(h, removed, failed) := r in
        Some (sendHTML chatID
                ("untrackmany done: removed=" +:+ formatInt removed +:+ " failed="
                 +:+ formatInt failed) h)
    end
  else if String.eqb lower "/tracked" then
    match manager.List (tm h) with
    | [] => Some (sendHTML chatID "<b>No wallets tracked.</b>" h)
    | list_ =>
        Some (sendHTML chatID
                (fold_left (fun b a => b +:+ trackedLine a) list_
                   ("📋 <b>Tracked Wallets:</b>" +:+ nl)) h)
    end
  else if String.eqb lower "/health" then
    let '(msg, h) := healthReport w h in
    Some (sendHTML chatID msg h)
  else if String.eqb lower "/kill" then
    let h := sendHTML chatID "🛑 shutting down..." h in
    Some (if killFn_set h then callKillFn h else h)
  else Some (sendHTML chatID "unknown command. try <code>/help</code>" h).

(** The handler that [Run] registers: [None] for [message] is a nil
    [u.Message]. *)
Definition onUpdate (w : World) (message : option (Z * string)) (h : Handler)
  : option Handler :=
  match message with
  | None => Some h
  | Some (chatID, text) =>
      if negb (chatID =? adminID h) then Some h
      else handleCommand w chatID text h
  end.

End telegram.

(** The bytes the replacer of [escapeHTML] replaces. *)
Definition htmlSpecial (c : ascii) : Prop :=
  c = "&"%char \/ c = "<"%char \/ c = ">"%char \/ c = ascii_of_nat 34.

(** From [h] to [h'] the handler keeps its admin chat and only adds
    messages for the chat [chatID]. *)
Definition repliesTo (chatID : Z) (h h' : telegram.Handler) : Prop :=
  telegram.adminID h' = telegram.adminID h
  /\ exists new, telegram.outbox h' = (telegram.outbox h ++ new)%list
                 /\ Forall (fun e : Z * string => e.1 = chatID) new.

(** The text is ASCII (where [golib.ToLower] is [strings.ToLower]), is a
    command that starts with [prefix] (in any case of letters) and holds no
    [@]; [rest] is what follows its first [cut] bytes, once the white space
    around the text is removed. *)
Definition commandWith (text prefix : string) (cut : Z) (rest : string) : Prop :=
  let raw := gostrings.TrimSpace text in
  let lower := golib.ToLower raw in
  isASCII text = true
  /\ gostrings.IndexByte lower "@" = -1
  /\ gostrings.HasPrefix lower prefix = true
  /\ slice_from raw cut = Some rest.

(** ** internal/config/env.go *)

Module config.

Record Config := {
  TelegramBotToken : string;
  TelegramAdminChatID : Z;
  HeliusWSS : string;
  HeliusAPIURL : string;
  DBPath : string;
  Commitment : string;
  SolanaRPCURL : string;
  LogLevel : string
}.

(** [Config{}] *)
Definition zeroConfig : Config :=
  {| TelegramBotToken := ""; TelegramAdminChatID := 0; HeliusWSS := ""; HeliusAPIURL := "";
     DBPath := ""; Commitment := ""; SolanaRPCURL := ""; LogLevel := "" |}.

Definition allowedCommitments : gset string :=
  {[ "processed"; "confirmed"; "finalized" ]}.

(** The process environment once [godotenv.Load] has run, and the [%q]
    verb of [fmt]. *)
Record Env := {
  Getenv : string -> string;
  Quote : string -> string
}.

(** [Load]: the configuration and the error, [None] for [nil]. *)
Definition Load (e : Env) : Config * option string :=
  let errs : list string := [] in
  let token := gostrings.TrimSpace (Getenv e "TELEGRAM_BOT_TOKEN") in
  let errs :=
    if String.eqb token ""
    then errs ++ ["TELEGRAM_BOT_TOKEN is required (get it from @BotFather)"]
    else errs in
  let adminStr := gostrings.TrimSpace (Getenv e "TELEGRAM_ADMIN_CHAT_ID") in
  let '(adminID, errs) :=
    if String.eqb adminStr ""
    then (0, errs ++ ["TELEGRAM_ADMIN_CHAT_ID is required (your numeric chat id)"])
    else
      match gostrings.ParseInt adminStr with
      | Some id =>
          if id =? 0
          then (0, errs ++ ["TELEGRAM_ADMIN_CHAT_ID must be a valid integer, got "
                            +:+ Quote e adminStr])
          else (id, errs)
      | None => (0, errs ++ ["TELEGRAM_ADMIN_CHAT_ID must be a valid integer, got "
                             +:+ Quote e adminStr])
      end in
  let wss := gostrings.TrimSpace (Getenv e "HELIUS_WSS") in
  let errs :=
    if String.eqb wss ""
    then errs ++ ["HELIUS_WSS is required (your Helius WebSocket RPC URL, incl. api key)"]
    else if negb (gostrings.HasPrefix (golib.ToLower wss) "wss://")
    then errs ++ ["HELIUS_WSS must start with wss://, got " +:+ Quote e wss]
    else errs in
  let api := gostrings.TrimSpace (Getenv e "HELIUS_API_URL") in
  let errs :=
    if String.eqb api ""
    then errs ++ ["HELIUS_API_URL is required (your Helius HTTP API URL for fetching transactions)"]
    else if negb (gostrings.HasPrefix (golib.ToLower api) "https://")
    then errs ++ ["HELIUS_API_URL must start with https://, got " +:+ Quote e api]
    else errs in
  let dbPath := gostrings.TrimSpace (Getenv e "DB_PATH") in
  let dbPath := if String.eqb dbPath "" then "solwatch.db" else dbPath in
  let commitment := gostrings.TrimSpace (Getenv e "COMMITMENT") in
  let commitment := if String.eqb commitment "" then "processed" else commitment in
  let commitment := golib.ToLower commitment in
  let '(cfgCommitment, errs) :=
    if negb (bool_decide (commitment ∈ allowedCommitments))
    then ("", errs ++ ["COMMITMENT must be one of processed|confirmed|finalized, got "
                       +:+ Quote e commitment])
    else (commitment, errs) in
  let rpc := gostrings.TrimSpace (Getenv e "SOLANA_RPC_URL") in
  let rpc := if String.eqb rpc "" then "https://api.mainnet-beta.solana.com" else rpc in
  let logLevel := gostrings.TrimSpace (golib.ToLower (Getenv e "LOG_LEVEL")) in
  let errs :=
    if String.eqb logLevel "" || String.eqb logLevel "info" || String.eqb logLevel "debug"
       || String.eqb logLevel "warn" || String.eqb logLevel "error"
    then errs
    else errs ++ ["LOG_LEVEL must be one of debug|info|warn|error, got " +:+ Quote e logLevel] in
  let logLevel := if String.eqb logLevel "" then "info" else logLevel in
  let cfg :=
    {| TelegramBotToken := token; TelegramAdminChatID := adminID; HeliusWSS := wss;
       HeliusAPIURL := api; DBPath := dbPath; Commitment := cfgCommitment;
       SolanaRPCURL := rpc; LogLevel := logLevel |} in
  if (0 <? length errs)%nat
  then (zeroConfig,
        Some ("config validation error:" +:+ nl +:+ "  - "
              +:+ strings.Join errs (nl +:+ "  - ")))
  else (cfg, None).

(** [redactToken]; [None] is a panic. *)
Definition redactToken (tok : string) : option string :=
  if 6 <? len tok then
    head ← slice_to tok 6;
    Some (head +:+ "...(redacted)")
  else if String.eqb tok "" then Some "(empty)"
  else Some "***".

(** [redactURL]; [None] is a panic. *)
Definition redactURL (u : string) : option string :=
  let parts := gostrings.SplitOn u "api-key=" in
  if Z.of_nat (length parts) <? 2 then Some u
  else
    tail ← parts !! 1%nat;
    let i := gostrings.IndexAny tail "&;" in
    tail ← (if 0 <=? i then slice_to tail i else Some tail);
    Some (gostrings.ReplaceFirst u ("api-key=" +:+ tail) "api-key=***").

(** [RedactedSummary] *)
Definition RedactedSummary (c : Config) : option string :=
  wss ← redactURL (HeliusWSS c);
  api ← redactURL (HeliusAPIURL c);
  tok ← redactToken (TelegramBotToken c);
  Some ("config{ commitment=" +:+ Commitment c +:+ ", db=" +:+ DBPath c
        +:+ ", helius_wss=" +:+ wss +:+ ", helius_api=" +:+ api
        +:+ ", solana_rpc=" +:+ SolanaRPCURL c +:+ ", telegram_bot_token=" +:+ tok
        +:+ ", admin_chat_id=" +:+ formatInt (TelegramAdminChatID c)
        +:+ ", log_level=" +:+ LogLevel c +:+ " }").

End config.

(** The URL [u] holds the API key [key] between [pre] and [rest]: [pre]
    holds no [api-key=], the key holds none of [&], [;] and [api-key=], and
    [rest] is empty or begins with [&] or [;]. *)
Definition apiKeyIn (u pre key rest : string) : Prop :=
  u = pre +:+ "api-key=" +:+ key +:+ rest
  /\ gostrings.Index pre "api-key=" = -1
  /\ gostrings.Index key "api-key=" = -1
  /\ gostrings.IndexAny key "&;" = -1
  /\ (rest = "" \/ gostrings.HasPrefix rest "&" = true \/ gostrings.HasPrefix rest ";" = true).

(** A bot for the test cases: the store never fails, the enrichment service
    answers with the transaction [tx]. *)
Module SampleBot.

Definition world (tx : HeliusTransaction) : telegram.World :=
  {| telegram.w_env := Sample.envServing tx;
     telegram.AddWallet := fun _ _ => None;
     telegram.RemoveWallet := fun _ _ => None;
     telegram.ListWallets := fun _ => Some [];
     telegram.transportErrorText := "connection refused";
     telegram.nowRFC3339 := "2025-01-01T00:00:00Z" |}.

Definition handler0 : telegram.Handler :=
  {| telegram.adminID := 42;
     telegram.tm := manager.NewManager "wss://rpc.example" "processed";
     telegram.analyzer := Sample.analyzer0;
     telegram.killFn_set := true;
     telegram.storeCalls := []; telegram.outbox := []; telegram.killCalls := 0 |}.

End SampleBot.

(** An environment for the test cases: the four required variables and a
    commitment, nothing else. *)
Definition sampleEnv : config.Env :=
  {| config.Getenv := fun k =>
       if String.eqb k "TELEGRAM_BOT_TOKEN" then " 12345678:AAbbCCdd "
       else if String.eqb k "TELEGRAM_ADMIN_CHAT_ID" then "42"
       else if String.eqb k "HELIUS_WSS" then "WSS://mainnet.helius-rpc.com/?api-key=abcd-1234"
       else if String.eqb k "HELIUS_API_URL"
       then "https://api.helius.xyz/v0/transactions/?api-key=abcd-1234&commitment=confirmed"
       else if String.eqb k "COMMITMENT" then "Confirmed"
       else "";
     config.Quote := fun s => dquote +:+ s +:+ dquote |}.

(** Reads the first byte of a text off a prefix test that succeeded. *)
Ltac peel H :=
  match type of H with
  | gostrings.HasPrefix ?s _ = true =>
      let c := fresh "c" in
      let Hc := fresh "Hc" in
      destruct s as [|c s]; [discriminate H|];
      cbn [gostrings.HasPrefix] in H;
      apply andb_true_iff in H as [Hc H];
      apply Ascii.eqb_eq in Hc; subst c
  end.

(** * Properties *)

(** ** Sanity checks of the library models against known outputs *)

Example of_decimal_1500_4 :
  of_decimal 15004 (-1) = S754_finite false 6598828985260442 (-42).
Proof. vm_compute. reflexivity. Qed.

Example of_decimal_12_345 :
  of_decimal 12345 (-3) = S754_finite false 6949617174986097 (-49).
Proof. vm_compute. reflexivity. Qed.

Example of_decimal_1e9 :
  of_decimal 1 9 = S754_finite false 8388608000000000 (-23)
  /\ of_int 1000000000 = of_decimal 1 9.
Proof. vm_compute. split; reflexivity. Qed.

Example FormatFloat_samples :
  strconv.FormatFloat_f (of_decimal 15004 (-1)) 0 = "1500"
  /\ strconv.FormatFloat_f (of_decimal 12345 (-3)) 2 = "12.35"
  /\ strconv.FormatFloat_f (of_decimal 9999995 (-1)) 0 = "1000000"
  /\ strconv.FormatFloat_f (of_decimal 125 (-3)) 2 = "0.12"
  /\ strconv.FormatFloat_f (of_decimal 6 (-3)) 2 = "0.01"
  /\ strconv.FormatFloat_f (of_decimal 4 (-4)) 2 = "0.00"
  /\ strconv.FormatFloat_g (of_decimal 4321 (-7)) 3 = "0.000432"
  /\ strconv.FormatFloat_g (of_decimal 4321 (-8)) 3 = "4.32e-05"
  /\ strconv.FormatFloat_g (of_decimal 5 (-1)) 3 = "0.5"
  /\ strconv.FormatFloat_g (of_decimal 9996 (-4)) 3 = "1"
  /\ strconv.FormatFloat_g (of_decimal 1 (-5)) 3 = "1e-05"
  /\ strconv.FormatFloat_g (of_decimal 12 (-6)) 3 = "1.2e-05"
  /\ strconv.FormatFloat_g (of_decimal 15004 (-1)) 3 = "1.5e+03"
  /\ strconv.FormatFloat_g (of_decimal 123456 (-3)) 3 = "123"
  /\ strconv.FormatFloat_g (of_decimal 100 0) 3 = "100"
  /\ strconv.FormatFloat_g (of_decimal 1 300) 3 = "1e+300"
  /\ strconv.FormatFloat_g (of_decimal 5 (-324)) 3 = "4.94e-324"
  /\ strconv.FormatFloat_g zero 3 = "0".
Proof. vm_compute. repeat split; reflexivity. Qed.

Example formatHumanReadable_samples :
  formatHumanReadable (of_decimal 15004 (-1)) = Some "1,500"
  /\ formatHumanReadable (of_decimal 12345 (-3)) = Some "12.35"
  /\ formatHumanReadable (of_decimal 4321 (-7)) = Some "0.000432"
  /\ formatHumanReadable (of_decimal 9999995 (-1)) = Some "1,000,000"
  /\ formatHumanReadable (of_decimal 999996 (-3)) = Some "1,000.00"
  /\ formatHumanReadable (of_decimal 12345678901 (-1)) = Some "1,234,567,890"
  /\ formatHumanReadable (of_decimal 5 (-1)) = Some "0.5"
  /\ formatHumanReadable inf = Some "+,Inf"
  /\ formatHumanReadable S754_nan = Some "NaN".
Proof. vm_compute. repeat split; reflexivity. Qed.

Example ParseFloat_samples :
  golib.ParseFloat "1500.4" = of_decimal 15004 (-1)
  /\ golib.ParseFloat "-12.5e-3" = of_decimal (-125) (-4)
  /\ golib.ParseFloat "1000000000" = lamportsPerSol
  /\ golib.ParseFloat "1e999" = inf
  /\ golib.ParseFloat "+Infinity" = inf
  /\ golib.ParseFloat "abc" = zero
  /\ golib.ParseFloat "1e" = zero
  /\ golib.ParseFloat ".5" = of_decimal 5 (-1)
  /\ golib.ParseFloat "1_000.5" = of_decimal 10005 (-1)
  /\ golib.ParseFloat "1__0" = zero
  /\ golib.ParseFloat "_1" = zero
  /\ golib.ParseFloat "1_" = zero
  /\ golib.ParseFloat "1_e5" = zero
  /\ golib.ParseFloat "0x1p-2" = of_decimal 25 (-2)
  /\ golib.ParseFloat "0x1.8p1" = of_int 3
  /\ golib.ParseFloat "-0X_1Fp0" = of_int (-31)
  /\ golib.ParseFloat "0x1" = zero
  /\ golib.ParseFloat "0x.p1" = zero
  /\ golib.ParseFloat "0x1p99999" = inf
  /\ golib.Pow10 9 = lamportsPerSol
  /\ golib.Pow10 0 = f64_1
  /\ golib.Pow10 (-4) = filterThreshold
  /\ parseAmount "1000000000" 9 = f64_1.
Proof. vm_compute. repeat split; reflexivity. Qed.

(** ** The price oracle *)

Lemma GetPriceUSD_fresh env coinID st val :
  freshQuote env st coinID val ->
  GetPriceUSD env coinID st = Some ((Price val, true), tick st).
Proof.
  intros [Hc Hlt]. unfold GetPriceUSD. rewrite Hc.
  unfold bind, Now, ret.
  destruct (Z.ltb_spec (env_now env (clockReads st) - LastFetched val) sixty_seconds);
    [reflexivity | lia].
Qed.

(** What the refetch does, from the state [st1] in which it starts. *)
Lemma GetPriceUSD_refetch env coinID st :
  noFreshQuote env st coinID ->
  exists st1,
    trace st1 = trace st /\ priceCache st1 = priceCache st /\
    GetPriceUSD env coinID st =
      match quotedPrice (env_price env (length (trace st))) coinID with
      | Some price =>
          Some ((price, true),
                set_priceCache
                  (<[coinID := {| Price := price;
                                  LastFetched := env_now env (clockReads st1) |}]>
                     (priceCache st))
                  (tick (record_event (EvPriceGet coinID) st1)))
      | None => Some ((zero, false), record_event (EvPriceGet coinID) st1)
      end.
Proof.
  intros Hstale. unfold noFreshQuote in Hstale. unfold GetPriceUSD, fetchPrice.
  destruct (priceCache st !! coinID) as [val|] eqn:Hc.
  - exists (tick st). split; [reflexivity|]. split; [reflexivity|].
    unfold bind at 1. unfold Now at 1.
    destruct (Z.ltb_spec (env_now env (clockReads st) - LastFetched val) sixty_seconds);
      [lia|].
    cbn [trace tick].
    unfold quotedPrice.
    destruct (env_price env (length (trace st))) as [|result]; [reflexivity|].
    destruct (result !! coinID) as [pd|]; [|reflexivity].
    destruct (pd !! "usd") as [price|]; reflexivity.
  - exists st. split; [reflexivity|]. split; [reflexivity|].
    unfold quotedPrice.
    destruct (env_price env (length (trace st))) as [|result]; [reflexivity|].
    destruct (result !! coinID) as [pd|]; [|reflexivity].
    destruct (pd !! "usd") as [price|]; reflexivity.
Qed.

(** [GetPriceUSD] answers from the cache, without a remote request, when
    the cached quote is younger than 60 seconds; otherwise it makes exactly
    one remote request, and when that request fails or its answer carries no
    price entry for the asset the result is [(0, false)]: a value, not a
    panic and not an error. *)
Theorem GetPriceUSD_cached_or_fetched (env : Env) (coinID : string) (st : St) :
  (forall val, freshQuote env st coinID val ->
     exists st', GetPriceUSD env coinID st = Some ((Price val, true), st')
                 /\ trace st' = trace st /\ priceCache st' = priceCache st)
  /\ (noFreshQuote env st coinID ->
      exists r st', GetPriceUSD env coinID st = Some (r, st')
                    /\ trace st' = (trace st ++ [EvPriceGet coinID])%list
                    /\ (quotedPrice (env_price env (length (trace st))) coinID = None ->
                        r = (zero, false))).
Proof.
  split.
  - intros val Hf. exists (tick st). rewrite (GetPriceUSD_fresh _ _ _ _ Hf). auto.
  - intros Hs. destruct (GetPriceUSD_refetch env coinID st Hs) as (st1 & Ht & Hp & ->).
    destruct (quotedPrice _ _) as [price|]; eexists _, _; (split; [reflexivity|]);
      cbn; rewrite Ht; split; try reflexivity; congruence.
Qed.


Lemma GetPriceUSD_cached_or_fetched_sample :
  (exists st', GetPriceUSD Sample.envDown "solana" (Sample.analyzerQuoted 50)
               = Some ((Sample.solPrice, true), st')
               /\ trace st' = trace (Sample.analyzerQuoted 50)
               /\ priceCache st' = priceCache (Sample.analyzerQuoted 50))
  /\ (exists r st', GetPriceUSD Sample.envDown "solana" (Sample.analyzerQuoted 10)
                    = Some (r, st')
                    /\ trace st' = (trace (Sample.analyzerQuoted 10) ++ [EvPriceGet "solana"])%list
                    /\ (quotedPrice (env_price Sample.envDown
                                       (length (trace (Sample.analyzerQuoted 10)))) "solana" = None ->
                        r = (zero, false))).
Proof.
  split.
  - apply (proj1 (GetPriceUSD_cached_or_fetched Sample.envDown "solana"
                    (Sample.analyzerQuoted 50))
             {| Price := Sample.solPrice; LastFetched := 50 * 1000000000 |}).
    split; [reflexivity | vm_compute; reflexivity].
  - apply (proj2 (GetPriceUSD_cached_or_fetched Sample.envDown "solana"
                    (Sample.analyzerQuoted 10))).
    vm_compute. discriminate.
Qed.


(** The quote the decoder leaves when the only member of the body is an
    object for the asset whose ["usd"] member is [junk]. *)
Lemma quotedPrice_single (coinID : string) (junk : jsonValue) :
  quotedPrice (PriceResponse (decodePrices (JObject [(coinID, JObject [("usd", junk)])])))
    coinID
  = Some (decodeFloat junk).
Proof.
  unfold quotedPrice, decodePrices, decodeQuotes. cbn [fold_left fst snd].
  rewrite lookup_insert_eq. rewrite lookup_insert_eq. reflexivity.
Qed.

(** C7. A response that carries no price is not always answered with
    [(0, false)]. With no fresh quote in the cache, let the price service
    answer with the body [{coinID: {"usd": junk}}], where [junk] is any JSON
    value but a number (a string, [null], a boolean, an array, an object).
    The decoder reports the mismatch, which the code ignores, and has put
    the entry ["usd"] into the map with the zero value. [GetPriceUSD] then
    returns [(0, true)], and stores the price 0 in the cache, from where it
    is served as a fresh quote for the next 60 seconds. *)
Theorem C7_malformed_price_is_quoted (env : Env) (coinID : string) (st : St)
    (junk : jsonValue) :
  noFreshQuote env st coinID ->
  (forall literal, junk <> JNumber literal) ->
  env_price env (length (trace st))
  = PriceResponse (decodePrices (JObject [(coinID, JObject [("usd", junk)])])) ->
  exists st' t,
    GetPriceUSD env coinID st = Some ((zero, true), st')
    /\ trace st' = (trace st ++ [EvPriceGet coinID])%list
    /\ priceCache st' = <[coinID := {| Price := zero; LastFetched := t |}]> (priceCache st)
    /\ (forall env',
          env_now env' (clockReads st') - t < sixty_seconds ->
          exists st'', GetPriceUSD env' coinID st' = Some ((zero, true), st'')
                       /\ trace st'' = trace st').
Proof.
  intros Hstale Hjunk Hanswer.
  destruct (GetPriceUSD_refetch env coinID st Hstale) as (st1 & Ht & Hp & Hrun).
  rewrite Hanswer, quotedPrice_single in Hrun.
  assert (Hzero : decodeFloat junk = zero).
  { destruct junk; try reflexivity. exfalso. exact (Hjunk _ eq_refl). }
  rewrite Hzero in Hrun.
  eexists _, _. split; [exact Hrun|].
  split; [cbn; rewrite Ht; reflexivity|].
  split; [cbn; reflexivity|].
  intros env' Hfresh. eexists. split.
  - apply (GetPriceUSD_fresh env' coinID _
             {| Price := zero; LastFetched := env_now env (clockReads st1) |}).
    split; [cbn; apply lookup_insert_eq | exact Hfresh].
  - reflexivity.
Qed.

(** The body [{"solana":{"usd":"n/a"}}], with a quote of 150 USD in the
    cache that is 90 seconds old. *)
Lemma C7_witness :
  exists st' t,
    GetPriceUSD Sample.envJunkPrice "solana" (Sample.analyzerQuoted 10)
    = Some ((zero, true), st')
    /\ trace st' = (trace (Sample.analyzerQuoted 10) ++ [EvPriceGet "solana"])%list
    /\ priceCache st'
       = <["solana" := {| Price := zero; LastFetched := t |}]>
           (priceCache (Sample.analyzerQuoted 10))
    /\ (forall env',
          env_now env' (clockReads st') - t < sixty_seconds ->
          exists st'', GetPriceUSD env' "solana" st' = Some ((zero, true), st'')
                       /\ trace st'' = trace st').
Proof.
  apply (C7_malformed_price_is_quoted Sample.envJunkPrice "solana"
           (Sample.analyzerQuoted 10) (JString "n/a")).
  - vm_compute. discriminate.
  - intros literal. discriminate.
  - reflexivity.
Defined.

(** ** The dust filter *)

(** The sign of the rounded value is the sign given to the rounding. *)
Lemma binary_round_aux_abs (s : bool) (m e : Z) (l : location) :
  abs (binary_round_aux prec emax s m e l) = abs (binary_round_aux prec emax false m e l).
Proof.
  unfold binary_round_aux.
  destruct (shr_fexp prec emax m e l) as [mrs' e'].
  destruct (shr_fexp prec emax _ e' loc_Exact) as [mrs'' e''].
  destruct (shr_m mrs'') as [|p|p]; [reflexivity | | reflexivity].
  destruct (e'' <=? emax - prec); reflexivity.
Qed.

Lemma of_int_abs (n : Z) : abs (of_int (- n)) = abs (of_int n).
Proof.
  destruct n as [|p|p]; [reflexivity | |];
    [change (- Z.pos p) with (Z.neg p) | change (- Z.neg p) with (Z.pos p)];
    unfold of_int, binary_normalize, binary_round;
    destruct (shl_align _ _ _) as [mz ez];
    rewrite (binary_round_aux_abs true); reflexivity.
Qed.

Lemma div_abs (x y c : float64) :
  abs x = abs y -> abs (div x c) = abs (div y c).
Proof.
  intros H.
  destruct x as [sx|sx| |sx mx ex], y as [sy|sy| |sy my ey]; try discriminate H;
    try reflexivity;
    destruct c as [sc|sc| |sc mc ec]; try reflexivity.
  cbn in H. injection H as -> ->.
  unfold div, SFdiv.
  destruct (SFdiv_core_binary _ _ _ _ _ _) as [[mz ez] lz].
  rewrite (binary_round_aux_abs (xorb sx sc)), (binary_round_aux_abs (xorb sy sc)).
  reflexivity.
Qed.

Lemma belowThreshold_opp (n : Z) : belowThreshold (- n) = belowThreshold n.
Proof.
  unfold belowThreshold.
  rewrite (div_abs (of_int (- n)) (of_int n) lamportsPerSol (of_int_abs n)).
  reflexivity.
Qed.

(** Where the test changes its answer: 99999 lamports are below the
    threshold, 100000 lamports are not. *)
Example belowThreshold_boundary :
  belowThreshold 99999 = true /\ belowThreshold 100000 = false
  /\ belowThreshold (-99999) = true /\ belowThreshold (-100000) = false
  /\ belowThreshold (-5000) = true.
Proof. vm_compute. repeat split; reflexivity. Qed.

Lemma hasOtherTokens_none (tts : list TokenTransfer) (trackedAddr : string) :
  (forall t, In t tts ->
     FromUserAccount t = trackedAddr \/ ToUserAccount t = trackedAddr ->
     Mint t = wsolMint) ->
  hasOtherTokens tts trackedAddr = false.
Proof.
  induction tts as [|t rest IH]; intros H; cbn [hasOtherTokens]; [reflexivity|].
  destruct (String.eqb_spec (Mint t) wsolMint) as [Hm|Hm].
  - apply IH. intros t' Hin. apply H. right; exact Hin.
  - destruct (String.eqb_spec (FromUserAccount t) trackedAddr) as [Hf|Hf].
    + exfalso. apply Hm, (H t); [left; reflexivity | left; exact Hf].
    + destruct (String.eqb_spec (ToUserAccount t) trackedAddr) as [Ht|Ht].
      * exfalso. apply Hm, (H t); [left; reflexivity | right; exact Ht].
      * cbn [orb]. apply IH. intros t' Hin. apply H. right; exact Hin.
Qed.

Lemma belowThresholdOn_sound (digits : nat) :
  forall base n,
    belowThresholdOn digits base = true ->
    base * 2 ^ Z.of_nat digits <= n < (base + 1) * 2 ^ Z.of_nat digits ->
    n < 100000 ->
    belowThreshold n = true.
Proof.
  induction digits as [|d IH]; intros base n Hall Hn Hlt.
  - change (2 ^ Z.of_nat 0) with 1 in Hn. assert (n = base) as -> by lia.
    cbn [belowThresholdOn] in Hall. apply orb_true_iff in Hall as [Hbig|Hall]; [lia | exact Hall].
  - cbn [belowThresholdOn] in Hall. apply andb_true_iff in Hall as [Hlow Hhigh].
    rewrite Nat2Z.inj_succ, Z.pow_succ_r in Hn by lia.
    assert (Hpow : 0 < 2 ^ Z.of_nat d) by (apply Z.pow_pos_nonneg; lia).
    destruct (Z.lt_ge_cases n ((2 * base + 1) * 2 ^ Z.of_nat d)) as [Hl|Hh].
    + apply (IH (2 * base) n Hlow); [nia | exact Hlt].
    + apply (IH (2 * base + 1) n Hhigh); [nia | exact Hlt].
Qed.

(** Every balance change of fewer than 100000 lamports is below the
    threshold: the test is run on each of them. *)
Lemma belowThreshold_upto : belowThresholdOn 17 0 = true.
Proof. vm_cast_no_check (eq_refl true). Qed.

Lemma belowThreshold_small (n : Z) : Z.abs n < 100000 -> belowThreshold n = true.
Proof.
  intros Hn.
  assert (Hpos : forall k, 0 <= k < 100000 -> belowThreshold k = true).
  { intros k Hk. apply (belowThresholdOn_sound 17 0 k belowThreshold_upto); [|lia].
    change (2 ^ Z.of_nat 17) with 131072. lia. }
  destruct (Z.le_gt_cases 0 n) as [Hle|Hgt].
  - apply Hpos. lia.
  - rewrite <- belowThreshold_opp. apply Hpos. lia.
Qed.

(** C2, as stated, fails: a transaction that failed on chain is never
    filtered, whatever moved. Here only 5000 lamports of fee left the wallet
    (0.000005 SOL, below the threshold of 0.0001 SOL, which is 100000
    lamports) and no token moved, yet [shouldFilter] answers false. *)
Lemma C2_counterexample :
  onlyWrappedNativeMoves Sample.failedFeeOnlyTx Sample.wallet
  /\ Z.abs (nativeChangeLamports (AccountData_ Sample.failedFeeOnlyTx) Sample.wallet)
     < 100000
  /\ shouldFilter Sample.failedFeeOnlyTx Sample.wallet = false.
Proof.
  split; [intros t []|]. split; [vm_compute; reflexivity | reflexivity].
Qed.

(** C2, amended. For every enriched transaction that did not fail on chain,
    in which no token other than the wrapped native mint is transferred from
    or to the watched address, and whose native balance change for the
    watched address (that of its first [accountData] entry, zero when it has
    none) is below 0.0001 SOL in magnitude, that is, fewer than 100000
    lamports, [shouldFilter] returns true. *)
Theorem C2_shouldFilter_dust (tx : HeliusTransaction) (trackedAddr : string) :
  failedOnChain tx = false ->
  onlyWrappedNativeMoves tx trackedAddr ->
  Z.abs (nativeChangeLamports (AccountData_ tx) trackedAddr) < 100000 ->
  shouldFilter tx trackedAddr = true.
Proof.
  intros Hok Hmoves Hdust. unfold shouldFilter. rewrite Hok.
  rewrite (hasOtherTokens_none _ _ Hmoves).
  fold (belowThreshold (nativeChangeLamports (AccountData_ tx) trackedAddr)).
  rewrite (belowThreshold_small _ Hdust). reflexivity.
Qed.

Lemma C2_witness : shouldFilter Sample.feeOnlyTx Sample.wallet = true.
Proof.
  apply (C2_shouldFilter_dust Sample.feeOnlyTx Sample.wallet).
  - reflexivity.
  - intros t [].
  - vm_compute. reflexivity.
Defined.

(** ** The stream subscriber *)

Section Tracker.

Import tracker.

Variable now : nat -> Z.
Variable callback : option (string -> string -> bool).

Lemma isDuplicate_spec (sig : string) (s : Subscriber) :
  isDuplicate now sig s =
  match dedupeCache s !! sig with
  | Some ts =>
      if now (clock s) - ts <? thirty_seconds
      then (true, {| addr := addr s; dedupeCache := dedupeCache s;
                     clock := S (clock s); notified := notified s |})
      else (false, {| addr := addr s;
                      dedupeCache := <[sig := now (S (clock s))]> (dedupeCache s);
                      clock := S (S (clock s)); notified := notified s |})
  | None =>
      (false, {| addr := addr s; dedupeCache := <[sig := now (clock s)]> (dedupeCache s);
                 clock := S (clock s); notified := notified s |})
  end.
Proof.
  unfold isDuplicate, read_clock, set_cache.
  destruct (dedupeCache s !! sig) as [ts|]; [|reflexivity].
  cbn. destruct (now (clock s) - ts <? thirty_seconds); reflexivity.
Qed.

(** What [isDuplicate] leaves untouched, and how far the clock moved. *)
Lemma isDuplicate_frame (sig : string) (s : Subscriber) :
  let s' := (isDuplicate now sig s).2 in
  addr s' = addr s /\ notified s' = notified s
  /\ (clock s < clock s')%nat
  /\ (forall k, k <> sig -> dedupeCache s' !! k = dedupeCache s !! k)
  /\ (exists ts, dedupeCache s' !! sig = Some ts).
Proof.
  rewrite isDuplicate_spec.
  destruct (dedupeCache s !! sig) as [ts|] eqn:Hc;
    [destruct (now (clock s) - ts <? thirty_seconds)|]; cbn;
    repeat split; try lia; try (intros k Hk; rewrite lookup_insert_ne; congruence);
    try (eexists; apply lookup_insert_eq); eauto.
Qed.

Lemma sweepEntry_frame (s : Subscriber) (entry : string * Z) :
  let s' := sweepEntry now s entry in
  addr s' = addr s /\ notified s' = notified s /\ clock s' = S (clock s).
Proof.
  destruct entry as [k v]. unfold sweepEntry, read_clock, set_cache. cbn.
  destruct (one_minute <? now (clock s) - v); cbn; auto.
Qed.

Lemma sweep_fold_frame (l : list (string * Z)) (s : Subscriber) :
  let s' := fold_left (sweepEntry now) l s in
  addr s' = addr s /\ notified s' = notified s /\ clock s' = (clock s + length l)%nat.
Proof.
  revert s. induction l as [|e l IH]; intros s; cbn [fold_left length].
  - repeat split; lia.
  - destruct (IH (sweepEntry now s e)) as (Ha & Hn & Hc).
    destruct (sweepEntry_frame s e) as (Ha' & Hn' & Hc').
    cbv zeta in *. rewrite Ha, Hn, Hc, Ha', Hn', Hc'. repeat split; lia.
Qed.

(** One step adds at most one invocation, and only for an accepted
    notification, with its signature and the address of the subscriber. *)
Lemma readStep_notified (s : Subscriber) (i : Input) :
  let s' := final (readStep now callback s i) in
  addr s' = addr s
  /\ (clock s <= clock s')%nat
  /\ (notified s' = notified s
      \/ exists notif, i = Message (Some notif) /\ accepted notif
                       /\ notified s' = (notified s ++ [(Signature_ notif, addr s)])%list).
Proof.
  destruct i as [[notif|]| |]; cbn [readStep final].
  - destruct (String.eqb_spec (Method notif) "logsNotification") as [Hm|Hm];
      cbn [negb orb]; [|cbn; auto].
    destruct (String.eqb_spec (Signature_ notif) "") as [Hs|Hs];
      cbn [orb]; [cbn; auto|].
    destruct (Err notif) as [e|] eqn:He; [cbn; auto|].
    pose proof (isDuplicate_frame (Signature_ notif) s) as (Ha & Hn & Hc & _).
    destruct (isDuplicate now (Signature_ notif) s) as [dup s1]. cbn [snd] in *.
    destruct dup; [cbn; repeat split; auto; lia|].
    destruct (slice_to (Signature_ notif) 16); [|cbn; repeat split; auto; lia].
    unfold invoke. destruct callback as [cb|]; [destruct (cb _ _)|];
      cbn; repeat split; auto; try lia;
      right; exists notif; rewrite Hn, Ha; repeat split; auto.
  - cbn. auto.
  - cbn. auto.
  - unfold sweep. destruct (sweep_fold_frame (map_to_list (dedupeCache s)) s) as (Ha & Hn & Hc).
    cbv zeta in *. repeat split; auto; lia.
Qed.

Lemma Run_app (s : Subscriber) (l1 l2 : list Input) :
  Run now callback s (l1 ++ l2) =
  match Run now callback s l1 with
  | Panicked s' => Panicked s'
  | r => Run now callback (final r) l2
  end.
Proof.
  revert s. induction l1 as [|i l1 IH]; intros s; cbn [Run app final]; [reflexivity|].
  destruct (readStep now callback s i) as [s'|s'|s']; cbn [final]; auto.
Qed.

Lemma Run_frame (inputs : list Input) (s : Subscriber) :
  let s' := final (Run now callback s inputs) in
  addr s' = addr s /\ (clock s <= clock s')%nat.
Proof.
  revert s. induction inputs as [|i rest IH]; intros s; cbn [Run final]; [auto|].
  pose proof (readStep_notified s i) as (Ha & Hc & _).
  destruct (readStep now callback s i) as [s1|s1|s1]; cbn [final] in *;
    try (destruct (IH s1) as (Ha' & Hc'); cbv zeta in *; split; [congruence | lia]);
    auto.
Qed.

Lemma readStep_skipped (s : Subscriber) (i : Input) :
  skipped i -> readStep now callback s i = Continue s.
Proof.
  destruct i as [[notif|]| |]; cbn [skipped readStep]; try tauto.
  intros [Hm|[Hs|He]].
  - destruct (String.eqb_spec (Method notif) "logsNotification"); [contradiction|reflexivity].
  - rewrite Hs. cbn. rewrite orb_true_r. reflexivity.
  - destruct (Err notif); [|contradiction]. rewrite orb_true_r. reflexivity.
Qed.

Lemma readStep_accepted (s : Subscriber) (notif : logsNotification) :
  accepted notif ->
  readStep now callback s (Message (Some notif)) =
  let '(dup, s1) := isDuplicate now (Signature_ notif) s in
  if dup then Continue s1
  else match slice_to (Signature_ notif) 16 with
       | None => Panicked s1
       | Some _ => invoke callback (Signature_ notif) s1
       end.
Proof.
  intros (Hm & Hs & He). cbn [readStep]. rewrite Hm, He.
  destruct (String.eqb_spec (Signature_ notif) ""); [contradiction|]. reflexivity.
Qed.

Lemma Run_notified (inputs : list Input) (s : Subscriber) :
  exists new,
    notified (final (Run now callback s inputs)) = (notified s ++ new)%list
    /\ Forall (fun e => exists notif, In (Message (Some notif)) inputs
                                     /\ accepted notif
                                     /\ e = (Signature_ notif, addr s)) new.
Proof.
  revert s. induction inputs as [|i rest IH]; intros s; cbn [Run final].
  - exists []. rewrite app_nil_r. split; [reflexivity | constructor].
  - pose proof (readStep_notified s i) as (Ha & _ & Hn).
    assert (Hrest : exists new,
      notified (final (match readStep now callback s i with
                       | Continue s' | Break s' => Run now callback s' rest
                       | Panicked s' => Panicked s'
                       end))
      = (notified (final (readStep now callback s i)) ++ new)%list
      /\ Forall (fun e => exists notif, In (Message (Some notif)) rest
                                       /\ accepted notif
                                       /\ e = (Signature_ notif, addr s)) new).
    { destruct (readStep now callback s i) as [s1|s1|s1]; cbn [final] in *.
      - destruct (IH s1) as (new & Hnew & Hall). exists new. rewrite <- Ha. auto.
      - destruct (IH s1) as (new & Hnew & Hall). exists new. rewrite <- Ha. auto.
      - exists (@nil (string * string)). rewrite app_nil_r. split; [reflexivity | constructor]. }
    destruct Hrest as (new & Hnew & Hall).
    assert (Hall' : Forall (fun e => exists notif, In (Message (Some notif)) (i :: rest)
                                       /\ accepted notif
                                       /\ e = (Signature_ notif, addr s)) new).
    { eapply Forall_impl; [exact Hall|]. intros e (notif & Hin & Hacc & He).
      exists notif. split; [right; exact Hin | auto]. }
    cbv zeta in Hn. destruct Hn as [Hn | (notif & -> & Hacc & Hn)].
    + exists new. rewrite Hnew, Hn. auto.
    + exists ((Signature_ notif, addr s) :: new). rewrite Hnew, Hn, <- app_assoc.
      split; [reflexivity|]. constructor; [|exact Hall'].
      exists notif. split; [left; reflexivity | auto].
Qed.

(** C6. In the read loop, a message that fails to decode, has a method other
    than [logsNotification], an empty signature or a non-null [err] is
    skipped: the loop goes on with the same connection and an unchanged
    subscriber. Every other message has its signature taken and given to the
    dedupe cache. Over any history of inputs, each invocation of the callback
    is for an accepted notification of that history, with its signature and
    the address of the subscriber. *)
Theorem C6_read_loop_skips (s : Subscriber) :
  (forall i, skipped i -> readStep now callback s i = Continue s)
  /\ (forall notif, accepted notif ->
      is_Some (dedupeCache (final (readStep now callback s (Message (Some notif))))
                 !! Signature_ notif))
  /\ (forall inputs, exists new,
        notified (final (Run now callback s inputs)) = (notified s ++ new)%list
        /\ Forall (fun e => exists notif, In (Message (Some notif)) inputs
                                         /\ accepted notif
                                         /\ e = (Signature_ notif, addr s)) new).
Proof.
  split; [exact (readStep_skipped s)|]. split; [|intros; apply Run_notified].
  intros notif Hacc. rewrite (readStep_accepted s notif Hacc).
  pose proof (isDuplicate_frame (Signature_ notif) s) as (_ & _ & _ & _ & ts & Hts).
  destruct (isDuplicate now (Signature_ notif) s) as [dup s1]. cbn [snd] in Hts.
  destruct dup; [cbn; eauto|].
  destruct (slice_to (Signature_ notif) 16); [|cbn; eauto].
  unfold invoke. destruct callback as [cb|]; [destruct (cb _ _)|]; cbn; eauto.
Qed.

(** *** Deduplication within the retention window *)

Lemma timesNotified_same (sig : string) (s s' : Subscriber) :
  notified s' = notified s -> timesNotified sig s' = timesNotified sig s.
Proof. unfold timesNotified. intros ->. reflexivity. Qed.

Lemma timesNotified_snoc (sig sg a : string) (s s' : Subscriber) :
  notified s' = (notified s ++ [(sg, a)])%list ->
  timesNotified sig s' =
  (if decide (sg = sig) then S (timesNotified sig s) else timesNotified sig s).
Proof.
  unfold timesNotified. intros ->. rewrite filter_app, length_app.
  rewrite filter_cons, filter_nil. cbn [fst].
  destruct (decide (sg = sig)); cbn [length]; lia.
Qed.

Section Window.

Hypothesis Hmono : monotone now.
Variable sig : string.
Variable t0 : Z.
Variable K : nat.
Hypothesis Hwindow : now K - t0 < thirty_seconds.

Lemma sweep_fold_recent (l : list (string * Z)) (s : Subscriber) :
  (forall v, In (sig, v) l -> t0 <= v) ->
  (clock s + length l <= K)%nat ->
  recent t0 sig s ->
  recent t0 sig (fold_left (sweepEntry now) l s).
Proof.
  revert s. induction l as [|[k v] l IH]; intros s Hl Hc Hr; cbn [fold_left]; [exact Hr|].
  cbn [length] in Hc.
  apply IH.
  - intros v' Hin. apply Hl. right; exact Hin.
  - destruct (sweepEntry_frame s (k, v)) as (_ & _ & Hck). cbv zeta in Hck. lia.
  - unfold sweepEntry, read_clock. cbn.
    destruct (Z.ltb_spec one_minute (now (clock s) - v)) as [Hold|Hyoung].
    + destruct Hr as (ts & Hts & Hge). exists ts. split; [|exact Hge].
      cbn. rewrite lookup_delete_ne; [exact Hts|].
      intros ->. specialize (Hl v (or_introl eq_refl)).
      pose proof (Hmono (clock s) K ltac:(lia)).
      unfold one_minute, thirty_seconds in *. lia.
    + exact Hr.
Qed.

Lemma isDuplicate_recent (sg : string) (s : Subscriber) :
  (clock (isDuplicate now sg s).2 <= K)%nat ->
  recent t0 sig s ->
  recent t0 sig (isDuplicate now sg s).2
  /\ (sg = sig -> (isDuplicate now sg s).1 = true).
Proof.
  rewrite isDuplicate_spec. intros Hc (ts & Hts & Hge).
  destruct (decide (sg = sig)) as [->|Hne].
  - rewrite Hts in *.
    destruct (Z.ltb_spec (now (clock s) - ts) thirty_seconds) as [Hin|Hout].
    + cbn. split; [exists ts; auto | reflexivity].
    + cbn in Hc. pose proof (Hmono (clock s) K ltac:(lia)). lia.
  - split; [|contradiction].
    destruct (dedupeCache s !! sg) as [ts'|];
      [destruct (now (clock s) - ts' <? thirty_seconds)|];
      exists ts; cbn; rewrite ?lookup_insert_ne by exact Hne; auto.
Qed.

(** The final state of a step on a message: the subscriber as it was, or as
    [isDuplicate] left it, with or without one more invocation. *)
Lemma readStep_message (s : Subscriber) (notif : logsNotification) :
  let s' := final (readStep now callback s (Message (Some notif))) in
  let d := isDuplicate now (Signature_ notif) s in
  s' = s \/ s' = d.2 \/ (d.1 = false /\ s' = notify (Signature_ notif) d.2).
Proof.
  cbn [readStep].
  destruct (negb (Method notif =? "logsNotification")%string
            || (Signature_ notif =? "")%string
            || match Err notif with Some _ => true | None => false end);
    [left; reflexivity|].
  destruct (isDuplicate now (Signature_ notif) s) as [dup s1]. cbn [fst snd].
  destruct dup; [right; left; reflexivity|].
  destruct (slice_to (Signature_ notif) 16); [|right; left; reflexivity].
  unfold invoke. destruct callback as [cb|];
    [destruct (cb _ _); right; right; auto | right; left; reflexivity].
Qed.

Lemma notify_frame (sg : string) (s : Subscriber) :
  dedupeCache (notify sg s) = dedupeCache s /\ clock (notify sg s) = clock s
  /\ notified (notify sg s) = (notified s ++ [(sg, addr s)])%list.
Proof. repeat split. Qed.

Lemma recent_cache (s s' : Subscriber) :
  dedupeCache s' = dedupeCache s -> recent t0 sig s -> recent t0 sig s'.
Proof. unfold recent. intros ->. auto. Qed.

Lemma readStep_recent (s : Subscriber) (i : Input) :
  (clock (final (readStep now callback s i)) <= K)%nat ->
  recent t0 sig s ->
  recent t0 sig (final (readStep now callback s i))
  /\ timesNotified sig (final (readStep now callback s i)) = timesNotified sig s.
Proof.
  intros Hc Hr.
  destruct i as [[notif|]| |]; try (cbn; split; [exact Hr | reflexivity]).
  - (* a message *)
    pose proof (isDuplicate_frame (Signature_ notif) s) as (_ & Hn & _).
    destruct (readStep_message s notif) as [E|[E|[Hd E]]]; cbv zeta in E, Hn;
      rewrite E in *.
    + split; [exact Hr | reflexivity].
    + destruct (isDuplicate_recent _ s Hc Hr) as (Hr1 & _).
      split; [exact Hr1 | apply timesNotified_same, Hn].
    + destruct (isDuplicate_recent (Signature_ notif) s Hc Hr) as (Hr1 & Hdup).
      split; [exact (recent_cache _ _ eq_refl Hr1)|].
      erewrite timesNotified_snoc by reflexivity.
      destruct (decide (Signature_ notif = sig)) as [Heq|Hne].
      * rewrite (Hdup Heq) in Hd. discriminate.
      * apply timesNotified_same, Hn.
  - (* a sweep *)
    revert Hc. cbn [readStep final]. unfold sweep.
    destruct (sweep_fold_frame (map_to_list (dedupeCache s)) s) as (_ & Hn & Hck).
    cbv zeta in Hn, Hck. intros Hc. split.
    + apply sweep_fold_recent; [|lia|exact Hr].
      intros v Hin. destruct Hr as (ts & Hts & Hge).
      apply list_elem_of_In, elem_of_map_to_list in Hin. congruence.
    + apply timesNotified_same, Hn.
Qed.

Lemma Run_recent (inputs : list Input) (s : Subscriber) :
  (clock (final (Run now callback s inputs)) <= K)%nat ->
  recent t0 sig s ->
  recent t0 sig (final (Run now callback s inputs))
  /\ timesNotified sig (final (Run now callback s inputs)) = timesNotified sig s.
Proof.
  revert s. induction inputs as [|i rest IH]; intros s; cbn [Run final]; [auto|].
  pose proof (readStep_recent s i) as Hstep.
  destruct (readStep now callback s i) as [s1|s1|s1]; cbn [final] in *; intros Hc Hr;
    try (pose proof (Run_frame rest s1) as (_ & Hck); cbv zeta in Hck;
         destruct (Hstep ltac:(lia) Hr) as (Hr1 & Hn1);
         destruct (IH s1 Hc Hr1) as (Hr2 & Hn2); split; [exact Hr2 | congruence]).
  exact (Hstep Hc Hr).
Qed.

Lemma isDuplicate_first (sg : string) (s : Subscriber) :
  t0 <= now (clock s) ->
  (isDuplicate now sg s).1 = false ->
  recent t0 sg (isDuplicate now sg s).2.
Proof.
  rewrite isDuplicate_spec. intros Ht0.
  pose proof (Hmono (clock s) (S (clock s)) ltac:(lia)) as Hnext.
  destruct (dedupeCache s !! sg) as [ts'|];
    [destruct (now (clock s) - ts' <? thirty_seconds)|]; cbn; try discriminate;
    intros _; eexists; (split; [apply lookup_insert_eq | lia]).
Qed.

(** Without anything known about the cache: a step invokes the callback
    for [sig] at most once, and when it does the cache holds [sig] with a
    time stamp read during the step. *)
Lemma readStep_first (s : Subscriber) (i : Input) :
  t0 <= now (clock s) ->
  timesNotified sig (final (readStep now callback s i)) = timesNotified sig s
  \/ (timesNotified sig (final (readStep now callback s i)) = S (timesNotified sig s)
      /\ recent t0 sig (final (readStep now callback s i))).
Proof.
  intros Ht0.
  destruct i as [[notif|]| |]; try (cbn; left; reflexivity).
  - pose proof (isDuplicate_frame (Signature_ notif) s) as (_ & Hn & _).
    destruct (readStep_message s notif) as [E|[E|[Hd E]]]; cbv zeta in E, Hn;
      rewrite E.
    + left; reflexivity.
    + left. apply timesNotified_same, Hn.
    + erewrite timesNotified_snoc by reflexivity.
      destruct (decide (Signature_ notif = sig)) as [Heq|Hne].
      * right. rewrite (timesNotified_same sig _ _ Hn). split; [reflexivity|].
        apply (recent_cache (isDuplicate now (Signature_ notif) s).2); [reflexivity|].
        rewrite <- Heq. apply isDuplicate_first; assumption.
      * left. apply timesNotified_same, Hn.
  - cbn [readStep final]. unfold sweep.
    destruct (sweep_fold_frame (map_to_list (dedupeCache s)) s) as (_ & Hn & _).
    left. apply timesNotified_same, Hn.
Qed.

Lemma Run_at_most_one (inputs : list Input) (s : Subscriber) :
  t0 <= now (clock s) ->
  (clock (final (Run now callback s inputs)) <= K)%nat ->
  timesNotified sig (final (Run now callback s inputs)) = timesNotified sig s
  \/ (timesNotified sig (final (Run now callback s inputs)) = S (timesNotified sig s)
      /\ recent t0 sig (final (Run now callback s inputs))).
Proof.
  revert s. induction inputs as [|i rest IH]; intros s Ht0; cbn [Run final]; [auto|].
  pose proof (readStep_first s i Ht0) as Hstep.
  pose proof (readStep_notified s i) as (_ & Hck & _). cbv zeta in Hck.
  destruct (readStep now callback s i) as [s1|s1|s1]; cbn [final] in *; intros Hc;
    try exact Hstep;
    (assert (Ht1 : t0 <= now (clock s1)) by (pose proof (Hmono _ _ Hck); lia));
    (destruct Hstep as [Hsame | (Hone & Hr)];
     [ rewrite <- Hsame; apply IH; assumption
     | right; destruct (Run_recent rest s1 Hc Hr) as (Hr2 & Hn2);
       split; [congruence | exact Hr2] ]).
Qed.

End Window.

(** C4. On one subscriber, with a clock that never goes back: the first
    [isDuplicate] call for a signature records it and returns false, and
    every later call made within 30 seconds of the first returns true,
    whatever the subscriber read or swept in between. Hence, when a
    signature is delivered twice with the two deliveries less than 30
    seconds apart, the callback is invoked for it at most once from the
    first delivery to the second one included. *)
Theorem C4_dedupe_window (s : Subscriber) (sig : string) :
  monotone now ->
  (dedupeCache s !! sig = None ->
   (isDuplicate now sig s).1 = false
   /\ dedupeCache (isDuplicate now sig s).2 !! sig = Some (now (clock s))
   /\ forall inputs,
        let s2 := final (Run now callback (isDuplicate now sig s).2 inputs) in
        now (clock s2) - now (clock s) < thirty_seconds ->
        (isDuplicate now sig s2).1 = true)
  /\ (forall n1 n2 mid,
       accepted n1 -> accepted n2 -> Signature_ n1 = sig -> Signature_ n2 = sig ->
       now (clock (final (Run now callback s (Message (Some n1) :: mid))))
         - now (clock s) < thirty_seconds ->
       (timesNotified sig
          (final (Run now callback s
                    (Message (Some n1) :: mid ++ [Message (Some n2)])))
        <= S (timesNotified sig s))%nat).
Proof.
  intros Hmono. split.
  - intros Hnone.
    assert (Hfirst : (isDuplicate now sig s).1 = false
                     /\ dedupeCache (isDuplicate now sig s).2 !! sig = Some (now (clock s))).
    { rewrite isDuplicate_spec, Hnone. cbn. split; [reflexivity | apply lookup_insert_eq]. }
    destruct Hfirst as (Hf & Hrec). split; [exact Hf|]. split; [exact Hrec|].
    intros inputs s2 Hw.
    assert (Hr1 : recent (now (clock s)) sig (isDuplicate now sig s).2)
      by (exists (now (clock s)); split; [exact Hrec | lia]).
    destruct (Run_recent Hmono sig (now (clock s)) (clock s2) Hw inputs _ (le_n _) Hr1)
      as (Hr2 & _).
    fold s2 in Hr2. destruct Hr2 as (ts & Hts & Hge).
    rewrite isDuplicate_spec, Hts.
    destruct (Z.ltb_spec (now (clock s2) - ts) thirty_seconds); [reflexivity | lia].
  - intros n1 n2 mid Ha1 Ha2 Hs1 Hs2 Hw.
    set (part1 := Message (Some n1) :: mid) in *.
    change (Message (Some n1) :: mid ++ [Message (Some n2)])
      with (part1 ++ [Message (Some n2)])%list.
    rewrite Run_app.
    set (sj := final (Run now callback s part1)) in *.
    pose proof (Run_at_most_one Hmono sig (now (clock s)) (clock sj) Hw part1 s
                  (Z.le_refl _) (le_n _)) as Hpart1.
    fold sj in Hpart1.
    assert (Hlast : (timesNotified sig (final (Run now callback sj [Message (Some n2)]))
                     <= S (timesNotified sig s))%nat).
    { cbn [Run].
      assert (Hfin : final (match readStep now callback sj (Message (Some n2)) with
                            | Continue s' | Break s' => Continue s'
                            | Panicked s' => Panicked s'
                            end)
                     = final (readStep now callback sj (Message (Some n2))))
        by (destruct (readStep now callback sj (Message (Some n2))); reflexivity).
      rewrite Hfin.
      pose proof (isDuplicate_frame (Signature_ n2) sj) as (_ & Hn & _).
      cbv zeta in Hn.
      destruct Hpart1 as [Hsame | (Hone & Hr)].
      - (* nothing yet: the last step adds at most one *)
        destruct (readStep_message sj n2) as [E|[E|[_ E]]]; cbv zeta in E; rewrite E.
        + lia.
        + rewrite (timesNotified_same sig _ _ Hn). lia.
        + erewrite timesNotified_snoc by reflexivity.
          rewrite (timesNotified_same sig _ _ Hn).
          destruct (decide (Signature_ n2 = sig)); lia.
      - (* one already: the last delivery is a duplicate *)
        destruct Hr as (ts & Hts & Hge).
        rewrite (readStep_accepted sj n2 Ha2), Hs2, isDuplicate_spec, Hts.
        destruct (Z.ltb_spec (now (clock sj) - ts) thirty_seconds); [|lia].
        cbn [final]. unfold timesNotified in *. cbn [notified]. lia. }
    destruct (Run now callback s part1) as [s'|s'|s'] eqn:Hrun; cbn [final] in *;
      try exact Hlast.
    destruct Hpart1 as [Hsame | (Hone & _)]; subst sj; lia.
Qed.

End Tracker.

Lemma C6_witness :
  tracker.readStep Sample.seconds Sample.callbackOK (tracker.NewSubscriber Sample.wallet)
    (tracker.Message None)
  = tracker.Continue (tracker.NewSubscriber Sample.wallet)
  /\ is_Some (tracker.dedupeCache
                (tracker.final
                   (tracker.readStep Sample.seconds Sample.callbackOK (tracker.NewSubscriber Sample.wallet)
                      (tracker.Message (Some (Sample.logsNotif Sample.sig1)))))
                !! Sample.sig1).
Proof.
  split.
  - apply (proj1 (C6_read_loop_skips Sample.seconds Sample.callbackOK
                    (tracker.NewSubscriber Sample.wallet))).
    exact I.
  - apply (proj1 (proj2 (C6_read_loop_skips Sample.seconds Sample.callbackOK
                           (tracker.NewSubscriber Sample.wallet)))
             (Sample.logsNotif Sample.sig1)).
    repeat split; [discriminate].
Defined.

Lemma C4_witness :
  (tracker.isDuplicate Sample.seconds Sample.sig1 (tracker.NewSubscriber Sample.wallet)).1
  = false
  /\ (timesNotified Sample.sig1
        (tracker.final
           (tracker.Run Sample.seconds Sample.callbackOK (tracker.NewSubscriber Sample.wallet)
              (tracker.Message (Some (Sample.logsNotif Sample.sig1))
               :: [tracker.Sweep] ++ [tracker.Message (Some (Sample.logsNotif Sample.sig1))])))
      <= S (timesNotified Sample.sig1 (tracker.NewSubscriber Sample.wallet)))%nat.
Proof.
  assert (Hmono : monotone Sample.seconds)
    by (intros a b Hab; unfold Sample.seconds; lia).
  assert (Hacc : accepted (Sample.logsNotif Sample.sig1))
    by (repeat split; discriminate).
  split.
  - apply (proj1 (C4_dedupe_window Sample.seconds Sample.callbackOK
                    (tracker.NewSubscriber Sample.wallet) Sample.sig1 Hmono)).
    reflexivity.
  - apply (proj2 (C4_dedupe_window Sample.seconds Sample.callbackOK
                    (tracker.NewSubscriber Sample.wallet) Sample.sig1 Hmono)
             (Sample.logsNotif Sample.sig1) (Sample.logsNotif Sample.sig1)
             [tracker.Sweep] Hacc Hacc eq_refl eq_refl).
    vm_compute. reflexivity.
Defined.

(** ** The analysis pipeline: errors and panics *)

Lemma bind_Some {A B} (c : M A) (k : A -> M B) (st : St) (r : B * St) :
  bind c k st = Some r <-> exists a st', c st = Some (a, st') /\ k a st' = Some r.
Proof.
  unfold bind. destruct (c st) as [[a st']|]; split.
  - intros H. eauto.
  - intros (a' & st'' & [= <- <-] & H). exact H.
  - discriminate.
  - intros (a' & st'' & [=] & _).
Qed.

Lemma lift_Some {A} (o : option A) (st : St) (r : A * St) :
  lift o st = Some r <-> o = Some r.1 /\ r.2 = st.
Proof.
  unfold lift. destruct o as [a|]; destruct r as [a' st']; cbn; split.
  - intros [= <- <-]. auto.
  - intros [[= <-] ->]. reflexivity.
  - discriminate.
  - intros [[=] _].
Qed.

(** Whatever the picks, [shuffle] gives the same elements, each as often. *)
Lemma shuffle_perm {A} (picks : list nat) (l : list A) : shuffle picks l ≡ₚ l.
Proof.
  revert l. induction picks as [|k picks IH]; intros l; cbn [shuffle]; [reflexivity|].
  destruct (l !! (k mod length l)%nat) as [x|] eqn:Hx; [|reflexivity].
  rewrite IH. symmetry. apply delete_Permutation, Hx.
Qed.

Lemma elem_of_shuffle {A} (picks : list nat) (l : list A) (x : A) :
  x ∈ shuffle picks l <-> x ∈ l.
Proof. rewrite (shuffle_perm picks l). reflexivity. Qed.

Lemma slice_to_Some (s : string) (n : Z) :
  is_Some (slice_to s n) <-> 0 <= n <= len s.
Proof.
  unfold slice_to.
  destruct (Z.leb_spec 0 n), (Z.leb_spec n (len s)); cbn; split;
    intros Hx; try lia; try (eexists; reflexivity); destruct Hx as [? [=]].
Qed.

Lemma slice_from_Some (s : string) (n : Z) :
  is_Some (slice_from s n) <-> 0 <= n <= len s.
Proof.
  unfold slice_from.
  destruct (Z.leb_spec 0 n), (Z.leb_spec n (len s)); cbn; split;
    intros Hx; try lia; try (eexists; reflexivity); destruct Hx as [? [=]].
Qed.

Lemma len_nonneg (s : string) : 0 <= len s.
Proof. unfold len. lia. Qed.

Lemma ends4_Some (addr : string) : 4 <= len addr -> is_Some (ends4 addr).
Proof.
  intros H. unfold ends4.
  destruct (proj2 (slice_to_Some addr 4) ltac:(lia)) as [a ->].
  destruct (proj2 (slice_from_Some addr (len addr - 4)) ltac:(lia)) as [b ->].
  cbn. eauto.
Qed.

(** The guards of [shortenAddress] and of the regexp callback keep their
    slices in range. *)
Lemma shortenAddress_total (addr : string) : is_Some (shortenAddress addr).
Proof.
  unfold shortenAddress. destruct (Z.leb_spec (len addr) 8); [eauto|].
  destruct (ends4_Some addr ltac:(lia)) as [s ->]. cbn. eauto.
Qed.

Lemma shortenMatch_total (addr : string) : is_Some (shortenMatch addr).
Proof.
  unfold shortenMatch. destruct (Z.ltb_spec 8 (len addr)); [|eauto].
  apply ends4_Some. lia.
Qed.

Lemma replaceAddresses_total (l : list ascii) (skip : nat) :
  is_Some (replaceAddresses l skip).
Proof.
  revert skip. induction l as [|c r IH]; intros skip; cbn [replaceAddresses]; [eauto|].
  destruct skip as [|k]; [|apply IH].
  destruct (32 <=? run_length (c :: r))%nat.
  - destruct (shortenMatch_total (string_of (take (Nat.min (run_length (c :: r)) 44) (c :: r))))
      as [short ->].
    destruct (IH (Nat.min (run_length (c :: r)) 44 - 1)%nat) as [rest ->]. cbn. eauto.
  - destruct (IH 0%nat) as [rest ->]. cbn. eauto.
Qed.

(** [buildSummary] panics exactly when the signature has fewer than 6 bytes. *)
Lemma buildSummary_Some (tx : HeliusTransaction) (interpretation : string)
    (sent received : list string) :
  is_Some (buildSummary tx interpretation sent received) <-> 6 <= len (Signature tx).
Proof.
  unfold buildSummary.
  set (b0 := "<b>" +:+ interpretation +:+ "</b>" +:+ nl).
  assert (Hb : exists b, (if negb (Description tx =? "")%string
                          then cleanedDesc ← replaceAddresses (bytes_of (Description tx)) 0;
                               Some (b0 +:+ "ℹ️ <i>" +:+ string_of cleanedDesc +:+ "</i>" +:+ nl)
                          else Some b0) = Some b).
  { destruct (negb (Description tx =? "")%string); [|eauto].
    destruct (replaceAddresses_total (bytes_of (Description tx)) 0) as [cd ->]. cbn. eauto. }
  destruct Hb as [b ->]. cbn [mbind option_bind].
  pose proof (len_nonneg (Signature tx)).
  split.
  - intros [s Hs].
    destruct (slice_to (Signature tx) 6) as [h|] eqn:Hh; [|discriminate Hs].
    apply (proj1 (slice_to_Some _ _)); [eauto].
  - intros H6.
    destruct (proj2 (slice_to_Some (Signature tx) 6) ltac:(lia)) as [h ->].
    destruct (proj2 (slice_from_Some (Signature tx) (len (Signature tx) - 6)) ltac:(lia))
      as [t ->].
    cbn. eauto.
Qed.

(** Every summary starts with the headline, so it is not empty. *)
Lemma buildSummary_nonempty (tx : HeliusTransaction) (interpretation : string)
    (sent received : list string) (summary : string) :
  buildSummary tx interpretation sent received = Some summary -> summary <> "".
Proof.
  unfold buildSummary. intros H.
  assert (Hhead : forall x : string, "<b>" +:+ x <> "") by (intros x; discriminate).
  destruct (negb (Description tx =? "")%string).
  - destruct (replaceAddresses (bytes_of (Description tx)) 0); [|discriminate H].
    cbn in H. destruct (slice_to (Signature tx) 6); [|discriminate H].
    destruct (slice_from _ _); [|discriminate H].
    cbn in H. injection H as <-. destruct sent, received; discriminate.
  - cbn in H. destruct (slice_to (Signature tx) 6); [|discriminate H].
    destruct (slice_from _ _); [|discriminate H].
    cbn in H. injection H as <-. destruct sent, received; discriminate.
Qed.

(** The fetch panics exactly when the URL of the enrichment service does
    not parse; before that nothing is asked. *)
Lemma fetchHeliusTransaction_panics (env : Env) (signature : string) (st : St) :
  fetchHeliusTransaction env signature st = None
  <-> env_urlParses env (HeliusTxURL st) = false.
Proof.
  unfold fetchHeliusTransaction. destruct (env_urlParses env (HeliusTxURL st)); cbn [negb].
  - split; [|discriminate].
    destruct (env_helius env (length (trace st))) as [|status body decoded]; [discriminate|].
    destruct (negb (status =? 200)); [discriminate|].
    destruct decoded as [[|tx rest]|]; discriminate.
  - split; reflexivity.
Qed.

Lemma fetchHeliusTransaction_returns (env : Env) (signature : string) (st : St) :
  env_urlParses env (HeliusTxURL st) = true ->
  exists r, fetchHeliusTransaction env signature st
            = Some (r, record_event (EvHeliusPost signature) st)
    /\ match r, env_helius env (length (trace st)) with
       | inl tx, HeliusResponse 200 _ (Some (tx' :: _)) => tx = tx'
       | inr ErrTransport, HeliusTransportError => True
       | inr (ErrNon200 status _), HeliusResponse status' _ _ =>
           status = status' /\ status <> 200
       | inr (ErrDecodeOrEmpty _), HeliusResponse 200 _ (Some [] | None) => True
       | _, _ => False
       end.
Proof.
  intros Hurl. unfold fetchHeliusTransaction. rewrite Hurl. cbn [negb].
  destruct (env_helius env (length (trace st))) as [|status body decoded].
  - eexists. split; [reflexivity | exact I].
  - destruct (Z.eqb_spec status 200) as [->|Hne]; cbn [negb].
    + destruct decoded as [[|tx rest]|]; eexists; (split; [reflexivity|]); cbn; auto.
    + eexists. split; [reflexivity|]. cbn. auto.
Qed.

(** What [AnalyzeSignature] returns, when it returns: the error of a failed
    fetch with an empty summary; nothing for a filtered transaction; a
    summary that is not empty otherwise. When the URL of the enrichment
    service parses, the fetch returns. *)
Lemma AnalyzeSignature_returns (env : Env) (signature trackedAddr : string) (st : St) :
  env_urlParses env (HeliusTxURL st) = true ->
  exists r st1,
    fetchHeliusTransaction env signature st = Some (r, st1)
    /\ match r with
       | inr err =>
           AnalyzeSignature env signature trackedAddr st
           = Some (("", Some (ErrFetchTx signature err)), st1)
       | inl tx =>
           if shouldFilter tx trackedAddr
           then AnalyzeSignature env signature trackedAddr st = Some (("", None), st1)
           else forall summary err st',
                  AnalyzeSignature env signature trackedAddr st = Some ((summary, err), st') ->
                  err = None /\ summary <> "" /\ 6 <= len (Signature tx)
       end.
Proof.
  intros Hurl.
  destruct (fetchHeliusTransaction_returns env signature st Hurl) as (r & Hf & _).
  exists r, (record_event (EvHeliusPost signature) st). split; [exact Hf|].
  destruct r as [tx|err].
  2:{ unfold AnalyzeSignature, bind. rewrite Hf. reflexivity. }
  destruct (shouldFilter tx trackedAddr) eqn:Hflt.
  { unfold AnalyzeSignature, bind. rewrite Hf, Hflt. reflexivity. }
  intros summary err st' H.
  unfold AnalyzeSignature in H.
  apply bind_Some in H as (r' & st1 & Hf' & H).
  rewrite Hf in Hf'. injection Hf' as <- <-. rewrite Hflt in H.
  apply bind_Some in H as (_u & st2 & _ & H).
  apply bind_Some in H as (metadataMap & st3 & _ & H).
  apply bind_Some in H as ([interpretation [sent received]] & st4 & _ & H).
  apply bind_Some in H as (s & st5 & Hb & H).
  apply lift_Some in Hb as [Hb _]. cbn in Hb.
  unfold ret in H. injection H as <- <- <-.
  split; [reflexivity|]. split.
  - eapply buildSummary_nonempty, Hb.
  - apply (buildSummary_Some tx interpretation sent received). eauto.
Qed.

(** C9. [buildSummary] slices the signature of the fetched transaction at
    [:6] and [len-6:] without a guard: it returns exactly when that
    signature has at least 6 bytes and panics otherwise; so an analysis
    whose fetch succeeded and whose transaction is not filtered can only
    return if the fetched signature has at least 6 bytes. *)
Theorem C9_summary_needs_six_bytes :
  (forall tx interpretation sent received,
     is_Some (buildSummary tx interpretation sent received) <-> 6 <= len (Signature tx))
  /\ (forall env signature trackedAddr st tx st1,
        fetchHeliusTransaction env signature st = Some (inl tx, st1) ->
        shouldFilter tx trackedAddr = false ->
        len (Signature tx) < 6 ->
        AnalyzeSignature env signature trackedAddr st = None).
Proof.
  split; [exact buildSummary_Some|].
  intros env signature trackedAddr st tx st1 Hf Hnf Hshort.
  assert (Hurl : env_urlParses env (HeliusTxURL st) = true).
  { destruct (env_urlParses env (HeliusTxURL st)) eqn:E; [reflexivity|].
    rewrite (proj2 (fetchHeliusTransaction_panics env signature st) E) in Hf.
    discriminate Hf. }
  destruct (AnalyzeSignature_returns env signature trackedAddr st Hurl)
    as (r & st1' & Hf' & H).
  rewrite Hf in Hf'. injection Hf' as <- <-. rewrite Hnf in H.
  destruct (AnalyzeSignature env signature trackedAddr st) as [[[summary err] st']|];
    [|reflexivity].
  destruct (H summary err st' eq_refl) as (_ & _ & H6). lia.
Qed.

Lemma C9_witness :
  is_Some (buildSummary Sample.receiveTx "headline" [] ["2.50 BONK"])
  /\ AnalyzeSignature (Sample.envServing Sample.shortSigTx) Sample.sig1 Sample.wallet
       Sample.analyzer0 = None.
Proof.
  split.
  - apply (proj1 C9_summary_needs_six_bytes). vm_compute. discriminate.
  - apply (proj2 C9_summary_needs_six_bytes (Sample.envServing Sample.shortSigTx)
             Sample.sig1 Sample.wallet Sample.analyzer0 Sample.shortSigTx
             (record_event (EvHeliusPost Sample.sig1) Sample.analyzer0)).
    + reflexivity.
    + reflexivity.
    + vm_compute. reflexivity.
Defined.

(** C3, the defect. The enrichment service answers with status 200 and one
    transaction; the fetch succeeds and the transaction is not filtered (it
    failed on chain); its record carries a signature of 3 bytes.
    [AnalyzeSignature] does not return a nil error: it does not return, the
    slice [tx.Signature[:6]] of [buildSummary] is out of range. *)
Theorem C3_short_signature_panics :
  fetchHeliusTransaction (Sample.envServing Sample.shortSigTx) Sample.sig1 Sample.analyzer0
  = Some (inl Sample.shortSigTx, record_event (EvHeliusPost Sample.sig1) Sample.analyzer0)
  /\ shouldFilter Sample.shortSigTx Sample.wallet = false
  /\ AnalyzeSignature (Sample.envServing Sample.shortSigTx) Sample.sig1 Sample.wallet
       Sample.analyzer0 = None.
Proof.
  split; [reflexivity|]. split; [reflexivity|]. vm_compute. reflexivity.
Qed.

Example AnalyzeSignature_samples :
  (* status 500: an error and no summary *)
  (AnalyzeSignature Sample.envDown Sample.sig1 Sample.wallet Sample.analyzer0
   = Some (("", Some (ErrFetchTx Sample.sig1 (ErrNon200 500 "internal error"))),
           record_event (EvHeliusPost Sample.sig1) Sample.analyzer0))
  (* the fee-only transaction is filtered *)
  /\ (AnalyzeSignature (Sample.envServing Sample.feeOnlyTx) Sample.sig1 Sample.wallet
        Sample.analyzer0
      = Some (("", None), record_event (EvHeliusPost Sample.sig1) Sample.analyzer0))
  (* a token received *)
  /\ (exists st',
        AnalyzeSignature (Sample.envServing Sample.receiveTx) Sample.sig1 Sample.wallet
          Sample.analyzer0
        = Some (("<b>↔️ INTERACTION via SYSTEM_PROGRAM</b>" +:+ nl +:+ nl +:+
                 "💰 <b>Sent:</b> 5e-06 SOL" +:+ nl +:+
                 "💸 <b>Received:</b> 2.50 Mint(<code>DezX...B263</code>)" +:+ nl +:+ nl +:+
                 "<a href=" +:+ dquote +:+ "https://solscan.io/tx/" +:+ Sample.sig1 +:+ dquote +:+
                 ">2JsXQv...t5k9Rk</a>", None), st')).
Proof.
  split; [vm_compute; reflexivity|]. split; [vm_compute; reflexivity|].
  eexists. vm_compute. reflexivity.
Qed.

(** ** Net balance changes: the native exposure *)

Lemma deltaOf_insert (m : gmap string float64) (k k' : string) (v : float64) :
  deltaOf (<[k := v]> m) k' = if String.eqb k k' then v else deltaOf m k'.
Proof.
  unfold deltaOf. destruct (String.eqb_spec k k') as [->|Hne].
  - rewrite lookup_insert_eq. reflexivity.
  - rewrite lookup_insert_ne by exact Hne. reflexivity.
Qed.

(** One transfer changes the delta of its own mint only, by the signed amount. *)
Lemma deltaStep_delta (trackedAddr mint : string) (m : gmap string float64) (f : bool)
    (t : TokenTransfer) :
  deltaOf (deltaStep trackedAddr (m, f) t).1 mint
  = netStep mint trackedAddr (deltaOf m mint) t.
Proof.
  unfold deltaStep, netStep.
  destruct (String.eqb_spec (FromUserAccount t) trackedAddr) as [Hf|Hf];
    destruct (String.eqb_spec (ToUserAccount t) trackedAddr) as [Ht|Ht];
    cbn [fst]; rewrite ?deltaOf_insert;
    destruct (String.eqb_spec (Mint t) mint) as [<-|Hm];
    rewrite ?String.eqb_refl; reflexivity.
Qed.

Lemma deltaStep_flag (trackedAddr : string) (m : gmap string float64) (f : bool)
    (t : TokenTransfer) :
  (deltaStep trackedAddr (m, f) t).2 = true <-> f = true \/ wsolFromOther trackedAddr t.
Proof.
  unfold deltaStep, wsolFromOther.
  destruct (String.eqb_spec (ToUserAccount t) trackedAddr) as [Ht|Ht];
    destruct (String.eqb_spec (Mint t) wsolMint) as [Hm|Hm];
    destruct (String.eqb_spec (FromUserAccount t) trackedAddr) as [Hf|Hf];
    cbn; intuition congruence.
Qed.

Lemma deltaStep_keys (trackedAddr mint : string) (m : gmap string float64) (f : bool)
    (t : TokenTransfer) :
  is_Some ((deltaStep trackedAddr (m, f) t).1 !! mint) ->
  is_Some (m !! mint)
  \/ (Mint t = mint
      /\ (FromUserAccount t = trackedAddr \/ ToUserAccount t = trackedAddr)).
Proof.
  unfold deltaStep.
  destruct (String.eqb_spec (FromUserAccount t) trackedAddr),
           (String.eqb_spec (ToUserAccount t) trackedAddr); cbn [fst];
    destruct (decide (Mint t = mint)) as [->|Hne]; auto;
    rewrite ?lookup_insert_ne by exact Hne; auto.
Qed.

Lemma fold_deltaStep_keys (trackedAddr mint : string) (tts : list TokenTransfer)
    (m : gmap string float64) (f : bool) :
  is_Some ((fold_left (deltaStep trackedAddr) tts (m, f)).1 !! mint) ->
  is_Some (m !! mint)
  \/ exists t, In t tts /\ Mint t = mint
               /\ (FromUserAccount t = trackedAddr \/ ToUserAccount t = trackedAddr).
Proof.
  revert m f. induction tts as [|t rest IH]; intros m f; cbn [fold_left]; [auto|].
  destruct (deltaStep trackedAddr (m, f) t) as [m1 f1] eqn:Hstep.
  intros H. destruct (IH m1 f1 H) as [H1|(t' & Hin & Ht')].
  - pose proof (deltaStep_keys trackedAddr mint m f t) as Hk. rewrite Hstep in Hk.
    destruct (Hk H1) as [Hm|Ht]; [left; exact Hm|].
    right. exists t. split; [left; reflexivity | exact Ht].
  - right. exists t'. split; [right; exact Hin | exact Ht'].
Qed.

Lemma fold_deltaStep (trackedAddr mint : string) (tts : list TokenTransfer)
    (m : gmap string float64) (f : bool) :
  let r := fold_left (deltaStep trackedAddr) tts (m, f) in
  deltaOf r.1 mint = fold_left (netStep mint trackedAddr) tts (deltaOf m mint)
  /\ (r.2 = true <-> f = true \/ exists t, In t tts /\ wsolFromOther trackedAddr t).
Proof.
  revert m f. induction tts as [|t rest IH]; intros m f; cbn [fold_left].
  - cbn. split; [reflexivity|]. split; [auto|]. intros [H|(t & [] & _)]; exact H.
  - destruct (deltaStep trackedAddr (m, f) t) as [m1 f1] eqn:Hstep.
    destruct (IH m1 f1) as (Hd & Hf). cbv zeta in *. split.
    + rewrite Hd. f_equal.
      pose proof (deltaStep_delta trackedAddr mint m f t) as H. rewrite Hstep in H. exact H.
    + rewrite Hf.
      pose proof (deltaStep_flag trackedAddr m f t) as H. rewrite Hstep in H. cbn [snd] in H.
      rewrite H. split.
      * intros [[Hf0|Ht]|(t' & Hin & Ht')]; [auto| |]; right.
        -- exists t. split; [left; reflexivity | exact Ht].
        -- exists t'. split; [right; exact Hin | exact Ht'].
      * intros [Hf0|(t' & [<-|Hin] & Ht')]; [auto|auto|].
        right. exists t'. auto.
Qed.

(** A value above [1e-12] is above zero, and a value below zero is not above [1e-12]. *)
Lemma gtb_eps_positive (x : float64) : gtb x f64_1e_12 = true -> gtb x zero = true.
Proof. destruct x as [s|[]| |[] m e]; cbn; congruence. Qed.

Lemma ltb_zero_not_eps (x : float64) : ltb x zero = true -> gtb x f64_1e_12 = false.
Proof. destruct x as [s|[]| |[] m e]; cbn; congruence. Qed.

Lemma nativeChangeLamports_first (pre post : list AccountData) (ad : AccountData)
    (trackedAddr : string) :
  (forall a, In a pre -> Account a <> trackedAddr) ->
  Account ad = trackedAddr ->
  nativeChangeLamports (pre ++ ad :: post) trackedAddr = NativeBalanceChange ad.
Proof.
  intros Hpre Had. induction pre as [|a pre IH]; cbn [app nativeChangeLamports].
  - rewrite Had, String.eqb_refl. reflexivity.
  - destruct (String.eqb_spec (Account a) trackedAddr) as [E|_].
    + exfalso. apply (Hpre a); [left; reflexivity | exact E].
    + apply IH. intros a' Hin. apply Hpre. right; exact Hin.
Qed.

Lemma nativeChangeLamports_none (ads : list AccountData) (trackedAddr : string) :
  (forall a, In a ads -> Account a <> trackedAddr) ->
  nativeChangeLamports ads trackedAddr = 0.
Proof.
  induction ads as [|a ads IH]; intros H; cbn [nativeChangeLamports]; [reflexivity|].
  destruct (String.eqb_spec (Account a) trackedAddr) as [E|_].
  - exfalso. apply (H a); [left; reflexivity | exact E].
  - apply IH. intros a' Hin. apply H. right; exact Hin.
Qed.

Lemma totalSolChange_spec (tx : HeliusTransaction) (trackedAddr : string) :
  let w := netDelta wsolMint trackedAddr (TokenTransfers tx) in
  exists inflow : bool,
    (inflow = true <-> exists t, In t (TokenTransfers tx) /\ wsolFromOther trackedAddr t)
    /\ totalSolChange tx trackedAddr
       = if inflow && gtb w f64_1e_12 then add (nativeSolOf tx trackedAddr) w
         else nativeSolOf tx trackedAddr.
Proof.
  unfold totalSolChange, tokenDeltasOf, netDelta, nativeSolOf.
  pose proof (fold_deltaStep trackedAddr wsolMint (TokenTransfers tx) ∅ false) as (Hd & Hf).
  cbv zeta in Hd, Hf.
  destruct (fold_left (deltaStep trackedAddr) (TokenTransfers tx) (∅, false)) as [m f].
  cbn [fst snd] in Hd, Hf. exists f. split.
  - rewrite Hf. split; [intros [[=]|H]; exact H | auto].
  - rewrite Hd. reflexivity.
Qed.

(** The deltas left for the per-asset entries: never the wrapped native
    mint; for any other mint, the signed sum of its transfers, present when
    the address takes part in a transfer of that mint. *)
Lemma splDeltas_spec (tx : HeliusTransaction) (trackedAddr : string) :
  splDeltas tx trackedAddr !! wsolMint = None
  /\ forall mint d, splDeltas tx trackedAddr !! mint = Some d ->
       mint <> wsolMint
       /\ d = netDelta mint trackedAddr (TokenTransfers tx)
       /\ exists t, In t (TokenTransfers tx) /\ Mint t = mint
                    /\ (FromUserAccount t = trackedAddr \/ ToUserAccount t = trackedAddr).
Proof.
  unfold splDeltas, tokenDeltasOf. split; [apply lookup_delete_eq|].
  intros mint d H.
  destruct (decide (mint = wsolMint)) as [->|Hne]; [rewrite lookup_delete_eq in H; discriminate|].
  rewrite lookup_delete_ne in H by congruence.
  split; [exact Hne|]. split.
  - pose proof (fold_deltaStep trackedAddr mint (TokenTransfers tx) ∅ false) as (Hd & _).
    cbv zeta in Hd. unfold deltaOf at 1 in Hd. rewrite H in Hd. cbn in Hd.
    rewrite Hd. reflexivity.
  - destruct (fold_deltaStep_keys trackedAddr mint (TokenTransfers tx) ∅ false) as [[? E]|Ht];
      [eauto | rewrite lookup_empty in E; discriminate | exact Ht].
Qed.

(** A transfer that involves the address leaves an entry for its mint, and
    entries stay. *)
Lemma deltaStep_has (trackedAddr mint : string) (m : gmap string float64) (f : bool)
    (t : TokenTransfer) :
  is_Some (m !! mint) \/ (Mint t = mint /\ involves trackedAddr t) ->
  is_Some ((deltaStep trackedAddr (m, f) t).1 !! mint).
Proof.
  unfold deltaStep, involves.
  destruct (String.eqb_spec (FromUserAccount t) trackedAddr) as [Hf|Hf],
           (String.eqb_spec (ToUserAccount t) trackedAddr) as [Ht|Ht]; cbn [fst];
    destruct (decide (Mint t = mint)) as [->|Hne];
    rewrite ?lookup_insert_eq, ?lookup_insert_ne by exact Hne; eauto;
    intros [H|[H1 [H2|H2]]]; eauto; contradiction.
Qed.

Lemma fold_deltaStep_has (trackedAddr mint : string) (tts : list TokenTransfer)
    (m : gmap string float64) (f : bool) :
  is_Some (m !! mint)
  \/ (exists t, In t tts /\ Mint t = mint /\ involves trackedAddr t) ->
  is_Some ((fold_left (deltaStep trackedAddr) tts (m, f)).1 !! mint).
Proof.
  revert m f. induction tts as [|t rest IH]; intros m f; cbn [fold_left].
  - intros [H|(t & [] & _)]. exact H.
  - intros H. destruct (deltaStep trackedAddr (m, f) t) as [m1 f1] eqn:Hstep.
    apply IH. pose proof (deltaStep_has trackedAddr mint m f t) as Hk.
    rewrite Hstep in Hk. cbn [fst] in Hk.
    destruct H as [H|(t' & [<-|Hin] & Hm & Hi)]; [left; auto | left; auto |].
    right. exists t'. auto.
Qed.

(** The entries of [tokenDeltas] after the wrapped native mint is deleted:
    one for every other mint of which a transfer involves the address, none
    else; its value is the signed sum of these transfers. *)
Lemma splDeltas_lookup (tx : HeliusTransaction) (trackedAddr mint : string) (d : float64) :
  splDeltas tx trackedAddr !! mint = Some d
  <-> mint <> wsolMint
      /\ d = netDelta mint trackedAddr (TokenTransfers tx)
      /\ exists t, In t (TokenTransfers tx) /\ Mint t = mint /\ involves trackedAddr t.
Proof.
  split.
  - intros H. destruct (splDeltas_spec tx trackedAddr) as (_ & Hspl).
    destruct (Hspl mint d H) as (H1 & H2 & H3). auto.
  - intros (Hne & Hd & Ht). unfold splDeltas, tokenDeltasOf.
    rewrite lookup_delete_ne by congruence.
    destruct (fold_deltaStep_has trackedAddr mint (TokenTransfers tx) ∅ false (or_intror Ht))
      as [d' Hd'].
    rewrite Hd'. f_equal.
    pose proof (fold_deltaStep trackedAddr mint (TokenTransfers tx) ∅ false) as (Hv & _).
    cbv zeta in Hv. unfold deltaOf at 1 in Hv. rewrite Hd' in Hv. cbn in Hv.
    rewrite Hd. exact Hv.
Qed.

(** ** The metadata cache *)

Lemma sameMetadata_refl (st : St) : sameMetadata st st.
Proof.
  split; [reflexivity|]. exists []. rewrite app_nil_r. split; [reflexivity | intros e []].
Qed.

Lemma sameMetadata_trans (st1 st2 st3 : St) :
  sameMetadata st1 st2 -> sameMetadata st2 st3 -> sameMetadata st1 st3.
Proof.
  intros (Hc1 & evs1 & Ht1 & He1) (Hc2 & evs2 & Ht2 & He2).
  split; [congruence|]. exists (evs1 ++ evs2)%list.
  split; [rewrite Ht2, Ht1, app_assoc; reflexivity|].
  intros e Hin. apply in_app_or in Hin as [Hin|Hin]; auto.
Qed.

Lemma growsMetadata_refl (st : St) : growsMetadata st st.
Proof.
  split; [auto|]. exists []. rewrite app_nil_r. split; [reflexivity | intros e []].
Qed.

Lemma growsMetadata_trans (st1 st2 st3 : St) :
  growsMetadata st1 st2 -> growsMetadata st2 st3 -> growsMetadata st1 st3.
Proof.
  intros (Hc1 & evs1 & Ht1 & He1) (Hc2 & evs2 & Ht2 & He2).
  split; [auto|]. exists (evs1 ++ evs2)%list.
  split; [rewrite Ht2, Ht1, app_assoc; reflexivity|].
  intros e Hin mint He. apply in_app_or in Hin as [Hin|Hin]; [eauto|].
  specialize (He2 e Hin mint He).
  destruct (metadataCache st1 !! mint) as [v|] eqn:Hv; [|reflexivity].
  rewrite (Hc1 _ _ Hv) in He2. discriminate.
Qed.

Lemma sameMetadata_grows (st st' : St) : sameMetadata st st' -> growsMetadata st st'.
Proof.
  intros (Hc & evs & Ht & He). split; [rewrite Hc; auto|].
  exists evs. split; [exact Ht|]. intros e Hin mint ->. exfalso. exact (He _ Hin mint eq_refl).
Qed.

Section Relates.

Variable R : St -> St -> Prop.
Hypothesis R_refl : forall st, R st st.
Hypothesis R_trans : forall st1 st2 st3, R st1 st2 -> R st2 st3 -> R st1 st3.

Lemma relates_ret {A} (a : A) : relates R (ret a).
Proof. intros st a' st' [= <- <-]. apply R_refl. Qed.

Lemma relates_lift {A} (o : option A) : relates R (lift o).
Proof. intros st a st' H. apply lift_Some in H as [_ H]. cbn in H. subst. apply R_refl. Qed.

Lemma relates_bind {A B} (c : M A) (k : A -> M B) :
  relates R c -> (forall a, relates R (k a)) -> relates R (bind c k).
Proof.
  intros Hc Hk st b st' H. apply bind_Some in H as (a & st1 & H1 & H2).
  eapply R_trans; [eapply Hc, H1 | eapply Hk, H2].
Qed.

Lemma relates_foldM {A B} (f : B -> A -> M B) (l : list A) (b : B) :
  (forall b a, relates R (f b a)) -> relates R (foldM f l b).
Proof.
  intros Hf. revert b. induction l as [|a l IH]; intros b; cbn [foldM].
  - apply relates_ret.
  - apply relates_bind; [apply Hf | intros b'; apply IH].
Qed.

End Relates.

Lemma relates_weaken {A} (R R' : St -> St -> Prop) (c : M A) :
  (forall st st', R st st' -> R' st st') -> relates R c -> relates R' c.
Proof. intros HR Hc st a st' H. apply HR, (Hc st a st' H). Qed.

(** *** The functions that price and format leave the metadata alone *)

Lemma sameMetadata_event (e : Event) (st : St) :
  (forall mint, e <> EvMetaLookup mint) -> sameMetadata st (record_event e st).
Proof.
  intros He. split; [reflexivity|]. exists [e]. split; [reflexivity|].
  intros e' [<-|[]]. exact He.
Qed.

Lemma sameMetadata_tick (st : St) : sameMetadata st (tick st).
Proof. split; [reflexivity|]. exists []. cbn. rewrite app_nil_r. split; [reflexivity|intros e []]. Qed.

Lemma sameMetadata_set_priceCache (c : gmap string cachedPrice) (st : St) :
  sameMetadata st (set_priceCache c st).
Proof. split; [reflexivity|]. exists []. cbn. rewrite app_nil_r. split; [reflexivity|intros e []]. Qed.

Lemma fetchPrice_sameMetadata (env : Env) (coinID : string) :
  relates sameMetadata (fetchPrice env coinID).
Proof.
  intros st r st' H. unfold fetchPrice in H.
  assert (H1 : sameMetadata st (record_event (EvPriceGet coinID) st))
    by (apply sameMetadata_event; discriminate).
  destruct (env_price env (length (trace st))) as [|result];
    [injection H as _ <-; exact H1|].
  destruct (result !! coinID) as [pd|]; [|injection H as _ <-; exact H1].
  destruct (pd !! "usd") as [price|]; [|injection H as _ <-; exact H1].
  cbn in H. injection H as _ <-.
  eapply sameMetadata_trans; [exact H1|].
  eapply sameMetadata_trans; [apply sameMetadata_tick | apply sameMetadata_set_priceCache].
Qed.

Lemma GetPriceUSD_sameMetadata (env : Env) (coinID : string) :
  relates sameMetadata (GetPriceUSD env coinID).
Proof.
  intros st r st' H. unfold GetPriceUSD in H.
  destruct (priceCache st !! coinID) as [val|];
    [|exact (fetchPrice_sameMetadata env coinID st r st' H)].
  unfold bind, Now in H.
  destruct (env_now env (clockReads st) - LastFetched val <? sixty_seconds).
  - injection H as _ <-. apply sameMetadata_tick.
  - eapply sameMetadata_trans;
      [apply sameMetadata_tick | exact (fetchPrice_sameMetadata env coinID _ r st' H)].
Qed.

Lemma withUSD_sameMetadata (env : Env) (coinID : string) (amount : float64) (s : string) :
  relates sameMetadata (withUSD env coinID amount s).
Proof.
  unfold withUSD. apply (relates_bind _ sameMetadata_trans);
    [apply GetPriceUSD_sameMetadata|].
  intros [price ok]. destruct ok; apply (relates_ret _ sameMetadata_refl).
Qed.

(** The fiat figure is appended to the text, or the text is left as it is. *)
Lemma withUSD_result (env : Env) (coinID : string) (amount : float64) (s s' : string)
    (st st' : St) :
  withUSD env coinID amount s st = Some (s', st') ->
  s' = s \/ exists usd, s' = s +:+ " ($" +:+ usd +:+ ")".
Proof.
  unfold withUSD. intros H. apply bind_Some in H as ([price ok] & st1 & _ & H).
  destruct ok; injection H as <- _; eauto.
Qed.

Lemma emitSol_sameMetadata (env : Env) (total : float64) (lists : list string * list string) :
  relates sameMetadata (emitSol env total lists).
Proof.
  unfold emitSol. destruct lists as [sent received].
  destruct (gtb (abs total) f64_1e_12); [|apply (relates_ret _ sameMetadata_refl)].
  apply (relates_bind _ sameMetadata_trans); [apply (relates_lift _ sameMetadata_refl)|].
  intros h. apply (relates_bind _ sameMetadata_trans); [apply withUSD_sameMetadata|].
  intros formatted. destruct (gtb total zero); apply (relates_ret _ sameMetadata_refl).
Qed.

Lemma emitToken_sameMetadata (env : Env) (metadataMap : gmap string TokenMetadata)
    (lists : list string * list string) (entry : string * float64) :
  relates sameMetadata (emitToken env metadataMap lists entry).
Proof.
  unfold emitToken. destruct lists as [sent received], entry as [mint delta].
  destruct (ltb (abs delta) f64_1e_18); [apply (relates_ret _ sameMetadata_refl)|].
  apply (relates_bind _ sameMetadata_trans).
  { destruct (metadataMap !! mint); [apply (relates_ret _ sameMetadata_refl)|].
    apply (relates_bind _ sameMetadata_trans); [apply (relates_lift _ sameMetadata_refl)|].
    intros p. apply (relates_ret _ sameMetadata_refl). }
  intros meta. apply (relates_bind _ sameMetadata_trans);
    [apply (relates_lift _ sameMetadata_refl)|].
  intros h. destruct (isPriceTracked mint) as [coinID tracked].
  apply (relates_bind _ sameMetadata_trans).
  { destruct tracked; [apply withUSD_sameMetadata | apply (relates_ret _ sameMetadata_refl)]. }
  intros formatted. destruct (gtb delta zero); apply (relates_ret _ sameMetadata_refl).
Qed.

Lemma calculateNetBalanceChanges_sameMetadata (env : Env) (tx : HeliusTransaction)
    (trackedAddr : string) (metadataMap : gmap string TokenMetadata) :
  relates sameMetadata (calculateNetBalanceChanges env tx trackedAddr metadataMap).
Proof.
  unfold calculateNetBalanceChanges.
  apply (relates_bind _ sameMetadata_trans); [apply emitSol_sameMetadata|].
  intros lists. apply (relates_bind _ sameMetadata_trans).
  { intros st entries st' [= _ <-]. apply sameMetadata_refl. }
  intros entries. apply (relates_foldM _ sameMetadata_refl sameMetadata_trans).
  intros b a. apply emitToken_sameMetadata.
Qed.

Lemma addFormattedItem_sameMetadata (env : Env) (metadataMap : gmap string TokenMetadata)
    (l : list string) (item : TokenSwapAmount) :
  relates sameMetadata (addFormattedItem env metadataMap l item).
Proof.
  unfold addFormattedItem.
  apply (relates_bind _ sameMetadata_trans).
  { destruct (metadataMap !! sw_Mint item); [apply (relates_ret _ sameMetadata_refl)|].
    apply (relates_bind _ sameMetadata_trans); [apply (relates_lift _ sameMetadata_refl)|].
    intros p. apply (relates_ret _ sameMetadata_refl). }
  intros meta. apply (relates_bind _ sameMetadata_trans);
    [apply (relates_lift _ sameMetadata_refl)|].
  intros h. destruct (isPriceTracked (sw_Mint item)) as [coinID tracked].
  apply (relates_bind _ sameMetadata_trans).
  { destruct tracked; [apply withUSD_sameMetadata | apply (relates_ret _ sameMetadata_refl)]. }
  intros formatted. apply (relates_ret _ sameMetadata_refl).
Qed.

Lemma parseSwapEvent_sameMetadata (env : Env) (tx : HeliusTransaction)
    (trackedAddr : string) (metadataMap : gmap string TokenMetadata) :
  relates sameMetadata (parseSwapEvent env tx trackedAddr metadataMap).
Proof.
  unfold parseSwapEvent.
  destruct (Swap (Events tx)) as [swap|]; [|apply calculateNetBalanceChanges_sameMetadata].
  assert (Hown : forall l item,
            relates sameMetadata (addOwned env metadataMap trackedAddr l item)).
  { intros l item. unfold addOwned.
    destruct (String.eqb (sw_UserAccount item) trackedAddr);
      [apply addFormattedItem_sameMetadata | apply (relates_ret _ sameMetadata_refl)]. }
  apply (relates_bind _ sameMetadata_trans);
    [apply (relates_foldM _ sameMetadata_refl sameMetadata_trans), Hown|].
  intros sent. apply (relates_bind _ sameMetadata_trans);
    [apply (relates_foldM _ sameMetadata_refl sameMetadata_trans), Hown|].
  intros received. apply (relates_ret _ sameMetadata_refl).
Qed.

Lemma classify_sameMetadata (env : Env) (tx : HeliusTransaction)
    (trackedAddr : string) (metadataMap : gmap string TokenMetadata) :
  relates sameMetadata (classify env tx trackedAddr metadataMap).
Proof.
  unfold classify.
  destruct (String.eqb (Type_ tx) "CREATE").
  { apply (relates_bind _ sameMetadata_trans);
      [apply calculateNetBalanceChanges_sameMetadata|].
    intros lists. apply (relates_ret _ sameMetadata_refl). }
  destruct (String.eqb (Type_ tx) "SWAP").
  { apply (relates_bind _ sameMetadata_trans); [apply parseSwapEvent_sameMetadata|].
    intros lists. apply (relates_ret _ sameMetadata_refl). }
  apply (relates_bind _ sameMetadata_trans);
    [apply calculateNetBalanceChanges_sameMetadata|].
  intros [sent received]. apply (relates_ret _ sameMetadata_refl).
Qed.

(** *** [ensureMetadataIsCached] fetches what is absent and overwrites nothing *)

Lemma cacheMint_grows (env : Env) (u : unit) (mint : string) :
  relates growsMetadata (cacheMint env u mint).
Proof.
  intros st a st' H. unfold cacheMint in H.
  destruct (metadataCache st !! mint) as [v|] eqn:Hc.
  - injection H as _ <-. apply growsMetadata_refl.
  - assert (Hgrow : forall meta,
              growsMetadata st
                (set_metadataCache (<[mint := meta]> (metadataCache st))
                   (record_event (EvMetaLookup mint) st))).
    { intros meta. split.
      - intros k v Hk. cbn. rewrite lookup_insert_ne; [exact Hk | congruence].
      - exists [EvMetaLookup mint]. split; [reflexivity|].
        intros e [<-|[]] mint' [= <-]. exact Hc. }
    destruct (env_urlParses env (SolanaRPCURL st)); cbn [negb] in H; [|discriminate H].
    destruct (env_meta env (length (trace st))) as [meta| |]; [| |discriminate H].
    + injection H as _ <-. apply Hgrow.
    + cbn in H. destruct (shortenAddress mint) as [short|]; [|discriminate H].
      cbn in H. injection H as _ <-. apply Hgrow.
Qed.

Lemma ensureMetadataIsCached_grows (env : Env) (tx : HeliusTransaction) :
  relates growsMetadata (ensureMetadataIsCached env tx).
Proof.
  unfold ensureMetadataIsCached.
  apply (relates_bind _ growsMetadata_trans).
  { intros st mints st' [= _ <-]. apply growsMetadata_refl. }
  intros mints. apply (relates_foldM _ growsMetadata_refl growsMetadata_trans).
  intros u mint. apply cacheMint_grows.
Qed.

Lemma fetchHeliusTransaction_sameMetadata (env : Env) (signature : string) :
  relates sameMetadata (fetchHeliusTransaction env signature).
Proof.
  intros st r st' H.
  destruct (env_urlParses env (HeliusTxURL st)) eqn:Hurl.
  - destruct (fetchHeliusTransaction_returns env signature st Hurl) as (r' & Hf & _).
    rewrite Hf in H. injection H as _ <-. apply sameMetadata_event. discriminate.
  - rewrite (proj2 (fetchHeliusTransaction_panics env signature st) Hurl) in H.
    discriminate H.
Qed.

(** The steps of an analysis that is neither stopped by the fetch nor by
    the filter: the metadata map given to the classification is the cache
    as [ensureMetadataIsCached] left it. *)
Lemma AnalyzeSignature_steps (env : Env) (signature trackedAddr : string)
    (st st' : St) (r : string * option error) :
  AnalyzeSignature env signature trackedAddr st = Some (r, st') ->
  exists res st1,
    fetchHeliusTransaction env signature st = Some (res, st1)
    /\ match res with
       | inr err => st' = st1
       | inl tx =>
           if shouldFilter tx trackedAddr then st' = st1
           else exists st2 c,
                  ensureMetadataIsCached env tx st1 = Some (tt, st2)
                  /\ classify env tx trackedAddr (metadataCache st2) st2 = Some (c, st')
       end.
Proof.
  unfold AnalyzeSignature. intros H.
  apply bind_Some in H as (res & st1 & Hf & H). exists res, st1. split; [exact Hf|].
  destruct res as [tx|err]; [|injection H as _ <-; reflexivity].
  destruct (shouldFilter tx trackedAddr); [injection H as _ <-; reflexivity|].
  apply bind_Some in H as ([] & st2 & He & H).
  apply bind_Some in H as (metadataMap & st3 & Hg & H).
  unfold getMetadataMap in Hg. injection Hg as <- <-.
  apply bind_Some in H as ([interpretation [sent received]] & st4 & Hc & H).
  apply bind_Some in H as (s & st5 & Hb & H).
  apply lift_Some in Hb as [_ Hb]. cbn in Hb. subst st5.
  injection H as _ <-. eauto.
Qed.

Lemma AnalyzeSignature_grows (env : Env) (signature trackedAddr : string) :
  relates growsMetadata (AnalyzeSignature env signature trackedAddr).
Proof.
  intros st r st' H.
  apply AnalyzeSignature_steps in H as (res & st1 & Hf & H).
  pose proof (sameMetadata_grows _ _ (fetchHeliusTransaction_sameMetadata _ _ _ _ _ Hf)) as H1.
  destruct res as [tx|err]; [|subst; exact H1].
  destruct (shouldFilter tx trackedAddr); [subst; exact H1|].
  destruct H as (st2 & c & He & Hc).
  eapply growsMetadata_trans; [exact H1|].
  eapply growsMetadata_trans; [exact (ensureMetadataIsCached_grows _ _ _ _ _ He)|].
  apply sameMetadata_grows, (classify_sameMetadata _ _ _ _ _ _ _ Hc).
Qed.

(** The two entries and the absence of lookups for their mints survive
    every growth of the cache. *)
Lemma fixed_grows (st st' : St) :
  growsMetadata st st' ->
  fixedEntries (metadataCache st) /\ neverLookedUp st ->
  fixedEntries (metadataCache st') /\ neverLookedUp st'.
Proof.
  intros (Hkeep & evs & Ht & He) ((Hw & Hu) & (Nw & Nu)).
  split; [split; apply Hkeep; assumption|].
  unfold neverLookedUp. rewrite Ht.
  split; intros Hin; apply in_app_or in Hin as [Hin|Hin]; try contradiction.
  - specialize (He _ Hin wsolMint eq_refl). congruence.
  - specialize (He _ Hin usdcMint eq_refl). congruence.
Qed.

Lemma reachable_fixed (st : St) :
  reachable st -> fixedEntries (metadataCache st) /\ neverLookedUp st.
Proof.
  induction 1 as [url rpc | env signature trackedAddr st st' r Hr IH Hrun].
  - split; [split; reflexivity | split; intros []].
  - eapply fixed_grows; [|exact IH]. apply (AnalyzeSignature_grows _ _ _ _ _ _ Hrun).
Qed.

(** *** Rendering uses the symbol of the metadata map *)

Lemma addFormattedItem_symbol (env : Env) (metadataMap : gmap string TokenMetadata)
    (l l' : list string) (item : TokenSwapAmount) (st st' : St) (meta : TokenMetadata) :
  metadataMap !! sw_Mint item = Some meta ->
  addFormattedItem env metadataMap l item st = Some (l', st') ->
  exists h s,
    formatHumanReadable (parseAmount (raw_TokenAmount (sw_RawTokenAmount item))
                                     (raw_Decimals (sw_RawTokenAmount item))) = Some h
    /\ l' = (l ++ [s])%list /\ rendersAs (Symbol meta) h s.
Proof.
  unfold addFormattedItem. intros Hm H. rewrite Hm in H.
  apply bind_Some in H as (meta' & st1 & [= <- <-] & H).
  apply bind_Some in H as (h & st2 & Hh & H).
  apply lift_Some in Hh as [Hh Hst]. cbn in Hh, Hst. subst st2.
  destruct (isPriceTracked (sw_Mint item)) as [coinID tracked].
  apply bind_Some in H as (s & st3 & Hs & H). injection H as <- _.
  exists h, s. split; [exact Hh|]. split; [reflexivity|].
  destruct tracked.
  - apply withUSD_result in Hs as [->|(usd & ->)]; [left; reflexivity | right; eauto].
  - injection Hs as <- _. left; reflexivity.
Qed.

Lemma emitToken_symbol (env : Env) (metadataMap : gmap string TokenMetadata)
    (sent received sent' received' : list string) (mint : string) (delta : float64)
    (st st' : St) (meta : TokenMetadata) :
  metadataMap !! mint = Some meta ->
  ltb (abs delta) f64_1e_18 = false ->
  emitToken env metadataMap (sent, received) (mint, delta) st
  = Some ((sent', received'), st') ->
  exists h s,
    formatHumanReadable (abs delta) = Some h /\ rendersAs (Symbol meta) h s
    /\ ((sent' = sent /\ received' = (received ++ [s])%list)
        \/ (sent' = (sent ++ [s])%list /\ received' = received)).
Proof.
  unfold emitToken. intros Hm Hbig H. rewrite Hbig, Hm in H.
  apply bind_Some in H as (meta' & st1 & [= <- <-] & H).
  apply bind_Some in H as (h & st2 & Hh & H).
  apply lift_Some in Hh as [Hh Hst]. cbn in Hh, Hst. subst st2.
  destruct (isPriceTracked mint) as [coinID tracked].
  apply bind_Some in H as (s & st3 & Hs & H).
  exists h, s. split; [exact Hh|]. split.
  - destruct tracked.
    + apply withUSD_result in Hs as [->|(usd & ->)]; [left; reflexivity | right; eauto].
    + injection Hs as <- _. left; reflexivity.
  - destruct (gtb delta zero); injection H as <- <- _; auto.
Qed.

(** C8, as stated, fails in its last part: the decimals of the cache entry
    are not what amounts are scaled by. The cache maps the wrapped native
    mint to 9 decimals, and [10^9] raw units at 9 decimals would read
    [1.00]; a swap whose event reports these units with [decimals = 0] is
    rendered as 1,000,000,000 SOL. *)
Lemma C8_counterexample :
  fixedEntries (metadataCache Sample.analyzer0)
  /\ formatHumanReadable (parseAmount "1000000000" 9) = Some "1.00"
  /\ exists st',
       AnalyzeSignature (Sample.envServing Sample.oddSwapTx) Sample.sig1 Sample.wallet
         Sample.analyzer0
       = Some (("<b>🔁 SWAP via JUPITER</b>" +:+ nl +:+ nl +:+
                "💰 <b>Sent:</b> 1,000,000,000 SOL" +:+ nl +:+
                "💸 <b>Received:</b> 150.00 USDC" +:+ nl +:+ nl +:+
                "<a href=" +:+ dquote +:+ "https://solscan.io/tx/" +:+ Sample.sig1 +:+
                dquote +:+ ">2JsXQv...t5k9Rk</a>", None), st').
Proof.
  split; [split; reflexivity|]. split; [vm_compute; reflexivity|].
  eexists. vm_compute. reflexivity.
Qed.

(** C8, amended. [New] creates the metadata cache with the wrapped native
    mint mapped to SOL with 9 decimals and the USDC mint mapped to USDC with
    6 decimals. [ensureMetadataIsCached] keeps every entry the cache holds
    and makes on-chain lookups only for mints the cache does not hold. So in
    every state an analyzer reaches the two entries are these and no lookup
    was ever made for the two mints; every analysis classifies with a
    metadata map holding the two entries, and a swap leg or token entry of
    either mint is rendered with the fixed symbol. (The decimals of the
    entries are not used when rendering: a swap leg is scaled by the
    decimals its event carries.) *)
Theorem C8_fixed_metadata :
  (forall heliusTxURL solanaRPCURL,
     fixedEntries (metadataCache (New heliusTxURL solanaRPCURL)))
  /\ (forall env tx st st',
        ensureMetadataIsCached env tx st = Some (tt, st') -> growsMetadata st st')
  /\ (forall st, reachable st -> fixedEntries (metadataCache st) /\ neverLookedUp st)
  /\ (forall env signature trackedAddr st r st' tx st1,
        reachable st ->
        AnalyzeSignature env signature trackedAddr st = Some (r, st') ->
        fetchHeliusTransaction env signature st = Some (inl tx, st1) ->
        shouldFilter tx trackedAddr = false ->
        exists st2 c,
          ensureMetadataIsCached env tx st1 = Some (tt, st2)
          /\ fixedEntries (metadataCache st2)
          /\ classify env tx trackedAddr (metadataCache st2) st2 = Some (c, st'))
  /\ (forall env metadataMap l l' item st st',
        fixedEntries metadataMap ->
        addFormattedItem env metadataMap l item st = Some (l', st') ->
        exists h s,
          formatHumanReadable (parseAmount (raw_TokenAmount (sw_RawTokenAmount item))
                                           (raw_Decimals (sw_RawTokenAmount item))) = Some h
          /\ l' = (l ++ [s])%list
          /\ (sw_Mint item = wsolMint -> rendersAs "SOL" h s)
          /\ (sw_Mint item = usdcMint -> rendersAs "USDC" h s))
  /\ (forall env metadataMap sent received sent' received' delta st st',
        fixedEntries metadataMap ->
        ltb (abs delta) f64_1e_18 = false ->
        emitToken env metadataMap (sent, received) (usdcMint, delta) st
        = Some ((sent', received'), st') ->
        exists h s,
          formatHumanReadable (abs delta) = Some h /\ rendersAs "USDC" h s
          /\ ((sent' = sent /\ received' = (received ++ [s])%list)
              \/ (sent' = (sent ++ [s])%list /\ received' = received))).
Proof.
  split; [intros; split; reflexivity|].
  split; [intros env tx st st'; apply ensureMetadataIsCached_grows|].
  split; [exact reachable_fixed|].
  split.
  { intros env signature trackedAddr st r st' tx st1 Hreach Hrun Hf Hnf.
    apply AnalyzeSignature_steps in Hrun as (res & st1' & Hf' & H).
    rewrite Hf in Hf'. injection Hf' as <- <-. rewrite Hnf in H.
    destruct H as (st2 & c & He & Hc). exists st2, c.
    split; [exact He|]. split; [|exact Hc].
    pose proof (reachable_fixed st Hreach) as Hfix.
    eapply fixed_grows in Hfix;
      [|apply sameMetadata_grows, (fetchHeliusTransaction_sameMetadata _ _ _ _ _ Hf)].
    eapply fixed_grows in Hfix; [|apply (ensureMetadataIsCached_grows _ _ _ _ _ He)].
    exact (proj1 Hfix). }
  split.
  { intros env metadataMap l l' item st st' [Hw Hu] Hrun.
    destruct (decide (sw_Mint item = wsolMint)) as [Ew|Nw].
    - assert (Hm : metadataMap !! sw_Mint item = Some {| Symbol := "SOL"; Decimals := 9 |})
        by (rewrite Ew; exact Hw).
      destruct (addFormattedItem_symbol _ _ _ _ _ _ _ _ Hm Hrun) as (h & s & Hh & Hl & Hr).
      exists h, s. repeat split; auto.
      intros Eu. rewrite Ew in Eu. discriminate Eu.
    - destruct (decide (sw_Mint item = usdcMint)) as [Eu|Nu].
      + assert (Hm : metadataMap !! sw_Mint item = Some {| Symbol := "USDC"; Decimals := 6 |})
          by (rewrite Eu; exact Hu).
        destruct (addFormattedItem_symbol _ _ _ _ _ _ _ _ Hm Hrun) as (h & s & Hh & Hl & Hr).
        exists h, s. repeat split; auto. intros Ew. contradiction.
      + unfold addFormattedItem in Hrun.
        apply bind_Some in Hrun as (meta & st1 & _ & H).
        apply bind_Some in H as (h & st2 & Hh & H).
        apply lift_Some in Hh as [Hh _]. cbn in Hh.
        destruct (isPriceTracked (sw_Mint item)) as [coinID tracked].
        apply bind_Some in H as (s & st3 & _ & H). injection H as <- _.
        exists h, s. repeat split; auto; intros; contradiction. }
  intros env metadataMap sent received sent' received' delta st st' [Hw Hu] Hbig Hrun.
  exact (emitToken_symbol _ _ _ _ _ _ _ _ _ _ _ Hu Hbig Hrun).
Qed.

Lemma C8_witness :
  exists st2 c,
    let env := Sample.envServing Sample.receiveTx in
    let st1 := record_event (EvHeliusPost Sample.sig1) Sample.analyzer0 in
    ensureMetadataIsCached env Sample.receiveTx st1 = Some (tt, st2)
    /\ fixedEntries (metadataCache st2)
    /\ exists st',
         classify env Sample.receiveTx Sample.wallet (metadataCache st2) st2 = Some (c, st').
Proof.
  destruct (AnalyzeSignature (Sample.envServing Sample.receiveTx) Sample.sig1 Sample.wallet
              Sample.analyzer0) as [[r st']|] eqn:Hrun; [|vm_compute in Hrun; discriminate Hrun].
  destruct (proj1 (proj2 (proj2 (proj2 C8_fixed_metadata)))
              (Sample.envServing Sample.receiveTx) Sample.sig1 Sample.wallet
              Sample.analyzer0 r st' Sample.receiveTx
              (record_event (EvHeliusPost Sample.sig1) Sample.analyzer0)
              (reachable_New _ _) Hrun eq_refl eq_refl)
    as (st2 & c & He & Hfix & Hc).
  exists st2, c. cbv zeta. eauto.
Defined.

(** ** Number formatting *)

(** *** The comma loop *)

Lemma bstore_last (filler done : list ascii) (x c : ascii) :
  bstore ((filler ++ [x]) ++ done) (Z.of_nat (length filler)) c
  = Some (filler ++ c :: done)%list.
Proof.
  unfold bstore. rewrite !length_app. cbn [length].
  destruct (Z.leb_spec 0 (Z.of_nat (length filler))); [|lia].
  destruct (Z.ltb_spec (Z.of_nat (length filler))
              (Z.of_nat (length filler + 1 + length done))); [|lia].
  cbn [andb]. f_equal. rewrite Nat2Z.id, <- app_assoc. cbn [app].
  rewrite insert_app_r_alt by lia. rewrite Nat.sub_diag. reflexivity.
Qed.

Lemma length_group_rev_pos (r : list ascii) (k : Z) :
  r <> [] -> (0 < length (group_rev r k))%nat.
Proof. destruct r; [congruence | cbn; lia]. Qed.

Lemma group_rev_cons2 (c c' : ascii) (r : list ascii) (k : Z) :
  group_rev (c :: c' :: r) k
  = c :: (if Z.rem (k + 1) 3 =? 0 then ","%char :: group_rev (c' :: r) (k + 1)
          else group_rev (c' :: r) (k + 1)).
Proof. reflexivity. Qed.

Lemma snoc_cases {A} (l : list A) : l = [] \/ exists l' x, l = l' ++ [x].
Proof. induction l using rev_ind; eauto. Qed.

(** The loop writes, from right to left into the free part of the buffer,
    the grouping of the digits not yet copied. *)
Lemma commaLoop_sim (pre : list ascii) :
  forall (c : ascii) (post filler done : list ascii) (k : Z),
    length filler = length (group_rev (rev (pre ++ [c])) k) ->
    commaLoop (pre ++ c :: post) (length pre) (Z.of_nat (length filler) - 1) k
      (filler ++ done)
    = Some (rev (group_rev (rev (pre ++ [c])) k) ++ done).
Proof.
  induction pre as [|c' pre' IH] using rev_ind; intros c post filler done k Hlen.
  - cbn in Hlen. destruct filler as [|x [|y filler]]; try discriminate Hlen.
    cbn. reflexivity.
  - assert (Hrev : rev ((pre' ++ [c']) ++ [c]) = c :: c' :: rev pre')
      by (rewrite !rev_app_distr; reflexivity).
    rewrite Hrev in Hlen |- *. rewrite group_rev_cons2 in Hlen |- *.
    specialize (IH c' (c :: post)).
    assert (Hrev' : rev (pre' ++ [c']) = c' :: rev pre')
      by (rewrite rev_app_distr; reflexivity).
    rewrite Hrev' in IH.
    rewrite length_app. cbn [length]. rewrite Nat.add_1_r.
    cbn [commaLoop].
    assert (Hget : ((pre' ++ [c']) ++ c :: post) !! S (length pre') = Some c).
    { rewrite lookup_app_r by (rewrite length_app; cbn; lia).
      rewrite length_app. cbn [length].
      replace (S (length pre') - (length pre' + 1))%nat with 0%nat by lia. reflexivity. }
    rewrite Hget. cbn [mbind option_bind].
    replace ((pre' ++ [c']) ++ c :: post) with (pre' ++ c' :: c :: post)
      by (rewrite <- app_assoc; reflexivity).
    destruct (Z.rem (k + 1) 3 =? 0) eqn:Hk; cbn [length] in Hlen.
    + (* a digit, then a comma *)
      destruct (snoc_cases filler) as [->|(filler0 & x & ->)]; [discriminate Hlen|].
      rewrite length_app in Hlen. cbn [length] in Hlen.
      destruct (snoc_cases filler0) as [->|(filler1 & y & ->)]; [cbn in Hlen; lia|].
      rewrite length_app in Hlen. cbn [length] in Hlen.
      replace (Z.of_nat (length ((filler1 ++ [y]) ++ [x])) - 1)
        with (Z.of_nat (length (filler1 ++ [y]))) by (rewrite !length_app; cbn; lia).
      rewrite bstore_last. cbn [mbind option_bind].
      replace (Z.of_nat (length (filler1 ++ [y])) - 1)
        with (Z.of_nat (length filler1)) by (rewrite length_app; cbn; lia).
      rewrite bstore_last. cbn [mbind option_bind].
      rewrite (IH filler1 (","%char :: c :: done) (k + 1)) by lia.
      cbn [rev]. rewrite <- !app_assoc. reflexivity.
    + (* a digit *)
      destruct (snoc_cases filler) as [->|(filler0 & x & ->)]; [discriminate Hlen|].
      rewrite length_app in Hlen. cbn [length] in Hlen.
      replace (Z.of_nat (length (filler0 ++ [x])) - 1)
        with (Z.of_nat (length filler0)) by (rewrite length_app; cbn; lia).
      rewrite bstore_last. cbn [mbind option_bind].
      rewrite (IH filler0 (c :: done) (k + 1)) by lia.
      cbn [rev]. rewrite <- !app_assoc. reflexivity.
Qed.

Lemma group_rev_commas (n : nat) :
  forall (r : list ascii) (k : Z),
    (length r <= n)%nat -> 0 <= k -> Z.rem k 3 = 0 -> group_rev r k = commas_rev r.
Proof.
  induction n as [|n IH]; intros r k Hn Hk Hrem.
  - destruct r; [reflexivity | cbn in Hn; lia].
  - rewrite Z.rem_mod_nonneg in Hrem by lia.
    assert (H1 : (Z.rem (k + 1) 3 =? 0) = false)
      by (rewrite Z.rem_mod_nonneg by lia; apply Z.eqb_neq; mod_lia).
    assert (H2 : (Z.rem (k + 1 + 1) 3 =? 0) = false)
      by (rewrite Z.rem_mod_nonneg by lia; apply Z.eqb_neq; mod_lia).
    destruct r as [|a [|b [|c rest]]]; try reflexivity;
      [rewrite group_rev_cons2, H1; reflexivity|].
    rewrite group_rev_cons2, H1, group_rev_cons2, H2.
    destruct rest as [|d rest]; [reflexivity|].
    rewrite group_rev_cons2.
    assert (H3 : (Z.rem (k + 1 + 1 + 1) 3 =? 0) = true)
      by (rewrite Z.rem_mod_nonneg by lia; apply Z.eqb_eq; mod_lia).
    rewrite H3. cbn [commas_rev]. do 4 f_equal.
    apply IH; [cbn in Hn |- *; lia | lia |].
    rewrite Z.rem_mod_nonneg by lia. mod_lia.
Qed.

Lemma length_group_rev (r : list ascii) (k : Z) :
  0 <= k -> r <> [] ->
  Z.of_nat (length (group_rev r k))
  = Z.of_nat (length r) + ((k + Z.of_nat (length r) - 1) / 3 - k / 3).
Proof.
  revert k. induction r as [|c rest IH]; intros k Hk Hne; [congruence|].
  destruct rest as [|c' rest]; [cbn; mod_lia|].
  rewrite group_rev_cons2.
  specialize (IH (k + 1) ltac:(lia) ltac:(discriminate)).
  destruct (Z.eqb_spec (Z.rem (k + 1) 3) 0) as [E|E];
    rewrite Z.rem_mod_nonneg in E by lia;
    cbn [length] in IH |- *; mod_lia.
Qed.

Lemma commas_rev_short (r : list ascii) : (length r <= 3)%nat -> commas_rev r = r.
Proof. destruct r as [|a [|b [|c [|d rest]]]]; cbn; intros; try reflexivity; lia. Qed.

Lemma string_of_bytes_of (s : string) : string_of (bytes_of s) = s.
Proof. apply string_of_list_ascii_of_string. Qed.

Lemma bytes_of_string_of (l : list ascii) : bytes_of (string_of l) = l.
Proof. apply list_ascii_of_string_of_list_ascii. Qed.

Lemma length_bytes_of (s : string) : length (bytes_of s) = String.length s.
Proof. induction s as [|c s IH]; cbn; [reflexivity | f_equal; exact IH]. Qed.

Lemma withCommas_short (s : string) : len s <= 3 -> withCommas s = s.
Proof.
  intros H. unfold withCommas.
  rewrite commas_rev_short
    by (rewrite length_rev, length_bytes_of; unfold len in H; lia).
  rewrite rev_involutive. apply string_of_bytes_of.
Qed.

(** The part of [formatHumanReadable] that inserts the separators, for an
    integer part of more than three bytes: the buffer has exactly the room
    needed, no access is out of range, and the result is the grouping. *)
Lemma commaLoop_withCommas (integerPart : string) :
  let n := len integerPart in
  3 < n ->
  commaLoop (bytes_of integerPart) (Z.to_nat (n - 1))
    (Z.of_nat (length (replicate (Z.to_nat (n + Z.quot (n - 1) 3)) Ascii.zero)) - 1) 0
    (replicate (Z.to_nat (n + Z.quot (n - 1) 3)) Ascii.zero)
  = Some (bytes_of (withCommas integerPart)).
Proof.
  intros n Hn. unfold n, len in *.
  rewrite <- length_bytes_of in *. set (l := bytes_of integerPart) in *.
  destruct (snoc_cases l) as [E|(pre & c & E)]; [rewrite E in Hn; cbn in Hn; lia|].
  assert (Hlen : Z.of_nat (length l) = Z.of_nat (length pre) + 1)
    by (rewrite E, length_app; cbn; lia).
  rewrite Z.quot_div_nonneg by lia.
  set (b := replicate (Z.to_nat (Z.of_nat (length l) + (Z.of_nat (length l) - 1) / 3))
              Ascii.zero).
  assert (Hb : length b = length (group_rev (rev (pre ++ [c])) 0)).
  { unfold b. rewrite length_replicate. apply Nat2Z.inj. rewrite Z2Nat.id by mod_lia.
    rewrite length_group_rev by (try lia; rewrite rev_app_distr; discriminate).
    rewrite length_rev, <- E. rewrite Z.add_0_l. change (0 / 3) with 0. lia. }
  replace (Z.to_nat (Z.of_nat (length l) - 1)) with (length pre) by lia.
  pose proof (commaLoop_sim pre c [] b [] 0 Hb) as Hsim.
  rewrite !app_nil_r in Hsim. rewrite <- E in Hsim.
  rewrite Hsim. f_equal.
  rewrite (group_rev_commas (length (rev l))) by (try lia; reflexivity).
  unfold withCommas. fold l. rewrite bytes_of_string_of. reflexivity.
Qed.

(** *** Digit strings *)

Lemma append_cons (c : ascii) (a b : string) : String c a +:+ b = String c (a +:+ b).
Proof. reflexivity. Qed.

Lemma append_nil_l (s : string) : "" +:+ s = s.
Proof. reflexivity. Qed.

Lemma bytes_of_append (a b : string) : bytes_of (a +:+ b) = bytes_of a ++ bytes_of b.
Proof.
  induction a as [|c a IH]; [reflexivity|].
  rewrite append_cons. cbn [bytes_of list_ascii_of_string app]. f_equal. exact IH.
Qed.

Lemma append_nil_r (s : string) : s +:+ "" = s.
Proof. induction s as [|c s IH]; [reflexivity|]. rewrite append_cons, IH. reflexivity. Qed.

Lemma length_append (a b : string) :
  String.length (a +:+ b) = (String.length a + String.length b)%nat.
Proof.
  induction a as [|c a IH]; [reflexivity|].
  rewrite append_cons. cbn [String.length]. rewrite IH. reflexivity.
Qed.

Lemma digitsOnly_append (a b : string) :
  digitsOnly a -> digitsOnly b -> digitsOnly (a +:+ b).
Proof. unfold digitsOnly. rewrite bytes_of_append. apply Forall_app_2. Qed.

Lemma digit_char_is_digit (d : Z) :
  0 <= d < 10 -> golib.is_digit (strconv.digit_char d) = true.
Proof.
  intros H. unfold strconv.digit_char.
  assert (E : (Z.to_nat d < 10)%nat) by lia.
  destruct (Z.to_nat d) as [|[|[|[|[|[|[|[|[|[|n]]]]]]]]]]; try reflexivity; lia.
Qed.

Lemma low_digits_spec (p : nat) (r : Z) :
  digitsOnly (strconv.low_digits p r) /\ String.length (strconv.low_digits p r) = p.
Proof.
  revert r. induction p as [|p IH]; intros r; cbn [strconv.low_digits].
  - split; [constructor | reflexivity].
  - destruct (IH (r / 10)) as (Hd & Hl). split.
    + apply digitsOnly_append; [exact Hd|].
      constructor; [|constructor]. apply digit_char_is_digit. mod_lia.
    + rewrite length_append, Hl. cbn. lia.
Qed.

Lemma string_of_uint_digits (d : Decimal.uint) : digitsOnly (NilEmpty.string_of_uint d).
Proof.
  induction d; cbn; try (constructor; [reflexivity | assumption]). constructor.
Qed.

Lemma itoa_digits (n : Z) : digitsOnly (strconv.itoa n) /\ strconv.itoa n <> "".
Proof.
  unfold strconv.itoa, NilZero.string_of_uint.
  destruct (N.to_uint (Z.to_N n)) eqn:E; split;
    try discriminate;
    try (rewrite <- E; apply string_of_uint_digits);
    try (constructor; [reflexivity | constructor]);
    rewrite <- E.
  all: try (apply string_of_uint_digits).
Qed.

(** *** [strings.Split] on rendered numbers *)

Lemma digit_not_dot (c : ascii) : golib.is_digit c = true -> Ascii.eqb c "." = false.
Proof.
  intros H. destruct (Ascii.eqb_spec c "."%char) as [->|]; [discriminate H | reflexivity].
Qed.

Lemma Split_digits (s : string) : digitsOnly s -> strings.Split s "." = [s].
Proof.
  unfold digitsOnly. induction s as [|c s IH]; cbn; intros H; [reflexivity|].
  inversion H as [|? ? Hc Hs]; subst.
  rewrite (digit_not_dot c Hc), (IH Hs). reflexivity.
Qed.

Lemma Split_digits_dot (a b : string) :
  digitsOnly a -> digitsOnly b -> strings.Split (a +:+ "." +:+ b) "." = [a; b].
Proof.
  unfold digitsOnly at 1. induction a as [|c a IH]; intros Ha Hb.
  - rewrite append_nil_l, append_cons, append_nil_l. cbn [strings.Split].
    rewrite Ascii.eqb_refl, (Split_digits b Hb). reflexivity.
  - inversion Ha as [|? ? Hc Hs]; subst.
    rewrite append_cons. cbn [strings.Split].
    rewrite (digit_not_dot c Hc), (IH Hs Hb). reflexivity.
Qed.

(** *** Amounts of at least one *)

(** What [formatHumanReadable] does with the text [ip ++ frac] that
    [FormatFloat] produced, [ip] being the integer digits and [frac] empty
    or a point followed by digits. *)
Lemma insert_separators (ip fd : string) (withFraction : bool) :
  digitsOnly ip -> digitsOnly fd ->
  let frac := if withFraction then "." +:+ fd else "" in
  let s := ip +:+ frac in
  (integerPart ← strings.Split s "." !! 0%nat;
   let fractionalPart :=
     match strings.Split s "." !! 1%nat with
     | Some p => "." +:+ p
     | None => ""
     end in
   let n := len integerPart in
   if n <=? 3 then Some s
   else
     let commas := Z.quot (n - 1) 3 in
     let b := replicate (Z.to_nat (n + commas)) Ascii.zero in
     b ← commaLoop (bytes_of integerPart) (Z.to_nat (n - 1)) (Z.of_nat (length b) - 1) 0 b;
     Some (string_of b +:+ fractionalPart))
  = Some (withCommas ip +:+ frac).
Proof.
  intros Hip Hfd frac s.
  assert (Hsplit : strings.Split s "." = if withFraction then [ip; fd] else [ip]).
  { unfold s, frac. destruct withFraction.
    - apply Split_digits_dot; assumption.
    - rewrite append_nil_r. apply Split_digits, Hip. }
  rewrite Hsplit.
  assert (H0 : (if withFraction then [ip; fd] else [ip]) !! 0%nat = Some ip)
    by (destruct withFraction; reflexivity).
  rewrite H0. cbn [mbind option_bind].
  assert (H1 : match (if withFraction then [ip; fd] else [ip]) !! 1%nat with
               | Some p => "." +:+ p
               | None => ""
               end = frac)
    by (unfold frac; destruct withFraction; reflexivity).
  rewrite H1.
  destruct (Z.leb_spec (len ip) 3) as [Hshort|Hlong].
  - rewrite (withCommas_short ip Hshort). reflexivity.
  - cbv zeta. rewrite (commaLoop_withCommas ip Hlong). cbn [mbind option_bind].
    rewrite string_of_bytes_of. reflexivity.
Qed.

Lemma geb_1000_1 (m : positive) (e : Z) :
  geb (S754_finite false m e) f64_1000 = true -> geb (S754_finite false m e) f64_1 = true.
Proof.
  unfold geb, SFleb, SFcompare, f64_1000, f64_1.
  destruct (Z.compare_spec (-43) e), (Z.compare_spec (-52) e);
    try reflexivity; try lia; discriminate.
Qed.

Lemma formatHumanReadable_ge1 (m : positive) (e : Z) :
  let f := S754_finite false m e in
  geb f f64_1 = true ->
  let prec := if geb f f64_1000 then 0%nat else 2%nat in
  let n := strconv.scaled m e (Z.of_nat prec) in
  let ip := strconv.itoa (n / 10 ^ Z.of_nat prec) in
  let fd := strconv.low_digits prec (n mod 10 ^ Z.of_nat prec) in
  let frac := if geb f f64_1000 then "" else "." +:+ fd in
  strconv.FormatFloat_f f prec = ip +:+ frac
  /\ formatHumanReadable f = Some (withCommas ip +:+ frac).
Proof.
  intros f Hge prec n ip fd frac.
  assert (Hfmt : strconv.FormatFloat_f f prec = ip +:+ frac).
  { subst frac ip fd n prec. unfold strconv.FormatFloat_f. subst f.
    destruct (geb (S754_finite false m e) f64_1000); reflexivity. }
  split; [exact Hfmt|].
  unfold formatHumanReadable. rewrite Hge. fold f prec. cbv zeta. rewrite Hfmt.
  pose proof (insert_separators ip fd (negb (geb f f64_1000))
                (proj1 (itoa_digits _)) (proj1 (low_digits_spec _ _))) as H.
  cbv zeta in H.
  replace (if negb (geb f f64_1000) then "." +:+ fd else "") with frac in H
    by (unfold frac; destruct (geb f f64_1000); reflexivity).
  exact H.
Qed.

(** *** Amounts below one: three significant digits at most *)

Lemma digits2_pos_bound (m : positive) : Zpos m < 2 ^ Zpos (digits2_pos m).
Proof.
  induction m as [m IH|m IH|]; cbn [digits2_pos]; [| |reflexivity];
    rewrite Pos2Z.inj_succ, Z.pow_succ_r by lia; lia.
Qed.

(** A canonical binary64 number that [f >= 1] rejects is below one: its
    exponent is negative and its mantissa is below [2^(-e)]. *)
Lemma below_one (m : positive) (e : Z) :
  valid (S754_finite false m e) = true ->
  geb (S754_finite false m e) f64_1 = false ->
  e < 0 /\ Zpos m < 2 ^ (- e).
Proof.
  unfold valid, valid_binary, bounded, canonical_mantissa, fexp, SpecFloat.emin, prec, emax.
  intros Hv Hge. apply andb_true_iff in Hv as [Hc _]. apply Z.eqb_eq in Hc.
  pose proof (digits2_pos_bound m) as Hm.
  assert (Hd : Zpos (digits2_pos m) <= 53) by lia.
  assert (Hm53 : Zpos m < 2 ^ 53).
  { eapply Z.lt_le_trans; [exact Hm|]. apply Z.pow_le_mono_r; lia. }
  unfold geb, SFleb, SFcompare, f64_1 in Hge.
  destruct (Z.compare_spec (-52) e) as [E|E|E]; try discriminate Hge.
  - subst e. split; [lia|].
    change (Pos.compare_cont Eq 4503599627370496 m)
      with (Pos.compare 4503599627370496 m) in Hge.
    destruct (Pos.compare_spec 4503599627370496 m) as [Hcmp|Hcmp|Hcmp];
      try discriminate Hge.
    exact Hcmp.
  - split; [lia|]. eapply Z.lt_le_trans; [exact Hm53|]. apply Z.pow_le_mono_r; lia.
Qed.

Lemma leading_zeros_bound (fuel : nat) (a b : Z) :
  0 < a < b ->
  0 <= strconv.leading_zeros fuel a b
  /\ a * 10 ^ strconv.leading_zeros fuel a b < b.
Proof.
  revert a. induction fuel as [|fuel IH]; intros a Hab; cbn [strconv.leading_zeros].
  - rewrite Z.pow_0_r. lia.
  - destruct (Z.leb_spec b (a * 10)) as [H|H]; [rewrite Z.pow_0_r; lia|].
    destruct (IH (a * 10) ltac:(lia)) as (H0 & H1).
    split; [lia|].
    rewrite Z.add_comm, Z.pow_add_r, Z.pow_1_r by lia. lia.
Qed.

Lemma div_half_even_bound (a b q : Z) :
  0 <= a -> 0 < b -> a < q * b -> 0 <= strconv.div_half_even a b <= q.
Proof.
  intros Ha Hb Hq. unfold strconv.div_half_even.
  assert (H0 : 0 <= a / b) by (apply Z.div_pos; lia).
  assert (H1 : a / b < q) by (apply Z.div_lt_upper_bound; lia).
  destruct (2 * (a mod b) ?= b); [destruct (Z.even (a / b))| |]; lia.
Qed.

Lemma length_dropZeros (l : list ascii) : (length (dropZeros l) <= length l)%nat.
Proof.
  induction l as [|c l IH]; cbn [dropZeros]; [lia|].
  destruct (Ascii.eqb c "0"); cbn [length]; lia.
Qed.

Lemma dropZeros_replicate (j : nat) (l : list ascii) :
  dropZeros (replicate j "0"%char ++ l) = dropZeros l.
Proof. induction j as [|j IH]; [reflexivity | exact IH]. Qed.

Lemma filter_digits_id (l : list ascii) :
  Forall (fun c => golib.is_digit c = true) l ->
  filter (fun c => golib.is_digit c = true) l = l.
Proof.
  induction 1 as [|c l Hc Hl IH]; [reflexivity|].
  rewrite filter_cons. destruct (decide (golib.is_digit c = true)); [|contradiction].
  f_equal. exact IH.
Qed.

Lemma mantissa_digits (l : list ascii) :
  Forall (fun c => golib.is_digit c = true) l -> mantissa l = l.
Proof.
  induction 1 as [|c l Hc Hl IH]; [reflexivity|].
  cbn [mantissa]. destruct (Ascii.eqb_spec c "e"%char) as [->|_]; [discriminate Hc|].
  f_equal. exact IH.
Qed.

Lemma mantissa_digits_e (l rest : list ascii) :
  Forall (fun c => golib.is_digit c = true) l -> mantissa (l ++ "e"%char :: rest) = l.
Proof.
  induction 1 as [|c l Hc Hl IH]; [reflexivity|].
  cbn [mantissa app]. destruct (Ascii.eqb_spec c "e"%char) as [->|_]; [discriminate Hc|].
  f_equal. exact IH.
Qed.

Lemma length_mantissa (l : list ascii) : (length (mantissa l) <= length l)%nat.
Proof.
  induction l as [|c l IH]; cbn [mantissa]; [lia|].
  destruct (Ascii.eqb c "e"); cbn [length]; lia.
Qed.

Lemma length_filter_digits (l : list ascii) :
  (length (filter (fun c => golib.is_digit c = true) l) <= length l)%nat.
Proof. apply length_filter. Qed.

(** The digits counted in a text with an exponent mark are among those
    before the mark. *)
Lemma sig_before_e (A R : list ascii) :
  (length (dropZeros (filter (fun c => golib.is_digit c = true)
                        (mantissa (A ++ "e"%char :: R))))
   <= length (filter (fun c => golib.is_digit c = true) A))%nat.
Proof.
  etransitivity; [apply length_dropZeros|].
  induction A as [|c A IH]; cbn [app mantissa].
  - rewrite Ascii.eqb_refl. cbn. lia.
  - destruct (Ascii.eqb c "e").
    + rewrite filter_nil. cbn [length]. lia.
    + rewrite !filter_cons. destruct (decide (golib.is_digit c = true)); cbn [length]; lia.
Qed.

(** The digits counted in [0.00...0Y] are among those of [Y]. *)
Lemma sig_after_zeros (j : nat) (Y : list ascii) :
  (length (dropZeros (filter (fun c => golib.is_digit c = true)
                        (mantissa ("0"%char :: "."%char :: replicate j "0"%char ++ Y))))
   <= length Y)%nat.
Proof.
  assert (Hm : forall l, mantissa (replicate j "0"%char ++ l)
                         = replicate j "0"%char ++ mantissa l)
    by (intros l; induction j as [|j IH]; cbn; [reflexivity | f_equal; exact IH]).
  cbn [mantissa]. change (Ascii.eqb "0" "e") with false. change (Ascii.eqb "." "e") with false.
  cbv iota. rewrite Hm.
  rewrite filter_cons. destruct (decide (golib.is_digit "0" = true)) as [_|N];
    [|exfalso; apply N; reflexivity].
  rewrite filter_cons. destruct (decide (golib.is_digit "." = true)) as [E|_];
    [discriminate E|].
  rewrite filter_app.
  assert (Hf : filter (fun c => golib.is_digit c = true) (replicate j "0"%char)
               = replicate j "0"%char).
  { apply filter_digits_id, Forall_replicate. reflexivity. }
  rewrite Hf. cbn [dropZeros]. change (Ascii.eqb "0" "0") with true. cbv iota.
  rewrite dropZeros_replicate.
  etransitivity; [apply length_dropZeros|].
  etransitivity; [apply length_filter_digits | apply length_mantissa].
Qed.

Lemma bytes_of_cons (c : ascii) (s : string) : bytes_of (String c s) = c :: bytes_of s.
Proof. reflexivity. Qed.

Lemma frac_digits_length (d : strconv.decimalSlice) (i : Z) (count : nat) :
  length (bytes_of (strconv.frac_digits d i count)) = count.
Proof.
  revert i. induction count as [|c IH]; intros i; cbn [strconv.frac_digits]; [reflexivity|].
  rewrite bytes_of_cons. cbn [length]. rewrite IH. reflexivity.
Qed.

Lemma frac_digits_app (d : strconv.decimalSlice) (i : Z) (c1 c2 : nat) :
  bytes_of (strconv.frac_digits d i (c1 + c2))
  = bytes_of (strconv.frac_digits d i c1)
    ++ bytes_of (strconv.frac_digits d (i + Z.of_nat c1) c2).
Proof.
  revert i. induction c1 as [|c1 IH]; intros i.
  - cbn [Nat.add strconv.frac_digits]. rewrite Z.add_0_r. reflexivity.
  - cbn [Nat.add strconv.frac_digits]. rewrite !bytes_of_cons. cbn [app]. f_equal.
    rewrite IH. replace (i + 1 + Z.of_nat c1) with (i + Z.of_nat (S c1)) by lia.
    reflexivity.
Qed.

Lemma frac_digits_zeros (d : strconv.decimalSlice) (i : Z) (count : nat) :
  strconv.ds_dp d + i + Z.of_nat count <= 0 ->
  bytes_of (strconv.frac_digits d i count) = replicate count "0"%char.
Proof.
  revert i. induction count as [|c IH]; intros i H; cbn [strconv.frac_digits]; [reflexivity|].
  rewrite bytes_of_cons. cbn [replicate]. f_equal.
  - unfold strconv.digit_at.
    destruct (Z.leb_spec 0 (strconv.ds_dp d + i)); [lia | reflexivity].
  - apply IH. lia.
Qed.

Lemma zeros_nonpos (n : Z) : n <= 0 -> strconv.zeros n = "".
Proof.
  intros H. unfold strconv.zeros. replace (Z.to_nat n) with 0%nat by lia. reflexivity.
Qed.

Lemma len_length (s : string) : len s = Z.of_nat (length (bytes_of s)).
Proof. unfold len. rewrite length_bytes_of. reflexivity. Qed.

(** The 'g' layout of at most three digits whose decimal point is not to
    the right of the first digit shows at most three significant figures. *)
Lemma formatDigits_g_sig (ds : string) (dp : Z) :
  len ds <= 3 -> dp <= 0 ->
  (sigFigures (strconv.formatDigits_g false {| strconv.ds_d := ds; strconv.ds_dp := dp |} 3)
   <= 3)%nat.
Proof.
  intros Hnd Hdp.
  pose proof (len_nonneg ds) as Hnd0.
  set (d := {| strconv.ds_d := ds; strconv.ds_dp := dp |}).
  assert (End : strconv.ds_nd d = len ds) by reflexivity.
  unfold strconv.formatDigits_g. rewrite End. cbn [strconv.ds_dp d].
  assert (E1 : (if (len ds <? 3) && (dp <=? len ds) then len ds else 3) = len ds).
  { destruct (Z.ltb_spec (len ds) 3), (Z.leb_spec dp (len ds)); cbn; lia. }
  assert (E2 : (if len ds <? 3 then len ds else 3) = len ds)
    by (destruct (Z.ltb_spec (len ds) 3); lia).
  assert (E3 : (if dp <? 3 then len ds else 3) = len ds)
    by (destruct (Z.ltb_spec dp 3); lia).
  rewrite E1, E2, E3.
  destruct (Z.leb_spec (len ds) (dp - 1)) as [Habs|_]; [lia|]. rewrite orb_false_r.
  unfold sigFigures.
  destruct (Z.ltb_spec (dp - 1) (-4)) as [Hsmall|Hbig].
  - (* scientific notation *)
    unfold strconv.fmtE. rewrite End. cbn [strconv.sign_prefix].
    rewrite append_nil_l.
    set (first := if len ds =? 0 then "0"%char else strconv.digit_at d 0).
    set (more := if 0 <? len ds - 1
                 then "." +:+ string_of (drop 1 (take (Z.to_nat (Z.min (len ds) (len ds - 1 + 1)))
                                                   (bytes_of (strconv.ds_d d))))
                          +:+ strconv.zeros (len ds - 1 + 1
                                             - Z.max 1 (Z.min (len ds) (len ds - 1 + 1)))
                 else "").
    rewrite append_cons, bytes_of_cons, bytes_of_append.
    change (bytes_of ("e" +:+ ?x)) with ("e"%char :: bytes_of x).
    change (first :: bytes_of more ++ "e"%char :: ?R)
      with ((first :: bytes_of more) ++ "e"%char :: R).
    etransitivity; [apply sig_before_e|].
    rewrite filter_cons.
    assert (Hmore : (length (filter (fun c => golib.is_digit c = true) (bytes_of more))
                     <= 2)%nat).
    { unfold more. destruct (Z.ltb_spec 0 (len ds - 1)); [|cbn; lia].
      rewrite zeros_nonpos by lia. rewrite append_nil_r.
      rewrite append_cons, bytes_of_cons, append_nil_l, bytes_of_string_of.
      rewrite filter_cons. destruct (decide (golib.is_digit "." = true)) as [E|_];
        [discriminate E|].
      etransitivity; [apply length_filter_digits|].
      cbn [strconv.ds_d d]. rewrite length_drop, length_take.
      rewrite len_length in Hnd. lia. }
    destruct (decide (golib.is_digit first = true)); cbn [length]; lia.
  - (* positional notation *)
    unfold strconv.fmtF. rewrite End. cbn [strconv.ds_dp d strconv.sign_prefix].
    destruct (Z.ltb_spec 0 dp) as [Habs|_]; [lia|].
    rewrite append_nil_l.
    rewrite Z.max_l by lia.
    destruct (Z.ltb_spec 0 (len ds - dp)) as [Hfrac|Hnone].
    + replace (Z.to_nat (len ds - dp)) with (Z.to_nat (- dp) + Z.to_nat (len ds))%nat by lia.
      rewrite append_cons, bytes_of_cons, append_nil_l, append_cons, bytes_of_cons,
        append_nil_l.
      rewrite frac_digits_app, frac_digits_zeros by (cbn [strconv.ds_dp d]; lia).
      etransitivity; [apply sig_after_zeros|].
      rewrite frac_digits_length. lia.
    + change ("0" +:+ "") with "0". vm_compute. lia.
Qed.

Lemma itoa_small (n : Z) : 0 <= n < 1000 -> len (strconv.itoa n) <= 3.
Proof.
  intros Hn.
  assert (Hall : forallb (fun k => len (strconv.itoa (Z.of_nat k)) <=? 3) (seq 0 1000) = true)
    by (vm_compute; reflexivity).
  rewrite forallb_forall in Hall.
  specialize (Hall (Z.to_nat n)). rewrite Z2Nat.id in Hall by lia.
  apply Z.leb_le, Hall, in_seq. lia.
Qed.

Lemma length_trim_zeros_rev (r : list ascii) :
  (length (strconv.trim_zeros_rev r) <= length r)%nat.
Proof.
  induction r as [|c r IH]; cbn [strconv.trim_zeros_rev]; [lia|].
  destruct (Ascii.eqb c "0"); cbn [length]; lia.
Qed.

Lemma len_trim_zeros (s : string) : len (strconv.trim_zeros s) <= len s.
Proof.
  unfold strconv.trim_zeros. rewrite !len_length, bytes_of_string_of, length_rev.
  pose proof (length_trim_zeros_rev (rev (bytes_of s))) as H.
  rewrite length_rev in H. lia.
Qed.

(** A canonical amount below one is rendered by the 'g' format with
    precision 3, and shows at most three significant figures. *)
Lemma formatHumanReadable_lt1 (m : positive) (e : Z) :
  let f := S754_finite false m e in
  valid f = true -> geb f f64_1 = false ->
  formatHumanReadable f = Some (strconv.FormatFloat_g f 3)
  /\ (sigFigures (strconv.FormatFloat_g f 3) <= 3)%nat.
Proof.
  intros f Hv Hlt. split; [unfold formatHumanReadable; rewrite Hlt; reflexivity|].
  destruct (below_one m e Hv Hlt) as (He & Hm).
  unfold f, strconv.FormatFloat_g. cbn [Z.eqb]. unfold strconv.round_digits.
  assert (Hnum : strconv.num_of m e = Zpos m)
    by (unfold strconv.num_of; destruct (Z.leb_spec 0 e); [lia | reflexivity]).
  assert (Hden : strconv.den_of e = 2 ^ (- e))
    by (unfold strconv.den_of; destruct (Z.leb_spec 0 e); [lia | reflexivity]).
  set (k := strconv.leading_zeros (S (Z.to_nat (Z.log2 (2 ^ (- e))))) (Zpos m) (2 ^ (- e))).
  assert (Hdp : strconv.decimal_point m e = - k).
  { unfold strconv.decimal_point. rewrite Hnum, Hden.
    destruct (Z.leb_spec (2 ^ (- e)) (Zpos m)); [lia | reflexivity]. }
  destruct (leading_zeros_bound (S (Z.to_nat (Z.log2 (2 ^ (- e))))) (Zpos m) (2 ^ (- e))
              ltac:(lia)) as (Hk0 & Hk).
  fold k in Hk0, Hk. rewrite Hdp.
  set (n := strconv.scaled m e (3 - - k)).
  assert (Hn : 0 <= n <= 1000).
  { unfold n, strconv.scaled. destruct (Z.leb_spec 0 (3 - - k)); [|lia].
    rewrite Hnum, Hden. apply div_half_even_bound; [lia | lia |].
    replace (3 - - k) with (k + 3) by lia.
    rewrite Z.pow_add_r by lia. change (10 ^ 3) with 1000. lia. }
  change (10 ^ 3) with 1000.
  destruct (Z.eqb_spec n 1000) as [E|E].
  - destruct (Z.eq_dec k 0) as [->|Hk1]; [vm_compute; lia|].
    apply formatDigits_g_sig; [vm_compute; discriminate | lia].
  - apply formatDigits_g_sig; [|lia].
    etransitivity; [apply len_trim_zeros | apply itoa_small; lia].
Qed.

(** *** Separators do not change the digits *)

Lemma commas_rev_strip (n : nat) :
  forall r : list ascii,
    (length r <= n)%nat -> Forall (fun c => c <> ","%char) r ->
    filter (fun c => c <> ","%char) (commas_rev r) = r.
Proof.
  assert (Hid : forall l : list ascii,
            Forall (fun c => c <> ","%char) l -> filter (fun c => c <> ","%char) l = l).
  { induction 1 as [|c l Hc Hl IH]; [reflexivity|].
    rewrite filter_cons. destruct (decide (c <> ","%char)); [|contradiction].
    f_equal. exact IH. }
  induction n as [|n IH]; intros r Hn Hr.
  - destruct r; [reflexivity | cbn in Hn; lia].
  - destruct r as [|a [|b [|c [|d rest]]]]; try (apply Hid, Hr).
    change (commas_rev (a :: b :: c :: d :: rest))
      with (a :: b :: c :: ","%char :: commas_rev (d :: rest)).
    inversion Hr as [|? ? Ha Hr1]; subst. inversion Hr1 as [|? ? Hb Hr2]; subst.
    inversion Hr2 as [|? ? Hc Hr3]; subst.
    rewrite !filter_cons.
    destruct (decide (a <> ","%char)); [|contradiction].
    destruct (decide (b <> ","%char)); [|contradiction].
    destruct (decide (c <> ","%char)); [|contradiction].
    destruct (decide (","%char <> ","%char)) as [N|_]; [contradiction|].
    do 3 f_equal. apply IH; [cbn in Hn |- *; lia | exact Hr3].
Qed.

Lemma filter_rev_comma (l : list ascii) :
  filter (fun c => c <> ","%char) (rev l) = rev (filter (fun c => c <> ","%char) l).
Proof.
  induction l as [|c l IH]; [reflexivity|].
  cbn [rev]. rewrite filter_app, IH, (filter_cons _ c l), (filter_cons _ c []), filter_nil.
  destruct (decide (c <> ","%char)); cbn [rev].
  - reflexivity.
  - apply app_nil_r.
Qed.

Lemma removeCommas_withCommas (s : string) :
  digitsOnly s -> removeCommas (withCommas s) = s.
Proof.
  intros Hs. unfold removeCommas, withCommas. rewrite bytes_of_string_of.
  rewrite filter_rev_comma, (commas_rev_strip (length (rev (bytes_of s)))).
  - rewrite rev_involutive. apply string_of_bytes_of.
  - lia.
  - apply Forall_rev. eapply Forall_impl; [exact Hs|].
    intros c Hc ->. discriminate Hc.
Qed.

(** *** The claim *)

(** What [formatHumanReadable] does.  For a positive finite amount [f]:
    - at 1000 or more the result is the integer digits that [FormatFloat]
      gives with no decimals, in groups of three separated by commas;
    - from 1 up to 1000 it is the integer digits of [FormatFloat] with two
      decimals, grouped the same way, then a point and exactly two digits;
    - below 1 it is [FormatFloat] in the 'g' format with precision 3, which
      shows at most three significant figures (not always three).
    Grouping only adds commas.  Zero is rendered as "0", and the three
    examples of the documentation hold. *)
Theorem formatHumanReadable_rule (m : positive) (e : Z) :
  let f := S754_finite false m e in
  (geb f f64_1000 = true ->
   exists ip, digitsOnly ip /\ ip <> ""
     /\ strconv.FormatFloat_f f 0 = ip
     /\ formatHumanReadable f = Some (withCommas ip))
  /\ (geb f f64_1 = true -> geb f f64_1000 = false ->
      exists ip fd, digitsOnly ip /\ ip <> "" /\ digitsOnly fd /\ String.length fd = 2%nat
        /\ strconv.FormatFloat_f f 2 = ip +:+ "." +:+ fd
        /\ formatHumanReadable f = Some (withCommas ip +:+ "." +:+ fd))
  /\ (valid f = true -> geb f f64_1 = false ->
      formatHumanReadable f = Some (strconv.FormatFloat_g f 3)
      /\ (sigFigures (strconv.FormatFloat_g f 3) <= 3)%nat)
  /\ (forall ip, digitsOnly ip -> removeCommas (withCommas ip) = ip)
  /\ formatHumanReadable zero = Some "0"
  /\ formatHumanReadable (of_decimal 15004 (-1)) = Some "1,500"
  /\ formatHumanReadable (of_decimal 12345 (-3)) = Some "12.35"
  /\ formatHumanReadable (of_decimal 4321 (-7)) = Some "0.000432".
Proof.
  intros f.
  split; [|split; [|split; [|split; [|split; [|split; [|split]]]]]].
  - intros H1000.
    destruct (formatHumanReadable_ge1 m e (geb_1000_1 m e H1000)) as (Hf & Hh).
    fold f in Hf, Hh. rewrite H1000 in Hf, Hh.
    rewrite append_nil_r in Hf. rewrite append_nil_r in Hh.
    eexists. split; [apply itoa_digits|].
    split; [apply itoa_digits|]. split; [exact Hf | exact Hh].
  - intros H1 H1000.
    destruct (formatHumanReadable_ge1 m e H1) as (Hf & Hh).
    fold f in Hf, Hh. rewrite H1000 in Hf, Hh.
    eexists. eexists. split; [apply itoa_digits|].
    split; [apply itoa_digits|].
    split; [apply low_digits_spec|]. split; [apply low_digits_spec|].
    split; [exact Hf | exact Hh].
  - intros Hv H1. exact (formatHumanReadable_lt1 m e Hv H1).
  - exact removeCommas_withCommas.
  - vm_compute. reflexivity.
  - vm_compute. reflexivity.
  - vm_compute. reflexivity.
  - vm_compute. reflexivity.
Qed.

(** The three ranges at 12345678.91, at 12.345 and at 0.0004321. *)
Lemma formatHumanReadable_rule_sample :
  (exists ip, digitsOnly ip /\ ip <> ""
     /\ strconv.FormatFloat_f (S754_finite false 6628035895670866 (-29)) 0 = ip
     /\ formatHumanReadable (S754_finite false 6628035895670866 (-29))
        = Some (withCommas ip))
  /\ (exists ip fd, digitsOnly ip /\ ip <> "" /\ digitsOnly fd /\ String.length fd = 2%nat
        /\ strconv.FormatFloat_f (S754_finite false 6949617174986097 (-49)) 2
           = ip +:+ "." +:+ fd
        /\ formatHumanReadable (S754_finite false 6949617174986097 (-49))
           = Some (withCommas ip +:+ "." +:+ fd))
  /\ (formatHumanReadable (S754_finite false 7970838114249897 (-64))
      = Some (strconv.FormatFloat_g (S754_finite false 7970838114249897 (-64)) 3)
      /\ (sigFigures (strconv.FormatFloat_g (S754_finite false 7970838114249897 (-64)) 3)
          <= 3)%nat).
Proof.
  split; [|split].
  - apply (proj1 (formatHumanReadable_rule 6628035895670866 (-29))).
    vm_compute. reflexivity.
  - apply (proj1 (proj2 (formatHumanReadable_rule 6949617174986097 (-49))));
      vm_compute; reflexivity.
  - apply (proj1 (proj2 (proj2 (formatHumanReadable_rule 7970838114249897 (-64)))));
      vm_compute; reflexivity.
Qed.

(** C5. The documentation of [formatHumanReadable] promises three
    significant figures for an amount below one ("0.123 or 0.000123"). The
    code asks [FormatFloat] for the 'g' format with precision 3, which
    drops trailing zeros: one half, a canonical amount below one, is
    rendered as "0.5", with one significant figure; a quarter as "0.25",
    with two; 0.1 as "0.1"; and 0.00009996 as "0.0001". *)
Theorem C5_half_shows_one_figure :
  valid (of_decimal 5 (-1)) = true
  /\ geb (of_decimal 5 (-1)) f64_1 = false
  /\ formatHumanReadable (of_decimal 5 (-1)) = Some "0.5"
  /\ sigFigures "0.5" = 1%nat
  /\ formatHumanReadable (of_decimal 25 (-2)) = Some "0.25"
  /\ sigFigures "0.25" = 2%nat
  /\ formatHumanReadable (of_decimal 1 (-1)) = Some "0.1"
  /\ formatHumanReadable (of_decimal 9996 (-8)) = Some "0.0001"
  /\ sigFigures "0.0001" = 1%nat.
Proof. vm_compute. repeat split; reflexivity. Qed.

(** * Further properties of the code *)

(** ** The subscriber: the sweep of the dedupe cache, the window, the log line *)

Section TrackerMore.

Import tracker.

Variable now : nat -> Z.
Variable callback : option (string -> string -> bool).

Lemma sweepEntry_cache (s : Subscriber) (k : string) (v : Z) :
  dedupeCache (sweepEntry now s (k, v))
  = if one_minute <? now (clock s) - v then delete k (dedupeCache s) else dedupeCache s.
Proof.
  unfold sweepEntry, read_clock, set_cache. cbn.
  destruct (one_minute <? now (clock s) - v); reflexivity.
Qed.

(** The sweep over a list of entries: it only deletes; a key survives when
    none of its entries is found too old at the time it is visited; a key
    with an entry found too old is gone at the end. *)
Lemma sweep_fold_cache (l : list (string * Z)) (s : Subscriber) :
  let s' := fold_left (sweepEntry now) l s in
  (forall k ts, dedupeCache s' !! k = Some ts -> dedupeCache s !! k = Some ts)
  /\ (forall k ts, dedupeCache s !! k = Some ts ->
        (forall v i, l !! i = Some (k, v) -> now (clock s + i) - v <= one_minute) ->
        dedupeCache s' !! k = Some ts)
  /\ (forall k v i, l !! i = Some (k, v) -> one_minute < now (clock s + i) - v ->
        dedupeCache s' !! k = None).
Proof.
  revert s. induction l as [|[k0 v0] l IH]; intros s; cbn [fold_left].
  - split; [auto|]. split; [auto|]. intros k v i Hi. rewrite lookup_nil in Hi. discriminate.
  - destruct (IH (sweepEntry now s (k0, v0))) as (Hsub & Hkeep & Hdel).
    destruct (sweepEntry_frame now s (k0, v0)) as (_ & _ & Hck). cbv zeta in Hck.
    pose proof (sweepEntry_cache s k0 v0) as Hc.
    split; [|split].
    + intros k ts H. apply Hsub in H. rewrite Hc in H.
      destruct (one_minute <? now (clock s) - v0); [|exact H].
      apply lookup_delete_Some in H. tauto.
    + intros k ts Hk Hyoung. apply Hkeep.
      * rewrite Hc. destruct (Z.ltb_spec one_minute (now (clock s) - v0)) as [Hold|_]; [|exact Hk].
        rewrite lookup_delete_ne; [exact Hk|]. intros ->.
        specialize (Hyoung v0 O eq_refl). rewrite Nat.add_0_r in Hyoung. lia.
      * intros v i Hi. rewrite Hck.
        specialize (Hyoung v (S i) Hi). replace (S (clock s) + i)%nat with (clock s + S i)%nat by lia.
        exact Hyoung.
    + intros k v [|i] Hi Hold.
      * cbn in Hi. injection Hi as -> ->. rewrite Nat.add_0_r in Hold.
        destruct (dedupeCache (fold_left (sweepEntry now) l (sweepEntry now s (k, v))) !! k)
          as [ts|] eqn:E; [|reflexivity].
        apply Hsub in E. rewrite Hc in E.
        destruct (Z.ltb_spec one_minute (now (clock s) - v)); [|lia].
        rewrite lookup_delete_eq in E. discriminate.
      * cbn in Hi. apply (Hdel k v i Hi). rewrite Hck.
        replace (S (clock s) + i)%nat with (clock s + S i)%nat by lia. exact Hold.
Qed.

(** X1. One firing of the ticker of [cleanCache] only deletes entries of the
    dedupe cache: what is left was there before, with the same time stamp,
    and no callback is invoked. With a clock that never goes back, an entry
    that is not older than one minute when the sweep ends is kept, and an
    entry that is older than one minute when the sweep starts is deleted. *)
Theorem X1_sweep_deletes_only_old (s : Subscriber) :
  monotone now ->
  let s' := sweep now s in
  (forall k ts, dedupeCache s' !! k = Some ts -> dedupeCache s !! k = Some ts)
  /\ (forall k ts, dedupeCache s !! k = Some ts ->
        now (clock s') - ts <= one_minute -> dedupeCache s' !! k = Some ts)
  /\ (forall k ts, dedupeCache s !! k = Some ts ->
        one_minute < now (clock s) - ts -> dedupeCache s' !! k = None)
  /\ notified s' = notified s.
Proof.
  intros Hmono. unfold sweep.
  destruct (sweep_fold_cache (map_to_list (dedupeCache s)) s) as (Hsub & Hkeep & Hdel).
  destruct (sweep_fold_frame now (map_to_list (dedupeCache s)) s) as (_ & Hn & Hck).
  cbv zeta in *. split; [exact Hsub|]. split; [|split; [|exact Hn]].
  - intros k ts Hk Hyoung. apply (Hkeep k ts Hk). intros v i Hi.
    assert (Hv : v = ts).
    { apply list_elem_of_lookup_2, elem_of_map_to_list in Hi. congruence. }
    subst v. apply lookup_lt_Some in Hi. rewrite Hck in Hyoung.
    pose proof (Hmono (clock s + i)%nat (clock s + length (map_to_list (dedupeCache s)))%nat
                  ltac:(lia)).
    lia.
  - intros k ts Hk Hold.
    assert (Hin : (k, ts) ∈ map_to_list (dedupeCache s)) by (apply elem_of_map_to_list, Hk).
    apply list_elem_of_lookup_1 in Hin as (i & Hi).
    apply (Hdel k ts i Hi).
    pose proof (Hmono (clock s) (clock s + i)%nat ltac:(lia)). lia.
Qed.

(** *** The window is fixed at the first delivery *)

Section Fixed.

Variable sig : string.
Variable ts : Z.
Variable N : nat.

(** The entry of [sig] is the one recorded at [ts]. *)
Let held (s : Subscriber) : Prop := dedupeCache s !! sig = Some ts.

(** Every reading of the clock from that of [s] to the [N]-th (excluded) is
    within the window of [ts]. *)
Let inWindow (s : Subscriber) : Prop :=
  forall k, (clock s <= k < N)%nat -> now k - ts < thirty_seconds.

Lemma isDuplicate_held (sg : string) (s : Subscriber) :
  (clock (isDuplicate now sg s).2 <= N)%nat -> inWindow s -> held s ->
  held (isDuplicate now sg s).2.
Proof.
  unfold held, inWindow. rewrite isDuplicate_spec. intros Hc Hw Hs.
  destruct (decide (sg = sig)) as [->|Hne].
  - rewrite Hs in *.
    destruct (Z.ltb_spec (now (clock s) - ts) thirty_seconds) as [Hin|Hout]; cbn in *.
    + exact Hs.
    + specialize (Hw (clock s) ltac:(lia)). lia.
  - destruct (dedupeCache s !! sg) as [ts'|];
      [destruct (now (clock s) - ts' <? thirty_seconds)|];
      cbn; rewrite ?lookup_insert_ne by exact Hne; exact Hs.
Qed.

Lemma sweep_fold_held (l : list (string * Z)) (s : Subscriber) :
  (forall v, In (sig, v) l -> v = ts) ->
  (clock s + length l <= N)%nat -> inWindow s -> held s ->
  held (fold_left (sweepEntry now) l s).
Proof.
  unfold held, inWindow.
  revert s. induction l as [|[k v] l IH]; intros s Hl Hc Hw Hs; cbn [fold_left]; [exact Hs|].
  cbn [length] in Hc.
  destruct (sweepEntry_frame now s (k, v)) as (_ & _ & Hck). cbv zeta in Hck.
  apply IH.
  - intros v' Hin. apply Hl. right; exact Hin.
  - lia.
  - intros j Hj. apply Hw. lia.
  - rewrite sweepEntry_cache.
    destruct (Z.ltb_spec one_minute (now (clock s) - v)) as [Hold|_]; [|exact Hs].
    rewrite lookup_delete_ne; [exact Hs|]. intros ->.
    rewrite (Hl v (or_introl eq_refl)) in Hold.
    specialize (Hw (clock s) ltac:(lia)). unfold one_minute, thirty_seconds in *. lia.
Qed.

Lemma readStep_held (s : Subscriber) (i : Input) :
  (clock (final (readStep now callback s i)) <= N)%nat -> inWindow s -> held s ->
  held (final (readStep now callback s i)).
Proof.
  intros Hc Hw Hs.
  destruct i as [[notif|]| |]; try exact Hs.
  - destruct (readStep_message now callback s notif) as [E|[E|[_ E]]]; cbv zeta in E;
      rewrite E in *; [exact Hs | apply isDuplicate_held; assumption |].
    apply (isDuplicate_held (Signature_ notif) s Hc Hw Hs).
  - revert Hc. cbn [readStep final]. unfold sweep.
    destruct (sweep_fold_frame now (map_to_list (dedupeCache s)) s) as (_ & _ & Hck).
    cbv zeta in Hck. intros Hc.
    apply sweep_fold_held; [|lia|exact Hw|exact Hs].
    intros v Hin. apply list_elem_of_In, elem_of_map_to_list in Hin.
    unfold held in Hs. congruence.
Qed.

Lemma Run_held (inputs : list Input) (s : Subscriber) :
  (clock (final (Run now callback s inputs)) <= N)%nat -> inWindow s -> held s ->
  held (final (Run now callback s inputs)).
Proof.
  revert s. induction inputs as [|i rest IH]; intros s; cbn [Run final]; [auto|].
  pose proof (readStep_held s i) as Hstep.
  pose proof (readStep_notified now callback s i) as (_ & Hck & _). cbv zeta in Hck.
  destruct (readStep now callback s i) as [s1|s1|s1]; cbn [final] in *; intros Hc Hw Hs.
  - pose proof (Run_frame now callback rest s1) as (_ & Hc1). cbv zeta in Hc1.
    apply IH; [exact Hc | intros k Hk; apply Hw; lia | apply Hstep; [lia | exact Hw | exact Hs]].
  - pose proof (Run_frame now callback rest s1) as (_ & Hc1). cbv zeta in Hc1.
    apply IH; [exact Hc | intros k Hk; apply Hw; lia | apply Hstep; [lia | exact Hw | exact Hs]].
  - apply Hstep; assumption.
Qed.

End Fixed.

(** X2. The dedupe window is fixed at the delivery that recorded the
    signature: repeats inside the window do not move the time stamp. While
    every reading of the clock is less than 30 seconds after the recorded
    time, whatever is read or swept, the entry stays as recorded; the first
    call at 30 seconds or more then answers false and records the signature
    anew, so the callback is invoked again. *)
Theorem X2_window_is_fixed (s : Subscriber) (sig : string) (ts : Z) (inputs : list Input) :
  dedupeCache s !! sig = Some ts ->
  let s2 := final (Run now callback s inputs) in
  (forall k, (clock s <= k < clock s2)%nat -> now k - ts < thirty_seconds) ->
  dedupeCache s2 !! sig = Some ts
  /\ (thirty_seconds <= now (clock s2) - ts ->
      (isDuplicate now sig s2).1 = false
      /\ dedupeCache (isDuplicate now sig s2).2 !! sig = Some (now (S (clock s2)))).
Proof.
  intros Hs s2 Hw.
  assert (H2 : dedupeCache s2 !! sig = Some ts).
  { apply (Run_held sig ts (clock s2) inputs s); [fold s2; lia | exact Hw | exact Hs]. }
  split; [exact H2|]. intros Hout.
  rewrite isDuplicate_spec, H2.
  destruct (Z.ltb_spec (now (clock s2) - ts) thirty_seconds); [lia|].
  cbn. split; [reflexivity | apply lookup_insert_eq].
Qed.

(** *** The log line and the callback *)

Lemma readStep_long (s : Subscriber) (i : Input) :
  (forall notif, i = Message (Some notif) -> accepted notif ->
                 16 <= len (Signature_ notif)
                 /\ forall cb, callback = Some cb -> cb (Signature_ notif) (addr s) = true) ->
  forall s', readStep now callback s i <> Panicked s'.
Proof.
  intros Hlong s'.
  destruct i as [[notif|]| |]; cbn [readStep]; try discriminate.
  destruct (String.eqb_spec (Method notif) "logsNotification") as [Hm|Hm];
    cbn [negb orb]; [|discriminate].
  destruct (String.eqb_spec (Signature_ notif) "") as [Hs|Hs]; cbn [orb]; [discriminate|].
  destruct (Err notif) as [e|] eqn:He; [discriminate|].
  pose proof (isDuplicate_frame now (Signature_ notif) s) as (Ha & _).
  destruct (isDuplicate now (Signature_ notif) s) as [dup s1]. cbn [snd] in Ha.
  destruct dup; [discriminate|].
  destruct (Hlong notif eq_refl) as (H16 & Hcb); [repeat split; auto|].
  destruct (proj2 (slice_to_Some (Signature_ notif) 16) ltac:(lia)) as [p ->].
  unfold invoke. destruct callback as [cb|]; [|discriminate].
  rewrite Ha, (Hcb cb eq_refl). discriminate.
Qed.

(** X3. After the dedupe check the read loop logs [signature[:16]] without a
    length check and then calls the callback, in its own goroutine and
    without recovering. While every accepted signature has at least 16
    bytes and the callback returns, the loop never panics. On an accepted
    signature of fewer than 16 bytes that is not a duplicate it panics
    before the callback is invoked. A panic of the callback ends the loop
    too. In both cases the signature has already been recorded in the
    dedupe cache. *)
Theorem X3_log_line_slice :
  (forall s inputs,
     (forall notif, In (Message (Some notif)) inputs -> accepted notif ->
                    16 <= len (Signature_ notif)) ->
     callbackReturns callback (addr s) inputs ->
     exists s', Run now callback s inputs = Continue s')
  /\ (forall s notif,
        accepted notif -> len (Signature_ notif) < 16 ->
        (isDuplicate now (Signature_ notif) s).1 = false ->
        readStep now callback s (Message (Some notif))
        = Panicked (isDuplicate now (Signature_ notif) s).2
        /\ notified (isDuplicate now (Signature_ notif) s).2 = notified s
        /\ is_Some (dedupeCache (isDuplicate now (Signature_ notif) s).2 !! Signature_ notif))
  /\ (forall s notif cb,
        accepted notif -> 16 <= len (Signature_ notif) ->
        (isDuplicate now (Signature_ notif) s).1 = false ->
        callback = Some cb -> cb (Signature_ notif) (addr s) = false ->
        forall rest,
          Run now callback s (Message (Some notif) :: rest)
          = Panicked (notify (Signature_ notif) (isDuplicate now (Signature_ notif) s).2)
          /\ is_Some (dedupeCache (isDuplicate now (Signature_ notif) s).2
                        !! Signature_ notif)).
Proof.
  split; [|split].
  - intros s inputs. revert s. induction inputs as [|i rest IH]; intros s Hlong Hcb;
      cbn [Run].
    + eauto.
    + pose proof (readStep_long s i) as Hstep.
      pose proof (readStep_notified now callback s i) as (Ha & _). cbv zeta in Ha.
      assert (Hrest : forall s1, addr s1 = addr s ->
                exists s', Run now callback s1 rest = Continue s').
      { intros s1 Hs1. apply IH.
        - intros notif Hin. apply Hlong. right; exact Hin.
        - intros cb notif Hc Hin Hacc. rewrite Hs1.
          apply (Hcb cb notif Hc); [right; exact Hin | exact Hacc]. }
      destruct (readStep now callback s i) as [s1|s1|s1]; cbn [final] in Ha.
      * apply Hrest, Ha.
      * apply Hrest, Ha.
      * exfalso. apply (Hstep) with (s' := s1); [|reflexivity].
        intros notif -> Hacc. split.
        -- apply Hlong; [left; reflexivity | exact Hacc].
        -- intros cb Hc. apply (Hcb cb notif Hc); [left; reflexivity | exact Hacc].
  - intros s notif (Hm & Hs & He) Hshort Hnew.
    pose proof (isDuplicate_frame now (Signature_ notif) s) as (_ & Hn & _ & _ & Hrec).
    cbv zeta in Hn, Hrec. split; [|split; [exact Hn | exact Hrec]].
    cbn [readStep]. rewrite He.
    destruct (String.eqb_spec (Method notif) "logsNotification") as [_|E]; [|contradiction].
    destruct (String.eqb_spec (Signature_ notif) "") as [E|_]; [contradiction|].
    cbn [negb orb].
    destruct (isDuplicate now (Signature_ notif) s) as [dup s1]. cbn [fst snd] in *.
    subst dup.
    destruct (slice_to (Signature_ notif) 16) as [p|] eqn:E; [|reflexivity].
    pose proof (proj1 (slice_to_Some (Signature_ notif) 16) (ex_intro _ p E)). lia.
  - intros s notif cb Hacc H16 Hnew Hc Hpanic rest.
    pose proof (isDuplicate_frame now (Signature_ notif) s) as (Ha & _ & _ & _ & Hrec).
    cbv zeta in Ha, Hrec. split; [|exact Hrec].
    cbn [Run]. rewrite (readStep_accepted now callback s notif Hacc).
    destruct (isDuplicate now (Signature_ notif) s) as [dup s1]. cbn [fst snd] in *.
    subst dup.
    destruct (proj2 (slice_to_Some (Signature_ notif) 16) ltac:(lia)) as [p ->].
    unfold invoke. rewrite Hc, Ha, Hpanic. reflexivity.
Qed.

End TrackerMore.

Lemma X1_witness :
  let s := {| tracker.addr := Sample.wallet;
              tracker.dedupeCache := <["young" := Sample.seconds 90]>
                                       (<["old" := Sample.seconds 10]> ∅);
              tracker.clock := 100; tracker.notified := [] |} in
  tracker.dedupeCache (tracker.sweep Sample.seconds s) !! "young" = Some (Sample.seconds 90)
  /\ tracker.dedupeCache (tracker.sweep Sample.seconds s) !! "old" = None.
Proof.
  intros s.
  assert (Hmono : monotone Sample.seconds)
    by (intros a b Hab; unfold Sample.seconds; lia).
  destruct (X1_sweep_deletes_only_old Sample.seconds s Hmono) as (_ & Hkeep & Hdel & _).
  split.
  - apply Hkeep; [reflexivity | vm_compute; discriminate].
  - apply (Hdel "old" (Sample.seconds 10)); [reflexivity | vm_compute; reflexivity].
Defined.

Lemma X2_witness :
  let now := fun k : nat => if (k <? 3)%nat then Sample.seconds k else Sample.seconds 40 in
  let s := (tracker.isDuplicate now Sample.sig1 (tracker.NewSubscriber Sample.wallet)).2 in
  let s2 := tracker.final
              (tracker.Run now Sample.callbackOK s
                 [tracker.Message (Some (Sample.logsNotif Sample.sig1)); tracker.Sweep]) in
  tracker.dedupeCache s2 !! Sample.sig1 = Some 0
  /\ (tracker.isDuplicate now Sample.sig1 s2).1 = false.
Proof.
  intros now s s2.
  destruct (X2_window_is_fixed now Sample.callbackOK s Sample.sig1 0
              [tracker.Message (Some (Sample.logsNotif Sample.sig1)); tracker.Sweep])
    as (Hkept & Hout).
  - reflexivity.
  - intros k Hk. change (1 <= k < 3)%nat in Hk.
    unfold now. destruct (Nat.ltb_spec k 3); [|lia].
    unfold Sample.seconds, tracker.thirty_seconds. lia.
  - split; [exact Hkept|]. apply Hout. vm_compute. discriminate.
Defined.

Lemma X3_witness :
  (exists s', tracker.Run Sample.seconds Sample.callbackPicky
                (tracker.NewSubscriber Sample.wallet)
                [tracker.Message (Some (Sample.logsNotif Sample.sig1))]
              = tracker.Continue s')
  /\ tracker.readStep Sample.seconds Sample.callbackPicky (tracker.NewSubscriber Sample.wallet)
       (tracker.Message (Some (Sample.logsNotif "abc")))
     = tracker.Panicked
         (tracker.isDuplicate Sample.seconds "abc" (tracker.NewSubscriber Sample.wallet)).2
  /\ tracker.Run Sample.seconds Sample.callbackPicky (tracker.NewSubscriber Sample.wallet)
       [tracker.Message (Some (Sample.logsNotif "0123456789abcdefgh"))]
     = tracker.Panicked
         (tracker.notify "0123456789abcdefgh"
            (tracker.isDuplicate Sample.seconds "0123456789abcdefgh"
               (tracker.NewSubscriber Sample.wallet)).2).
Proof.
  split; [|split].
  - apply (proj1 (X3_log_line_slice Sample.seconds Sample.callbackPicky)).
    + intros notif [E|[]] _. injection E as <-. vm_compute. discriminate.
    + intros cb notif [= <-] [E|[]] _. injection E as <-. vm_compute. reflexivity.
  - apply (proj1 (proj2 (X3_log_line_slice Sample.seconds Sample.callbackPicky))
             (tracker.NewSubscriber Sample.wallet) (Sample.logsNotif "abc")).
    + repeat split; discriminate.
    + vm_compute. reflexivity.
    + reflexivity.
  - apply (proj2 (proj2 (X3_log_line_slice Sample.seconds Sample.callbackPicky))
             (tracker.NewSubscriber Sample.wallet) (Sample.logsNotif "0123456789abcdefgh")
             (fun signature _ => 20 <=? len signature)).
    + repeat split; discriminate.
    + vm_compute. discriminate.
    + reflexivity.
    + reflexivity.
    + vm_compute. reflexivity.
Defined.

(** ** The analyzer: formatting never fails, what is filtered *)

Lemma string_of_app (a b : list ascii) : string_of (a ++ b) = string_of a +:+ string_of b.
Proof.
  induction a as [|c a IH]; [symmetry; apply append_nil_l|].
  cbn [app]. change (string_of (c :: a ++ b)) with (String c (string_of (a ++ b))).
  change (string_of (c :: a)) with (String c (string_of a)).
  rewrite IH, append_cons. reflexivity.
Qed.

Lemma removeCommas_append (a b : string) :
  removeCommas (a +:+ b) = removeCommas a +:+ removeCommas b.
Proof. unfold removeCommas. rewrite bytes_of_append, filter_app. apply string_of_app. Qed.

Lemma removeCommas_id (s : string) :
  Forall (fun c => c <> ","%char) (bytes_of s) -> removeCommas s = s.
Proof.
  intros H. unfold removeCommas.
  rewrite <- (string_of_bytes_of s) at 2. f_equal.
  induction H as [|c l Hc Hl IH]; [reflexivity|].
  rewrite filter_cons. destruct (decide (c <> ","%char)); [|contradiction].
  f_equal. exact IH.
Qed.

Lemma digitsOnly_no_comma (s : string) :
  digitsOnly s -> Forall (fun c => c <> ","%char) (bytes_of s).
Proof.
  intros H. eapply Forall_impl; [exact H|]. intros c Hc ->. discriminate Hc.
Qed.

(** [formatHumanReadable] returns for every binary64 value: no access of
    its comma loop is out of range. *)
Lemma formatHumanReadable_total (f : float64) : is_Some (formatHumanReadable f).
Proof.
  destruct (geb f f64_1) eqn:Hge.
  2:{ unfold formatHumanReadable. rewrite Hge. eauto. }
  destruct f as [s|s| |s m e]; try discriminate Hge.
  - destruct s; [discriminate Hge | vm_compute; eauto].
  - destruct s; [discriminate Hge|].
    destruct (formatHumanReadable_ge1 m e Hge) as (_ & H). cbv zeta in H.
    rewrite H. eauto.
Qed.

(** X4. [formatHumanReadable] returns for every binary64 value (no index of
    its comma loop is ever out of range), and apart from the commas its
    result is the text of [FormatFloat]: in the 'f' format with no decimals
    from 1000 on and two decimals from 1 on, in the 'g' format with
    precision 3 for everything else (values below 1, negative values, NaN). *)
Theorem X4_formatHumanReadable_total (f : float64) :
  exists out,
    formatHumanReadable f = Some out
    /\ if geb f f64_1
       then removeCommas out
            = strconv.FormatFloat_f f (if geb f f64_1000 then 0%nat else 2%nat)
       else out = strconv.FormatFloat_g f 3.
Proof.
  destruct (geb f f64_1) eqn:Hge.
  2:{ unfold formatHumanReadable. rewrite Hge. eauto. }
  destruct f as [s|s| |s m e]; try discriminate Hge.
  - destruct s; [discriminate Hge|]. eexists. split; vm_compute; reflexivity.
  - destruct s; [discriminate Hge|].
    destruct (formatHumanReadable_ge1 m e Hge) as (Hf & H). cbv zeta in Hf, H.
    eexists. split; [exact H|]. rewrite Hf, removeCommas_append.
    rewrite (removeCommas_withCommas _ (proj1 (itoa_digits _))). f_equal.
    apply removeCommas_id.
    destruct (geb (S754_finite false m e) f64_1000); [constructor|].
    rewrite bytes_of_append. apply Forall_app_2.
    + repeat constructor. discriminate.
    + apply digitsOnly_no_comma, low_digits_spec.
Qed.

Lemma hasOtherTokens_false (tts : list TokenTransfer) (trackedAddr : string) :
  hasOtherTokens tts trackedAddr = false ->
  forall t, In t tts ->
    FromUserAccount t = trackedAddr \/ ToUserAccount t = trackedAddr -> Mint t = wsolMint.
Proof.
  induction tts as [|t0 rest IH]; cbn [hasOtherTokens]; intros H t Hin Hends; [destruct Hin|].
  destruct (String.eqb_spec (Mint t0) wsolMint) as [Hm|Hm].
  - destruct Hin as [<-|Hin]; [exact Hm | exact (IH H t Hin Hends)].
  - destruct (String.eqb_spec (FromUserAccount t0) trackedAddr) as [Hf|Hf];
      [discriminate H|].
    destruct (String.eqb_spec (ToUserAccount t0) trackedAddr) as [Ht|Ht];
      [discriminate H|].
    cbn [orb] in H. destruct Hin as [<-|Hin]; [tauto | exact (IH H t Hin Hends)].
Qed.

(** X5. [shouldFilter] suppresses nothing else than quiet dust: when it
    returns true the transaction did not fail on chain, every token
    transfer from or to the watched address is of the wrapped native mint,
    and the native balance change of the address is below the threshold. *)
Theorem X5_shouldFilter_only_dust (tx : HeliusTransaction) (trackedAddr : string) :
  shouldFilter tx trackedAddr = true ->
  failedOnChain tx = false
  /\ onlyWrappedNativeMoves tx trackedAddr
  /\ belowThreshold (nativeChangeLamports (AccountData_ tx) trackedAddr) = true.
Proof.
  unfold shouldFilter. destruct (failedOnChain tx); [discriminate|].
  intros H. apply andb_true_iff in H as [Hno Hlt]. apply negb_true_iff in Hno.
  split; [reflexivity|]. split; [|exact Hlt].
  intros t Hin Hends. exact (hasOtherTokens_false _ _ Hno t Hin Hends).
Qed.

Lemma X5_witness :
  failedOnChain Sample.feeOnlyTx = false
  /\ onlyWrappedNativeMoves Sample.feeOnlyTx Sample.wallet
  /\ belowThreshold (nativeChangeLamports (AccountData_ Sample.feeOnlyTx) Sample.wallet) = true.
Proof.
  apply (X5_shouldFilter_only_dust Sample.feeOnlyTx Sample.wallet).
  vm_compute. reflexivity.
Defined.

(** X6. An address without an entry in [accountData] counts as a native
    change of zero: a transaction that did not fail and in which only the
    wrapped native mint is transferred from or to such an address is
    filtered, whatever the amounts of wrapped SOL that moved. *)
Theorem X6_no_account_entry_is_filtered (tx : HeliusTransaction) (trackedAddr : string) :
  failedOnChain tx = false ->
  (forall ad, In ad (AccountData_ tx) -> Account ad <> trackedAddr) ->
  onlyWrappedNativeMoves tx trackedAddr ->
  shouldFilter tx trackedAddr = true.
Proof.
  intros Hok Hnone Hmoves. unfold shouldFilter. rewrite Hok.
  rewrite (hasOtherTokens_none _ _ Hmoves), (nativeChangeLamports_none _ _ Hnone).
  vm_compute. reflexivity.
Qed.

Lemma X6_witness :
  shouldFilter (Sample.with_AccountData [] Sample.wsolInTx) Sample.wallet = true.
Proof.
  apply X6_no_account_entry_is_filtered.
  - reflexivity.
  - intros ad [].
  - intros t [<-|[]] _. reflexivity.
Defined.

(** ** The analyzer: the metadata cache after [ensureMetadataIsCached] *)

Lemma cacheMint_cached (env : Env) (u u' : unit) (mint : string) (st st' : St) :
  cacheMint env u mint st = Some (u', st') -> is_Some (metadataCache st' !! mint).
Proof.
  unfold cacheMint. destruct (metadataCache st !! mint) as [v|] eqn:Hc.
  - intros [= _ <-]. rewrite Hc. eauto.
  - destruct (env_urlParses env (SolanaRPCURL st)); cbn [negb]; [|discriminate].
    destruct (env_meta env (length (trace st))) as [meta| |]; [| |discriminate].
    + intros [= _ <-]. cbn. rewrite lookup_insert_eq. eauto.
    + cbn. destruct (shortenAddress mint) as [short|]; [|discriminate].
      cbn. intros [= _ <-]. cbn. rewrite lookup_insert_eq. eauto.
Qed.

Lemma foldM_cacheMint_cached (env : Env) (l : list string) (u u' : unit) (st st' : St) :
  foldM (cacheMint env) l u st = Some (u', st') ->
  forall mint, In mint l -> is_Some (metadataCache st' !! mint).
Proof.
  revert u st. induction l as [|a l IH]; intros u st H mint Hin; [destruct Hin|].
  cbn [foldM] in H. apply bind_Some in H as (u1 & st1 & H1 & Hrest).
  destruct Hin as [<-|Hin]; [|exact (IH _ _ Hrest mint Hin)].
  destruct (cacheMint_cached _ _ _ _ _ _ H1) as [v Hv].
  assert (Hg : growsMetadata st1 st').
  { eapply (relates_foldM _ growsMetadata_refl growsMetadata_trans); [|exact Hrest].
    intros b m. apply cacheMint_grows. }
  exists v. apply Hg, Hv.
Qed.

Lemma foldM_cacheMint_id (env : Env) (l : list string) (st : St) :
  (forall mint, In mint l -> is_Some (metadataCache st !! mint)) ->
  foldM (cacheMint env) l tt st = Some (tt, st).
Proof.
  induction l as [|a l IH]; intros H; [reflexivity|].
  cbn [foldM]. unfold bind.
  assert (Ha : cacheMint env tt a st = Some (tt, st)).
  { unfold cacheMint. destruct (H a (or_introl eq_refl)) as [v ->]. reflexivity. }
  rewrite Ha. apply IH. intros mint Hin. apply H. right; exact Hin.
Qed.

Lemma fold_transfer_mints (tts : list TokenTransfer) (acc : gset string) (m : string) :
  m ∈ fold_left (fun (mints : gset string) transfer =>
                   if negb (String.eqb (Mint transfer) "") then {[ Mint transfer ]} ∪ mints
                   else mints) tts acc
  <-> m ∈ acc \/ exists t, In t tts /\ Mint t <> "" /\ Mint t = m.
Proof.
  revert acc. induction tts as [|t0 rest IH]; intros acc; cbn [fold_left].
  - split; [auto | intros [H|(t & [] & _)]; exact H].
  - rewrite IH. destruct (String.eqb_spec (Mint t0) "") as [E|E]; cbn [negb].
    + split; [intros [H|(t & Hin & H)]; [auto | right; exists t; split; [right|]; auto]|].
      intros [H|(t & [<-|Hin] & Hne & Hm)]; [auto | contradiction | right; eauto].
    + rewrite elem_of_union, elem_of_singleton. split.
      * intros [[->|H]|(t & Hin & H)]; [right; exists t0; split; [left|]; auto | auto |].
        right. exists t. split; [right|]; auto.
      * intros [H|(t & [<-|Hin] & Hne & Hm)]; [auto | left; left; auto | right; eauto].
Qed.

Lemma fold_swap_mints (items : list TokenSwapAmount) (acc : gset string) (m : string) :
  m ∈ fold_left (fun (mints : gset string) item => {[ sw_Mint item ]} ∪ mints) items acc
  <-> m ∈ acc \/ exists item, In item items /\ sw_Mint item = m.
Proof.
  revert acc. induction items as [|i0 rest IH]; intros acc; cbn [fold_left].
  - split; [auto | intros [H|(t & [] & _)]; exact H].
  - rewrite IH, elem_of_union, elem_of_singleton. split.
    + intros [[->|H]|(t & Hin & H)]; [right; exists i0; split; [left|]; auto | auto |].
      right. exists t. split; [right|]; auto.
    + intros [H|(t & [<-|Hin] & Hm)]; [auto | left; left; auto | right; eauto].
Qed.

(** The set [mints] of [ensureMetadataIsCached]: the mints of the token
    transfers that are not empty, and the mints of both sides of the swap
    event. *)
Lemma collectMints_spec (tx : HeliusTransaction) (m : string) :
  m ∈ collectMints tx
  <-> (exists t, In t (TokenTransfers tx) /\ Mint t <> "" /\ Mint t = m)
      \/ (exists swap item, Swap (Events tx) = Some swap
                            /\ In item (TokenInputs swap ++ TokenOutputs swap)
                            /\ sw_Mint item = m).
Proof.
  unfold collectMints. destruct (Swap (Events tx)) as [swap|].
  - rewrite !fold_swap_mints, fold_transfer_mints, elem_of_empty. split.
    + intros [[[[]|H]|(i & Hin & H)]|(i & Hin & H)]; [left; exact H | |];
        right; exists swap, i; rewrite in_app_iff; auto.
    + intros [H|(sw & i & [= <-] & Hin & H)]; [auto|].
      apply in_app_iff in Hin as [Hin|Hin]; eauto.
  - rewrite fold_transfer_mints, elem_of_empty. split.
    + intros [[]|H]. left; exact H.
    + intros [H|(sw & i & [=] & _)]. right; exact H.
Qed.

(** Whatever the order of the loop, every mint of the set is cached at the
    end. *)
Lemma ensureMetadataIsCached_cached (env : Env) (tx : HeliusTransaction) (st st' : St) :
  ensureMetadataIsCached env tx st = Some (tt, st') ->
  forall mint, mint ∈ collectMints tx -> is_Some (metadataCache st' !! mint).
Proof.
  unfold ensureMetadataIsCached. intros H mint Hin.
  apply bind_Some in H as (mints & st1 & [= <- <-] & H).
  apply (foldM_cacheMint_cached _ _ _ _ _ _ H).
  apply list_elem_of_In, elem_of_shuffle, elem_of_elements, Hin.
Qed.

(** X7. When [ensureMetadataIsCached] returns, the metadata cache holds an
    entry for the mint of every token transfer of the transaction (the empty
    mint apart, which is skipped) and for the mint of every input and output
    of its swap event. *)
Theorem X7_all_mints_cached (env : Env) (tx : HeliusTransaction) (st st' : St) :
  ensureMetadataIsCached env tx st = Some (tt, st') ->
  (forall t, In t (TokenTransfers tx) -> Mint t <> "" ->
             is_Some (metadataCache st' !! Mint t))
  /\ (forall swap item, Swap (Events tx) = Some swap ->
        In item (TokenInputs swap ++ TokenOutputs swap) ->
        is_Some (metadataCache st' !! sw_Mint item)).
Proof.
  intros H. pose proof (ensureMetadataIsCached_cached _ _ _ _ H) as Hall.
  split.
  - intros t Hin Hne. apply Hall, collectMints_spec. left. eauto.
  - intros swap item Hs Hin. apply Hall, collectMints_spec. right. eauto.
Qed.

Lemma X7_witness :
  is_Some (metadataCache
             (set_metadataCache
                (<[Sample.bonk := {| Symbol := "Mint(<code>DezX...B263</code>)";
                                     Decimals := 6 |}]> (metadataCache Sample.analyzer0))
                (record_event (EvMetaLookup Sample.bonk) Sample.analyzer0))
           !! Mint Sample.bonkIn).
Proof.
  apply (proj1 (X7_all_mints_cached (Sample.envServing Sample.receiveTx) Sample.receiveTx
                  Sample.analyzer0 _ ltac:(vm_compute; reflexivity)) Sample.bonkIn).
  - left. reflexivity.
  - discriminate.
Defined.

(** Running the loop in a state that holds every mint of the set does
    nothing. *)
Lemma ensureMetadataIsCached_id (env : Env) (tx : HeliusTransaction) (st : St) :
  (forall mint, mint ∈ collectMints tx -> is_Some (metadataCache st !! mint)) ->
  ensureMetadataIsCached env tx st = Some (tt, st).
Proof.
  intros H. unfold ensureMetadataIsCached, bind, rangeMints.
  apply foldM_cacheMint_id. intros mint Hin.
  apply H, elem_of_elements, (elem_of_shuffle (env_order env (length (trace st)))),
    list_elem_of_In, Hin.
Qed.

Lemma keepsLookupsOnce_refl (st : St) : keepsLookupsOnce st st.
Proof. split; [apply growsMetadata_refl | auto]. Qed.

Lemma keepsLookupsOnce_trans (st1 st2 st3 : St) :
  keepsLookupsOnce st1 st2 -> keepsLookupsOnce st2 st3 -> keepsLookupsOnce st1 st3.
Proof.
  intros [G1 K1] [G2 K2]. split; [eapply growsMetadata_trans; eassumption | auto].
Qed.

Lemma lookedUp_app (st st' : St) (evs : list Event) :
  trace st' = (trace st ++ evs)%list ->
  (forall e, In e evs -> forall mint, e <> EvMetaLookup mint) ->
  lookedUp st' = lookedUp st.
Proof.
  unfold lookedUp. intros -> Hno. rewrite omap_app.
  assert (E : omap lookupOfEvent evs = []).
  { induction evs as [|e evs IH]; [reflexivity|]. cbn [omap].
    destruct e as [sg|m|c]; cbn [lookupOfEvent];
      try (apply IH; intros e' Hin; apply Hno; right; exact Hin).
    exfalso. apply (Hno (EvMetaLookup m) (or_introl eq_refl) m eq_refl). }
  rewrite E, app_nil_r. reflexivity.
Qed.

Lemma sameMetadata_keeps (st st' : St) : sameMetadata st st' -> keepsLookupsOnce st st'.
Proof.
  intros Hs. split; [apply sameMetadata_grows, Hs|].
  destruct Hs as (Hc & evs & Ht & Hno). intros [Hnd Hall].
  unfold lookupsOnce. rewrite (lookedUp_app st st' evs Ht Hno), Hc. auto.
Qed.

Lemma cacheMint_keeps (env : Env) (u : unit) (mint : string) :
  relates keepsLookupsOnce (cacheMint env u mint).
Proof.
  intros st a st' H. split; [exact (cacheMint_grows env u mint st a st' H)|].
  intros [Hnd Hall]. unfold cacheMint in H.
  destruct (metadataCache st !! mint) as [v|] eqn:Hc.
  { injection H as _ <-. split; assumption. }
  destruct (env_urlParses env (SolanaRPCURL st)); cbn [negb] in H; [|discriminate H].
  assert (Hstep : forall meta,
            lookupsOnce (set_metadataCache (<[mint := meta]> (metadataCache st))
                           (record_event (EvMetaLookup mint) st))).
  { intros meta. unfold lookupsOnce, lookedUp. cbn [trace record_event set_metadataCache
      metadataCache]. rewrite omap_app. cbn [omap lookupOfEvent].
    fold (lookedUp st). split.
    - apply NoDup_app. split; [exact Hnd|]. split; [|apply NoDup_singleton].
      intros m Hm Hin. apply list_elem_of_singleton in Hin as ->.
      destruct (Hall mint Hm) as [v Hv]. congruence.
    - intros m Hm. apply elem_of_app in Hm as [Hm|Hm].
      + destruct (decide (m = mint)) as [->|Hne]; [rewrite lookup_insert_eq; eauto|].
        rewrite lookup_insert_ne by congruence. apply Hall, Hm.
      + apply list_elem_of_singleton in Hm as ->. rewrite lookup_insert_eq. eauto. }
  destruct (env_meta env (length (trace st))) as [meta| |]; [| |discriminate H].
  - injection H as _ <-. apply Hstep.
  - cbn in H. destruct (shortenAddress mint) as [short|]; [|discriminate H].
    cbn in H. injection H as _ <-. apply Hstep.
Qed.

Lemma AnalyzeSignature_keeps (env : Env) (signature trackedAddr : string) :
  relates keepsLookupsOnce (AnalyzeSignature env signature trackedAddr).
Proof.
  intros st r st' H.
  apply AnalyzeSignature_steps in H as (res & st1 & Hf & H).
  pose proof (sameMetadata_keeps _ _ (fetchHeliusTransaction_sameMetadata _ _ _ _ _ Hf)) as H1.
  destruct res as [tx|err]; [|subst; exact H1].
  destruct (shouldFilter tx trackedAddr); [subst; exact H1|].
  destruct H as (st2 & c & He & Hc).
  eapply keepsLookupsOnce_trans; [exact H1|].
  eapply keepsLookupsOnce_trans; [|apply sameMetadata_keeps,
                                     (classify_sameMetadata _ _ _ _ _ _ _ Hc)].
  unfold ensureMetadataIsCached in He.
  apply bind_Some in He as (mints & st1' & [= <- <-] & He).
  eapply (relates_foldM _ keepsLookupsOnce_refl keepsLookupsOnce_trans); [|exact He].
  intros b m. apply cacheMint_keeps.
Qed.

(** The body of the loop is its three steps in sequence. *)
Lemma cacheMint_steps (env : Env) (mint : string) (st : St) :
  cacheMint env tt mint st
  = (found <~ loadMint mint ;;
     if found : bool then ret tt
     else meta <~ lookupMint env mint ;; storeMint mint meta) st.
Proof.
  unfold cacheMint, bind, loadMint, lookupMint, storeMint, ret.
  destruct (metadataCache st !! mint); [reflexivity|].
  destruct (negb (env_urlParses env (SolanaRPCURL st))); [reflexivity|].
  destruct (env_meta env (length (trace st))); [reflexivity | | reflexivity].
  destruct (shortenAddress mint); reflexivity.
Qed.

(** X8. In an analyzer whose analyses run one after another, a mint is
    looked up on chain at most once, also when the lookup failed (the
    fallback entry is cached like a fetched one): in every state reached
    from [New] by analyses that returned, no mint occurs twice among the
    lookups made and every mint looked up is cached. Once
    [ensureMetadataIsCached] has returned for a transaction, running it
    again for that transaction in any later state, in any world, makes no
    lookup and leaves the analyzer as it is. This is lost when two
    goroutines share the analyzer: the body of the loop is [Load], lookup,
    [Store], and when the second goroutine does its [Load] for a mint that
    is not cached before the first has done its [Store], the mint is looked
    up twice, and the entry that stays is that of the second. *)
Theorem X8_one_lookup_per_mint (st : St) :
  reachable st ->
  NoDup (lookedUp st)
  /\ (forall mint, mint ∈ lookedUp st -> is_Some (metadataCache st !! mint))
  /\ (forall env tx st1 st2 env',
        ensureMetadataIsCached env tx st = Some (tt, st1) ->
        growsMetadata st1 st2 ->
        ensureMetadataIsCached env' tx st2 = Some (tt, st2))
  /\ (forall env signature trackedAddr r st',
        AnalyzeSignature env signature trackedAddr st = Some (r, st') ->
        growsMetadata st st')
  /\ (forall envA envB mint metaA metaB,
        metadataCache st !! mint = None ->
        env_urlParses envA (SolanaRPCURL st) = true ->
        env_urlParses envB (SolanaRPCURL st) = true ->
        env_meta envA (length (trace st)) = MetaOk metaA ->
        env_meta envB (S (length (trace st))) = MetaOk metaB ->
        exists st',
          cacheMintRacing envA envB mint st = Some (tt, st')
          /\ lookedUp st' = (lookedUp st ++ [mint; mint])%list
          /\ metadataCache st' !! mint = Some metaB).
Proof.
  intros Hreach.
  assert (Honce : lookupsOnce st).
  { induction Hreach as [url rpc | env signature trackedAddr st st' r Hr IH Hrun].
    - split; [constructor | intros mint Hin; inversion Hin].
    - apply (AnalyzeSignature_keeps _ _ _ _ _ _ Hrun), IH. }
  destruct Honce as [Hnd Hall]. split; [exact Hnd|]. split; [exact Hall|].
  split; [|split].
  - intros env tx st1 st2 env' Hrun [Hkeep _].
    apply ensureMetadataIsCached_id. intros mint Hin.
    destruct (ensureMetadataIsCached_cached _ _ _ _ Hrun mint Hin) as [v Hv].
    exists v. apply Hkeep, Hv.
  - intros env signature trackedAddr r st' Hrun.
    exact (AnalyzeSignature_grows _ _ _ _ _ _ Hrun).
  - intros envA envB mint metaA metaB Hnone HurlA HurlB HmetaA HmetaB.
    unfold cacheMintRacing, bind, loadMint. rewrite Hnone.
    unfold lookupMint at 1. rewrite HurlA, HmetaA. cbn [negb].
    unfold storeMint at 1, lookupMint. cbn [SolanaRPCURL set_metadataCache record_event trace].
    rewrite HurlB. cbn [negb]. rewrite length_app. cbn [length].
    rewrite Nat.add_1_r, HmetaB. unfold storeMint.
    eexists. split; [reflexivity|]. split.
    + unfold lookedUp. cbn [trace set_metadataCache record_event].
      rewrite !omap_app. cbn [omap lookupOfEvent]. rewrite <- app_assoc. reflexivity.
    + cbn [metadataCache set_metadataCache]. apply lookup_insert_eq.
Qed.

(** A first run for a transfer of BONK, then a second one in a world where
    nothing answers; and two goroutines at once in a fresh analyzer. *)
Lemma X8_witness :
  (exists st1,
     ensureMetadataIsCached (Sample.envServing Sample.receiveTx) Sample.receiveTx
       Sample.analyzer0 = Some (tt, st1)
     /\ lookedUp st1 = [Sample.bonk]
     /\ ensureMetadataIsCached Sample.envDown Sample.receiveTx st1 = Some (tt, st1))
  /\ (exists st',
        cacheMintRacing Sample.envResolving Sample.envResolving Sample.bonk
          Sample.analyzer0
        = Some (tt, st')
        /\ lookedUp st' = [Sample.bonk; Sample.bonk]).
Proof.
  split.
  - destruct (ensureMetadataIsCached (Sample.envServing Sample.receiveTx) Sample.receiveTx
                Sample.analyzer0) as [[[] st1]|] eqn:Hrun;
      [|vm_compute in Hrun; discriminate Hrun].
    exists st1. split; [reflexivity|]. split.
    + vm_compute in Hrun. injection Hrun as <-. reflexivity.
    + exact (proj1 (proj2 (proj2 (X8_one_lookup_per_mint Sample.analyzer0
                                    (reachable_New _ _))))
               (Sample.envServing Sample.receiveTx) Sample.receiveTx st1 st1 Sample.envDown
               Hrun (growsMetadata_refl st1)).
  - destruct (proj2 (proj2 (proj2 (proj2 (X8_one_lookup_per_mint Sample.analyzer0
                                            (reachable_New _ _)))))
                Sample.envResolving Sample.envResolving
                Sample.bonk Sample.bonkMeta Sample.bonkMeta)
      as (st' & Hrun & Hlook & _); try reflexivity.
    exists st'. split; [exact Hrun | exact Hlook].
Defined.

(** ** The analyzer: the price cache, and what an empty summary means *)

(** X9. A price that [GetPriceUSD] returns with [ok = true] is in the cache
    afterwards, and as long as the entry is there and less than 60 seconds
    old, [GetPriceUSD] returns that same price, in any world, without a
    request to the price service. *)
Theorem X9_price_is_reused (env env' : Env) (coinID : string) (st st1 : St)
    (price : float64) :
  GetPriceUSD env coinID st = Some ((price, true), st1) ->
  exists val,
    priceCache st1 !! coinID = Some val /\ Price val = price
    /\ forall st2,
         priceCache st2 !! coinID = Some val ->
         env_now env' (clockReads st2) - LastFetched val < sixty_seconds ->
         GetPriceUSD env' coinID st2 = Some ((price, true), tick st2).
Proof.
  intros H.
  assert (Hc : exists val, priceCache st1 !! coinID = Some val /\ Price val = price).
  { assert (Hfetch : forall st0, fetchPrice env coinID st0 = Some ((price, true), st1) ->
                       exists val, priceCache st1 !! coinID = Some val /\ Price val = price).
    { intros st0. unfold fetchPrice.
      destruct (env_price env (length (trace st0))) as [|result]; [discriminate|].
      destruct (result !! coinID) as [priceData|]; [|discriminate].
      destruct (priceData !! "usd") as [p|]; [|discriminate].
      unfold bind, Now. intros [= <- <-]. eexists. cbn.
      rewrite lookup_insert_eq. split; reflexivity. }
    unfold GetPriceUSD in H. destruct (priceCache st !! coinID) as [val|] eqn:Hv.
    - unfold bind, Now in H.
      destruct (env_now env (clockReads st) - LastFetched val <? sixty_seconds).
      + injection H as <- <-. exists val. split; [exact Hv | reflexivity].
      + exact (Hfetch _ H).
    - exact (Hfetch _ H). }
  destruct Hc as (val & Hval & Hp). exists val. split; [exact Hval|]. split; [exact Hp|].
  intros st2 H2 Hfresh. rewrite <- Hp. apply GetPriceUSD_fresh. split; assumption.
Qed.

Lemma X9_witness :
  GetPriceUSD Sample.envDown "solana" (tick (Sample.analyzerQuoted 50))
  = Some ((Sample.solPrice, true), tick (tick (Sample.analyzerQuoted 50))).
Proof.
  destruct (X9_price_is_reused Sample.envDown Sample.envDown "solana"
              (Sample.analyzerQuoted 50) (tick (Sample.analyzerQuoted 50)) Sample.solPrice
              ltac:(vm_compute; reflexivity)) as (val & Hval & _ & Hnext).
  apply Hnext; [exact Hval|].
  change (priceCache (tick (Sample.analyzerQuoted 50)) !! "solana")
    with (Some {| Price := Sample.solPrice; LastFetched := 50 * 1000000000 |}) in Hval.
  injection Hval as <-. vm_compute. reflexivity.
Defined.

(** X10. An error of [AnalyzeSignature] comes with an empty summary, and
    when the summary is empty (the fetch failed or the transaction was
    filtered) the request to the enrichment service is all that happened:
    no metadata lookup, no price request, no reading of the clock, and both
    caches are as before. *)
Theorem X10_empty_summary_leaves_no_trace (env : Env) (signature trackedAddr : string)
    (st st' : St) (summary : string) (err : option error) :
  AnalyzeSignature env signature trackedAddr st = Some ((summary, err), st') ->
  (err <> None -> summary = "")
  /\ (summary = "" -> st' = record_event (EvHeliusPost signature) st).
Proof.
  intros H.
  assert (Hurl : env_urlParses env (HeliusTxURL st) = true).
  { destruct (env_urlParses env (HeliusTxURL st)) eqn:E; [reflexivity|].
    unfold AnalyzeSignature, bind in H.
    rewrite (proj2 (fetchHeliusTransaction_panics env signature st) E) in H.
    discriminate H. }
  destruct (AnalyzeSignature_returns env signature trackedAddr st Hurl)
    as (r & st1 & Hf & Hr).
  destruct (fetchHeliusTransaction_returns env signature st Hurl) as (r' & Hf' & _).
  rewrite Hf in Hf'. injection Hf' as <- ->.
  destruct r as [tx|e].
  - destruct (shouldFilter tx trackedAddr).
    + rewrite Hr in H. injection H as <- <- <-. split; [reflexivity | reflexivity].
    + destruct (Hr summary err st' H) as (-> & Hne & _).
      split; [intros N; contradiction | intros E; contradiction].
  - rewrite Hr in H. injection H as <- <- <-. split; reflexivity.
Qed.

Lemma X10_witness :
  exists st',
    AnalyzeSignature (Sample.envServing Sample.feeOnlyTx) Sample.sig1 Sample.wallet
      Sample.analyzer0 = Some (("", None), st')
    /\ st' = record_event (EvHeliusPost Sample.sig1) Sample.analyzer0.
Proof.
  destruct (AnalyzeSignature (Sample.envServing Sample.feeOnlyTx) Sample.sig1 Sample.wallet
              Sample.analyzer0) as [[[summary err] st']|] eqn:H;
    [|vm_compute in H; discriminate H].
  assert (Hs : summary = "" /\ err = None).
  { vm_compute in H. injection H as <- <- _. split; reflexivity. }
  destruct Hs as [-> ->]. exists st'. split; [reflexivity|].
  apply (proj2 (X10_empty_summary_leaves_no_trace _ _ _ _ _ _ _ H)). reflexivity.
Defined.

(** ** The summary: addresses in the description *)

Lemma replaceAddresses_skip (l : list ascii) (k : nat) :
  (k <= length l)%nat -> replaceAddresses l k = replaceAddresses (drop k l) 0.
Proof.
  revert k. induction l as [|c r IH]; intros [|k] Hk; try reflexivity.
  cbn [replaceAddresses drop]. apply IH. cbn in Hk. lia.
Qed.

Lemma run_length_le (l : list ascii) : (run_length l <= length l)%nat.
Proof.
  induction l as [|c r IH]; cbn [run_length length]; [lia|].
  destruct (is_base58 c); lia.
Qed.

Lemma run_length_app (a rest : list ascii) :
  Forall (fun c => is_base58 c = true) a ->
  (forall c rest', rest = c :: rest' -> is_base58 c = false) ->
  run_length (a ++ rest) = length a.
Proof.
  intros Ha Hrest. induction Ha as [|c a Hc Ha IH]; cbn [app run_length length].
  - destruct rest as [|c rest']; [reflexivity|].
    cbn [run_length]. rewrite (Hrest c rest' eq_refl). reflexivity.
  - rewrite Hc, IH. reflexivity.
Qed.

Lemma length_string_of (l : list ascii) : String.length (string_of l) = length l.
Proof. rewrite <- length_bytes_of, bytes_of_string_of. reflexivity. Qed.

(** The abbreviation of an address of more than 8 bytes has 11 bytes. *)
Lemma ends4_length (addr short : string) :
  4 <= len addr -> ends4 addr = Some short -> String.length short = 11%nat.
Proof.
  unfold ends4, slice_to, slice_from, len. intros H4.
  destruct (Z.leb_spec 4 (Z.of_nat (String.length addr))); [|lia].
  destruct (Z.leb_spec 0 (Z.of_nat (String.length addr) - 4)); [|lia].
  destruct (Z.leb_spec (Z.of_nat (String.length addr) - 4) (Z.of_nat (String.length addr)));
    [|lia].
  cbn. intros [= <-].
  rewrite !length_append, !length_string_of, length_take, length_drop, !length_bytes_of.
  cbn [String.length]. lia.
Qed.

Lemma replaceAddresses_length (n : nat) :
  forall (l : list ascii) (skip : nat) (r : list ascii),
    (length l <= n)%nat ->
    replaceAddresses l skip = Some r ->
    (length r + Nat.min skip (length l) <= length l)%nat.
Proof.
  induction n as [|n IH]; intros l skip r Hn H.
  - destruct l; [|cbn in Hn; lia]. cbn in H. injection H as <-. cbn. lia.
  - destruct l as [|c l']; [cbn in H; injection H as <-; cbn; lia|].
    cbn [length] in Hn. cbn [replaceAddresses] in H.
    destruct skip as [|k].
    + set (run := run_length (c :: l')) in *.
      destruct (Nat.leb_spec 32 run) as [Hrun|Hrun].
      * destruct (shortenMatch (string_of (take (Nat.min run 44) (c :: l')))) as [short|] eqn:Hs;
          [|cbn in H; discriminate H].
        cbn [mbind option_bind] in H.
        destruct (replaceAddresses l' (Nat.min run 44 - 1)) as [rest|] eqn:Hr; [|cbn in H; discriminate H].
        cbn [mbind option_bind] in H. injection H as <-.
        pose proof (IH l' _ rest ltac:(lia) Hr) as Hlen.
        pose proof (run_length_le (c :: l')) as Hle. fold run in Hle. cbn [length] in Hle.
        assert (Hshort : String.length short = 11%nat).
        { unfold shortenMatch in Hs.
          assert (Hl : len (string_of (take (Nat.min run 44) (c :: l')))
                       = Z.of_nat (Nat.min run 44)).
          { unfold len. rewrite length_string_of, length_take. cbn [length]. lia. }
          rewrite Hl in Hs. destruct (Z.ltb_spec 8 (Z.of_nat (Nat.min run 44))); [|lia].
          eapply ends4_length; [|exact Hs]. rewrite Hl. lia. }
        rewrite length_app, length_bytes_of, Hshort. cbn [length]. lia.
      * destruct (replaceAddresses l' 0) as [rest|] eqn:Hr; [|cbn in H; discriminate H].
        cbn [mbind option_bind] in H. injection H as <-.
        pose proof (IH l' _ rest ltac:(lia) Hr). cbn [length]. lia.
    + pose proof (IH l' k r ltac:(lia) H). cbn [length]. lia.
Qed.

Lemma replaceAddresses_short_runs (l : list ascii) :
  (forall i, (run_length (drop i l) < 32)%nat) -> replaceAddresses l 0 = Some l.
Proof.
  induction l as [|c r IH]; intros H; [reflexivity|].
  cbn [replaceAddresses].
  pose proof (H O) as H0. cbn [drop] in H0.
  destruct (Nat.leb_spec 32 (run_length (c :: r))); [lia|].
  rewrite IH; [reflexivity|]. intros i. exact (H (S i)).
Qed.

(** X11. What [buildSummary] does to the addresses in a description (the
    regular expression and its callback): the text never gets longer; a
    text without a run of 32 or more address characters is left as it is;
    and a run of 32 to 44 address characters at the start, followed by the
    end of the text or by another character, is replaced by its first four
    bytes, three dots and its last four bytes, the rest being processed in
    the same way. *)
Theorem X11_addresses_are_shortened :
  (forall l r, replaceAddresses l 0 = Some r -> (length r <= length l)%nat)
  /\ (forall l, (forall i, (run_length (drop i l) < 32)%nat) ->
                replaceAddresses l 0 = Some l)
  /\ (forall addr rest,
        Forall (fun c => is_base58 c = true) addr ->
        (32 <= length addr <= 44)%nat ->
        (forall c rest', rest = c :: rest' -> is_base58 c = false) ->
        exists short rest',
          ends4 (string_of addr) = Some short
          /\ String.length short = 11%nat
          /\ replaceAddresses rest 0 = Some rest'
          /\ replaceAddresses (addr ++ rest) 0 = Some (bytes_of short ++ rest')).
Proof.
  split; [|split; [exact replaceAddresses_short_runs|]].
  - intros l r H. pose proof (replaceAddresses_length (length l) l 0 r ltac:(lia) H). lia.
  - intros addr rest Haddr Hlen Hrest.
    assert (Hl : len (string_of addr) = Z.of_nat (length addr))
      by (unfold len; rewrite length_string_of; reflexivity).
    destruct (ends4_Some (string_of addr) ltac:(lia)) as [short Hshort].
    destruct (replaceAddresses_total rest 0) as [rest' Hrest'].
    exists short, rest'. split; [exact Hshort|].
    split; [eapply ends4_length; [|exact Hshort]; lia|]. split; [exact Hrest'|].
    destruct addr as [|c addr']; [cbn in Hlen; lia|].
    cbn [app replaceAddresses].
    change (c :: addr' ++ rest) with ((c :: addr') ++ rest).
    rewrite (run_length_app (c :: addr') rest Haddr Hrest).
    destruct (Nat.leb_spec 32 (length (c :: addr'))); [|lia].
    rewrite Nat.min_l by lia.
    rewrite take_app_length.
    unfold shortenMatch. rewrite Hl.
    destruct (Z.ltb_spec 8 (Z.of_nat (length (c :: addr')))); [|lia].
    rewrite Hshort. cbn [mbind option_bind].
    cbn [length]. rewrite Nat.sub_succ, Nat.sub_0_r.
    rewrite replaceAddresses_skip by (rewrite length_app; lia).
    rewrite drop_app_length, Hrest'. reflexivity.
Qed.

Lemma X11_witness :
  exists short rest',
    ends4 Sample.wallet = Some short
    /\ String.length short = 11%nat
    /\ replaceAddresses (bytes_of " sent 1 SOL") 0 = Some rest'
    /\ replaceAddresses (bytes_of Sample.wallet ++ bytes_of " sent 1 SOL") 0
       = Some (bytes_of short ++ rest').
Proof.
  apply (proj2 (proj2 X11_addresses_are_shortened) (bytes_of Sample.wallet)
           (bytes_of " sent 1 SOL")).
  - apply List.Forall_forall, (proj1 (forallb_forall is_base58 (bytes_of Sample.wallet))).
    vm_compute. reflexivity.
  - vm_compute. lia.
  - intros c rest' [= <- _]. reflexivity.
Defined.

(** ** The analysis returns *)

Lemma returns_ret {A} (a : A) : returns (ret a).
Proof. intros st. unfold ret. eauto. Qed.

Lemma returns_bind {A B} (c : M A) (k : A -> M B) :
  returns c -> (forall a, returns (k a)) -> returns (bind c k).
Proof.
  intros Hc Hk st. unfold bind. destruct (Hc st) as [[a st'] ->]. apply Hk.
Qed.

Lemma returns_foldM {A B} (f : B -> A -> M B) (l : list A) (b : B) :
  (forall b a, In a l -> returns (f b a)) -> returns (foldM f l b).
Proof.
  revert b. induction l as [|a l IH]; intros b H; cbn [foldM]; [apply returns_ret|].
  apply returns_bind; [apply H; left; reflexivity|].
  intros b'. apply IH. intros b0 a0 Hin. apply H. right; exact Hin.
Qed.

Lemma fetchPrice_returns (env : Env) (coinID : string) : returns (fetchPrice env coinID).
Proof.
  intros st. unfold fetchPrice.
  destruct (env_price env (length (trace st))) as [|result]; [eauto|].
  destruct (result !! coinID) as [priceData|]; [|eauto].
  destruct (priceData !! "usd") as [p|]; [|eauto].
  unfold bind, Now. eauto.
Qed.

Lemma GetPriceUSD_returns (env : Env) (coinID : string) : returns (GetPriceUSD env coinID).
Proof.
  intros st. unfold GetPriceUSD.
  destruct (priceCache st !! coinID) as [val|]; [|apply fetchPrice_returns].
  unfold bind, Now.
  destruct (env_now env (clockReads st) - LastFetched val <? sixty_seconds);
    [unfold ret; eauto | apply fetchPrice_returns].
Qed.

Lemma withUSD_returns (env : Env) (coinID : string) (amount : float64) (s : string) :
  returns (withUSD env coinID amount s).
Proof.
  unfold withUSD. apply returns_bind; [apply GetPriceUSD_returns|].
  intros [price ok]. destruct ok; apply returns_ret.
Qed.

Lemma formatHumanReadable_returns (f : float64) : returns (lift (formatHumanReadable f)).
Proof.
  intros st. unfold lift. destruct (formatHumanReadable_total f) as [h ->]. eauto.
Qed.

Lemma emitSol_returns (env : Env) (total : float64) (lists : list string * list string) :
  returns (emitSol env total lists).
Proof.
  unfold emitSol. destruct lists as [sent received].
  destruct (gtb (abs total) f64_1e_12); [|apply returns_ret].
  apply returns_bind; [apply formatHumanReadable_returns|]. intros h.
  apply returns_bind; [apply withUSD_returns|]. intros formatted.
  destruct (gtb total zero); apply returns_ret.
Qed.

Lemma emitToken_returns (env : Env) (metadataMap : gmap string TokenMetadata)
    (lists : list string * list string) (mint : string) (delta : float64) :
  is_Some (metadataMap !! mint) \/ 4 <= len mint ->
  returns (emitToken env metadataMap lists (mint, delta)).
Proof.
  intros Hm. unfold emitToken. destruct lists as [sent received].
  destruct (ltb (abs delta) f64_1e_18); [apply returns_ret|].
  apply returns_bind.
  { destruct (metadataMap !! mint) as [meta|] eqn:E; [apply returns_ret|].
    destruct Hm as [[? N]|H4]; [discriminate N|].
    destruct (proj2 (slice_to_Some mint 4) ltac:(lia)) as [p Hp].
    rewrite Hp. intros st. unfold bind, lift, ret. eauto. }
  intros meta. apply returns_bind; [apply formatHumanReadable_returns|]. intros h.
  destruct (isPriceTracked mint) as [coinID tracked].
  apply returns_bind; [destruct tracked; [apply withUSD_returns | apply returns_ret]|].
  intros formatted. destruct (gtb delta zero); apply returns_ret.
Qed.

(** [calculateNetBalanceChanges] returns when every mint it has a delta for
    is in the metadata map, or has the four bytes the fallback symbol takes. *)
Lemma calculateNetBalanceChanges_returns (env : Env) (tx : HeliusTransaction)
    (trackedAddr : string) (metadataMap : gmap string TokenMetadata) :
  (forall mint, is_Some (splDeltas tx trackedAddr !! mint) ->
                is_Some (metadataMap !! mint) \/ 4 <= len mint) ->
  returns (calculateNetBalanceChanges env tx trackedAddr metadataMap).
Proof.
  intros H. unfold calculateNetBalanceChanges.
  apply returns_bind; [apply emitSol_returns|]. intros lists.
  intros st. unfold bind at 1, rangeDeltas.
  apply returns_foldM. intros b [mint delta] Hin.
  apply emitToken_returns, H.
  apply list_elem_of_In, elem_of_shuffle, elem_of_map_to_list in Hin. eauto.
Qed.

Lemma addFormattedItem_returns (env : Env) (metadataMap : gmap string TokenMetadata)
    (l : list string) (item : TokenSwapAmount) :
  returns (addFormattedItem env metadataMap l item).
Proof.
  unfold addFormattedItem. apply returns_bind.
  { destruct (metadataMap !! sw_Mint item) as [meta|]; [apply returns_ret|].
    destruct (shortenAddress_total (sw_Mint item)) as [short ->].
    intros st. unfold bind, lift, ret. eauto. }
  intros meta. apply returns_bind; [apply formatHumanReadable_returns|]. intros h.
  destruct (isPriceTracked (sw_Mint item)) as [coinID tracked].
  apply returns_bind; [destruct tracked; [apply withUSD_returns | apply returns_ret]|].
  intros formatted. apply returns_ret.
Qed.

Lemma parseSwapEvent_returns (env : Env) (tx : HeliusTransaction)
    (trackedAddr : string) (metadataMap : gmap string TokenMetadata) :
  (forall mint, is_Some (splDeltas tx trackedAddr !! mint) ->
                is_Some (metadataMap !! mint) \/ 4 <= len mint) ->
  returns (parseSwapEvent env tx trackedAddr metadataMap).
Proof.
  intros H. unfold parseSwapEvent.
  destruct (Swap (Events tx)) as [swap|]; [|apply calculateNetBalanceChanges_returns, H].
  assert (Hside : forall items, returns (foldM (addOwned env metadataMap trackedAddr) items [])).
  { intros items. apply returns_foldM. intros b item _. unfold addOwned.
    destruct (String.eqb (sw_UserAccount item) trackedAddr);
      [apply addFormattedItem_returns | apply returns_ret]. }
  apply returns_bind; [apply Hside|]. intros sent.
  apply returns_bind; [apply Hside|]. intros received. apply returns_ret.
Qed.

Lemma classify_returns (env : Env) (tx : HeliusTransaction)
    (trackedAddr : string) (metadataMap : gmap string TokenMetadata) :
  (forall mint, is_Some (splDeltas tx trackedAddr !! mint) ->
                is_Some (metadataMap !! mint) \/ 4 <= len mint) ->
  returns (classify env tx trackedAddr metadataMap).
Proof.
  intros H. unfold classify.
  destruct (String.eqb (Type_ tx) "CREATE").
  { apply returns_bind; [apply calculateNetBalanceChanges_returns, H|].
    intros lists. apply returns_ret. }
  destruct (String.eqb (Type_ tx) "SWAP").
  { apply returns_bind; [apply parseSwapEvent_returns, H|].
    intros lists. apply returns_ret. }
  apply returns_bind; [apply calculateNetBalanceChanges_returns, H|].
  intros [sent received]. apply returns_ret.
Qed.

Lemma cacheMint_url (env : Env) (u u' : unit) (mint : string) (st st' : St) :
  cacheMint env u mint st = Some (u', st') -> SolanaRPCURL st' = SolanaRPCURL st.
Proof.
  unfold cacheMint. destruct (metadataCache st !! mint); [intros [= _ <-]; reflexivity|].
  destruct (env_urlParses env (SolanaRPCURL st)); cbn [negb]; [|discriminate].
  destruct (env_meta env (length (trace st))) as [meta| |]; [| |discriminate].
  - intros [= _ <-]. reflexivity.
  - cbn. destruct (shortenAddress mint); [|discriminate]. cbn. intros [= _ <-]. reflexivity.
Qed.

Lemma foldM_cacheMint_returns (env : Env) (l : list string) (st : St) :
  (forall n, env_meta env n <> MetaPanic) ->
  env_urlParses env (SolanaRPCURL st) = true ->
  is_Some (foldM (cacheMint env) l tt st).
Proof.
  intros Hmeta. revert st. induction l as [|mint l IH]; intros st Hurl; cbn [foldM].
  - unfold ret. eauto.
  - unfold bind.
    assert (Hone : is_Some (cacheMint env tt mint st)).
    { unfold cacheMint. destruct (metadataCache st !! mint); [eauto|].
      rewrite Hurl. cbn [negb]. specialize (Hmeta (length (trace st))).
      destruct (env_meta env (length (trace st))) as [meta| |]; [eauto | | contradiction].
      destruct (shortenAddress_total mint) as [short ->]. cbn. eauto. }
    destruct Hone as [[[] st1] H1]. rewrite H1. apply IH.
    rewrite (cacheMint_url _ _ _ _ _ _ H1). exact Hurl.
Qed.

Lemma ensureMetadataIsCached_returns (env : Env) (tx : HeliusTransaction) (st : St) :
  (forall n, env_meta env n <> MetaPanic) ->
  env_urlParses env (SolanaRPCURL st) = true ->
  is_Some (ensureMetadataIsCached env tx st).
Proof.
  intros Hmeta Hurl. unfold ensureMetadataIsCached, bind, rangeMints.
  apply foldM_cacheMint_returns; assumption.
Qed.

(** X12. [AnalyzeSignature] does not return when the URL of the enrichment
    service does not parse: building the request fails, the error is
    dropped, and setting a header of the nil request panics. It returns,
    with a summary or an error, whenever that URL and the RPC URL parse,
    the on-chain metadata lookups return, the signature in the fetched
    record has at least 6 bytes, and no token transfer from or to the
    watched address has an empty mint: under these conditions no slice or
    index of the analysis is out of range, whatever the amounts, the
    description, the swap event, the order in which the maps are ranged
    over and the answers of the price service. *)
Theorem X12_AnalyzeSignature_returns (env : Env) (signature trackedAddr : string)
    (st : St) :
  (env_urlParses env (HeliusTxURL st) = false ->
   AnalyzeSignature env signature trackedAddr st = None)
  /\ (env_urlParses env (HeliusTxURL st) = true ->
      env_urlParses env (SolanaRPCURL st) = true ->
      (forall n, env_meta env n <> MetaPanic) ->
      (forall tx st1,
         fetchHeliusTransaction env signature st = Some (inl tx, st1) ->
         shouldFilter tx trackedAddr = false ->
         6 <= len (Signature tx)
         /\ forall t, In t (TokenTransfers tx) ->
              FromUserAccount t = trackedAddr \/ ToUserAccount t = trackedAddr ->
              Mint t <> "") ->
      exists r st', AnalyzeSignature env signature trackedAddr st = Some (r, st')).
Proof.
  split.
  { intros Hbad. unfold AnalyzeSignature, bind.
    rewrite (proj2 (fetchHeliusTransaction_panics env signature st) Hbad). reflexivity. }
  intros Hurl Hrpc Hmeta Htx.
  assert (Hsome : is_Some (AnalyzeSignature env signature trackedAddr st)).
  2:{ destruct Hsome as [[r st'] H]. eauto. }
  unfold AnalyzeSignature, bind at 1.
  destruct (fetchHeliusTransaction_returns env signature st Hurl) as (r & Hf & _).
  rewrite Hf. destruct r as [tx|err]; [|unfold ret; eauto].
  destruct (shouldFilter tx trackedAddr) eqn:Hflt; [unfold ret; eauto|].
  destruct (Htx tx _ Hf Hflt) as (H6 & Hmints).
  unfold bind at 1.
  destruct (ensureMetadataIsCached_returns env tx
              (record_event (EvHeliusPost signature) st) Hmeta Hrpc) as [[[] st2] He].
  rewrite He. unfold bind at 1, getMetadataMap at 1.
  assert (Hknown : forall mint, is_Some (splDeltas tx trackedAddr !! mint) ->
                     is_Some (metadataCache st2 !! mint) \/ 4 <= len mint).
  { intros mint [d Hd]. left.
    destruct (splDeltas_spec tx trackedAddr) as (_ & Hspl).
    destruct (Hspl mint d Hd) as (_ & _ & t & Hin & <- & Hends).
    apply (ensureMetadataIsCached_cached _ _ _ _ He).
    apply collectMints_spec. left.
    exists t. split; [exact Hin|]. split; [exact (Hmints t Hin Hends) | reflexivity]. }
  unfold bind at 1.
  destruct (classify_returns env tx trackedAddr (metadataCache st2) Hknown st2)
    as [[[interpretation [sent received]] st3] Hc].
  rewrite Hc. unfold bind at 1, lift.
  destruct (proj2 (buildSummary_Some tx interpretation sent received) H6) as [summary ->].
  unfold ret. eauto.
Qed.

Lemma X12_witness :
  exists r st',
    AnalyzeSignature (Sample.envServing Sample.receiveTx) Sample.sig1 Sample.wallet
      Sample.analyzer0 = Some (r, st').
Proof.
  apply (proj2 (X12_AnalyzeSignature_returns (Sample.envServing Sample.receiveTx)
                  Sample.sig1 Sample.wallet Sample.analyzer0)).
  - reflexivity.
  - reflexivity.
  - intros n. discriminate.
  - intros tx st1 [= <- _] _. split; [vm_compute; discriminate|].
    intros t [<-|[]] _. discriminate.
Defined.

(** ** The on-chain metadata lookup *)

Lemma length_le32 (n : Z) : length (le32 n) = 4%nat.
Proof. reflexivity. Qed.

Lemma nat_of_byte (k : Z) :
  0 <= k < 256 -> Z.of_nat (nat_of_ascii (ascii_of_nat (Z.to_nat k))) = k.
Proof. intros H. rewrite nat_ascii_embedding by lia. lia. Qed.

Lemma Uint32_le32 (n : Z) (rest : list ascii) :
  0 <= n < 2 ^ 32 -> Uint32 (le32 n ++ rest) = Some n.
Proof.
  intros Hn. unfold le32, Uint32. cbn [app]. f_equal.
  rewrite !Z.shiftl_mul_pow2 by lia.
  rewrite !nat_of_byte by (apply Z.mod_pos_bound; lia).
  change (2 ^ 8) with 256. change (2 ^ 16) with 65536. change (2 ^ 24) with 16777216.
  change (2 ^ 32) with 4294967296 in Hn. mod_lia.
Qed.

Lemma Uint32_four (b : list ascii) :
  length b = 4%nat -> exists n, Uint32 b = Some n /\ 0 <= n.
Proof.
  destruct b as [|b0 [|b1 [|b2 [|b3 [|b4 b]]]]]; try discriminate. intros _.
  eexists. split; [reflexivity|].
  rewrite !Z.shiftl_mul_pow2 by lia. lia.
Qed.

(** A slice expression within the length gives the bytes in between. *)
Lemma subslice_app (pre mid post : list ascii) (cap : Z) :
  Z.of_nat (length (pre ++ mid ++ post)) <= cap ->
  subslice {| sl_bytes := pre ++ mid ++ post; sl_cap := cap |}
           (Z.of_nat (length pre)) (Z.of_nat (length pre) + Z.of_nat (length mid))
  = Some mid.
Proof.
  intros Hcap. rewrite !length_app in Hcap. unfold subslice. cbn [sl_bytes sl_cap].
  destruct (Z.leb_spec 0 (Z.of_nat (length pre))); [|lia].
  destruct (Z.leb_spec (Z.of_nat (length pre)) (Z.of_nat (length pre) + Z.of_nat (length mid)));
    [|lia].
  destruct (Z.leb_spec (Z.of_nat (length pre) + Z.of_nat (length mid)) cap); [|lia].
  cbn [andb]. f_equal.
  replace (Z.of_nat (length pre) + Z.of_nat (length mid) - Z.of_nat (length pre))
    with (Z.of_nat (length mid)) by lia.
  rewrite !Nat2Z.id, drop_app_length, <- app_assoc, take_app_length. reflexivity.
Qed.

Lemma subslice_length (b : byteSlice) (lo hi : Z) (r : list ascii) :
  subslice b lo hi = Some r -> Z.of_nat (length r) = hi - lo.
Proof.
  unfold subslice. destruct ((0 <=? lo) && (lo <=? hi) && (hi <=? sl_cap b)) eqn:E;
    [|discriminate].
  apply andb_true_iff in E as [E _]. apply andb_true_iff in E as [_ E]. apply Z.leb_le in E.
  intros [= <-]. rewrite length_take, length_app, length_replicate. lia.
Qed.

Lemma subslice_Some (b : byteSlice) (lo hi : Z) :
  is_Some (subslice b lo hi) <-> 0 <= lo <= hi /\ hi <= sl_cap b.
Proof.
  unfold subslice.
  destruct (Z.leb_spec 0 lo), (Z.leb_spec lo hi), (Z.leb_spec hi (sl_cap b)); cbn [andb];
    split; try (intros [? [=]]); try (intros; lia); eauto.
Qed.

Lemma dropZeroBytes_zeros (l r : list ascii) :
  Forall (fun c => c = Ascii.zero) l -> dropZeroBytes (l ++ r) = dropZeroBytes r.
Proof. induction 1 as [|c l -> _ IH]; [reflexivity | exact IH]. Qed.

(** X13. Reading back a metadata record: for a record made of 65 bytes of
    header, the name and the symbol each preceded by its length in four
    little-endian bytes, and anything after, step 4 of
    [fetchOnChainMetadata] returns the symbol without its trailing zero
    bytes; in particular a symbol that does not end in a zero byte comes back
    as it is, whatever the zero padding behind it. *)
Theorem X13_symbol_round_trip (header name symbol rest : list ascii) (cap : Z) :
  length header = 65%nat ->
  Z.of_nat (length name) < 2 ^ 32 ->
  Z.of_nat (length symbol) < 2 ^ 32 ->
  Z.of_nat (length (metadataRecord header name symbol rest)) <= cap ->
  parseSymbol {| sl_bytes := metadataRecord header name symbol rest; sl_cap := cap |}
  = Some (inl (string_of (TrimRightZero symbol)))
  /\ forall sym c k, symbol = (sym ++ [c]) ++ replicate k Ascii.zero -> c <> Ascii.zero ->
       TrimRightZero symbol = sym ++ [c].
Proof.
  intros Hh Hn Hs Hcap. split.
  2:{ intros sym c k -> Hc. unfold TrimRightZero.
      rewrite rev_app_distr, dropZeroBytes_zeros, rev_app_distr
        by (apply Forall_rev, Forall_replicate; reflexivity).
      cbn [rev app dropZeroBytes].
      destruct (Ascii.eqb_spec c Ascii.zero); [contradiction|].
      cbn [rev]. rewrite rev_involutive. reflexivity. }
  unfold parseSymbol, sl_len, headerOffset. cbn [sl_bytes].
  unfold metadataRecord in *.
  set (nl := le32 (Z.of_nat (length name))) in *.
  set (sl := le32 (Z.of_nat (length symbol))) in *.
  assert (Hnl : length nl = 4%nat) by reflexivity.
  assert (Hsl : length sl = 4%nat) by reflexivity.
  rewrite !length_app in Hcap.
  destruct (Z.ltb_spec (Z.of_nat (length (header ++ nl ++ name ++ sl ++ symbol ++ rest))) 65)
    as [Hlt|_]; [rewrite !length_app in Hlt; lia|].
  (* the length of the name *)
  pose proof (subslice_app header nl (name ++ sl ++ symbol ++ rest) cap) as H1.
  rewrite Hh, Hnl in H1. change (Z.of_nat 65 + Z.of_nat 4) with (65 + 4) in H1.
  change (Z.of_nat 65) with 65 in H1.
  rewrite H1 by (rewrite ?length_app; lia). cbn [mbind option_bind].
  pose proof (Uint32_le32 (Z.of_nat (length name)) [] ltac:(lia)) as Hu1.
  rewrite app_nil_r in Hu1. fold nl in Hu1. rewrite Hu1. cbn [mbind option_bind].
  destruct (Z.ltb_spec (Z.of_nat (length (header ++ nl ++ name ++ sl ++ symbol ++ rest)))
              (65 + 4 + Z.of_nat (length name) + 4)) as [Hlt|_];
    [rewrite !length_app in Hlt; lia|].
  (* the length of the symbol *)
  pose proof (subslice_app (header ++ nl ++ name) sl (symbol ++ rest) cap) as H2.
  rewrite <- !app_assoc in H2.
  rewrite !length_app, Hh, Hnl, Hsl in H2.
  replace (Z.of_nat (65 + (4 + length name))) with (65 + 4 + Z.of_nat (length name)) in H2
    by lia.
  change (Z.of_nat 4) with 4 in H2.
  rewrite H2 by (rewrite ?length_app; lia). cbn [mbind option_bind].
  pose proof (Uint32_le32 (Z.of_nat (length symbol)) [] ltac:(lia)) as Hu2.
  rewrite app_nil_r in Hu2. fold sl in Hu2. rewrite Hu2. cbn [mbind option_bind].
  destruct (Z.ltb_spec (Z.of_nat (length (header ++ nl ++ name ++ sl ++ symbol ++ rest)))
              (65 + 4 + Z.of_nat (length name) + 4 + Z.of_nat (length symbol))) as [Hlt|_];
    [rewrite !length_app in Hlt; lia|].
  (* the symbol *)
  pose proof (subslice_app (header ++ nl ++ name ++ sl) symbol rest cap) as H3.
  rewrite <- !app_assoc in H3.
  rewrite !length_app, Hh, Hnl, Hsl in H3.
  replace (Z.of_nat (65 + (4 + (length name + 4))))
    with (65 + 4 + Z.of_nat (length name) + 4) in H3 by lia.
  rewrite H3 by (rewrite ?length_app; lia). reflexivity.
Qed.

Lemma X13_witness :
  parseSymbol
    {| sl_bytes := metadataRecord (replicate 65 Ascii.zero) (bytes_of "Bonk")
                     (bytes_of "BONK" ++ replicate 6 Ascii.zero) [];
       sl_cap := 87 |}
  = Some (inl "BONK").
Proof.
  destruct (X13_symbol_round_trip (replicate 65 Ascii.zero) (bytes_of "Bonk")
              (bytes_of "BONK" ++ replicate 6 Ascii.zero) [] 87) as (Hparse & Htrim);
    [reflexivity | vm_compute; reflexivity | vm_compute; reflexivity
     | vm_compute; discriminate |].
  rewrite Hparse, (Htrim (bytes_of "BON") "K"%char 6%nat eq_refl); [reflexivity|].
  discriminate.
Defined.

(** Step 4 panics exactly on a record of 65 bytes or more in a buffer of
    fewer than 69: the slice [rawData[65:69]] is the only one that is not
    guarded by the length. *)
Lemma parseSymbol_panics (rawData : byteSlice) :
  sl_len rawData <= sl_cap rawData ->
  parseSymbol rawData = None <-> 65 <= sl_len rawData /\ sl_cap rawData < 69.
Proof.
  intros Hcap. unfold parseSymbol, headerOffset.
  destruct (Z.ltb_spec (sl_len rawData) 65) as [Hshort|Hlong];
    [split; [discriminate | lia]|].
  destruct (subslice rawData 65 (65 + 4)) as [nameBytes|] eqn:E1.
  2:{ cbn [mbind option_bind]. split; [intros _|reflexivity]. split; [exact Hlong|].
      destruct (Z.lt_ge_cases (sl_cap rawData) 69) as [H|H]; [exact H|].
      destruct (proj2 (subslice_Some rawData 65 (65 + 4)) ltac:(lia)) as [x Hx].
      rewrite Hx in E1. discriminate. }
  pose proof (proj1 (subslice_Some rawData 65 (65 + 4)) (ex_intro _ _ E1)) as Hc1.
  cbn [mbind option_bind].
  destruct (Uint32_four nameBytes) as (nameLen & -> & Hn0).
  { apply subslice_length in E1. lia. }
  cbn [mbind option_bind]. split; [|lia]. intros H. exfalso. revert H.
  destruct (Z.ltb_spec (sl_len rawData) (65 + 4 + nameLen + 4)); [discriminate|].
  destruct (proj2 (subslice_Some rawData (65 + 4 + nameLen) (65 + 4 + nameLen + 4))
              ltac:(lia)) as [symbolLenBytes E2].
  rewrite E2. cbn [mbind option_bind].
  destruct (Uint32_four symbolLenBytes) as (symbolLen & -> & Hs0).
  { apply subslice_length in E2. lia. }
  cbn [mbind option_bind].
  destruct (Z.ltb_spec (sl_len rawData) (65 + 4 + nameLen + 4 + symbolLen)); [discriminate|].
  destruct (proj2 (subslice_Some rawData (65 + 4 + nameLen + 4)
                     (65 + 4 + nameLen + 4 + symbolLen)) ltac:(lia)) as [symbolBytes E3].
  rewrite E3. discriminate.
Qed.



(** ** The manager of the subscribers *)

Section Sorting.

Import gostrings.

Lemma insertString_perm (x : string) (l : list string) : insertString x l ≡ₚ x :: l.
Proof.
  induction l as [|y l IH]; cbn [insertString]; [reflexivity|].
  destruct (String.leb x y); [reflexivity|].
  rewrite IH. apply Permutation_swap.
Qed.

Lemma SortStrings_perm (l : list string) : SortStrings l ≡ₚ l.
Proof.
  induction l as [|x l IH]; [reflexivity|].
  cbn [SortStrings fold_right]. fold (SortStrings l).
  rewrite insertString_perm, IH. reflexivity.
Qed.

Lemma insertString_increasing (x : string) (l : list string) :
  increasing l -> increasing (insertString x l).
Proof.
  induction l as [|y l IH]; intros Hl; cbn [insertString]; [exact I|].
  destruct (String.leb x y) eqn:E; [split; assumption|].
  assert (Hyx : String.leb y x = true)
    by (destruct (String.leb_total x y) as [H|H]; [congruence | exact H]).
  destruct l as [|z l]; [cbn; auto|].
  destruct Hl as [Hyz Hl]. specialize (IH Hl).
  cbn [insertString] in *. destruct (String.leb x z); split; assumption.
Qed.

Lemma SortStrings_increasing (l : list string) : increasing (SortStrings l).
Proof.
  induction l as [|x l IH]; [exact I|]. apply insertString_increasing, IH.
Qed.

Lemma elem_of_SortStrings (l : list string) (a : string) : a ∈ SortStrings l <-> a ∈ l.
Proof. rewrite SortStrings_perm. reflexivity. Qed.

End Sorting.

Section Manager.

Import manager.

Lemma elem_of_List (m : Manager) (a : string) : a ∈ List m <-> is_Some (subs m !! a).
Proof.
  unfold List. rewrite elem_of_SortStrings, list_elem_of_fmap. split.
  - intros ([k h] & -> & Hin). apply elem_of_map_to_list in Hin. eauto.
  - intros [h Hh]. exists (a, h). split; [reflexivity | apply elem_of_map_to_list, Hh].
Qed.

Lemma NoDup_List (m : Manager) : NoDup (List m).
Proof. unfold List. rewrite SortStrings_perm. apply NoDup_fst_map_to_list. Qed.

Lemma Stop_once (h : Handle) :
  stopCh_closed h = stopOnce_done h /\ shouldOpen h = negb (stopOnce_done h) ->
  exists h', Stop h = Some h'
    /\ stopCh_closed h' = true /\ stopOnce_done h' = true /\ shouldOpen h' = false
    /\ open h' = open h.
Proof.
  intros [Hc Hs]. unfold Stop. destruct (stopOnce_done h) eqn:Hd.
  - exists h. rewrite Hd, Hc, Hs. auto.
  - rewrite Hc. eexists. split; [reflexivity|]. cbn. auto.
Qed.

(** The loop of [StopAll] over a list of entries with distinct keys: every
    subscriber of the list is stopped and put back, the others are left. *)
Lemma StopAll_fold (l : list (string * Handle)) (acc : gmap string Handle) :
  NoDup l.*1 ->
  (forall a h, (a, h) ∈ l ->
     stopCh_closed h = stopOnce_done h /\ shouldOpen h = negb (stopOnce_done h)) ->
  exists acc',
    fold_left (fun (acc : option (gmap string Handle)) (entry : string * Handle) =>
                 subs_ ← acc; stopped ← Stop entry.2; Some (<[entry.1 := stopped]> subs_))
              l (Some acc) = Some acc'
    /\ (forall a h, (a, h) ∈ l -> exists h', Stop h = Some h' /\ acc' !! a = Some h')
    /\ (forall a, a ∉ l.*1 -> acc' !! a = acc !! a).
Proof.
  revert acc. induction l as [|[a0 h0] l IH]; intros acc Hnd Hl; cbn [fold_left].
  - exists acc. split; [reflexivity|]. split; [intros a h Hin; inversion Hin | auto].
  - cbn [fmap list_fmap fst] in Hnd. apply NoDup_cons in Hnd as [Hnot Hnd].
    destruct (Stop_once h0 (Hl a0 h0 ltac:(apply elem_of_cons; left; reflexivity))) as (h0' & Hs & _).
    cbn [mbind option_bind fst snd]. rewrite Hs. cbn [mbind option_bind].
    destruct (IH (<[a0 := h0']> acc) Hnd) as (acc' & Hf & Hin' & Hout).
    { intros a h Hin. apply (Hl a h), elem_of_cons. right; exact Hin. }
    exists acc'. split; [exact Hf|]. split.
    + intros a h Hin. apply elem_of_cons in Hin as [[= -> ->]|Hin]; [|exact (Hin' a h Hin)].
      exists h0'. split; [exact Hs|]. rewrite (Hout a0 Hnot). apply lookup_insert_eq.
    + intros a Ha. cbn [fmap list_fmap fst] in Ha. apply not_elem_of_cons in Ha as [Hne Ha].
      rewrite (Hout a Ha). apply lookup_insert_ne. congruence.
Qed.

Lemma StopAll_spec (m : Manager) :
  stoppedOnce m ->
  exists m', StopAll m = Some m'
    /\ stoppedOnce m'
    /\ (forall a, is_Some (subs m' !! a) <-> is_Some (subs m !! a))
    /\ started m' = started m
    /\ (forall a h', subs m' !! a = Some h' ->
          shouldOpen h' = false
          /\ exists h, subs m !! a = Some h /\ open h' = open h).
Proof.
  intros Hwf. unfold StopAll.
  destruct (StopAll_fold (map_to_list (subs m)) (subs m)) as (acc' & Hf & Hin & Hout).
  { apply NoDup_fst_map_to_list. }
  { intros a h H. apply elem_of_map_to_list in H. exact (Hwf a h H). }
  rewrite Hf. cbn [mbind option_bind]. eexists. split; [reflexivity|].
  assert (Hcases : forall a,
            (exists h h', subs m !! a = Some h /\ Stop h = Some h' /\ acc' !! a = Some h')
            \/ (subs m !! a = None /\ acc' !! a = None)).
  { intros a. destruct (subs m !! a) as [h|] eqn:Ha.
    - left. destruct (Hin a h ltac:(apply elem_of_map_to_list, Ha)) as (h' & Hs & Hh').
      eauto.
    - right. split; [reflexivity|]. rewrite Hout, Ha; [reflexivity|].
      intros Hk. apply list_elem_of_fmap in Hk as ([k h] & -> & Hk).
      apply elem_of_map_to_list in Hk. cbn in Ha. congruence. }
  unfold stoppedOnce. cbn [subs set_subs started].
  split; [|split; [|split; [reflexivity|]]].
  - intros a h' Hh'. destruct (Hcases a) as [(h & h2 & Ha & Hs & Hh2)|[_ Hn]]; [|congruence].
    rewrite Hh2 in Hh'. injection Hh' as <-.
    destruct (Stop_once h (Hwf a h Ha)) as (h3 & Hs3 & Hc & Hd & Hso & _).
    rewrite Hs in Hs3. injection Hs3 as <-. rewrite Hc, Hd, Hso. auto.
  - intros a. destruct (Hcases a) as [(h & h2 & Ha & Hs & Hh2)|[Hn Hn']].
    + rewrite Ha, Hh2. split; eauto.
    + rewrite Hn, Hn'. reflexivity.
  - intros a h' Hh'. destruct (Hcases a) as [(h & h2 & Ha & Hs & Hh2)|[_ Hn]]; [|congruence].
    rewrite Hh2 in Hh'. injection Hh' as <-.
    destruct (Stop_once h (Hwf a h Ha)) as (h3 & Hs3 & _ & _ & Hso & Hop).
    rewrite Hs in Hs3. injection Hs3 as <-. split; [exact Hso|]. eauto.
Qed.

Lemma Track_spec (addr : string) (m : Manager) :
  stoppedOnce m ->
  stoppedOnce (Track addr m)
  /\ dom (subs (Track addr m)) = {[ addr ]} ∪ dom (subs m).
Proof.
  intros Hwf. unfold Track. destruct (subs m !! addr) as [h|] eqn:Ha.
  - split; [exact Hwf|]. apply set_eq. intros a.
    rewrite elem_of_union, elem_of_singleton, !elem_of_dom. split; [auto|].
    intros [->|H]; [eauto | exact H].
  - unfold stoppedOnce. cbn [subs]. split; [|apply dom_insert_L].
    intros a h. destruct (decide (a = addr)) as [->|Hne].
    + rewrite lookup_insert_eq. intros [= <-]. split; reflexivity.
    + rewrite lookup_insert_ne by congruence. apply Hwf.
Qed.

Lemma Untrack_spec (addr : string) (m : Manager) :
  stoppedOnce m ->
  exists m', Untrack addr m = Some m'
    /\ stoppedOnce m'
    /\ dom (subs m') = dom (subs m) ∖ {[ addr ]}
    /\ started m' = started m.
Proof.
  intros Hwf. unfold Untrack. destruct (subs m !! addr) as [h|] eqn:Ha.
  - destruct (Stop_once h (Hwf addr h Ha)) as (h' & -> & _).
    cbn [mbind option_bind]. eexists. split; [reflexivity|].
    unfold stoppedOnce. cbn [subs set_subs started].
    split; [|split; [apply dom_delete_L | reflexivity]].
    intros a h0 H. apply lookup_delete_Some in H as [_ H]. exact (Hwf a h0 H).
  - exists m. split; [reflexivity|]. split; [exact Hwf|]. split; [|reflexivity].
    apply set_eq. intros a. rewrite elem_of_difference, elem_of_singleton, !elem_of_dom.
    split; [|tauto]. intros H. split; [exact H|]. intros ->. rewrite Ha in H.
    destruct H as [? [=]].
Qed.

Lemma step_spec (m : Manager) (op : Op) :
  stoppedOnce m ->
  exists m', step m op = Some m'
    /\ stoppedOnce m'
    /\ dom (subs m') = match op with
                        | OpTrack addr => {[ addr ]} ∪ dom (subs m)
                        | OpUntrack addr => dom (subs m) ∖ {[ addr ]}
                        | _ => dom (subs m)
                        end.
Proof.
  intros Hwf. destruct op as [addr|addr| |addr b]; cbn [step].
  - destruct (Track_spec addr m Hwf) as (H1 & H2). eauto.
  - destruct (Untrack_spec addr m Hwf) as (m' & H0 & H1 & H2 & _). eauto.
  - destruct (StopAll_spec m Hwf) as (m' & H0 & H1 & H2 & _). exists m'.
    split; [exact H0|]. split; [exact H1|]. apply set_eq. intros a.
    rewrite !elem_of_dom. apply H2.
  - eexists. split; [reflexivity|]. unfold stoppedOnce. cbn [subs set_subs].
    split; [|apply dom_alter_L].
    intros a h. destruct (decide (a = addr)) as [->|Hne].
    + rewrite lookup_alter_eq. destruct (subs m !! addr) as [h0|] eqn:E; [|discriminate].
      cbn. intros [= <-]. exact (Hwf addr h0 E).
    + rewrite lookup_alter_ne by congruence. apply Hwf.
Qed.

Lemma run_spec (ops : list Op) (m : Manager) :
  stoppedOnce m ->
  exists m', run m ops = Some m'
    /\ stoppedOnce m'
    /\ dom (subs m')
       = fold_left (fun (acc : gset string) op =>
                      match op with
                      | OpTrack addr => {[ addr ]} ∪ acc
                      | OpUntrack addr => acc ∖ {[ addr ]}
                      | _ => acc
                      end) ops (dom (subs m)).
Proof.
  revert m. induction ops as [|op rest IH]; intros m Hwf; cbn [run fold_left].
  - eauto.
  - destruct (step_spec m op Hwf) as (m1 & -> & Hwf1 & Hdom).
    cbn [mbind option_bind]. destruct (IH m1 Hwf1) as (m' & Hr & Hwf' & Hd').
    exists m'. split; [exact Hr|]. split; [exact Hwf'|]. rewrite Hd', Hdom. reflexivity.
Qed.

(** X15. The manager under any sequence of commands (track, untrack, stop
    all) and of subscribers opening and closing their connections: no
    command panics ([Stop] closes its channel once, however often it is
    called), and [List] returns exactly the addresses whose latest track or
    untrack command was a track, each once, in increasing order. *)
Theorem X15_manager_lists_tracked (wss_ commitment_ : string) (ops : list Op) :
  exists m,
    run (NewManager wss_ commitment_) ops = Some m
    /\ (forall a, a ∈ List m <-> a ∈ trackedAfter ops)
    /\ NoDup (List m)
    /\ increasing (List m).
Proof.
  destruct (run_spec ops (NewManager wss_ commitment_)) as (m & Hr & _ & Hdom).
  { intros a h H. cbn in H. rewrite lookup_empty in H. discriminate. }
  exists m. split; [exact Hr|]. split; [|split; [apply NoDup_List|]].
  - intros a. rewrite elem_of_List, <- elem_of_dom, Hdom. cbn [NewManager subs].
    rewrite dom_empty_L. reflexivity.
  - apply SortStrings_increasing.
Qed.

Lemma X15_witness :
  exists m,
    run (NewManager "wss://rpc.example" "processed")
      [OpTrack "b"; OpTrack "a"; OpStopAll; OpUntrack "b"; OpTrack "a"] = Some m
    /\ (forall a, a ∈ List m <-> a ∈ trackedAfter
                                     [OpTrack "b"; OpTrack "a"; OpStopAll; OpUntrack "b";
                                      OpTrack "a"])
    /\ NoDup (List m)
    /\ increasing (List m).
Proof. apply X15_manager_lists_tracked. Defined.

Lemma stats_fold (l : list (string * Handle)) (open0 : Z) (dropped0 : list string) :
  fold_left statsStep l (open0, dropped0)
  = (open0 + Z.of_nat (length (filter (fun e : string * Handle => open e.2 = true) l)),
     dropped0 ++ (filter (fun e : string * Handle =>
                            open e.2 = false /\ shouldOpen e.2 = true) l).*1).
Proof.
  revert open0 dropped0. induction l as [|[a h] l IH]; intros open0 dropped0; cbn [fold_left].
  - cbn. rewrite Z.add_0_r, app_nil_r. reflexivity.
  - unfold statsStep at 2, IsOpen, ShouldBeOpen. rewrite !filter_cons. cbn [snd].
    destruct (open h) eqn:Ho.
    + rewrite IH. destruct (decide (true = true)); [|congruence].
      destruct (decide (true = false /\ shouldOpen h = true)) as [[N _]|_]; [discriminate|].
      cbn [length]. f_equal. lia.
    + destruct (decide (false = true)); [discriminate|].
      destruct (shouldOpen h) eqn:Hs.
      * rewrite IH. destruct (decide (false = false /\ true = true)); [|tauto].
        cbn [fmap list_fmap fst]. rewrite <- app_assoc. reflexivity.
      * rewrite IH. destruct (decide (false = false /\ false = true)) as [[_ N]|_];
          [discriminate | reflexivity].
Qed.

Lemma two_filters_length (l : list (string * Handle)) :
  (length (filter (fun e : string * Handle => open e.2 = true) l)
   + length (filter (fun e : string * Handle => open e.2 = false /\ shouldOpen e.2 = true) l)
   <= length l)%nat.
Proof.
  induction l as [|[a h] l IH]; [cbn; lia|].
  rewrite !filter_cons. cbn [snd length].
  destruct (open h); destruct (decide _), (decide _); cbn [length]; try lia;
    try tauto; try (destruct a0; discriminate); try discriminate.
Qed.

Lemma elem_of_dropped (m : Manager) (a : string) :
  a ∈ (Stats m).2
  <-> exists h, subs m !! a = Some h /\ open h = false /\ shouldOpen h = true.
Proof.
  unfold Stats. rewrite stats_fold. cbn [fst snd app].
  rewrite elem_of_SortStrings, list_elem_of_fmap. split.
  - intros ([k h] & -> & Hin). apply list_elem_of_filter in Hin as [[Ho Hs] Hin].
    apply elem_of_map_to_list in Hin. cbn in *. eauto.
  - intros (h & Hh & Ho & Hs). exists (a, h). split; [reflexivity|].
    apply list_elem_of_filter. split; [split; assumption | apply elem_of_map_to_list, Hh].
Qed.

(** X16. The figures of [Stats]: [tracked] is the number of addresses that
    [List] returns; [open] is the number of subscribers whose connection is
    open; [dropped] lists, in increasing order and each once, exactly the
    tracked addresses whose subscriber should be open and is not; so
    [open + len(dropped) <= tracked]. *)
Theorem X16_Stats_figures (m : Manager) :
  let tracked := (Stats m).1.1 in
  let open_ := (Stats m).1.2 in
  let dropped := (Stats m).2 in
  tracked = Z.of_nat (length (List m))
  /\ open_ = Z.of_nat (length (filter (fun e : string * Handle => open e.2 = true)
                                 (map_to_list (subs m))))
  /\ open_ + Z.of_nat (length dropped) <= tracked
  /\ (forall a, a ∈ dropped <->
        exists h, subs m !! a = Some h /\ open h = false /\ shouldOpen h = true)
  /\ NoDup dropped
  /\ increasing dropped.
Proof.
  unfold Stats. rewrite stats_fold. cbn [fst snd app]. rewrite Z.add_0_l.
  pose proof (two_filters_length (map_to_list (subs m))) as Hlen.
  rewrite length_map_to_list in Hlen.
  split; [|split; [reflexivity|split; [|split; [|split]]]].
  - unfold List. rewrite SortStrings_perm, length_fmap, length_map_to_list. reflexivity.
  - rewrite SortStrings_perm, length_fmap. lia.
  - intros a. rewrite <- elem_of_dropped. unfold Stats. rewrite stats_fold. reflexivity.
  - rewrite SortStrings_perm.
    apply (sublist_NoDup _ (map_to_list (subs m)).*1); [apply NoDup_fst_map_to_list|].
    apply fmap_sublist, sublist_filter.
  - apply SortStrings_increasing.
Qed.

(** X17. [StopAll] stops the subscribers and leaves them in the map: the
    same addresses are listed afterwards, none is reported as dropped, and
    tracking a listed address again does nothing: its subscriber stays
    stopped and no goroutine is started for it. *)
Theorem X17_StopAll_leaves_stopped_subscribers (m : Manager) :
  stoppedOnce m ->
  exists m',
    StopAll m = Some m'
    /\ (forall a, a ∈ List m' <-> a ∈ List m)
    /\ (Stats m').2 = []
    /\ forall a, a ∈ List m ->
         Track a m' = m'
         /\ exists h, subs m' !! a = Some h /\ ShouldBeOpen h = false.
Proof.
  intros Hwf. destruct (StopAll_spec m Hwf) as (m' & Hs & _ & Hdom & _ & Hstopped).
  exists m'. split; [exact Hs|]. split; [|split].
  - intros a. rewrite !elem_of_List. apply Hdom.
  - pose proof (elem_of_dropped m') as Hd.
    destruct ((Stats m').2) as [|a l]; [reflexivity|].
    destruct (proj1 (Hd a) ltac:(apply elem_of_cons; left; reflexivity))
      as (h & Hh & _ & Hso).
    destruct (Hstopped a h Hh) as [N _]. congruence.
  - intros a Ha. apply elem_of_List, Hdom in Ha as [h Hh].
    split; [unfold Track; rewrite Hh; reflexivity|].
    exists h. split; [exact Hh | exact (proj1 (Hstopped a h Hh))].
Qed.

Lemma X17_witness :
  exists m',
    StopAll (Track "a" (NewManager "wss://rpc.example" "processed")) = Some m'
    /\ (Stats m').2 = []
    /\ Track "a" m' = m'.
Proof.
  destruct (X17_StopAll_leaves_stopped_subscribers
              (Track "a" (NewManager "wss://rpc.example" "processed")))
    as (m' & Hs & _ & Hd & Hagain).
  - apply Track_spec. intros a h H. cbn in H. rewrite lookup_empty in H. discriminate.
  - exists m'. split; [exact Hs|]. split; [exact Hd|].
    apply Hagain, elem_of_List. cbn. rewrite ?lookup_insert_eq. eauto.
Defined.

(** The start-up loop: [Track] for every address of a list. *)
Lemma trackAll_spec (addrs : list string) (m : Manager) :
  NoDup (started m) ->
  (forall a, a ∈ started m <-> is_Some (subs m !! a)) ->
  (forall a h, subs m !! a = Some h -> h = NewSubscriber (m_wss m) (m_commitment m) a) ->
  exists m',
    run m (map OpTrack addrs) = Some m'
    /\ m_wss m' = m_wss m /\ m_commitment m' = m_commitment m
    /\ NoDup (started m')
    /\ (forall a, a ∈ started m' <-> is_Some (subs m' !! a))
    /\ (forall a h, subs m' !! a = Some h -> h = NewSubscriber (m_wss m) (m_commitment m) a)
    /\ (forall a, is_Some (subs m' !! a) <-> is_Some (subs m !! a) \/ a ∈ addrs).
Proof.
  revert m. induction addrs as [|addr rest IH]; intros m Hnd Hst Hnew; cbn [map run step].
  - exists m. split; [reflexivity|]. do 5 (split; [auto|]).
    intros a. split; [auto|]. intros [H|H]; [exact H | inversion H].
  - cbn [mbind option_bind].
    destruct (IH (Track addr m)) as (m' & Hr & Hw & Hc & Hnd' & Hst' & Hnew' & Hdom').
    + unfold Track. destruct (subs m !! addr) eqn:E; [exact Hnd|]. cbn [started].
      apply NoDup_app. split; [exact Hnd|]. split; [|apply NoDup_singleton].
      intros a Ha Hin. apply list_elem_of_singleton in Hin as ->.
      apply Hst in Ha. rewrite E in Ha. destruct Ha as [? [=]].
    + intros a. unfold Track. destruct (subs m !! addr) eqn:E; [apply Hst|].
      cbn [started subs]. rewrite elem_of_app, list_elem_of_singleton, Hst.
      destruct (decide (a = addr)) as [->|Hne].
      * rewrite lookup_insert_eq. split; eauto.
      * rewrite lookup_insert_ne by congruence. split; [intros [H|H]; [exact H | contradiction] | auto].
    + intros a h. unfold Track. destruct (subs m !! addr) eqn:E; [apply Hnew|].
      cbn [subs m_wss m_commitment]. destruct (decide (a = addr)) as [->|Hne].
      * rewrite lookup_insert_eq. intros [= <-]. reflexivity.
      * rewrite lookup_insert_ne by congruence. apply Hnew.
    + assert (Hsame : m_wss (Track addr m) = m_wss m /\ m_commitment (Track addr m) = m_commitment m)
        by (unfold Track; destruct (subs m !! addr); split; reflexivity).
      destruct Hsame as [Hw1 Hc1]. rewrite Hw1, Hc1 in *.
      exists m'. split; [exact Hr|]. split; [exact Hw|]. split; [exact Hc|].
      split; [exact Hnd'|]. split; [exact Hst'|]. split; [exact Hnew'|].
      intros a. rewrite Hdom', elem_of_cons. unfold Track.
      destruct (subs m !! addr) eqn:E; cbn [subs].
      * split; [tauto|]. intros [H|[->|H]]; [auto | left; rewrite E; eauto | auto].
      * destruct (decide (a = addr)) as [->|Hne].
        -- rewrite lookup_insert_eq. split; [auto | intros _; left; eauto].
        -- rewrite lookup_insert_ne by congruence. tauto.
Qed.

(** X18. The start-up loop of [main], which tracks every address the store
    returns: afterwards [List] returns exactly these addresses, one
    goroutine has been started for each distinct address (a repeated
    address starts none), and every subscriber was created for its address
    with the endpoint and the commitment of the manager. *)
Theorem X18_startup_tracks_stored_wallets (wss_ commitment_ : string)
    (addrs : list string) :
  exists m,
    run (NewManager wss_ commitment_) (map OpTrack addrs) = Some m
    /\ (forall a, a ∈ List m <-> a ∈ addrs)
    /\ NoDup (started m)
    /\ (forall a, a ∈ started m <-> a ∈ addrs)
    /\ (forall a h, subs m !! a = Some h -> h = NewSubscriber wss_ commitment_ a).
Proof.
  destruct (trackAll_spec addrs (NewManager wss_ commitment_))
    as (m & Hr & _ & _ & Hnd & Hst & Hnew & Hdom).
  - constructor.
  - intros a. cbn. rewrite lookup_empty. split; [inversion 1 | intros [? [=]]].
  - intros a h H. cbn in H. rewrite lookup_empty in H. discriminate.
  - assert (Hkeys : forall a, is_Some (subs m !! a) <-> a ∈ addrs).
    { intros a. rewrite Hdom. cbn. rewrite lookup_empty. split; [|auto].
      intros [[? [=]]|H]; exact H. }
    exists m. split; [exact Hr|]. split; [|split; [exact Hnd|split; [|exact Hnew]]].
    + intros a. rewrite elem_of_List. apply Hkeys.
    + intros a. rewrite Hst. apply Hkeys.
Qed.

End Manager.

(** ** The Telegram handler *)

Section Handler.

Import telegram.

Lemma escapeByte_cases (c : ascii) :
  (c = "&"%char /\ escapeByte c = "&amp;")
  \/ (c = "<"%char /\ escapeByte c = "&lt;")
  \/ (c = ">"%char /\ escapeByte c = "&gt;")
  \/ (c = ascii_of_nat 34 /\ escapeByte c = "&quot;")
  \/ (~ htmlSpecial c /\ escapeByte c = String c EmptyString).
Proof.
  unfold escapeByte, htmlSpecial.
  destruct (Ascii.eqb_spec c "&") as [->|H1]; [auto|].
  destruct (Ascii.eqb_spec c "<") as [->|H2]; [auto|].
  destruct (Ascii.eqb_spec c ">") as [->|H3]; [auto 6|].
  destruct (Ascii.eqb_spec c (ascii_of_nat 34)) as [->|H4]; [auto 6|].
  do 4 right. split; [tauto | reflexivity].
Qed.

Lemma escapeHTML_append (s t : string) :
  escapeHTML (s +:+ t) = escapeHTML s +:+ escapeHTML t.
Proof.
  induction s as [|c s IH]; [rewrite !append_nil_l; reflexivity|].
  rewrite append_cons. cbn [escapeHTML]. rewrite IH.
  generalize (escapeByte c) as e. intros e.
  induction e as [|d e IHe]; [rewrite !append_nil_l; reflexivity|].
  rewrite !append_cons, IHe. reflexivity.
Qed.

(** The codes of two bytes do not overlap: equal texts that start with the
    codes of two bytes start with the same byte. *)
Lemma escapeByte_inj (c d : ascii) (x y : string) :
  escapeByte c +:+ x = escapeByte d +:+ y -> c = d /\ x = y.
Proof.
  intros H.
  destruct (escapeByte_cases c) as [[-> Ec]|[[-> Ec]|[[-> Ec]|[[-> Ec]|[Nc Ec]]]]];
    destruct (escapeByte_cases d) as [[-> Ed]|[[-> Ed]|[[-> Ed]|[[-> Ed]|[Nd Ed]]]]];
    rewrite ?Ec, ?Ed in H; rewrite ?append_cons, ?append_nil_l in H;
    try (injection H as ?; subst; auto; fail);
    try discriminate H;
    try (injection H as E ?; exfalso;
         first [apply Nd; unfold htmlSpecial; rewrite <- E; auto 6
               | apply Nc; unfold htmlSpecial; rewrite E; auto 6]).
Qed.

Lemma escapeByte_nonempty (c : ascii) (x : string) : escapeByte c +:+ x <> "".
Proof.
  destruct (escapeByte_cases c) as [[_ E]|[[_ E]|[[_ E]|[[_ E]|[_ E]]]]];
    rewrite E, append_cons; discriminate.
Qed.

(** X19. [escapeHTML] makes a text safe for an HTML message and loses
    nothing: its result holds no [<], no [>] and no double quote; texts that
    differ have results that differ; it works piece by piece; and a text
    without any of the four special bytes is left as it is. *)
Theorem X19_escapeHTML_is_safe (s : string) :
  Forall (fun c => c <> "<"%char /\ c <> ">"%char /\ c <> ascii_of_nat 34)
         (bytes_of (escapeHTML s))
  /\ (forall t, escapeHTML s = escapeHTML t -> s = t)
  /\ (forall t, escapeHTML (s +:+ t) = escapeHTML s +:+ escapeHTML t)
  /\ (Forall (fun c => ~ htmlSpecial c) (bytes_of s) -> escapeHTML s = s).
Proof.
  split; [|split; [|split; [intros t; apply escapeHTML_append|]]].
  - induction s as [|c s IH]; [constructor|].
    cbn [escapeHTML]. rewrite bytes_of_append. apply Forall_app_2; [|exact IH].
    destruct (escapeByte_cases c) as [[_ E]|[[_ E]|[[_ E]|[[_ E]|[N E]]]]]; rewrite E;
      try (repeat constructor; discriminate).
    constructor; [|constructor]. unfold htmlSpecial in N. repeat split; intros ->; tauto.
  - induction s as [|c s IH]; intros [|d t] H; cbn [escapeHTML] in H.
    + reflexivity.
    + symmetry in H. destruct (escapeByte_nonempty _ _ H).
    + destruct (escapeByte_nonempty _ _ H).
    + apply escapeByte_inj in H as [-> H]. f_equal. exact (IH t H).
  - induction s as [|c s IH]; intros H; [reflexivity|].
    inversion H as [|? ? Hc Hs]; subst. cbn [escapeHTML]. rewrite (IH Hs).
    destruct (escapeByte_cases c) as [[E _]|[[E _]|[[E _]|[[E _]|[_ E]]]]];
      [exfalso; apply Hc; left; exact E
      |exfalso; apply Hc; right; left; exact E
      |exfalso; apply Hc; right; right; left; exact E
      |exfalso; apply Hc; right; right; right; exact E|].
    rewrite E, append_cons, append_nil_l. reflexivity.
Qed.

Lemma X19_witness : escapeHTML "abc" = "abc".
Proof.
  apply (proj2 (proj2 (proj2 (X19_escapeHTML_is_safe "abc")))).
  repeat constructor; unfold htmlSpecial; intros [H|[H|[H|H]]]; discriminate H.
Defined.

(** X20. The callback installed as [tracker.SignatureNotify]: it leaves
    the manager and the store alone and sends at most one message, to the
    admin chat, exactly when the analysis returned a summary that is not
    empty: the banner with the first four and last four bytes of the wallet
    address, then the summary. Nothing is sent for a failed fetch or a
    filtered transaction. The address is sliced without a length check: with
    a summary to send and an address of fewer than four bytes the callback
    panics. *)
Theorem X20_notification_callback (w : World) (signature trackedAddr : string)
    (h : Handler) :
  (forall h', SignatureNotify w signature trackedAddr h = Some h' ->
     tm h' = tm h /\ storeCalls h' = storeCalls h /\ killCalls h' = killCalls h
     /\ exists summary err,
          AnalyzeSignature (w_env w) signature trackedAddr (analyzer h)
          = Some ((summary, err), analyzer h')
          /\ if decide (err = None /\ summary <> "")
             then exists short,
                    shortAddr trackedAddr = Some short
                    /\ outbox h' = (outbox h
                                    ++ [(adminID h,
                                         "🚨 <b>Activity on " +:+ short +:+ "</b>"
                                         +:+ nl +:+ nl +:+ summary)])%list
             else outbox h' = outbox h)
  /\ (forall summary st',
        AnalyzeSignature (w_env w) signature trackedAddr (analyzer h)
        = Some ((summary, None), st') ->
        summary <> "" -> len trackedAddr < 4 ->
        SignatureNotify w signature trackedAddr h = None).
Proof.
  unfold SignatureNotify. split.
  - intros h' H.
    destruct (AnalyzeSignature (w_env w) signature trackedAddr (analyzer h))
      as [[[summary err] st']|]; [|discriminate H].
    cbn [mbind option_bind] in H.
    destruct err as [e|].
    + injection H as <-. cbn. repeat split; auto. exists summary, (Some e).
      split; [reflexivity|]. destruct (decide _) as [[N _]|_]; [discriminate N | reflexivity].
    + destruct (String.eqb_spec summary "") as [->|Hne].
      * injection H as <-. cbn. repeat split; auto. exists "", None.
        split; [reflexivity|]. destruct (decide _) as [[_ N]|_]; [contradiction | reflexivity].
      * destruct (shortAddr trackedAddr) as [short|]; [|discriminate H].
        cbn [mbind option_bind] in H. injection H as <-. cbn. repeat split; auto.
        exists summary, None. split; [reflexivity|].
        destruct (decide _) as [_|N]; [eauto | tauto].
  - intros summary st' -> Hne Hshort. cbn [mbind option_bind].
    destruct (String.eqb_spec summary "") as [E|_]; [contradiction|].
    unfold shortAddr, ends4.
    destruct (slice_to trackedAddr 4) as [p|] eqn:E; [|reflexivity].
    pose proof (proj1 (slice_to_Some trackedAddr 4) (ex_intro _ p E)). lia.
Qed.

Lemma X20_witness :
  SignatureNotify
    {| w_env := Sample.envServing Sample.failedFeeOnlyTx;
       AddWallet := fun _ _ => None; RemoveWallet := fun _ _ => None;
       ListWallets := fun _ => None; transportErrorText := "timeout";
       nowRFC3339 := "2025-01-01T00:00:00Z" |}
    Sample.sig1 "5h"
    {| adminID := 42; tm := manager.NewManager "wss://rpc.example" "processed";
       analyzer := Sample.analyzer0; killFn_set := true; storeCalls := [];
       outbox := []; killCalls := 0 |}
  = None.
Proof.
  destruct (AnalyzeSignature (Sample.envServing Sample.failedFeeOnlyTx) Sample.sig1 "5h"
              Sample.analyzer0) as [[[summary err] st']|] eqn:H;
    [|vm_compute in H; discriminate H].
  assert (Hr : err = None /\ summary <> "").
  { vm_compute in H. injection H as Hs He _. rewrite <- Hs, <- He.
    split; [reflexivity | discriminate]. }
  destruct Hr as [-> Hne].
  eapply (proj2 (X20_notification_callback _ _ _ _)); [exact H | exact Hne |].
  vm_compute. reflexivity.
Defined.

(** *** Replies go to the chat of the command *)

Lemma repliesTo_refl (chatID : Z) (h : Handler) : repliesTo chatID h h.
Proof. split; [reflexivity|]. exists []. rewrite app_nil_r. split; [reflexivity | constructor]. Qed.

Lemma repliesTo_trans (chatID : Z) (h1 h2 h3 : Handler) :
  repliesTo chatID h1 h2 -> repliesTo chatID h2 h3 -> repliesTo chatID h1 h3.
Proof.
  intros (Ha & n1 & H1 & F1) (Hb & n2 & H2 & F2). split; [congruence|].
  exists (n1 ++ n2). rewrite H2, H1, app_assoc. split; [reflexivity | apply Forall_app_2; assumption].
Qed.

Lemma repliesTo_send (chatID : Z) (html : string) (h : Handler) :
  repliesTo chatID h (sendHTML chatID html h).
Proof. split; [reflexivity|]. exists [(chatID, html)]. split; [reflexivity | repeat constructor]. Qed.

Lemma repliesTo_same (chatID : Z) (h h' : Handler) :
  adminID h' = adminID h -> outbox h' = outbox h -> repliesTo chatID h h'.
Proof.
  intros Ha Ho. split; [exact Ha|]. exists []. rewrite app_nil_r. split; [exact Ho | constructor].
Qed.

Lemma testCommand_replies (w : World) (chatID : Z) (signature walletAddr : string)
    (h h' : Handler) :
  testCommand w chatID signature walletAddr h = Some h' -> repliesTo chatID h h'.
Proof.
  unfold testCommand. intros H.
  destruct (slice_to signature 10) as [sig10|]; [|discriminate H].
  destruct (slice_to walletAddr 4) as [addr4|]; [|discriminate H].
  cbn [mbind option_bind] in H.
  match type of H with
  | context [sendHTML chatID ?m h] => set (h1 := sendHTML chatID m h) in *
  end.
  assert (H1 : repliesTo chatID h h1) by apply repliesTo_send.
  destruct (AnalyzeSignature (w_env w) signature walletAddr (analyzer h1))
    as [[[summary err] st']|]; [|discriminate H].
  cbn [mbind option_bind] in H.
  assert (H2 : repliesTo chatID h (set_analyzer st' h1))
    by (eapply repliesTo_trans; [exact H1 | apply repliesTo_same; reflexivity]).
  destruct err as [e|].
  - injection H as <-. eapply repliesTo_trans; [exact H2 | apply repliesTo_send].
  - destruct (String.eqb summary "").
    + injection H as <-. eapply repliesTo_trans; [exact H2 | apply repliesTo_send].
    + destruct (shortAddr walletAddr) as [short|]; [|discriminate H].
      cbn [mbind option_bind] in H. injection H as <-.
      eapply repliesTo_trans; [exact H2 | apply repliesTo_send].
Qed.

Lemma trackOne_replies (w : World) (chatID : Z) (args : list string) (h : Handler)
    (added failed : Z) :
  repliesTo chatID h (fold_left (trackOne w) args (h, added, failed)).1.1.
Proof.
  revert h added failed. induction args as [|a args IH]; intros h added failed;
    cbn [fold_left]; [apply repliesTo_refl|].
  unfold trackOne at 2, addWallet.
  destruct (AddWallet w (length (storeCalls h)) a);
    (eapply repliesTo_trans; [|apply IH]); apply repliesTo_same; reflexivity.
Qed.

Lemma untrackOne_None (w : World) (args : list string) :
  fold_left (untrackOne w) args None = None.
Proof. induction args as [|a args IH]; [reflexivity | exact IH]. Qed.

Lemma untrackOne_replies (w : World) (chatID : Z) (args : list string) (h h' : Handler)
    (removed failed r f : Z) :
  fold_left (untrackOne w) args (Some (h, removed, failed)) = Some (h', r, f) ->
  repliesTo chatID h h'.
Proof.
  revert h removed failed. induction args as [|a args IH]; intros h removed failed;
    cbn [fold_left].
  - intros [= <- _ _]. apply repliesTo_refl.
  - unfold untrackOne at 2. cbn [mbind option_bind].
    destruct (manager.Untrack a (tm h)) as [m|]; cbn [mbind option_bind];
      [|rewrite untrackOne_None; discriminate].
    unfold removeWallet.
    destruct (RemoveWallet w (length (storeCalls (set_tm m h))) a); intros H;
      (eapply repliesTo_trans; [|exact (IH _ _ _ H)]); apply repliesTo_same; reflexivity.
Qed.

Lemma handleCommand_replies (w : World) (chatID : Z) (text : string) (h h' : Handler) :
  handleCommand w chatID text h = Some h' -> repliesTo chatID h h'.
Proof.
  unfold handleCommand.
  set (raw0 := gostrings.TrimSpace text). set (lower0 := golib.ToLower raw0).
  destruct (if negb (gostrings.IndexByte lower0 "@" =? -1)
            then lower' ← slice_to lower0 (gostrings.IndexByte lower0 "@");
                 raw' ← slice_to raw0 (gostrings.IndexByte lower0 "@"); Some (lower', raw')
            else Some (lower0, raw0)) as [[lower raw]|]; [|discriminate].
  cbn [mbind option_bind].
  destruct (String.eqb lower "/help").
  { intros [= <-]. apply repliesTo_send. }
  destruct (gostrings.HasPrefix lower "/test ").
  { destruct (slice_from raw (len "/test ")) as [rest|]; [|discriminate].
    cbn [mbind option_bind].
    destruct (gostrings.Fields rest) as [|a [|b [|c l]]];
      try (intros [= <-]; apply repliesTo_send).
    apply testCommand_replies. }
  destruct (gostrings.HasPrefix lower "/track ").
  { destruct (slice_from raw (len "/track")) as [rest|]; [|discriminate].
    cbn [mbind option_bind].
    destruct (String.eqb (gostrings.TrimSpace rest) "");
      [intros [= <-]; apply repliesTo_send|].
    unfold addWallet. destruct (AddWallet w _ _); intros [= <-];
      (eapply repliesTo_trans; [|apply repliesTo_send]); apply repliesTo_same; reflexivity. }
  destruct (gostrings.HasPrefix lower "/untrack ").
  { destruct (slice_from raw (len "/untrack")) as [rest|]; [|discriminate].
    cbn [mbind option_bind].
    destruct (String.eqb (gostrings.TrimSpace rest) "");
      [intros [= <-]; apply repliesTo_send|].
    destruct (manager.Untrack _ _) as [m|]; [|discriminate]. cbn [mbind option_bind].
    unfold removeWallet. destruct (RemoveWallet w _ _); intros [= <-];
      (eapply repliesTo_trans; [|apply repliesTo_send]); apply repliesTo_same; reflexivity. }
  destruct (gostrings.HasPrefix lower "/trackmany ").
  { destruct (slice_from raw (len "/trackmany")) as [rest|]; [|discriminate].
    cbn [mbind option_bind].
    destruct (gostrings.Fields rest) as [|a args]; [intros [= <-]; apply repliesTo_send|].
    pose proof (trackOne_replies w chatID (a :: args) h 0 0) as Hr.
    destruct (fold_left (trackOne w) (a :: args) (h, 0, 0)) as [[h1 added] failed].
    intros [= <-]. eapply repliesTo_trans; [exact Hr | apply repliesTo_send]. }
  destruct (gostrings.HasPrefix lower "/untrackmany ").
  { destruct (slice_from raw (len "/untrackmany")) as [rest|]; [|discriminate].
    cbn [mbind option_bind].
    destruct (gostrings.Fields rest) as [|a args]; [intros [= <-]; apply repliesTo_send|].
    destruct (fold_left (untrackOne w) (a :: args) (Some (h, 0, 0)))
      as [[[h1 removed] failed]|] eqn:Hf; [|discriminate].
    cbn [mbind option_bind]. intros [= <-].
    eapply repliesTo_trans; [exact (untrackOne_replies _ _ _ _ _ _ _ _ _ Hf) | apply repliesTo_send]. }
  destruct (String.eqb lower "/tracked").
  { destruct (manager.List (tm h)); intros [= <-]; apply repliesTo_send. }
  destruct (String.eqb lower "/health").
  { unfold healthReport. destruct (manager.Stats (tm h)) as [[tracked open_] dropped].
    intros [= <-]. eapply repliesTo_trans; [|apply repliesTo_send].
    apply repliesTo_same; reflexivity. }
  destruct (String.eqb lower "/kill").
  { intros [= <-]. eapply repliesTo_trans; [apply repliesTo_send|].
    destruct (killFn_set _); [apply repliesTo_same; reflexivity | apply repliesTo_refl]. }
  intros [= <-]. apply repliesTo_send.
Qed.

(** X21. Only the admin chat commands the bot, and only it is answered: an
    update without a message or from another chat changes nothing at all,
    and whatever a command from the admin chat does, every message it sends
    goes to the admin chat. (The proof goes through every case of the
    switch, so it does not rest on which case a text selects.) *)
Theorem X21_only_the_admin_chat (w : World) (message : option (Z * string))
    (h h' : Handler) :
  onUpdate w message h = Some h' ->
  repliesTo (adminID h) h h'
  /\ (forall chatID text, message = Some (chatID, text) -> chatID <> adminID h -> h' = h)
  /\ (message = None -> h' = h).
Proof.
  unfold onUpdate. intros H. destruct message as [[chatID text]|].
  - destruct (Z.eqb_spec chatID (adminID h)) as [->|Hne]; cbn [negb] in H.
    + split; [exact (handleCommand_replies _ _ _ _ _ H)|].
      split; [intros c t [= -> _] N; contradiction | discriminate].
    + injection H as <-. split; [apply repliesTo_refl|]. split; [reflexivity | discriminate].
  - injection H as <-. split; [apply repliesTo_refl|]. split; [discriminate | reflexivity].
Qed.

Lemma X21_witness :
  repliesTo 42 SampleBot.handler0
    (sendHTML 42 "<b>No wallets tracked.</b>" SampleBot.handler0).
Proof.
  apply (X21_only_the_admin_chat (SampleBot.world Sample.feeOnlyTx)
           (Some (42, " /Tracked ")) SampleBot.handler0).
  vm_compute. reflexivity.
Defined.

(** *** The commands [/test], [/trackmany] and [/untrackmany] *)

Lemma handleCommand_test (w : World) (chatID : Z) (text rest : string) (h : Handler) :
  commandWith text "/test " 6 rest ->
  handleCommand w chatID text h
  = match gostrings.Fields rest with
    | [signature; walletAddr] => testCommand w chatID signature walletAddr h
    | _ => Some (sendHTML chatID
                   "usage: <code>/test &lt;signature&gt; &lt;wallet_address&gt;</code>" h)
    end.
Proof.
  unfold commandWith, handleCommand. intros (_ & Hi & Hp & Hs).
  rewrite Hi. change (-1 =? -1) with true. cbn [negb mbind option_bind].
  set (lower := golib.ToLower (gostrings.TrimSpace text)) in *.
  do 6 peel Hp. cbn [String.eqb Ascii.eqb Bool.eqb gostrings.HasPrefix andb].
  replace (gostrings.HasPrefix lower EmptyString) with true by (destruct lower; reflexivity).
  change (len "/test ") with 6. rewrite Hs. reflexivity.
Qed.

Lemma handleCommand_trackmany (w : World) (chatID : Z) (text rest : string) (h : Handler) :
  commandWith text "/trackmany " 10 rest ->
  handleCommand w chatID text h
  = match gostrings.Fields rest with
    | [] => Some (sendHTML chatID
                    "usage: <code>/trackmany &lt;addr1&gt; &lt;addr2&gt; ...</code>" h)
    | args =>
        let '(h, added, failed) := fold_left (trackOne w) args (h, 0, 0) in
        Some (sendHTML chatID
                ("trackmany done: added=" +:+ formatInt added +:+ " failed="
                 +:+ formatInt failed) h)
    end.
Proof.
  unfold commandWith, handleCommand. intros (_ & Hi & Hp & Hs).
  rewrite Hi. change (-1 =? -1) with true. cbn [negb mbind option_bind].
  set (lower := golib.ToLower (gostrings.TrimSpace text)) in *.
  do 11 peel Hp. cbn [String.eqb Ascii.eqb Bool.eqb gostrings.HasPrefix andb].
  replace (gostrings.HasPrefix lower EmptyString) with true by (destruct lower; reflexivity).
  change (len "/trackmany") with 10. rewrite Hs. reflexivity.
Qed.

Lemma handleCommand_untrackmany (w : World) (chatID : Z) (text rest : string) (h : Handler) :
  commandWith text "/untrackmany " 12 rest ->
  handleCommand w chatID text h
  = match gostrings.Fields rest with
    | [] => Some (sendHTML chatID
                    "usage: <code>/untrackmany &lt;addr1&gt; &lt;addr2&gt; ...</code>" h)
    | args =>
        r ← fold_left (untrackOne w) args (Some (h, 0, 0));
        let '(h, removed, failed) := r in
        Some (sendHTML chatID
                ("untrackmany done: removed=" +:+ formatInt removed +:+ " failed="
                 +:+ formatInt failed) h)
    end.
Proof.
  unfold commandWith, handleCommand. intros (_ & Hi & Hp & Hs).
  rewrite Hi. change (-1 =? -1) with true. cbn [negb mbind option_bind].
  set (lower := golib.ToLower (gostrings.TrimSpace text)) in *.
  do 13 peel Hp. cbn [String.eqb Ascii.eqb Bool.eqb gostrings.HasPrefix andb].
  replace (gostrings.HasPrefix lower EmptyString) with true by (destruct lower; reflexivity).
  change (len "/untrackmany") with 12. rewrite Hs. reflexivity.
Qed.

(** X22. The [/test] command (ASCII text) with two arguments slices the
    signature at [:10] and the wallet address at [:4] without a length
    check: with a
    signature of fewer than 10 bytes or an address of fewer than 4 bytes it
    panics, before anything is sent or analysed. Otherwise it announces the
    analysis, runs [AnalyzeSignature], and sends exactly one more message:
    the error, the note that the transaction was filtered, or the summary
    under the abbreviated address; a panic of the analysis is not caught. *)
Theorem X22_test_command (w : World) (chatID : Z) (text rest signature walletAddr : string)
    (h : Handler) :
  commandWith text "/test " 6 rest ->
  gostrings.Fields rest = [signature; walletAddr] ->
  (len signature < 10 \/ len walletAddr < 4 -> handleCommand w chatID text h = None)
  /\ (10 <= len signature -> 4 <= len walletAddr ->
      exists sig10 addr4 short,
        slice_to signature 10 = Some sig10
        /\ slice_to walletAddr 4 = Some addr4
        /\ shortAddr walletAddr = Some short
        /\ let announced :=
             sendHTML chatID
               ("🔬 Analyzing signature <code>" +:+ sig10 +:+ "...</code> for wallet <code>"
                +:+ addr4 +:+ "...</code>") h in
           handleCommand w chatID text h
           = match AnalyzeSignature (w_env w) signature walletAddr (analyzer h) with
             | None => None
             | Some ((summary, err), st') =>
                 Some (sendHTML chatID
                         match err with
                         | Some e => "<b>Analysis Failed:</b>" +:+ nl +:+ "<code>"
                                     +:+ Error w e +:+ "</code>"
                         | None =>
                             if String.eqb summary ""
                             then "✅ <b>Analysis Complete:</b>" +:+ nl +:+
                                  "Transaction was filtered (likely spam or dust)."
                             else "🧪 <b>Test Result for " +:+ short +:+ "</b>"
                                  +:+ nl +:+ nl +:+ summary
                         end
                         (set_analyzer st' announced))
             end).
Proof.
  intros Hcmd Hargs. rewrite (handleCommand_test w chatID text rest h Hcmd), Hargs.
  unfold testCommand. split.
  - intros [Hs|Ha].
    + destruct (slice_to signature 10) as [p|] eqn:E; [|reflexivity].
      pose proof (proj1 (slice_to_Some signature 10) (ex_intro _ p E)). lia.
    + destruct (slice_to signature 10) as [p|]; [|reflexivity]. cbn [mbind option_bind].
      destruct (slice_to walletAddr 4) as [q|] eqn:E; [|reflexivity].
      pose proof (proj1 (slice_to_Some walletAddr 4) (ex_intro _ q E)). lia.
  - intros Hs Ha.
    pose proof (len_nonneg signature). pose proof (len_nonneg walletAddr).
    destruct (proj2 (slice_to_Some signature 10) ltac:(lia)) as [sig10 E1].
    destruct (proj2 (slice_to_Some walletAddr 4) ltac:(lia)) as [addr4 E2].
    destruct (ends4_Some walletAddr Ha) as [short E3].
    exists sig10, addr4, short. split; [exact E1|]. split; [exact E2|]. split; [exact E3|].
    cbv zeta. rewrite E1, E2. cbn [mbind option_bind analyzer sendHTML].
    destruct (AnalyzeSignature (w_env w) signature walletAddr (analyzer h))
      as [[[summary err] st']|]; [|reflexivity].
    cbn [mbind option_bind]. destruct err as [e|]; [reflexivity|].
    destruct (String.eqb summary ""); [reflexivity|].
    unfold shortAddr in *. rewrite E3. reflexivity.
Qed.

Lemma X22_witness :
  handleCommand (SampleBot.world Sample.feeOnlyTx) 42 "/test abc 5hAgcPBmuYG4" SampleBot.handler0
  = None.
Proof.
  apply (proj1 (X22_test_command (SampleBot.world Sample.feeOnlyTx) 42
                  "/test abc 5hAgcPBmuYG4" "abc 5hAgcPBmuYG4" "abc" "5hAgcPBmuYG4"
                  SampleBot.handler0
                  ltac:(repeat split; vm_compute; reflexivity)
                  ltac:(vm_compute; reflexivity))).
  left. vm_compute. reflexivity.
Defined.

(** The loop of [/trackmany]. *)
Lemma trackOne_fold (w : World) (args : list string) (h : Handler) (added failed : Z) :
  let r := fold_left (trackOne w) args (h, added, failed) in
  added <= r.1.2 /\ failed <= r.2
  /\ r.1.2 + r.2 = added + failed + Z.of_nat (length args)
  /\ storeCalls r.1.1 = (storeCalls h ++ map CallAddWallet args)%list
  /\ outbox r.1.1 = outbox h
  /\ analyzer r.1.1 = analyzer h
  /\ (forall a, a ∈ manager.List (tm r.1.1) <->
        a ∈ manager.List (tm h)
        \/ exists i, args !! i = Some a
                     /\ AddWallet w (length (storeCalls h) + i) a = None).
Proof.
  revert h added failed. induction args as [|a0 args IH]; intros h added failed;
    cbn [fold_left].
  - cbn. rewrite app_nil_r. repeat split; try lia; auto.
    intros [H|(i & Hi & _)]; [exact H | rewrite lookup_nil in Hi; discriminate].
  - replace (trackOne w (h, added, failed) a0)
      with (match AddWallet w (length (storeCalls h)) a0 with
            | Some _ => (storeCall (CallAddWallet a0) h, added, failed + 1)
            | None => (set_tm (manager.Track a0 (tm (storeCall (CallAddWallet a0) h)))
                         (storeCall (CallAddWallet a0) h), added + 1, failed)
            end) by reflexivity.
    destruct (AddWallet w (length (storeCalls h)) a0) as [e|] eqn:Ea.
    + specialize (IH (storeCall (CallAddWallet a0) h) added (failed + 1)).
      cbv zeta in IH. destruct IH as (H1 & H2 & H3 & H4 & H5 & H6 & H7).
      cbn [map length]. rewrite H4, H5, H6. cbn [storeCalls storeCall outbox analyzer].
      rewrite <- app_assoc. repeat split; try lia; auto.
      * intros Ha. apply H7 in Ha as [Ha|(i & Hi & Hok)]; [left; exact Ha|].
        right. exists (S i). split; [exact Hi|].
        cbn [storeCalls storeCall] in Hok. rewrite length_app in Hok. cbn [length] in Hok.
        replace (length (storeCalls h) + S i)%nat with (length (storeCalls h) + 1 + i)%nat
          by lia. exact Hok.
      * intros [Ha|(i & Hi & Hok)]; apply H7; [left; exact Ha|].
        destruct i as [|i]; [cbn in Hi; injection Hi as ->;
                             rewrite Nat.add_0_r in Hok; congruence|].
        right. exists i. split; [exact Hi|].
        cbn [storeCalls storeCall]. rewrite length_app. cbn [length].
        replace (length (storeCalls h) + 1 + i)%nat with (length (storeCalls h) + S i)%nat
          by lia. exact Hok.
    + specialize (IH (set_tm (manager.Track a0 (tm (storeCall (CallAddWallet a0) h)))
                        (storeCall (CallAddWallet a0) h)) (added + 1) failed).
      cbv zeta in IH. destruct IH as (H1 & H2 & H3 & H4 & H5 & H6 & H7).
      cbn [map length]. rewrite H4, H5, H6.
      cbn [storeCalls storeCall set_tm outbox analyzer tm] in *.
      rewrite <- app_assoc. repeat split; try lia; auto.
      * intros Ha. apply H7 in Ha as [Ha|(i & Hi & Hok)].
        -- apply elem_of_List in Ha. unfold manager.Track in Ha.
           destruct (manager.subs (tm h) !! a0) eqn:E0.
           ++ left. apply elem_of_List. exact Ha.
           ++ cbn [manager.subs] in Ha. destruct (decide (a = a0)) as [->|Hne].
              ** right. exists O. split; [reflexivity|]. rewrite Nat.add_0_r. exact Ea.
              ** rewrite lookup_insert_ne in Ha by congruence. left. apply elem_of_List, Ha.
        -- right. exists (S i). split; [exact Hi|]. rewrite length_app in Hok.
           cbn [length] in Hok.
           replace (length (storeCalls h) + S i)%nat with (length (storeCalls h) + 1 + i)%nat
             by lia. exact Hok.
      * intros Ha. apply H7.
        assert (Hkeep : a ∈ manager.List (tm h) \/ a = a0 ->
                        a ∈ manager.List (manager.Track a0 (tm h))).
        { intros Hk. apply elem_of_List. unfold manager.Track.
          destruct (manager.subs (tm h) !! a0) eqn:E0.
          - destruct Hk as [Hk| ->]; [apply elem_of_List, Hk | rewrite E0; eauto].
          - cbn [manager.subs]. destruct (decide (a = a0)) as [->|Hne].
            + rewrite lookup_insert_eq. eauto.
            + rewrite lookup_insert_ne by congruence.
              destruct Hk as [Hk|Hk]; [apply elem_of_List, Hk | contradiction]. }
        destruct Ha as [Ha|(i & Hi & Hok)]; [left; auto|].
        destruct i as [|i]; [cbn in Hi; injection Hi as ->; left; auto|].
        right. exists i. split; [exact Hi|]. rewrite length_app. cbn [length].
        replace (length (storeCalls h) + 1 + i)%nat with (length (storeCalls h) + S i)%nat
          by lia. exact Hok.
Qed.

(** X23. The [/trackmany] command (ASCII text) with at least one address
    asks the store to add every address, in order, and tracks those the
    store accepted:
    [added] and [failed] add up to the number of addresses, afterwards the
    manager lists what it listed before and every address whose [AddWallet]
    call returned no error, and the one message sent reports the two
    counters. *)
Theorem X23_trackmany_accounting (w : World) (chatID : Z) (text rest : string)
    (h : Handler) :
  commandWith text "/trackmany " 10 rest ->
  gostrings.Fields rest <> [] ->
  exists h' added failed,
    handleCommand w chatID text h = Some h'
    /\ 0 <= added /\ 0 <= failed
    /\ added + failed = Z.of_nat (length (gostrings.Fields rest))
    /\ storeCalls h' = (storeCalls h ++ map CallAddWallet (gostrings.Fields rest))%list
    /\ outbox h' = (outbox h ++ [(chatID, "trackmany done: added=" +:+ formatInt added
                                          +:+ " failed=" +:+ formatInt failed)])%list
    /\ (forall a, a ∈ manager.List (tm h') <->
          a ∈ manager.List (tm h)
          \/ exists i, gostrings.Fields rest !! i = Some a
                       /\ AddWallet w (length (storeCalls h) + i) a = None).
Proof.
  intros Hcmd Hne. rewrite (handleCommand_trackmany w chatID text rest h Hcmd).
  destruct (gostrings.Fields rest) as [|a0 args] eqn:Hf; [contradiction|].
  pose proof (trackOne_fold w (a0 :: args) h 0 0) as Hfold. cbv zeta in Hfold.
  destruct (fold_left (trackOne w) (a0 :: args) (h, 0, 0)) as [[h1 added] failed].
  cbn [fst snd] in Hfold. destruct Hfold as (H1 & H2 & H3 & H4 & H5 & _ & H7).
  eexists _, added, failed. split; [reflexivity|].
  cbn [storeCalls outbox tm sendHTML]. rewrite H4, H5.
  repeat split; try lia; try reflexivity; apply H7.
Qed.

Lemma X23_witness :
  exists h' added failed,
    handleCommand (SampleBot.world Sample.feeOnlyTx) 42 "/trackmany b a b" SampleBot.handler0
    = Some h'
    /\ added + failed = 3
    /\ manager.List (tm h') = ["a"; "b"].
Proof.
  destruct (X23_trackmany_accounting (SampleBot.world Sample.feeOnlyTx) 42
              "/trackmany b a b" " b a b" SampleBot.handler0
              ltac:(repeat split; vm_compute; reflexivity)
              ltac:(vm_compute; discriminate))
    as (h' & added & failed & Hrun & _ & _ & Hsum & _).
  exists h', added, failed. split; [exact Hrun|]. split; [exact Hsum|].
  vm_compute in Hrun. injection Hrun as <-. vm_compute. reflexivity.
Defined.

(** The loop of [/untrackmany]. *)
Lemma untrackOne_fold (w : World) (args : list string) (h : Handler) (removed failed : Z) :
  stoppedOnce (tm h) ->
  exists h' r f,
    fold_left (untrackOne w) args (Some (h, removed, failed)) = Some (h', r, f)
    /\ removed <= r /\ failed <= f
    /\ r + f = removed + failed + Z.of_nat (length args)
    /\ (r = removed <->
        forall i a, args !! i = Some a ->
                    RemoveWallet w (length (storeCalls h) + i) a <> None)
    /\ storeCalls h' = (storeCalls h ++ map CallRemoveWallet args)%list
    /\ outbox h' = outbox h
    /\ stoppedOnce (tm h')
    /\ dom (manager.subs (tm h')) = dom (manager.subs (tm h)) ∖ list_to_set args.
Proof.
  revert h removed failed. induction args as [|a0 args IH]; intros h removed failed Hwf;
    cbn [fold_left].
  - exists h, removed, failed. cbn. rewrite app_nil_r.
    split_and!; try lia; auto;
      [|apply set_eq; intros x; rewrite elem_of_difference, elem_of_empty; tauto].
    split; [intros _ i a Hi; rewrite lookup_nil in Hi; discriminate | reflexivity].
  - destruct (Untrack_spec a0 (tm h) Hwf) as (m' & Hu & Hwf' & Hdom & _).
    replace (untrackOne w (Some (h, removed, failed)) a0)
      with (match RemoveWallet w (length (storeCalls h)) a0 with
            | Some _ => Some (storeCall (CallRemoveWallet a0) (set_tm m' h), removed, failed + 1)
            | None => Some (storeCall (CallRemoveWallet a0) (set_tm m' h), removed + 1, failed)
            end)
      by (unfold untrackOne; cbn [mbind option_bind]; rewrite Hu; reflexivity).
    destruct (RemoveWallet w (length (storeCalls h)) a0) as [e|] eqn:Er.
    + destruct (IH (storeCall (CallRemoveWallet a0) (set_tm m' h)) removed (failed + 1) Hwf')
        as (h' & r & f & Hrun & H1 & H2 & H3 & H4 & H5 & H6 & H7 & H8).
      exists h', r, f. split; [exact Hrun|].
      cbn [storeCalls storeCall set_tm outbox tm] in *.
      rewrite length_app in H4. cbn [length] in H4.
      rewrite H5, H6, H8, Hdom.
      cbn [map length list_to_set]. rewrite <- app_assoc.
      split_and!; try lia; auto;
        [|apply set_eq; intros x;
          rewrite !elem_of_difference, elem_of_union, elem_of_singleton; tauto].
      split.
      * intros Hr i a Hi. destruct i as [|i].
        -- cbn in Hi. injection Hi as <-. rewrite Nat.add_0_r, Er. discriminate.
        -- replace (length (storeCalls h) + S i)%nat
             with (length (storeCalls h) + 1 + i)%nat by lia.
           apply (proj1 H4 Hr i a Hi).
      * intros Hall. apply H4. intros i a Hi.
        replace (length (storeCalls h) + 1 + i)%nat
          with (length (storeCalls h) + S i)%nat by lia.
        apply Hall. exact Hi.
    + destruct (IH (storeCall (CallRemoveWallet a0) (set_tm m' h)) (removed + 1) failed Hwf')
        as (h' & r & f & Hrun & H1 & H2 & H3 & H4 & H5 & H6 & H7 & H8).
      exists h', r, f. split; [exact Hrun|].
      cbn [storeCalls storeCall set_tm outbox tm] in *.
      rewrite H5, H6, H8, Hdom.
      cbn [map length list_to_set]. rewrite <- app_assoc.
      split_and!; try lia; auto;
        [|apply set_eq; intros x;
          rewrite !elem_of_difference, elem_of_union, elem_of_singleton; tauto].
      split; [lia|]. intros Hall. exfalso. apply (Hall O a0); [reflexivity|].
      rewrite Nat.add_0_r. exact Er.
Qed.

(** X24. The [/untrackmany] command (ASCII text) with at least one
    address, on a manager whose subscribers were stopped at most through
    [Stop], returns: every
    address is stopped and dropped from the manager before the store is
    asked to remove it, so afterwards none of them is tracked in memory,
    whatever the store answered, and the addresses not named stay tracked.
    [removed] and [failed] add up to the number of addresses, [removed] is 0
    exactly when every [RemoveWallet] call returned an error, and the one
    message sent reports the two counters. *)
Theorem X24_untrackmany_untracks_in_memory (w : World) (chatID : Z) (text rest : string)
    (h : Handler) :
  commandWith text "/untrackmany " 12 rest ->
  gostrings.Fields rest <> [] ->
  stoppedOnce (tm h) ->
  exists h' removed failed,
    handleCommand w chatID text h = Some h'
    /\ 0 <= removed /\ 0 <= failed
    /\ removed + failed = Z.of_nat (length (gostrings.Fields rest))
    /\ (removed = 0 <->
        forall i a, gostrings.Fields rest !! i = Some a ->
                    RemoveWallet w (length (storeCalls h) + i) a <> None)
    /\ storeCalls h' = (storeCalls h ++ map CallRemoveWallet (gostrings.Fields rest))%list
    /\ outbox h' = (outbox h ++ [(chatID, "untrackmany done: removed=" +:+ formatInt removed
                                          +:+ " failed=" +:+ formatInt failed)])%list
    /\ stoppedOnce (tm h')
    /\ (forall a, a ∈ manager.List (tm h') <->
                  a ∈ manager.List (tm h) /\ a ∉ gostrings.Fields rest).
Proof.
  intros Hcmd Hne Hwf. rewrite (handleCommand_untrackmany w chatID text rest h Hcmd).
  destruct (gostrings.Fields rest) as [|a0 args] eqn:Hf; [contradiction|].
  destruct (untrackOne_fold w (a0 :: args) h 0 0 Hwf)
    as (h1 & r & f & Hrun & H1 & H2 & H3 & H4 & H5 & H6 & H7 & H8).
  rewrite Hrun. cbn [mbind option_bind].
  eexists _, r, f. split; [reflexivity|].
  cbn [storeCalls outbox tm sendHTML]. rewrite H5, H6.
  split_and!; try lia; try reflexivity; try exact H4; try exact H7.
  intros a. rewrite !elem_of_List, <- !elem_of_dom, H8, elem_of_difference,
    elem_of_list_to_set. reflexivity.
Qed.

Lemma X24_witness :
  let h := set_tm (manager.Track "a" (manager.Track "c" (tm SampleBot.handler0)))
             SampleBot.handler0 in
  exists h' removed failed,
    handleCommand (SampleBot.world Sample.feeOnlyTx) 42 "/untrackmany a b" h = Some h'
    /\ removed + failed = 2
    /\ manager.List (tm h') = ["c"].
Proof.
  intros h.
  destruct (X24_untrackmany_untracks_in_memory (SampleBot.world Sample.feeOnlyTx) 42
              "/untrackmany a b" " a b" h
              ltac:(repeat split; vm_compute; reflexivity)
              ltac:(vm_compute; discriminate))
    as (h' & removed & failed & Hrun & _ & _ & Hsum & _).
  - subst h. cbn [tm set_tm]. apply Track_spec, Track_spec.
    intros a s H. cbn in H. rewrite lookup_empty in H. discriminate.
  - exists h', removed, failed. split; [exact Hrun|]. split; [exact Hsum|].
    vm_compute in Hrun. injection Hrun as <-. vm_compute. reflexivity.
Defined.

End Handler.

(** * The configuration: redaction and validation *)

Section Config.

Import config.

(** ** Prefixes and first occurrences *)

Lemma HasPrefix_self_app (p t : string) : gostrings.HasPrefix (p +:+ t) p = true.
Proof.
  induction p as [|c p IH]; [destruct t; reflexivity|].
  rewrite append_cons. cbn [gostrings.HasPrefix]. rewrite Ascii.eqb_refl. exact IH.
Qed.

Lemma HasPrefix_app_r (x p q : string) :
  gostrings.HasPrefix x (p +:+ q) = true -> gostrings.HasPrefix x p = true.
Proof.
  revert x. induction p as [|c p IH]; intros x; [destruct x; reflexivity|].
  rewrite append_cons. destruct x as [|d x]; cbn [gostrings.HasPrefix]; [discriminate|].
  intros H. apply andb_true_iff in H as [-> H]. exact (IH x H).
Qed.

Lemma HasPrefix_nil (p : string) : gostrings.HasPrefix "" p = true -> p = "".
Proof. destruct p; [reflexivity | discriminate]. Qed.

(** A prefix of [s +:+ String c t] lies within [s] or holds [c] at the
    offset [length s]. *)
Lemma HasPrefix_app_head (s : string) (c : ascii) (t p : string) :
  gostrings.HasPrefix (s +:+ String c t) p = true ->
  gostrings.HasPrefix s p = true \/ bytes_of p !! String.length s = Some c.
Proof.
  revert p. induction s as [|x s IH]; intros p.
  - rewrite append_nil_l. destruct p as [|d p]; [left; reflexivity|].
    cbn [gostrings.HasPrefix]. intros H. apply andb_true_iff in H as [H _].
    apply Ascii.eqb_eq in H as ->. right. reflexivity.
  - rewrite append_cons. destruct p as [|d p]; [left; reflexivity|].
    cbn [gostrings.HasPrefix]. intros H. apply andb_true_iff in H as [-> H].
    destruct (IH p H) as [Hl|Hr]; [left; exact Hl | right; exact Hr].
Qed.

Lemma Index_prefix (s p : string) :
  gostrings.HasPrefix s p = true -> gostrings.Index s p = 0.
Proof. intros H. destruct s; cbn [gostrings.Index]; rewrite H; reflexivity. Qed.

Lemma Index_range (s p : string) : gostrings.Index s p = -1 \/ 0 <= gostrings.Index s p.
Proof.
  induction s as [|c s IH]; cbn [gostrings.Index].
  - destruct (gostrings.HasPrefix "" p); [right; lia | left; reflexivity].
  - destruct (gostrings.HasPrefix (String c s) p); [right; lia|].
    destruct (Z.ltb_spec (gostrings.Index s p) 0); [left; reflexivity | right; lia].
Qed.

Lemma Index_cons_none (c : ascii) (s p : string) :
  gostrings.Index (String c s) p = -1 ->
  gostrings.HasPrefix (String c s) p = false /\ gostrings.Index s p = -1.
Proof.
  cbn [gostrings.Index]. destruct (gostrings.HasPrefix (String c s) p); [discriminate|].
  destruct (Index_range s p) as [->|H]; [auto|].
  destruct (Z.ltb_spec (gostrings.Index s p) 0); [lia|]. intros; lia.
Qed.

Lemma Index_cons_step (c : ascii) (s p : string) (i : Z) :
  gostrings.HasPrefix (String c s) p = false -> gostrings.Index s p = i -> 0 <= i ->
  gostrings.Index (String c s) p = i + 1.
Proof.
  intros Hp Hi Hge. cbn [gostrings.Index]. rewrite Hp, Hi.
  destruct (Z.ltb_spec i 0); [lia | reflexivity].
Qed.

Lemma len_cons (c : ascii) (s : string) : len (String c s) = len s + 1.
Proof. unfold len. cbn [String.length]. lia. Qed.

Lemma len_append (a b : string) : len (a +:+ b) = len a + len b.
Proof. rewrite !len_length, bytes_of_append, length_app. lia. Qed.

(** The separator of [redactURL] does not overlap itself. *)
Lemma apikey_no_overlap (n : nat) (c : ascii) :
  bytes_of "api-key=" !! S n = Some c -> c <> "a"%char.
Proof.
  do 8 (destruct n as [|n]; [intros [= <-]; discriminate|]). discriminate.
Qed.

Lemma apikey_no_separator (n : nat) (c : ascii) :
  bytes_of "api-key=" !! n = Some c -> existsb (Ascii.eqb c) (bytes_of "&;") = false.
Proof.
  do 8 (destruct n as [|n]; [intros [= <-]; reflexivity|]). discriminate.
Qed.

(** The first occurrence of [api-key=] followed by [key], behind a text
    that holds no [api-key=]. *)
Lemma Index_first (pre key t : string) :
  gostrings.Index pre "api-key=" = -1 ->
  gostrings.Index (pre +:+ ("api-key=" +:+ key) +:+ t) ("api-key=" +:+ key) = len pre.
Proof.
  induction pre as [|c pre IH]; intros Hpre.
  - rewrite append_nil_l. apply Index_prefix, HasPrefix_self_app.
  - apply Index_cons_none in Hpre as [Hp Hpre]. rewrite append_cons, len_cons.
    apply Index_cons_step; [|exact (IH Hpre) | apply len_nonneg].
    match goal with |- ?x = false => destruct x eqn:E end; [|reflexivity]. exfalso.
    apply HasPrefix_app_r in E. rewrite <- append_cons in E.
    change (("api-key=" +:+ key) +:+ t) with (String "a" ("pi-key=" +:+ key +:+ t)) in E.
    apply HasPrefix_app_head in E as [E|E]; [congruence|].
    exact (apikey_no_overlap _ _ E eq_refl).
Qed.

(** Behind a key that holds no [api-key=] and a following [&] or [;], the
    next [api-key=] starts behind that byte. *)
Lemma Index_after (key : string) (c : ascii) (rest : string) :
  gostrings.Index key "api-key=" = -1 ->
  existsb (Ascii.eqb c) (bytes_of "&;") = true ->
  gostrings.Index (key +:+ String c rest) "api-key=" = -1
  \/ len key < gostrings.Index (key +:+ String c rest) "api-key=".
Proof.
  intros Hkey Hc.
  assert (Hno : forall s, gostrings.HasPrefix s "api-key=" = false ->
                          gostrings.HasPrefix (s +:+ String c rest) "api-key=" = false).
  { intros s Hs. match goal with |- ?x = false => destruct x eqn:E end; [|reflexivity].
    apply HasPrefix_app_head in E as [E|E]; [congruence|].
    apply apikey_no_separator in E. congruence. }
  induction key as [|x key IH].
  - rewrite append_nil_l. unfold len. cbn [String.length].
    pose proof (Hno "" eq_refl) as H0. rewrite append_nil_l in H0.
    cbn [gostrings.Index]. rewrite H0.
    destruct (Index_range rest "api-key=") as [->|H]; [left; reflexivity|].
    destruct (Z.ltb_spec (gostrings.Index rest "api-key=") 0); [lia|]. right. lia.
  - apply Index_cons_none in Hkey as [Hp Hkey]. rewrite append_cons, len_cons.
    pose proof (Hno _ Hp) as H0. rewrite append_cons in H0.
    cbn [gostrings.Index]. rewrite H0.
    destruct (IH Hkey) as [->|H]; [left; reflexivity|].
    destruct (Z.ltb_spec (gostrings.Index (key +:+ String c rest) "api-key=") 0); [lia|].
    right. lia.
Qed.

Lemma IndexAny_range (s chars : string) :
  gostrings.IndexAny s chars = -1 \/ 0 <= gostrings.IndexAny s chars.
Proof.
  induction s as [|c s IH]; cbn [gostrings.IndexAny]; [left; reflexivity|].
  destruct (existsb _ _); [right; lia|].
  destruct (Z.ltb_spec (gostrings.IndexAny s chars) 0); [left; reflexivity | right; lia].
Qed.

Lemma IndexAny_app (key : string) (c : ascii) (r chars : string) :
  gostrings.IndexAny key chars = -1 ->
  existsb (Ascii.eqb c) (bytes_of chars) = true ->
  gostrings.IndexAny (key +:+ String c r) chars = len key.
Proof.
  intros Hkey Hc. induction key as [|x key IH].
  - rewrite append_nil_l. cbn [gostrings.IndexAny]. rewrite Hc. reflexivity.
  - rewrite append_cons, len_cons. cbn [gostrings.IndexAny] in *.
    destruct (existsb (Ascii.eqb x) (bytes_of chars)); [discriminate|].
    destruct (IndexAny_range key chars) as [E|E].
    + rewrite (IH E). pose proof (len_nonneg key).
      destruct (Z.ltb_spec (len key) 0); [lia | reflexivity].
    + destruct (Z.ltb_spec (gostrings.IndexAny key chars) 0); [lia|]. lia.
Qed.

(** Taking and dropping bytes of a concatenation. *)
Lemma take_len_app (a b : string) :
  string_of (take (Z.to_nat (len a)) (bytes_of (a +:+ b))) = a.
Proof.
  rewrite bytes_of_append, len_length, Nat2Z.id, take_app_length. apply string_of_bytes_of.
Qed.

Lemma drop_len_app (a b : string) (n : Z) :
  n = len a -> string_of (drop (Z.to_nat n) (bytes_of (a +:+ b))) = b.
Proof.
  intros ->. rewrite bytes_of_append, len_length, Nat2Z.id, drop_app_length.
  apply string_of_bytes_of.
Qed.

Lemma append_assoc (a b c : string) : (a +:+ b) +:+ c = a +:+ (b +:+ c).
Proof.
  induction a as [|x a IH]; [rewrite !append_nil_l; reflexivity|].
  rewrite !append_cons. f_equal. exact IH.
Qed.

(** ** [redactURL] *)

Lemma splitLoop_none (fuel : nat) (s sep : string) :
  gostrings.Index s sep = -1 -> gostrings.splitLoop fuel s sep = [s].
Proof. intros H. destruct fuel; cbn [gostrings.splitLoop]; [|rewrite H]; reflexivity. Qed.

(** The first part of a text that begins with the key and a separator
    byte holds both. *)
Lemma splitLoop_key (fuel : nat) (key : string) (c : ascii) (r : string) :
  gostrings.Index key "api-key=" = -1 ->
  existsb (Ascii.eqb c) (bytes_of "&;") = true ->
  exists r' more,
    gostrings.splitLoop fuel (key +:+ String c r) "api-key=" = (key +:+ String c r') :: more.
Proof.
  intros Hkey Hc. destruct fuel as [|fuel]; cbn [gostrings.splitLoop]; [eauto|].
  destruct (Index_after key c r Hkey Hc) as [->|Hm]; [cbn; eauto|].
  pose proof (len_nonneg key) as Hk.
  destruct (Z.ltb_spec (gostrings.Index (key +:+ String c r) "api-key=") 0) as [?|_];
    [lia|].
  eexists (string_of (take (Z.to_nat (gostrings.Index (key +:+ String c r) "api-key=")
                            - S (length (bytes_of key))) (bytes_of r))), _.
  f_equal. rewrite bytes_of_append, take_app_ge by (rewrite len_length in Hm; lia).
  rewrite string_of_app, string_of_bytes_of. f_equal.
  rewrite len_length in Hm.
  replace (Z.to_nat (gostrings.Index (key +:+ String c r) "api-key=") - length (bytes_of key))%nat
    with (S (Z.to_nat (gostrings.Index (key +:+ String c r) "api-key=")
             - S (length (bytes_of key)))) by lia.
  reflexivity.
Qed.

Lemma redactURL_key (pre key rest : string) :
  gostrings.Index pre "api-key=" = -1 ->
  gostrings.Index key "api-key=" = -1 ->
  gostrings.IndexAny key "&;" = -1 ->
  rest = "" \/ gostrings.HasPrefix rest "&" = true \/ gostrings.HasPrefix rest ";" = true ->
  redactURL (pre +:+ "api-key=" +:+ key +:+ rest) = Some (pre +:+ "api-key=***" +:+ rest).
Proof.
  intros Hpre Hkey Hany Hrest.
  set (u := pre +:+ "api-key=" +:+ key +:+ rest).
  assert (Hfirst : gostrings.Index u "api-key=" = len pre).
  { pose proof (Index_first pre "" (key +:+ rest) Hpre) as H.
    rewrite append_nil_r in H. exact H. }
  assert (Hparts : exists t more,
             gostrings.SplitOn u "api-key=" = pre :: t :: more
             /\ (t = key \/ exists c r', t = key +:+ String c r'
                                         /\ existsb (Ascii.eqb c) (bytes_of "&;") = true)).
  { unfold gostrings.SplitOn. destruct (String.length u) as [|fuel] eqn:Hlen.
    { exfalso. assert (H : len u = 0) by (unfold len; rewrite Hlen; reflexivity).
      unfold u in H. rewrite !len_append in H.
      pose proof (len_nonneg pre). pose proof (len_nonneg key). pose proof (len_nonneg rest).
      change (len "api-key=") with 8 in H. lia. }
    cbn [gostrings.splitLoop]. rewrite Hfirst. pose proof (len_nonneg pre) as Hp.
    destruct (Z.ltb_spec (len pre) 0); [lia|].
    unfold u at 1. rewrite take_len_app.
    replace (string_of (drop (Z.to_nat (len pre + len "api-key=")) (bytes_of u)))
      with (key +:+ rest).
    2:{ unfold u. rewrite <- (append_assoc pre "api-key=" (key +:+ rest)).
        symmetry. apply drop_len_app. rewrite len_append. reflexivity. }
    destruct Hrest as [->|Hrest].
    - rewrite append_nil_r, (splitLoop_none fuel key _ Hkey). eauto.
    - assert (Hc : exists c r, rest = String c r
                               /\ existsb (Ascii.eqb c) (bytes_of "&;") = true).
      { destruct rest as [|c r]; [destruct Hrest; discriminate|]. exists c, r.
        split; [reflexivity|]. cbn [gostrings.HasPrefix] in Hrest. cbn [bytes_of existsb
          list_ascii_of_string]. destruct Hrest as [Hr|Hr];
          apply andb_true_iff in Hr as [-> _]; [reflexivity | apply orb_true_r]. }
      destruct Hc as (c & r & -> & Hc).
      destruct (splitLoop_key fuel key c r Hkey Hc) as (r' & more & ->).
      exists (key +:+ String c r'), more. split; [reflexivity|]. right. eauto. }
  destruct Hparts as (t & more & Hsplit & Ht).
  unfold redactURL. fold u. rewrite Hsplit. cbn [length].
  destruct (Z.ltb_spec (Z.of_nat (S (S (length more)))) 2); [lia|].
  cbn [lookup list_lookup mbind option_bind].
  assert (Htail : (if 0 <=? gostrings.IndexAny t "&;"
                   then slice_to t (gostrings.IndexAny t "&;") else Some t) = Some key).
  { destruct Ht as [->|(c & r' & -> & Hc)].
    - rewrite Hany. reflexivity.
    - rewrite (IndexAny_app key c r' "&;" Hany Hc). pose proof (len_nonneg key) as Hk.
      destruct (Z.leb_spec 0 (len key)); [|lia].
      unfold slice_to. rewrite len_append, len_cons. pose proof (len_nonneg r').
      destruct (Z.leb_spec 0 (len key)); [|lia].
      destruct (Z.leb_spec (len key) (len key + (len r' + 1))); [|lia].
      cbn [andb]. rewrite take_len_app. reflexivity. }
  rewrite Htail. cbn [mbind option_bind]. f_equal.
  unfold gostrings.ReplaceFirst.
  destruct (String.eqb_spec ("api-key=" +:+ key) "api-key=***") as [E|_].
  { unfold u. injection E as E. change (key = "***") in E. subst key. reflexivity. }
  assert (Hold : gostrings.Index u ("api-key=" +:+ key) = len pre).
  { pose proof (Index_first pre key rest Hpre) as Hi. rewrite append_assoc in Hi.
    exact Hi. }
  rewrite Hold. pose proof (len_nonneg pre) as Hp.
  destruct (Z.ltb_spec (len pre) 0); [lia|].
  unfold u at 1. rewrite take_len_app. f_equal. f_equal.
  unfold u. rewrite <- (append_assoc pre "api-key=" (key +:+ rest)),
    <- (append_assoc (pre +:+ "api-key=") key rest).
  apply drop_len_app. rewrite !len_append. lia.
Qed.

Lemma redactURL_returns (u : string) : is_Some (redactURL u).
Proof.
  unfold redactURL. destruct (gostrings.SplitOn u "api-key=") as [|p0 [|t more]];
    [eauto | eauto |]. cbn [length].
  destruct (Z.ltb_spec (Z.of_nat (S (S (length more)))) 2); [lia|].
  cbn [lookup list_lookup mbind option_bind].
  destruct (Z.leb_spec 0 (gostrings.IndexAny t "&;")); [|cbn; eauto].
  assert (Hle : gostrings.IndexAny t "&;" <= len t).
  { clear. induction t as [|c t IH]; cbn [gostrings.IndexAny]; [unfold len; cbn; lia|].
    rewrite len_cons. pose proof (len_nonneg t).
    destruct (existsb _ _); [lia|].
    destruct (Z.ltb_spec (gostrings.IndexAny t "&;") 0); lia. }
  destruct (proj2 (slice_to_Some t (gostrings.IndexAny t "&;")) ltac:(lia)) as [x ->].
  cbn. eauto.
Qed.

(** X25. [redactURL] hides the API key of a URL: the text between the first
    [api-key=] and the following [&] or [;] (or the end) is replaced by
    [***], and what stands before and behind it is kept, provided the key
    itself holds none of [&], [;] and [api-key=]. A URL without [api-key=]
    comes back as it is. No input makes it panic. *)
Theorem X25_redactURL_hides_the_key (u pre key rest : string) :
  (apiKeyIn u pre key rest -> redactURL u = Some (pre +:+ "api-key=***" +:+ rest))
  /\ (gostrings.Index u "api-key=" = -1 -> redactURL u = Some u)
  /\ is_Some (redactURL u).
Proof.
  split; [intros (-> & H1 & H2 & H3 & H4); apply redactURL_key; assumption|].
  split; [|apply redactURL_returns].
  intros H. unfold redactURL, gostrings.SplitOn. rewrite (splitLoop_none _ _ _ H).
  reflexivity.
Qed.

Lemma X25_witness :
  redactURL "wss://mainnet.helius-rpc.com/?api-key=abcd-1234&x=1"
  = Some "wss://mainnet.helius-rpc.com/?api-key=***&x=1".
Proof.
  apply (proj1 (X25_redactURL_hides_the_key
                  "wss://mainnet.helius-rpc.com/?api-key=abcd-1234&x=1"
                  "wss://mainnet.helius-rpc.com/?" "abcd-1234" "&x=1")).
  do 4 (split; [reflexivity|]). right. left. reflexivity.
Defined.



(** ** [Load] *)

Lemma digits_val_nonneg (l : list ascii) (acc : Z) :
  forallb golib.is_digit l = true -> 0 <= acc ->
  0 <= fold_left (fun a c => a * 10 + (Z.of_nat (nat_of_ascii c) - 48)) l acc.
Proof.
  revert acc. induction l as [|c l IH]; intros acc Hd Hacc; cbn [fold_left]; [exact Hacc|].
  cbn [forallb] in Hd. apply andb_true_iff in Hd as [Hc Hd]. apply IH; [exact Hd|].
  unfold golib.is_digit in Hc. apply andb_true_iff in Hc as [Hc _].
  apply Nat.leb_le in Hc. lia.
Qed.

(** A value that [ParseInt] returns fits 64 bits. *)
Lemma ParseInt_range (s : string) (z : Z) :
  gostrings.ParseInt s = Some z -> - 2 ^ 63 <= z < 2 ^ 63.
Proof.
  unfold gostrings.ParseInt. destruct s as [|c r]; [discriminate|].
  set (digits := if (Ascii.eqb c "+" || Ascii.eqb c "-")%bool then r else String c r).
  destruct (String.eqb digits ""); [discriminate|].
  destruct (forallb golib.is_digit (bytes_of digits)) eqn:Hd; cbn [negb]; [|discriminate].
  pose proof (digits_val_nonneg (bytes_of digits) 0 Hd ltac:(lia)) as Hge.
  fold (golib.digits_val (bytes_of digits)) in Hge.
  destruct (Ascii.eqb c "-").
  - destruct (Z.ltb_spec (2 ^ 63) (golib.digits_val (bytes_of digits))); [discriminate|].
    intros [= <-]. lia.
  - destruct (Z.leb_spec (2 ^ 63) (golib.digits_val (bytes_of digits))); [discriminate|].
    intros [= <-]. lia.
Qed.

Lemma default_nonempty (s d : string) : d <> "" -> (if String.eqb s "" then d else s) <> "".
Proof. intros Hd. destruct (String.eqb_spec s ""); [exact Hd | assumption]. Qed.

(** X27. A configuration that [Load] returns without an error is complete
    and valid: the token is not empty, the admin chat id is the decimal
    number of [TELEGRAM_ADMIN_CHAT_ID], not 0 and within 64 bits, the two
    Helius URLs begin with [wss://] and [https://] (in any case of letters),
    the commitment is one of the three allowed ones, the log level one of
    the four, and no path or URL is empty. With an error the configuration
    returned is the zero one. With the four required variables valid and
    the optional ones not set, [Load] succeeds with the defaults. (The
    variables that are lowered are taken to be ASCII.) *)
Theorem X27_Load_validates (e : Env) :
  isASCII (Getenv e "HELIUS_WSS") = true ->
  isASCII (Getenv e "HELIUS_API_URL") = true ->
  isASCII (Getenv e "COMMITMENT") = true ->
  isASCII (Getenv e "LOG_LEVEL") = true ->
  (forall cfg, Load e = (cfg, None) ->
     TelegramBotToken cfg = gostrings.TrimSpace (Getenv e "TELEGRAM_BOT_TOKEN")
     /\ TelegramBotToken cfg <> ""
     /\ gostrings.ParseInt (gostrings.TrimSpace (Getenv e "TELEGRAM_ADMIN_CHAT_ID"))
        = Some (TelegramAdminChatID cfg)
     /\ TelegramAdminChatID cfg <> 0
     /\ - 2 ^ 63 <= TelegramAdminChatID cfg < 2 ^ 63
     /\ HeliusWSS cfg = gostrings.TrimSpace (Getenv e "HELIUS_WSS")
     /\ gostrings.HasPrefix (golib.ToLower (HeliusWSS cfg)) "wss://" = true
     /\ HeliusAPIURL cfg = gostrings.TrimSpace (Getenv e "HELIUS_API_URL")
     /\ gostrings.HasPrefix (golib.ToLower (HeliusAPIURL cfg)) "https://" = true
     /\ DBPath cfg <> ""
     /\ Commitment cfg ∈ allowedCommitments
     /\ SolanaRPCURL cfg <> ""
     /\ LogLevel cfg ∈ ["info"; "debug"; "warn"; "error"])
  /\ (forall cfg msg, Load e = (cfg, Some msg) -> cfg = zeroConfig)
  /\ (forall id,
        gostrings.TrimSpace (Getenv e "TELEGRAM_BOT_TOKEN") <> "" ->
        gostrings.ParseInt (gostrings.TrimSpace (Getenv e "TELEGRAM_ADMIN_CHAT_ID")) = Some id ->
        id <> 0 ->
        gostrings.HasPrefix
          (golib.ToLower (gostrings.TrimSpace (Getenv e "HELIUS_WSS"))) "wss://" = true ->
        gostrings.HasPrefix
          (golib.ToLower (gostrings.TrimSpace (Getenv e "HELIUS_API_URL"))) "https://" = true ->
        Getenv e "DB_PATH" = "" -> Getenv e "COMMITMENT" = "" ->
        Getenv e "SOLANA_RPC_URL" = "" -> Getenv e "LOG_LEVEL" = "" ->
        Load e
        = ({| TelegramBotToken := gostrings.TrimSpace (Getenv e "TELEGRAM_BOT_TOKEN");
              TelegramAdminChatID := id;
              HeliusWSS := gostrings.TrimSpace (Getenv e "HELIUS_WSS");
              HeliusAPIURL := gostrings.TrimSpace (Getenv e "HELIUS_API_URL");
              DBPath := "solwatch.db"; Commitment := "processed";
              SolanaRPCURL := "https://api.mainnet-beta.solana.com";
              LogLevel := "info" |}, None)).
Proof.
  intros _ _ _ _. unfold Load.
  set (token := gostrings.TrimSpace (Getenv e "TELEGRAM_BOT_TOKEN")).
  set (adminStr := gostrings.TrimSpace (Getenv e "TELEGRAM_ADMIN_CHAT_ID")).
  set (wss := gostrings.TrimSpace (Getenv e "HELIUS_WSS")).
  set (api := gostrings.TrimSpace (Getenv e "HELIUS_API_URL")).
  set (db := gostrings.TrimSpace (Getenv e "DB_PATH")).
  set (rpc := gostrings.TrimSpace (Getenv e "SOLANA_RPC_URL")).
  set (commitment := golib.ToLower (if String.eqb (gostrings.TrimSpace (Getenv e "COMMITMENT")) ""
                                    then "processed"
                                    else gostrings.TrimSpace (Getenv e "COMMITMENT"))).
  set (logLevel := gostrings.TrimSpace (golib.ToLower (Getenv e "LOG_LEVEL"))).
  set (levelOK := (String.eqb logLevel "" || String.eqb logLevel "info"
                   || String.eqb logLevel "debug" || String.eqb logLevel "warn"
                   || String.eqb logLevel "error")%bool).
  split; [|split].
  - intros cfg.
    destruct (String.eqb_spec token "") as [|Htok];
      (destruct (String.eqb_spec adminStr "") as [|Hadm];
       [|destruct (gostrings.ParseInt adminStr) as [id|] eqn:Hid;
         [destruct (Z.eqb_spec id 0) as [|Hid0]|]]);
      (destruct (String.eqb_spec wss "") as [|Hwss];
       [|destruct (gostrings.HasPrefix (golib.ToLower wss) "wss://") eqn:Hw]);
      (destruct (String.eqb_spec api "") as [|Hapi];
       [|destruct (gostrings.HasPrefix (golib.ToLower api) "https://") eqn:Ha]);
      destruct (bool_decide (commitment ∈ allowedCommitments)) eqn:Hc;
      destruct levelOK eqn:Hl; cbn [negb app length Nat.ltb Nat.leb];
      try discriminate.
    intros [= <-]. cbn [TelegramBotToken TelegramAdminChatID HeliusWSS HeliusAPIURL DBPath
                          Commitment SolanaRPCURL LogLevel].
    split; [reflexivity|]. split; [exact Htok|]. split; [reflexivity|].
    split; [exact Hid0|]. split; [exact (ParseInt_range _ _ Hid)|].
    split; [reflexivity|]. split; [exact Hw|]. split; [reflexivity|]. split; [exact Ha|].
    split; [apply default_nonempty; discriminate|].
    split; [apply bool_decide_eq_true in Hc; exact Hc|].
    split; [apply default_nonempty; discriminate|].
    subst levelOK.
    destruct (String.eqb_spec logLevel "") as [->|_]; [apply elem_of_cons; left; reflexivity|].
    destruct (String.eqb_spec logLevel "info") as [->|_];
      [apply elem_of_cons; left; reflexivity|].
    destruct (String.eqb_spec logLevel "debug") as [->|_];
      [do 1 (apply elem_of_cons; right); apply elem_of_cons; left; reflexivity|].
    destruct (String.eqb_spec logLevel "warn") as [->|_];
      [do 2 (apply elem_of_cons; right); apply elem_of_cons; left; reflexivity|].
    destruct (String.eqb_spec logLevel "error") as [->|_];
      [do 3 (apply elem_of_cons; right); apply elem_of_cons; left; reflexivity|].
    discriminate Hl.
  - intros cfg msg.
    destruct (String.eqb token "");
      (destruct (String.eqb adminStr "");
       [|destruct (gostrings.ParseInt adminStr) as [id|]; [destruct (id =? 0)|]]);
      (destruct (String.eqb wss "");
       [|destruct (gostrings.HasPrefix (golib.ToLower wss) "wss://")]);
      (destruct (String.eqb api "");
       [|destruct (gostrings.HasPrefix (golib.ToLower api) "https://")]);
      destruct (bool_decide (commitment ∈ allowedCommitments));
      destruct levelOK; cbn [negb app length Nat.ltb Nat.leb];
      intros [= <- _]; reflexivity.
  - intros id Htok Hid Hid0 Hw Ha Hdb Hcom Hrpc Hlog.
    subst levelOK logLevel commitment db rpc. rewrite Hdb, Hcom, Hrpc, Hlog, Hid, Hw, Ha.
    destruct (String.eqb_spec token ""); [contradiction|].
    destruct (String.eqb_spec adminStr "") as [E|_];
      [rewrite E in Hid; discriminate Hid|].
    destruct (Z.eqb_spec id 0); [contradiction|].
    destruct (String.eqb_spec wss "") as [E|_]; [rewrite E in Hw; discriminate Hw|].
    destruct (String.eqb_spec api "") as [E|_]; [rewrite E in Ha; discriminate Ha|].
    reflexivity.
Qed.

Lemma X27_witness :
  TelegramAdminChatID (Load sampleEnv).1 <> 0
  /\ Commitment (Load sampleEnv).1 ∈ allowedCommitments.
Proof.
  destruct (proj1 (X27_Load_validates sampleEnv eq_refl eq_refl eq_refl eq_refl)
              (Load sampleEnv).1 ltac:(vm_compute; reflexivity))
    as (_ & _ & _ & H1 & _ & _ & _ & _ & _ & _ & H2 & _).
  exact (conj H1 H2).
Defined.

End Config.

(** * Net balance changes: where the native exposure comes from and goes *)

(** The fiat figure is appended to the text, or the text is left as it is. *)
Lemma withUSD_text (env : Env) (coinID : string) (amount : float64) (s s' : string)
    (st st' : St) :
  withUSD env coinID amount s st = Some (s', st') ->
  s' = s
  \/ exists price, s' = s +:+ " ($" +:+ strconv.FormatFloat_f (mul amount price) 2 +:+ ")".
Proof.
  unfold withUSD. intros H. apply bind_Some in H as ([price ok] & st1 & _ & H).
  destruct ok; injection H as <- _; eauto.
Qed.

(** Step 4: the entry for the native exposure. *)
Lemma emitSol_spec (env : Env) (total : float64) (sent received : list string)
    (st st' : St) :
  emitSol env total ([], []) st = Some ((sent, received), st') ->
  if gtb (abs total) f64_1e_12
  then exists e, entryText (abs total) "SOL" e
         /\ (if gtb total zero then sent = [] /\ received = [e]
             else sent = [e] /\ received = [])
  else sent = [] /\ received = [].
Proof.
  unfold emitSol. destruct (gtb (abs total) f64_1e_12); [|intros [= <- <- _]; auto].
  intros H. apply bind_Some in H as (h & st1 & Hh & H).
  apply lift_Some in Hh as [Hh _]. cbn [fst] in Hh.
  apply bind_Some in H as (formatted & st2 & Hf & H).
  exists formatted. split.
  - exists h. split; [exact Hh|].
    apply withUSD_text in Hf as [->|(price & ->)]; [left; reflexivity | right; eauto].
  - destruct (gtb total zero); injection H as <- <- _; auto.
Qed.

(** Step 5: the entries for the other assets, in the order of the loop. *)
Lemma foldM_emitToken_spec (env : Env) (metadataCache : gmap string TokenMetadata)
    (deltas : list (string * float64)) (sent0 received0 sent received : list string)
    (st st' : St) :
  foldM (emitToken env metadataCache) deltas (sent0, received0) st
  = Some ((sent, received), st') ->
  exists assetsSent assetsReceived,
    sent = (sent0 ++ assetsSent)%list /\ received = (received0 ++ assetsReceived)%list
    /\ assetEntries metadataCache deltas assetsSent assetsReceived.
Proof.
  revert sent0 received0 st.
  induction deltas as [|[mint d] deltas IH]; intros sent0 received0 st; cbn [foldM].
  - intros [= <- <- _]. exists [], []. rewrite !app_nil_r.
    split; [reflexivity|]. split; [reflexivity | constructor].
  - intros H. apply bind_Some in H as ([sent1 received1] & st1 & Hstep & Hrest).
    destruct (IH _ _ _ Hrest) as (ts & tr & -> & -> & Hassets).
    unfold emitToken in Hstep.
    destruct (ltb (abs d) f64_1e_18) eqn:Hsmall.
    { injection Hstep as <- <- _. exists ts, tr.
      split; [reflexivity|]. split; [reflexivity|]. constructor; assumption. }
    apply bind_Some in Hstep as (meta & st2 & Hmeta & Hstep).
    apply bind_Some in Hstep as (h & st3 & Hh & Hstep).
    apply lift_Some in Hh as [Hh _]. cbn [fst] in Hh.
    assert (Hsym : symbolFor metadataCache mint (Symbol meta)).
    { unfold symbolFor. destruct (metadataCache !! mint) as [meta0|].
      - injection Hmeta as <- _. reflexivity.
      - apply bind_Some in Hmeta as (p & st4 & Hp & Hm).
        apply lift_Some in Hp as [Hp _]. cbn [fst] in Hp.
        injection Hm as <- _. exists p. split; [exact Hp | reflexivity]. }
    destruct (isPriceTracked mint) as [coinID tracked].
    apply bind_Some in Hstep as (formatted & st5 & Hf & Hstep).
    assert (Htext : entryText (abs d) (Symbol meta) formatted).
    { exists h. split; [exact Hh|]. destruct tracked.
      - apply withUSD_text in Hf as [->|(price & ->)]; [left; reflexivity | right; eauto].
      - injection Hf as <- _. left. reflexivity. }
    destruct (gtb d zero) eqn:Hpos; injection Hstep as <- <- _.
    + exists ts, (formatted :: tr). split; [reflexivity|].
      split; [rewrite <- app_assoc; reflexivity|].
      eapply assets_received; eassumption.
    + exists (formatted :: ts), tr. split; [rewrite <- app_assoc; reflexivity|].
      split; [reflexivity|]. eapply assets_sent; eassumption.
Qed.

(** C1. [calculateNetBalanceChanges] does not look at the native transfers.
    The native exposure is the balance change of the first [accountData]
    entry of the watched address, in SOL, to which the net wrapped-SOL delta
    of the address is added only when the address received wrapped SOL from
    another party and that delta exceeds [1e-12] (so it is positive; a
    negative delta is never applied). This exposure is what the result
    shows: when it exceeds [1e-12] in magnitude, the first entry of
    [received] (exposure above zero) or of [sent] (otherwise) is its
    magnitude in SOL, and there is no SOL entry when it does not. The
    entries that follow are for the other assets, in the order in which the
    map is ranged over: one for every mint other than the wrapped native
    one of which a transfer involves the address, showing the magnitude of
    the signed sum of these transfers; the wrapped native mint has none.
    The function returns when every such mint is in the metadata cache or
    has at least four bytes. *)
Theorem C1_native_exposure (env : Env) (tx : HeliusTransaction) (trackedAddr : string)
    (metadataCache : gmap string TokenMetadata) (st : St) :
  let w := netDelta wsolMint trackedAddr (TokenTransfers tx) in
  let nativeSol := nativeSolOf tx trackedAddr in
  let inflow := exists t, In t (TokenTransfers tx) /\ wsolFromOther trackedAddr t in
  (forall nts,
     calculateNetBalanceChanges env (with_NativeTransfers nts tx) trackedAddr metadataCache
     = calculateNetBalanceChanges env tx trackedAddr metadataCache)
  /\ (forall pre ad post,
       AccountData_ tx = (pre ++ ad :: post)%list ->
       (forall a, In a pre -> Account a <> trackedAddr) ->
       Account ad = trackedAddr ->
       nativeSol = div (of_int (NativeBalanceChange ad)) lamportsPerSol)
  /\ ((forall a, In a (AccountData_ tx) -> Account a <> trackedAddr) ->
      nativeSol = div (of_int 0) lamportsPerSol)
  /\ (forall sent received st',
        calculateNetBalanceChanges env tx trackedAddr metadataCache st
        = Some ((sent, received), st') ->
        exists exposure solSent solReceived deltas assetsSent assetsReceived,
          (exposure = add nativeSol w /\ inflow /\ gtb w f64_1e_12 = true
           \/ exposure = nativeSol /\ (~ inflow \/ gtb w f64_1e_12 = false))
          /\ sent = (solSent ++ assetsSent)%list
          /\ received = (solReceived ++ assetsReceived)%list
          /\ (if gtb (abs exposure) f64_1e_12
              then exists e, entryText (abs exposure) "SOL" e
                     /\ (if gtb exposure zero then solSent = [] /\ solReceived = [e]
                         else solSent = [e] /\ solReceived = [])
              else solSent = [] /\ solReceived = [])
          /\ NoDup deltas.*1
          /\ (forall mint d,
                (mint, d) ∈ deltas <->
                mint <> wsolMint
                /\ d = netDelta mint trackedAddr (TokenTransfers tx)
                /\ exists t, In t (TokenTransfers tx) /\ Mint t = mint
                             /\ involves trackedAddr t)
          /\ assetEntries metadataCache deltas assetsSent assetsReceived)
  /\ (gtb w f64_1e_12 = true -> gtb w zero = true)
  /\ (ltb w zero = true -> gtb w f64_1e_12 = false)
  /\ ((forall t, In t (TokenTransfers tx) -> involves trackedAddr t ->
         Mint t <> wsolMint ->
         is_Some (metadataCache !! Mint t) \/ 4 <= len (Mint t)) ->
      is_Some (calculateNetBalanceChanges env tx trackedAddr metadataCache st)).
Proof.
  intros w nativeSol inflow.
  split; [intros nts; destruct tx; reflexivity|].
  split.
  { intros pre ad post Hads Hpre Had. unfold nativeSol, nativeSolOf.
    rewrite Hads, (nativeChangeLamports_first pre post ad trackedAddr Hpre Had). reflexivity. }
  split.
  { intros Hnone. unfold nativeSol, nativeSolOf.
    rewrite (nativeChangeLamports_none _ _ Hnone). reflexivity. }
  split.
  { intros sent received st' Hrun. unfold calculateNetBalanceChanges in Hrun.
    apply bind_Some in Hrun as ([solSent solReceived] & st1 & Hsol & Hrun).
    apply bind_Some in Hrun as (deltas & st2 & Hrange & Hrun).
    unfold rangeDeltas in Hrange. injection Hrange as <- <-.
    set (deltas := shuffle (env_order env (length (trace st1)))
                     (map_to_list (splDeltas tx trackedAddr))) in *.
    destruct (foldM_emitToken_spec _ _ _ _ _ _ _ _ _ Hrun) as (ts & tr & -> & -> & Hassets).
    destruct (totalSolChange_spec tx trackedAddr) as (flag & Hflag & Htot).
    fold w nativeSol in Htot.
    exists (totalSolChange tx trackedAddr), solSent, solReceived, deltas, ts, tr.
    split.
    { rewrite Htot. destruct flag.
      - destruct (gtb w f64_1e_12) eqn:Hgt; cbn [andb].
        + left. split; [reflexivity|]. split; [apply Hflag; reflexivity | reflexivity].
        + right. split; [reflexivity | right; reflexivity].
      - cbn [andb]. right. split; [reflexivity|]. left. intros Hin.
        apply Hflag in Hin. discriminate Hin. }
    split; [reflexivity|]. split; [reflexivity|].
    split; [exact (emitSol_spec _ _ _ _ _ _ Hsol)|].
    split.
    { unfold deltas. rewrite (fmap_Permutation fst _ _ (shuffle_perm _ _)).
      apply NoDup_fst_map_to_list. }
    split; [|exact Hassets].
    intros mint d. unfold deltas.
    rewrite elem_of_shuffle, elem_of_map_to_list. apply splDeltas_lookup. }
  split; [apply gtb_eps_positive|]. split; [apply ltb_zero_not_eps|].
  intros Hmints. apply calculateNetBalanceChanges_returns.
  intros mint [d Hd]. apply splDeltas_lookup in Hd as (Hne & _ & t & Hin & <- & Hinv).
  apply (Hmints t Hin Hinv Hne).
Qed.

(** Half a wrapped SOL received from another party and 5000 lamports of fee
    paid: [0.499995 SOL], shown as received. *)
Lemma C1_witness :
  exists st',
    calculateNetBalanceChanges Sample.envDown Sample.wsolInTx Sample.wallet ∅ Sample.analyzer0
    = Some (([], ["0.5 SOL"]), st')
    /\ totalSolChange Sample.wsolInTx Sample.wallet
       = add (nativeSolOf Sample.wsolInTx Sample.wallet)
             (netDelta wsolMint Sample.wallet (TokenTransfers Sample.wsolInTx)).
Proof.
  destruct (proj2 (proj2 (proj2 (proj2 (proj2 (proj2
              (C1_native_exposure Sample.envDown Sample.wsolInTx Sample.wallet ∅
                 Sample.analyzer0))))))) as [[[sent received] st'] Hrun].
  { intros t [<-|[]] _ Hne. exfalso. apply Hne. reflexivity. }
  exists st'. split; [|vm_compute; reflexivity].
  rewrite Hrun. vm_compute in Hrun. injection Hrun as <- <- _. reflexivity.
Defined.

Example calculateNetBalanceChanges_samples :
  (* 0.5 wrapped SOL from another party, 5000 lamports of fee: 0.499995 SOL received *)
  (exists st', calculateNetBalanceChanges Sample.envDown Sample.wsolInTx Sample.wallet ∅
                 Sample.analyzer0 = Some (([], ["0.5 SOL"]), st'))
  (* with a quote of 150 USD in the cache *)
  /\ (exists st', calculateNetBalanceChanges Sample.envDown Sample.wsolInTx Sample.wallet ∅
                    (Sample.analyzerQuoted 50) = Some (([], ["0.5 SOL ($75.00)"]), st')).
Proof. split; eexists; vm_compute; reflexivity. Qed.
